(* ===== verification/_CoqProject ===== *)
-Q . S2P
Prelude.v
RingBuf.v
Wire.v
Protocol.v
Fragment.v
JitterBuffer.v
InputBatch.v
Evdev.v
SessionState.v
Transport.v
Session.v
Text.v
Mapper.v
Audio.v
Core.v
Telemetry.v
TlmRing.v
TlmFifo.v
TlmService.v
Drm.v
FbDisplay.v
Decoder.v
HttpClient.v
DashServe.v
FrameSlots.v
Present.v
AvSync.v
Latency.v
DecodeWorker.v
SimSender.v
UdpPath.v
Reader.v
AudioWorker.v
PresentWorker.v
CudaConv.v
PicturePath.v
Manifest.v
Demux.v
DashPath.v
Ledger.v
ReaderThread.v
AvSession.v
MainLoop.v
SimSource.v
Lifecycle.v
Encoder.v
