(* ===== verification/Prelude.v ===== *)
(** * VMC thin client: verification development

    The program is a thin client for remote applications: it discovers a
    server through a session mapper, keeps a session alive over UDP, receives
    video and sound (over UDP, or over HTTP as MPEG-DASH segments), decodes,
    plays and shows them in step, sends touch input back, and reports what it
    does by telemetry. Two programs of the repository stand at the other end:
    a stream simulator (UDP) and a segment server (DASH).

    ** How the parts interact

    - A datagram passes [Protocol] (header, CRC-8), [JitterBuffer] (order and
      playout delay), [Fragment] (access units) and [FrameSlots] (the queue to
      the decode worker). [UdpPath] is that composition, in the loop of the
      client's [main], and its theorem starts at the sender of [SimSender].
      [MainLoop] is the whole pass of that loop: the session's timers, the
      datagrams, the video and the input sent up.
    - A segment is named by [Manifest] and [AvSync] (the live window), fetched
      by [HttpClient] from the server of [DashServe], and handed to [Demux] in
      the order that [Reader] decides; [Demux] identifies the frames and
      decodes the sound, in a session that [AvSession] sets up and closes.
      [DashPath] is the composition of the two over the rounds of a session;
      [ReaderThread] is the thread that runs them, and its cancellation.
    - The decode worker takes access units from [FrameSlots], feeds them to
      [Decoder] and queues pictures through [Present]; their conversions are
      queued on the stream of [CudaConv], which the device works off at its own
      pace, waited for, and copied as in [PicturePath]; [PresentWorker] takes
      them off the queue, waits for their sound and flips them with [Drm]. In
      framebuffer mode the decode worker itself waits and copies the picture:
      [DecodeWorker] and [FbDisplay].
    - Sound bytes pass a FIFO to [AudioWorker], which renders them through
      [Audio] and anchors the timeline of [AvSync], from which all deadlines
      derive. [Latency] measures from the sender's stamp to the screen.
    - [Mapper], [SessionState], [Transport] and [Session] hold the session;
      [InputBatch] and [Evdev] the uplink; [Telemetry], [TlmRing], [TlmFifo]
      and [TlmService] the reports; [Core] the small services.

    ** Interfaces

    [RingBuf.ByteFifo] (a byte queue; the ring buffer is an instance, the
    audio worker a client), [Transport.Transport] (a datagram transport; the
    UDP backend is an instance, the session a client), [AudioWorker.AudioSink]
    (a sink that is asked for its delay and played to; the ALSA sink is an
    instance), and the kernel of the scanout in [Drm] (what a page flip and one
    wait for its completion answer; the theorems that need it assume that a
    kernel keeps at most one flip outstanding, and a concrete kernel is an
    instance), and [CudaConv.Float32] (single precision, which a compiler may
    contract; IEEE binary32 is an instance), and [Demux.AvLib] (the packets of a
    segment, a bitstream filter and an audio decoder that are fed and read; a
    small library is an instance). The types of state records carry [Eta]
    instances, so that an assignment [x->f = e] reads [x <| f := e |>].

    ** Conventions

    - A C integer of width [w] is a [Z] with its wrap-around written out
      ([u8], [u16], [u32], [u64], [i16], [i32] of this file); signed 64-bit
      times and [int] counters are plain [Z] where their overflow would be
      undefined behaviour. Bytes are [Z] in [0, 255], buffers lists of them.
      [double] is IEEE binary64 ([SpecFloat], in [Manifest]).
    - An access of memory is an [option] operation of this file ([zget],
      [zset], [slice], [blit]): [None] is an access outside the object. "No access
      leaves an object" in a theorem is a result [Some _].
    - What the kernel, the network, libraries, clocks and other threads do is
      an argument: a list of answers, a record of outcomes or a function. A
      list of answers that is used up has a documented last answer.
    - Threads without a lock between their accesses are transition systems
      with one action per shared access ([TlmRing]) or per critical section
      ([FrameSlots]); the theorems are about every reachable state. Elsewhere
      the steps of other threads are arguments placed between the steps of the
      one modelled ([AudioWorker], [PresentWorker], [Reader]).

    ** Files, and the sources they translate

    - [Prelude]: integers, checked memory, loops, tactics, hints.
    - [RingBuf]: [src/core/ringbuf.c], module [RB], and the class [ByteFifo].
    - [Wire], [Protocol] ([Proto]), [Fragment] ([Frag]), [JitterBuffer] ([JB]):
      [src/transport/protocol.c], [src/video/fragment.c],
      [src/transport/jitter_buffer.c].
    - [InputBatch] ([Input]), [Evdev]: [src/input/].
    - [SessionState] ([SM]), [Transport], [Session] ([Sess]), [Mapper] ([Map]):
      [src/session/], [src/transport/transport.c], [udp_transport.c].
    - [Text]: the parts of the C library that parse and print numbers and find
      substrings.
    - [Audio]: [src/audio/]; [Core]: [src/core/error.c], [log.c],
      [src/platform/]; [Telemetry] ([Tlm]), [TlmRing] ([Ring]), [TlmFifo]
      ([Fifo]), [TlmService]: [src/core/telemetry.c].
    - [Drm], [FbDisplay], [Decoder] ([Dec]): [src/video/].
    - [HttpClient] ([Http]), [FrameSlots] ([Slots]), [Present], [AvSync],
      [Latency], [DecodeWorker] ([Dw]), [UdpPath] ([Udp]), [Reader],
      [AudioWorker] ([Aw]), [PresentWorker] ([Pw]), [Manifest] ([Mpd]), [Demux],
      [DashPath] ([Path]: the rounds of [Reader] through [Demux]),
      [AvSession] ([Av]), [MainLoop] ([Loop]), [ReaderThread] ([Rt]: what the
      reader holds at its cancellation points), [Lifecycle] ([Life]):
      [apps/thinclient/main.c]; [Ledger]: the objects that are alive, for
      [AvSession], [ReaderThread] and [Lifecycle].
    - [CudaConv] ([Cuda]): [tools/cuda/nv12_conv.cu]; [PicturePath] ([Pic]):
      the copy to the scanout buffers, and [Present] composed with [CudaConv],
      the device's jobs interleaved at will with the worker's steps.
    - [DashServe] ([Serve]), [Encoder] ([Enc]), the server side of [Manifest]:
      [tools/vmc-dash-sim/main.c]; [SimSender] ([Sim]),
      [SimSource] ([Src]): [tools/vmc_sim/main.c].

    ** What the theorems show

    - Data structures: the ring buffer refines a bounded queue for all counter
      values ([ringbuf_refines_queue]); the jitter buffer is safe for every
      history and plays out in order ([jb_run_safe], [jb_playout_in_order]); the
      frame slots are a queue under every interleaving
      ([slots_decode_in_order]).
    - Wire formats: round trips, canonicity and safety of the decoders on
      untrusted bytes ([proto_roundtrip], [proto_decode_canonical],
      [input_batch_roundtrip], [input_deserialize_safe],
      [mapper_reply_roundtrip]), detection of corruption
      ([proto_corruption_detected]), integrity of reassembly
      ([frag_delivers_whole_runs]).
    - The session: refinement of a transition relation, and that a lost link
      stays lost ([session_dispatch_refines], [session_lost_is_stuck]).
    - Telemetry: the lock-free ring conserves lines under all interleavings and
      is a queue without overrun ([tlm_ring_conserves], [tlm_ring_fifo]); the
      datagram it sends is a protocol datagram ([tlm_datagram_decodes]).
    - Screen and decoder: no tearing, no leaked buffer, all-or-nothing opening,
      units fed in order ([drm_no_tearing], [decoder_open_all_or_nothing],
      [decoder_feeds_in_order]), a copy by streaming stores that is exact
      ([streaming_copy_exact]), pictures that reach the buffers they were
      reserved for, whenever the device works ([pictures_reach_buffers]), frames that are always consumed
      ([fb_worker_never_stuck]).
    - End to end: an access unit over UDP ([udp_video_end_to_end]), a stream
      through the splitter ([sim_stream_conserved]), a growing segment over
      HTTP ([progressive_segment_exact]), a live session from the server's
      segments to the decoders ([dash_end_to_end]), its order whatever fails
      ([reader_in_order]), the frames and the sound of any segments
      ([frames_identified], [audio_lossless]), sound from FIFO to sink
      ([audio_stream_conserved]), input events to the wire ([input_uplink]).
    - The loop of the UDP client: no input from the network makes it leave its
      buffers or lose its invariants ([main_loop_safe]); the sessions with
      libavformat: what is allocated is released ([session_resources]).
    - Set-up and shutdown: resources and threads over all answers of the
      devices, what a cancelled reader leaves and the lock it may leave locked
      ([dash_lifecycle], over [reader_leaves] of [ReaderThread]), the order that
      the UDP mode gets wrong ([udp_shutdown]); the watchdog of the reader
      ([reader_watchdog]).
    - The simulator: the looped sound, frame after frame, at its pace
      ([sim_sound_paced]).
    - The server: one encoder at a time, restarted when it must be
      ([encoder_supervised]), and reports without repetition
      ([segments_reported_once]).
    - Time: the arithmetic of deadlines ([audio_start_rebases], [av_servo_converges], [e2e_is_true_latency]), the
      calendar ([iso_time_exact]), the moment a picture is shown and the stamp
      its latency is taken from ([fb_picture_on_time], [send_stamp_matched]).

    Several theorems state what the code does where that differs from what its
    comments promise ([session_lost_is_stuck], [audio_start_rebases],
    [encoder_supervised], [input_uplink]); lemmas and examples next to them show further cases
    ([deadline_lip_sync], [drm_pipeline_delivers]).

    ** Bounds and fuel

    A loop whose recursion is not structural carries fuel, and a lemma of its
    file shows that the fuel is enough for every input the theorems admit:
    growth of a buffer by doubling, 64 (a size that doubles 64 times leaves
    [size_t]); [dechunk] and [send_chunks], the length plus one (each round
    consumes a byte at least); the read loop of the simulator,
    [2 * length + 2]; the drain of the jitter buffer, 257 (256 slots);
    decimal printing, the binary length; the segment loops of the reader, the
    length of the window; text replacement, the length of the text; reading a
    filter or a decoder empty, what the library holds plus one. The
    waits of the program are bounded by the program itself, and the model uses
    its bounds: 40 polls of the FIFO, 600 polls of the sound gate, 50 waits for
    a flip. The busy-wait of the framebuffer path ends with the clock: its fuel
    is any number of polls by which the clock has advanced 3.5 ms. A row of the
    streaming copy carries the bytes left as its fuel.

    ** Not modelled, and why

    Libraries behind their calls: the container formats, decoding and resampling
    (libavformat, libavcodec, libswresample), the parts of CUDA, DRM,
    ALSA and evdev behind their calls, sockets and threads. What the program
    relies on of them is an argument. In [Lifecycle] a set-up call is the
    answer it gives and the resource it acquires; that a release while a user
    runs, and a wait for a thread that was not told to stop, have no result is
    a check of the model, not of the program. Signal handlers, log lines and
    debug-only statistics, the prefill of the audio before its first period and
    the format of telemetry lines outside [Telemetry] are left out, and so are
    [pthread_cancel] of the reader that uses libavformat and the buffers of a decoded picture after it is
    handed to the converter, which are taken to stay until its job is done. [fork] and [exec] of
    the simulator's encoder are answers, its two threads are modelled one at a
    time. The Python tools, shell scripts, unit tests, service files and build
    files are not the program. *)

From Stdlib Require Export ZArith Lia List.
From Stdlib Require Sorting.Sorted.
From stdpp Require Export base option numbers list list_numbers sets.
Export stdpp.list_relations.list.

#[global] Open Scope Z_scope.

(** ** Machine integers

    Every C integer is a [Z]; a conversion to a w-bit type is the function of
    the type's name in [include/vmc/core/types.h]. *)

Definition u8 (x : Z) : Z := x mod 256.
Definition u16 (x : Z) : Z := x mod 65536.
Definition u32 (x : Z) : Z := x mod 4294967296.
Definition u64 (x : Z) : Z := x mod 18446744073709551616.
Definition i16 (x : Z) : Z := (x + 32768) mod 65536 - 32768.
Definition i32 (x : Z) : Z := (x + 2147483648) mod 4294967296 - 2147483648.
Definition i64 (x : Z) : Z :=
  (x + 9223372036854775808) mod 18446744073709551616 - 9223372036854775808.

(** [a >= b] etc. on C integers yield booleans; [c_bool] is the int they are. *)
Definition c_bool (b : bool) : Z := if b then 1 else 0.

(** Linear arithmetic with the wrap-around written out. *)
Ltac wrap_lia :=
  unfold u8, u16, u32, u64, i16, i32, i64 in *;
  Z.div_mod_to_equations; lia.

Lemma u8_range x : 0 <= u8 x < 256. Proof. wrap_lia. Qed.
Lemma u16_range x : 0 <= u16 x < 65536. Proof. wrap_lia. Qed.
Lemma u32_range x : 0 <= u32 x < 4294967296. Proof. wrap_lia. Qed.
Lemma u64_range x : 0 <= u64 x < 18446744073709551616. Proof. wrap_lia. Qed.

Lemma u8_small x : 0 <= x < 256 -> u8 x = x. Proof. wrap_lia. Qed.
Lemma u16_small x : 0 <= x < 65536 -> u16 x = x. Proof. wrap_lia. Qed.
Lemma u32_small x : 0 <= x < 4294967296 -> u32 x = x. Proof. wrap_lia. Qed.
Lemma u64_small x : 0 <= x < 18446744073709551616 -> u64 x = x. Proof. wrap_lia. Qed.
Lemma i16_small x : -32768 <= x < 32768 -> i16 x = x. Proof. wrap_lia. Qed.
Lemma i32_small x : -2147483648 <= x < 2147483648 -> i32 x = x. Proof. wrap_lia. Qed.
Lemma i64_small x :
  -9223372036854775808 <= x < 9223372036854775808 -> i64 x = x.
Proof. wrap_lia. Qed.

Create HintDb vmc.
Create Rewrite HintDb vmc.
#[export] Hint Resolve u8_range u16_range u32_range u64_range : vmc.
#[export] Hint Rewrite u8_small u16_small u32_small u64_small using lia : vmc.

(** ** Status codes ([include/vmc/core/error.h], lines 15-31) *)

Abbreviation vmc_status := Z (only parsing).

Definition VMC_OK : vmc_status := 0.
Definition VMC_ERR_GENERAL : vmc_status := -1.
Definition VMC_ERR_INVALID_ARG : vmc_status := -2.
Definition VMC_ERR_NOMEM : vmc_status := -3.
Definition VMC_ERR_NOSYS : vmc_status := -4.
Definition VMC_ERR_TIMEOUT : vmc_status := -5.
Definition VMC_ERR_BUSY : vmc_status := -6.
Definition VMC_ERR_IO : vmc_status := -7.
Definition VMC_ERR_PROTO : vmc_status := -8.
Definition VMC_ERR_CORRUPT : vmc_status := -9.
Definition VMC_ERR_AGAIN : vmc_status := -10.
Definition VMC_ERR_OVERRUN : vmc_status := -11.
Definition VMC_ERR_NOT_FOUND : vmc_status := -12.
Definition VMC_ERR_INVALID_STATE : vmc_status := -13.
Definition VMC_ERR_NOT_CONNECTED : vmc_status := -14.
Definition VMC_ERR_OUT_OF_SYNC : vmc_status := -15.
Definition VMC_ERR_NO_MEDIA : vmc_status := -16.

(** ** Functional record update

    [r <| f := v |>] replaces the field [f] of [r]. A record type supports it
    through an instance of [Eta], the eta-expansion of its values. *)

Class Eta (R : Type) := eta_expand : R -> R.
Class Upd {R T : Type} (proj : R -> T) := upd_field : (T -> T) -> R -> R.
Arguments upd_field {R T} proj {Upd} _ _.

Ltac derive_upd proj :=
  match type of proj with
  | ?R -> _ =>
    let f := fresh "f" in
    let r := fresh "r" in
    intros f r;
    let t := constr:(@eta_expand R _ r) in
    let t := eval unfold eta_expand in t in
    let t := eval hnf in t in
    let t := eval pattern (proj r) in t in
    match t with ?g _ => let b := eval cbv beta in (g (f (proj r))) in exact b end
  end.

#[export] Hint Extern 0 (Upd ?proj) => derive_upd proj : typeclass_instances.

Declare Scope vmc_scope.
Delimit Scope vmc_scope with vmc.
Notation "r <| f := v |>" := (upd_field f (fun _ => v) r)
  (at level 1, left associativity, format "r <| f  :=  v |>") : vmc_scope.
#[global] Open Scope vmc_scope.

(** ** Length and bounded access of C arrays

    An object of memory is a list; reading or writing outside it is undefined
    behaviour in C and [None] here, so "the function returns [Some _]" states
    that no access of it leaves its object. *)

Definition zlen {A} (l : list A) : Z := Z.of_nat (length l).

Definition zget {A} (l : list A) (i : Z) : option A :=
  if decide (0 <= i) then l !! Z.to_nat i else None.

Definition zset {A} (l : list A) (i : Z) (x : A) : option (list A) :=
  if decide (0 <= i < zlen l) then Some (<[Z.to_nat i := x]> l) else None.

(** [memcpy(out, l + off, n)] as seen by the reader. *)
Definition slice {A} (l : list A) (off n : Z) : option (list A) :=
  if decide (0 <= off /\ 0 <= n /\ off + n <= zlen l)
  then Some (take (Z.to_nat n) (drop (Z.to_nat off) l)) else None.

(** [memcpy(l + off, src, zlen src)] as seen by the written object. *)
Definition blit {A} (l : list A) (off : Z) (src : list A) : option (list A) :=
  if decide (0 <= off /\ off + zlen src <= zlen l)
  then Some (take (Z.to_nat off) l ++ src
             ++ drop (Z.to_nat off + length src) l)
  else None.

Lemma zlen_nil {A} : zlen (@nil A) = 0. Proof. done. Qed.
Lemma zlen_cons {A} (x : A) l : zlen (x :: l) = 1 + zlen l.
Proof. unfold zlen. cbn [length]. lia. Qed.
Lemma zlen_app {A} (l k : list A) : zlen (l ++ k) = zlen l + zlen k.
Proof. unfold zlen. rewrite length_app. lia. Qed.
Lemma zlen_take {A} n (l : list A) :
  0 <= n -> zlen (take (Z.to_nat n) l) = Z.min n (zlen l).
Proof. unfold zlen. rewrite length_take. lia. Qed.
Lemma zlen_drop {A} n (l : list A) :
  0 <= n <= zlen l -> zlen (drop (Z.to_nat n) l) = zlen l - n.
Proof. unfold zlen. rewrite length_drop. lia. Qed.
Lemma zlen_replicate {A} n (x : A) : zlen (replicate n x) = Z.of_nat n.
Proof. unfold zlen. by rewrite length_replicate. Qed.
Lemma zlen_nonneg {A} (l : list A) : 0 <= zlen l. Proof. unfold zlen. lia. Qed.

#[export] Hint Rewrite @zlen_nil @zlen_cons @zlen_app @zlen_replicate : vmc.
#[export] Hint Resolve zlen_nonneg : vmc.

Lemma zget_nat {A} (l : list A) n : zget l (Z.of_nat n) = l !! n.
Proof. unfold zget. rewrite decide_True by lia. by rewrite Nat2Z.id. Qed.

Lemma zget_to_nat {A} (l : list A) i : 0 <= i -> zget l i = l !! Z.to_nat i.
Proof. intros. unfold zget. by rewrite decide_True by lia. Qed.

Lemma zget_lt {A} (l : list A) i x : zget l i = Some x -> 0 <= i < zlen l.
Proof.
  unfold zget. case_decide; [|done]. intros H1%lookup_lt_Some. unfold zlen. lia.
Qed.

Lemma zget_is_Some {A} (l : list A) i : 0 <= i < zlen l -> is_Some (zget l i).
Proof.
  intros H. rewrite zget_to_nat by lia. apply lookup_lt_is_Some.
  unfold zlen in H. lia.
Qed.

Lemma zget_app_l {A} (l k : list A) i : i < zlen l -> zget (l ++ k) i = zget l i.
Proof.
  intros. unfold zget. case_decide; [|done].
  apply lookup_app_l. unfold zlen in *. lia.
Qed.

Lemma zget_app_r {A} (l k : list A) i :
  zlen l <= i -> zget (l ++ k) i = zget k (i - zlen l).
Proof.
  intros. pose proof (zlen_nonneg l). unfold zget. rewrite !decide_True by lia.
  rewrite lookup_app_r by (unfold zlen in *; lia). f_equal. unfold zlen in *. lia.
Qed.

Lemma zget_app_plus {A} (l k : list A) i :
  0 <= i -> zget (l ++ k) (zlen l + i) = zget k i.
Proof. intros. rewrite zget_app_r by lia. f_equal. lia. Qed.

Lemma zget_here {A} (l k : list A) : zget (l ++ k) (zlen l) = zget k 0.
Proof. rewrite zget_app_r by lia. f_equal. lia. Qed.

Lemma zget_0 {A} (a : A) l : zget (a :: l) 0 = Some a. Proof. done. Qed.
Lemma zget_1 {A} (a b : A) l : zget (a :: b :: l) 1 = Some b. Proof. done. Qed.
Lemma zget_2 {A} (a b c : A) l : zget (a :: b :: c :: l) 2 = Some c. Proof. done. Qed.
Lemma zget_3 {A} (a b c d : A) l : zget (a :: b :: c :: d :: l) 3 = Some d.
Proof. done. Qed.

Lemma zget_ge {A} (l : list A) i : zlen l <= i -> zget l i = None.
Proof.
  intros. unfold zget. case_decide; [|done].
  apply lookup_ge_None. unfold zlen in *. lia.
Qed.

Lemma zget_neg {A} (l : list A) i : i < 0 -> zget l i = None.
Proof. intros. unfold zget. by rewrite decide_False by lia. Qed.

Lemma zget_ext {A} (l k : list A) :
  (forall i, 0 <= i -> zget l i = zget k i) -> l = k.
Proof. intros H. apply list_eq. intros i. by rewrite <- !zget_nat, H by lia. Qed.

Lemma zget_take {A} (l : list A) n i :
  i < n -> zget (take (Z.to_nat n) l) i = zget l i.
Proof.
  intros. unfold zget. case_decide; [|done]. apply lookup_take_lt. lia.
Qed.

Lemma zget_drop {A} (l : list A) n i :
  0 <= n -> 0 <= i -> zget (drop (Z.to_nat n) l) i = zget l (n + i).
Proof.
  intros. rewrite !zget_to_nat by lia. rewrite lookup_drop. f_equal. lia.
Qed.

Lemma slice_ok {A} (l : list A) off n :
  0 <= off -> 0 <= n -> off + n <= zlen l ->
  slice l off n = Some (take (Z.to_nat n) (drop (Z.to_nat off) l)).
Proof. intros. unfold slice. by rewrite decide_True by lia. Qed.

Lemma slice_inv {A} (l r : list A) off n :
  slice l off n = Some r ->
  0 <= off /\ 0 <= n /\ off + n <= zlen l /\ zlen r = n /\
  forall i, 0 <= i < n -> zget r i = zget l (off + i).
Proof.
  unfold slice. case_decide as Hd; [|done]. intros [= <-].
  split_and!; try lia.
  - rewrite zlen_take, zlen_drop by lia. lia.
  - intros i Hi. rewrite zget_take, zget_drop by lia. done.
Qed.

Lemma blit_inv {A} (l r src : list A) off :
  blit l off src = Some r ->
  0 <= off /\ off + zlen src <= zlen l /\ zlen r = zlen l /\
  forall i, zget r i =
    if decide (off <= i < off + zlen src) then zget src (i - off) else zget l i.
Proof.
  unfold blit. case_decide as Hd; [|done]. intros [= <-].
  pose proof (zlen_nonneg src).
  assert (Ht : zlen (take (Z.to_nat off) l) = off)
    by (rewrite zlen_take by lia; lia).
  assert (Hr : drop (Z.to_nat off + length src) l
               = drop (Z.to_nat (off + zlen src)) l)
    by (f_equal; unfold zlen; lia).
  rewrite Hr. split_and!; try lia.
  - rewrite !zlen_app, Ht, zlen_drop by lia. lia.
  - intros i. case_decide.
    + rewrite zget_app_r, Ht by lia. by rewrite zget_app_l by lia.
    + destruct (decide (i < off)).
      * rewrite zget_app_l by lia. by rewrite zget_take by lia.
      * rewrite zget_app_r, Ht by lia. rewrite zget_app_r by lia.
        rewrite zget_drop by lia. f_equal. lia.
Qed.

Lemma blit_ok {A} (l src : list A) off :
  0 <= off -> off + zlen src <= zlen l -> exists r, blit l off src = Some r.
Proof. intros. unfold blit. rewrite decide_True by lia. eauto. Qed.

Lemma blit_app {A} (a b c src : list A) :
  length b = length src -> blit (a ++ b ++ c) (zlen a) src = Some (a ++ src ++ c).
Proof.
  intros Hb. unfold blit.
  rewrite decide_True by (unfold zlen; rewrite !length_app; lia).
  f_equal. unfold zlen. rewrite Nat2Z.id, take_app_length. f_equal. f_equal.
  rewrite <- Hb, app_assoc. rewrite drop_app_length'; [done|].
  by rewrite length_app.
Qed.

Lemma slice_app {A} (a b c : list A) :
  slice (a ++ b ++ c) (zlen a) (zlen b) = Some b.
Proof.
  unfold slice. rewrite decide_True by (unfold zlen; rewrite !length_app; lia).
  f_equal. unfold zlen. rewrite !Nat2Z.id, drop_app_length. apply take_app_length.
Qed.

Lemma slice_prefix {A} (b c : list A) : slice (b ++ c) 0 (zlen b) = Some b.
Proof. exact (slice_app [] b c). Qed.

Lemma slice_take {A} (l : list A) n :
  0 <= n <= zlen l -> slice l 0 n = Some (take (Z.to_nat n) l).
Proof. intros. by rewrite slice_ok by lia. Qed.

Lemma slice_zlen {A} (l r : list A) off n : slice l off n = Some r -> zlen r = n.
Proof. intros H%slice_inv. tauto. Qed.

Lemma zset_inv {A} (l r : list A) i x :
  zset l i x = Some r ->
  0 <= i < zlen l /\ zlen r = zlen l /\
  forall j, zget r j = if decide (j = i) then Some x else zget l j.
Proof.
  unfold zset. case_decide as Hd; [|done]. intros [= <-]. split_and!; try lia.
  - unfold zlen. by rewrite length_insert.
  - intros j. case_decide as Hj.
    + subst. rewrite zget_to_nat by lia.
      apply list_lookup_insert_eq. unfold zlen in Hd. lia.
    + unfold zget. case_decide; [|done]. apply list_lookup_insert_ne. lia.
Qed.

Lemma zset_ok {A} (l : list A) i x :
  0 <= i < zlen l -> zset l i x = Some (<[Z.to_nat i := x]> l).
Proof. intros. unfold zset. by rewrite decide_True by lia. Qed.

Lemma zset_blit {A} (l : list A) i x : zset l i x = blit l i [x].
Proof.
  unfold zset, blit. change (zlen [x]) with 1.
  repeat case_decide; try done; try lia.
  f_equal. rewrite insert_take_drop by (unfold zlen in *; lia).
  by rewrite Nat.add_1_r.
Qed.

(** Writing an object front to back: [pre] is what has been written. *)
Lemma blit_next {A} (pre rest src : list A) off :
  off = zlen pre -> (length src <= length rest)%nat ->
  blit (pre ++ rest) off src = Some ((pre ++ src) ++ drop (length src) rest).
Proof.
  intros -> Hl. rewrite <- (take_drop (length src) rest) at 1.
  rewrite blit_app by (rewrite length_take; lia). by rewrite <- app_assoc.
Qed.

(** ** Byte lists *)

Definition is_byte (b : Z) : Prop := 0 <= b < 256.
Definition bytes (l : list Z) : Prop := Forall is_byte l.

#[export] Instance is_byte_dec b : Decision (is_byte b).
Proof. unfold is_byte. apply _. Defined.
#[export] Instance bytes_dec l : Decision (bytes l).
Proof. unfold bytes. apply _. Defined.

Lemma bytes_app l k : bytes (l ++ k) <-> bytes l /\ bytes k.
Proof. apply Forall_app. Qed.
Lemma bytes_zget l i b : bytes l -> zget l i = Some b -> is_byte b.
Proof.
  unfold zget. case_decide; [|done]. intros Hl Hi. by eapply Forall_lookup_1.
Qed.
Lemma bytes_u8 x : is_byte (u8 x). Proof. apply u8_range. Qed.
#[export] Hint Resolve bytes_u8 : vmc.

Lemma bytes_slice l off n r : bytes l -> slice l off n = Some r -> bytes r.
Proof.
  unfold slice. case_decide; [|done]. intros Hl [= <-].
  by apply Forall_take, Forall_drop.
Qed.

Lemma bytes_blit l off src r :
  bytes l -> bytes src -> blit l off src = Some r -> bytes r.
Proof.
  unfold blit. case_decide; [|done]. intros Hl Hs [= <-].
  rewrite !bytes_app. split_and!; [by apply Forall_take|done|by apply Forall_drop].
Qed.

(** ** Powers of two and masks *)

Lemma land_ones_mod x k : 0 <= k -> Z.land x (2 ^ k - 1) = x mod 2 ^ k.
Proof.
  intros. rewrite <- Z.land_ones by lia. f_equal. rewrite Z.ones_equiv. lia.
Qed.

(** The test [n && (n & (n-1)) == 0] accepts exactly the powers of two. *)
Lemma pow2_test n :
  0 < n -> Z.land n (n - 1) = 0 -> n = 2 ^ Z.log2 n.
Proof.
  intros Hn Hl. destruct (Z.log2_spec n Hn) as [H1 H2].
  destruct (decide (n = 2 ^ Z.log2 n)) as [|Hne]; [done|exfalso].
  pose proof (Z.log2_nonneg n).
  assert (Hlog : Z.log2 (n - 1) = Z.log2 n)
    by (apply Z.log2_unique; [lia|]; split; lia).
  assert (Hb : Z.testbit (Z.land n (n - 1)) (Z.log2 n) = true).
  { rewrite Z.land_spec, Z.bit_log2 by lia.
    rewrite <- Hlog. assert (n - 1 <> 0) by (pose proof (Z.pow_pos_nonneg 2 (Z.log2 n)); lia).
    apply Z.bit_log2. pose proof (Z.pow_pos_nonneg 2 (Z.log2 n)). lia. }
  rewrite Hl, Z.bits_0 in Hb. done.
Qed.

Lemma mod_u64_pow2 x k : 0 <= k <= 64 -> u64 x mod 2 ^ k = x mod 2 ^ k.
Proof.
  intros. unfold u64. change 18446744073709551616 with (2 ^ 64).
  apply Z.mod_mod_divide.
  exists (2 ^ (64 - k)). rewrite <- Z.pow_add_r by lia. f_equal. lia.
Qed.

(** A list sorted by an irreflexive relation has no duplicates. *)
Lemma sorted_nodup {A} (R : A -> A -> Prop) l : (forall x, ~ R x x) -> Sorted.StronglySorted R l -> NoDup l.
Proof.
  intros Hirr. induction 1 as [|x l _ IH Hx]; constructor; [|done]. rewrite Forall_forall in Hx.
  intros Hin. exact (Hirr x (Hx x Hin)).
Qed.

(** ** Reflexive transitive closure of a step relation *)

Inductive star {S : Type} (step : S -> S -> Prop) : S -> S -> Prop :=
| star_refl s : star step s s
| star_step s1 s2 s3 : step s1 s2 -> star step s2 s3 -> star step s1 s3.

Lemma star_trans {S} (step : S -> S -> Prop) a b c :
  star step a b -> star step b c -> star step a c.
Proof. induction 1; [done|]. intros. eapply star_step; eauto. Qed.

Lemma star_invariant {S} (step : S -> S -> Prop) (P : S -> Prop) a b :
  (forall s s', P s -> step s s' -> P s') -> star step a b -> P a -> P b.
Proof. intros Hp. induction 1; eauto. Qed.

(** ** Case analysis on the guards of a translated function *)

Ltac case_guards :=
  repeat first [ case_decide | case_match ]; simplify_eq.

(** Decidable closed facts, by evaluation of their decision procedure. *)
Ltac by_computation := apply (bool_decide_unpack _); vm_compute; exact I.
