(* ===== verification/RingBuf.v ===== *)
(** * The byte ring buffer ([src/core/ringbuf.c]) and the FIFO interface

    [Class ByteFifo] states what the clients of a byte queue rely on; the
    second part translates [vmc_ringbuf] and proves that it is such a queue,
    whatever value the free-running [head] and [tail] counters have reached
    (they wrap at 2^64). *)

From S2P Require Import Prelude.

(** ** The interface *)

(** A bounded byte queue: [fifo_data] is the abstract content, oldest byte
    first. Operations return [None] only when they would leave an object of
    memory. *)
Class ByteFifo (Q : Type) := {
  fifo_ok : Q -> Prop;
  fifo_cap : Q -> Z;
  fifo_used : Q -> Z;
  fifo_data : Q -> list Z;
  fifo_reset : Q -> Q;
  fifo_write : Q -> list Z -> Z -> option (Z * Q);
  fifo_read : Q -> option (list Z) -> Z -> option (Z * option (list Z) * Q);
}.

(** The output object after the first [zlen d] bytes of it were overwritten. *)
Definition overwrite (out : list Z) (d : list Z) : list Z :=
  d ++ drop (length d) out.

Class ByteFifoLaws (Q : Type) `{ByteFifo Q} := {
  fifo_used_law q : fifo_ok q -> fifo_used q = zlen (fifo_data q);
  fifo_bound_law q : fifo_ok q -> zlen (fifo_data q) <= fifo_cap q;
  fifo_reset_law q : fifo_ok q ->
    fifo_ok (fifo_reset q) /\ fifo_data (fifo_reset q) = [] /\
    fifo_cap (fifo_reset q) = fifo_cap q;
  fifo_write_law q src len : fifo_ok q -> 0 <= len <= zlen src ->
    exists n q', fifo_write q src len = Some (n, q') /\
      n = Z.min len (fifo_cap q - zlen (fifo_data q)) /\
      fifo_ok q' /\ fifo_cap q' = fifo_cap q /\
      fifo_data q' = fifo_data q ++ take (Z.to_nat n) src;
  fifo_read_law q out len : fifo_ok q -> 0 <= len <= zlen out ->
    exists n q', fifo_read q (Some out) len
        = Some (n, Some (overwrite out (take (Z.to_nat n) (fifo_data q))), q') /\
      n = Z.min len (zlen (fifo_data q)) /\
      fifo_ok q' /\ fifo_cap q' = fifo_cap q /\
      fifo_data q' = drop (Z.to_nat n) (fifo_data q);
}.

(** ** The implementation *)

Module RB.

(** [vmc_ringbuf]; [data] is the caller's storage. *)
Record vmc_ringbuf := mk_ringbuf {
  data : list Z;
  mask : Z;
  head : Z;
  tail : Z;
  count : Z;
}.

#[export] Instance eta_ringbuf : Eta vmc_ringbuf := fun r =>
  mk_ringbuf (data r) (mask r) (head r) (tail r) (count r).

Definition rb_mask (rb : vmc_ringbuf) (idx : Z) : Z := Z.land idx (mask rb).

Definition is_pow2_or_zero (n : Z) : bool :=
  negb (n =? 0) && (Z.land n (u64 (n - 1)) =? 0).

(** [rb] and [storage] are pointers, [None] is NULL; the result is the status
    and the object [rb] points to afterwards. *)
Definition vmc_ringbuf_init (rb : option vmc_ringbuf) (storage : option (list Z))
    (capacity : Z) : vmc_status * option vmc_ringbuf :=
  match rb, storage with
  | Some r, Some st =>
    if negb (is_pow2_or_zero capacity) then (VMC_ERR_INVALID_ARG, rb)
    else (VMC_OK, Some {| data := st; mask := u64 (capacity - 1);
                          head := 0; tail := 0; count := 0 |})
  | _, _ => (VMC_ERR_INVALID_ARG, rb)
  end.

Definition vmc_ringbuf_reset (rb : vmc_ringbuf) : vmc_ringbuf :=
  rb <| head := 0 |> <| tail := 0 |> <| count := 0 |>.

Definition vmc_ringbuf_capacity (rb : vmc_ringbuf) : Z := u64 (mask rb + 1).
Definition vmc_ringbuf_used (rb : vmc_ringbuf) : Z := count rb.
Definition vmc_ringbuf_free (rb : vmc_ringbuf) : Z :=
  u64 (vmc_ringbuf_capacity rb - count rb).
Definition vmc_ringbuf_empty (rb : vmc_ringbuf) : bool := count rb =? 0.
Definition vmc_ringbuf_full (rb : vmc_ringbuf) : bool :=
  count rb =? vmc_ringbuf_capacity rb.

Definition vmc_ringbuf_write (rb : vmc_ringbuf) (src : list Z) (len : Z)
    : option (Z * vmc_ringbuf) :=
  if decide (len = 0) then Some (0, rb) else
  let len := if decide (len > vmc_ringbuf_free rb)
             then vmc_ringbuf_free rb else len in
  let cap := vmc_ringbuf_capacity rb in
  let first := u64 (cap - rb_mask rb (head rb)) in
  let n1 := if decide (len < first) then len else first in
  s1 ← slice src 0 n1;
  d1 ← blit (data rb) (rb_mask rb (head rb)) s1;
  d2 ← (if decide (len > n1)
        then s2 ← slice src n1 (len - n1); blit d1 0 s2
        else Some d1);
  Some (len, rb <| data := d2 |> <| head := u64 (head rb + len) |>
                <| count := u64 (count rb + len) |>).

(** The two [memcpy] calls that [vmc_ringbuf_read] and [vmc_ringbuf_peek]
    share: [len] bytes from the tail into [out]. *)
Definition copy_out (rb : vmc_ringbuf) (out : list Z) (len : Z)
    : option (list Z) :=
  let cap := vmc_ringbuf_capacity rb in
  let first := u64 (cap - rb_mask rb (tail rb)) in
  let n1 := if decide (len < first) then len else first in
  s1 ← slice (data rb) (rb_mask rb (tail rb)) n1;
  o1 ← blit out 0 s1;
  if decide (len > n1)
  then s2 ← slice (data rb) 0 (len - n1); blit o1 n1 s2
  else Some o1.

Definition vmc_ringbuf_read (rb : vmc_ringbuf) (out : option (list Z)) (len : Z)
    : option (Z * option (list Z) * vmc_ringbuf) :=
  let len := if decide (len > count rb) then count rb else len in
  if decide (len = 0) then Some (0, out, rb) else
  out' ← (match out with
          | Some o => o' ← copy_out rb o len; Some (Some o')
          | None => Some None
          end);
  Some (len, out', rb <| tail := u64 (tail rb + len) |>
                      <| count := u64 (count rb - len) |>).

Definition vmc_ringbuf_peek (rb : vmc_ringbuf) (out : list Z) (len : Z)
    : option (Z * list Z) :=
  let len := if decide (len > count rb) then count rb else len in
  if decide (len = 0) then Some (0, out) else
  out' ← copy_out rb out len; Some (len, out').

Definition vmc_ringbuf_discard (rb : vmc_ringbuf) (len : Z) : Z * vmc_ringbuf :=
  let len := if decide (len > count rb) then count rb else len in
  (len, rb <| tail := u64 (tail rb + len) |> <| count := u64 (count rb - len) |>).

(** ** Well-formedness and abstract content *)

(** The capacity is a power of two that fits the storage; [head] is [tail]
    plus the number of stored bytes, modulo 2^64. *)
Definition rb_wf (rb : vmc_ringbuf) : Prop :=
  exists k, 0 <= k < 64 /\ mask rb = 2 ^ k - 1 /\ 2 ^ k <= zlen (data rb) /\
    0 <= count rb <= 2 ^ k /\ 0 <= tail rb < 18446744073709551616 /\
    head rb = u64 (tail rb + count rb).

Definition cap (rb : vmc_ringbuf) : Z := mask rb + 1.

(** Byte [j] of the content lives at [(tail + j) mod capacity]. *)
Definition rb_contents (rb : vmc_ringbuf) : list Z :=
  (fun j => default 0 (zget (data rb) ((tail rb + j) mod cap rb)))
    <$> seqZ 0 (count rb).

Lemma cap_pow2 rb : rb_wf rb ->
  exists k, 0 <= k < 64 /\ cap rb = 2 ^ k /\ 1 <= cap rb <= 9223372036854775808.
Proof.
  intros (k & Hk & Hm & _). exists k. unfold cap. rewrite Hm.
  assert (2 ^ 0 <= 2 ^ k <= 2 ^ 63) by (split; apply Z.pow_le_mono_r; lia).
  split_and!; lia.
Qed.

Lemma capacity_eq rb : rb_wf rb -> vmc_ringbuf_capacity rb = cap rb.
Proof.
  intros Hwf. destruct (cap_pow2 rb Hwf) as (k & ? & Hc & ?).
  unfold vmc_ringbuf_capacity. fold (cap rb). apply u64_small. lia.
Qed.

Lemma rb_mask_mod rb x : rb_wf rb -> rb_mask rb x = x mod cap rb.
Proof.
  intros (k & Hk & Hm & _). unfold rb_mask, cap. rewrite Hm.
  rewrite land_ones_mod by lia. f_equal. lia.
Qed.

Lemma mod_cap_u64 rb x : rb_wf rb -> u64 x mod cap rb = x mod cap rb.
Proof.
  intros Hwf. destruct (cap_pow2 rb Hwf) as (k & ? & -> & ?).
  apply mod_u64_pow2. lia.
Qed.

Lemma wf_bounds rb : rb_wf rb ->
  0 <= count rb <= cap rb /\ cap rb <= zlen (data rb) /\
  0 <= tail rb < 18446744073709551616 /\ head rb = u64 (tail rb + count rb).
Proof. intros (k & Hk & Hm & ? & ? & ? & ?). unfold cap. lia. Qed.

Lemma free_eq rb : rb_wf rb -> vmc_ringbuf_free rb = cap rb - count rb.
Proof.
  intros Hwf. unfold vmc_ringbuf_free. rewrite capacity_eq by done.
  pose proof (wf_bounds rb Hwf). destruct (cap_pow2 rb Hwf) as (k & ?).
  apply u64_small. lia.
Qed.

Lemma zlen_contents rb : rb_wf rb -> zlen (rb_contents rb) = count rb.
Proof.
  intros Hwf%wf_bounds. unfold zlen, rb_contents.
  rewrite length_fmap, length_seqZ. lia.
Qed.

Lemma contents_get rb j : rb_wf rb -> 0 <= j < count rb ->
  zget (rb_contents rb) j = zget (data rb) ((tail rb + j) mod cap rb).
Proof.
  intros Hwf Hj. pose proof (wf_bounds rb Hwf) as Hb.
  destruct (cap_pow2 rb Hwf) as (k & _ & _ & Hc).
  rewrite (zget_to_nat _ j) by lia. unfold rb_contents.
  rewrite list_lookup_fmap, lookup_seqZ_lt by lia. cbn.
  replace (tail rb + (0 + Z.of_nat (Z.to_nat j))) with (tail rb + j) by lia.
  destruct (zget_is_Some (data rb) ((tail rb + j) mod cap rb)) as [x Hx].
  { pose proof (Z.mod_pos_bound (tail rb + j) (cap rb)). lia. }
  by rewrite Hx.
Qed.

(** ** Copying across the wrap point *)

(** Two blits, the second at offset 0, write [w] circularly from [h]. *)
Lemma circular_blit (d w : list Z) (c h n1 : Z) d1 d2 :
  1 <= c <= zlen d -> 0 <= h < c -> zlen w <= c ->
  n1 = Z.min (zlen w) (c - h) ->
  blit d h (take (Z.to_nat n1) w) = Some d1 ->
  (if decide (zlen w > n1)
   then blit d1 0 (drop (Z.to_nat n1) w) else Some d1) = Some d2 ->
  zlen d2 = zlen d /\
  forall p, 0 <= p < c -> zget d2 p =
    if decide ((p - h) mod c < zlen w) then zget w ((p - h) mod c)
    else zget d p.
Proof.
  intros Hc Hh Hw Hn1 (H1 & H2 & H3 & Hg1)%blit_inv H. pose proof (zlen_nonneg w).
  assert (Ht : zlen (take (Z.to_nat n1) w) = n1) by (rewrite zlen_take by lia; lia).
  rewrite Ht in *.
  assert (Hmod : forall p, 0 <= p < c ->
    (p - h) mod c = if decide (h <= p) then p - h else p - h + c).
  { intros p Hp. destruct (decide (h <= p)); [apply Z.mod_small; lia|].
    rewrite <- (Z.mod_small (p - h + c) c) by lia.
    rewrite <- (Z.mod_add (p - h) 1 c) by lia. f_equal. lia. }
  case_decide as Hgt.
  - apply blit_inv in H as (? & ? & H4 & Hg2).
    rewrite zlen_drop in * by lia. split; [lia|]. intros p Hp.
    rewrite Hg2, Hg1, Hmod by lia. repeat case_decide; try lia; try done.
    + rewrite zget_drop by lia. f_equal. lia.
    + by rewrite zget_take by lia.
  - simplify_eq. split; [lia|]. intros p Hp.
    rewrite Hg1, Hmod by lia. repeat case_decide; try lia; try done.
    by rewrite zget_take by lia.
Qed.

(** Two slices, the second from offset 0, read circularly from [t]. *)
Lemma circular_slice (d s1 s2 : list Z) (c t n1 len : Z) :
  1 <= c <= zlen d -> 0 <= t < c -> 0 <= len <= c -> n1 = Z.min len (c - t) ->
  slice d t n1 = Some s1 -> slice d 0 (len - n1) = Some s2 ->
  zlen (s1 ++ s2) = len /\
  forall j, 0 <= j < len -> zget (s1 ++ s2) j = zget d ((t + j) mod c).
Proof.
  intros Hc Ht Hl Hn (_ & _ & _ & L1 & G1)%slice_inv (_ & _ & _ & L2 & G2)%slice_inv.
  split; [rewrite zlen_app; lia|]. intros j Hj.
  destruct (decide (j < n1)).
  - rewrite zget_app_l, G1 by lia. rewrite Z.mod_small by lia. done.
  - rewrite zget_app_r, G2 by lia. rewrite L1. f_equal.
    rewrite <- (Z.mod_small (0 + (j - n1)) c) by lia.
    rewrite <- (Z.mod_add (0 + (j - n1)) 1 c) by lia. f_equal. lia.
Qed.

(** ** The operations *)

Lemma init_wf r st capacity r' :
  0 <= capacity < 18446744073709551616 -> capacity <= zlen st ->
  vmc_ringbuf_init (Some r) (Some st) capacity = (VMC_OK, Some r') ->
  rb_wf r' /\ rb_contents r' = [] /\ cap r' = capacity.
Proof.
  intros Hc Hst. unfold vmc_ringbuf_init, is_pow2_or_zero.
  destruct (capacity =? 0) eqn:E0; [done|].
  destruct (Z.land _ _ =? 0) eqn:E1; cbn; [|done]. intros [= <-].
  rewrite u64_small in E1 by lia.
  assert (Hp : capacity = 2 ^ Z.log2 capacity) by (apply pow2_test; lia).
  assert (Hk : 0 <= Z.log2 capacity < 64).
  { split; [apply Z.log2_nonneg|]. apply Z.log2_lt_pow2; lia. }
  assert (Hm : u64 (capacity - 1) = 2 ^ Z.log2 capacity - 1) by
    (rewrite u64_small; lia).
  split_and!; [|done|unfold cap; cbn; lia].
  exists (Z.log2 capacity). cbn. rewrite Hm, <- Hp. split_and!; try lia. done.
Qed.

Lemma reset_wf rb : rb_wf rb ->
  rb_wf (vmc_ringbuf_reset rb) /\ rb_contents (vmc_ringbuf_reset rb) = [].
Proof.
  intros (k & Hk & Hm & Hd & _). split; [|done].
  exists k. cbn. assert (0 < 2 ^ k) by (apply Z.pow_pos_nonneg; lia).
  split_and!; try lia. done.
Qed.

(** A write stores the prefix that fits and never touches the stored bytes. *)
Lemma write_spec rb src len :
  rb_wf rb -> 0 <= len <= zlen src ->
  let n := Z.min len (cap rb - count rb) in
  exists rb', vmc_ringbuf_write rb src len = Some (n, rb') /\
    rb_wf rb' /\ cap rb' = cap rb /\
    rb_contents rb' = rb_contents rb ++ take (Z.to_nat n) src.
Proof.
  intros Hwf Hlen n. pose proof (wf_bounds rb Hwf) as (Hcnt & Hsto & Htl & Hhd).
  destruct (cap_pow2 rb Hwf) as (k & Hk & Hck & Hcap).
  unfold vmc_ringbuf_write. cbv zeta.
  rewrite free_eq, capacity_eq, !rb_mask_mod by done.
  case_decide as H0.
  { exists rb. replace n with 0 by lia. rewrite app_nil_r. done. }
  replace (if decide (len > cap rb - count rb) then cap rb - count rb else len)
    with n by (case_decide; lia).
  set (h := head rb mod cap rb).
  assert (Hh : 0 <= h < cap rb) by (apply Z.mod_pos_bound; lia).
  rewrite (u64_small (cap rb - h)) by lia.
  replace (if decide (n < cap rb - h) then n else cap rb - h)
    with (Z.min n (cap rb - h)) by (case_decide; lia).
  set (n1 := Z.min n (cap rb - h)).
  set (w := take (Z.to_nat n) src).
  assert (Hw : zlen w = n) by (unfold w; rewrite zlen_take; lia).
  rewrite (slice_ok src 0 n1) by lia. cbn [mbind option_bind].
  replace (take (Z.to_nat n1) (drop (Z.to_nat 0) src)) with (take (Z.to_nat n1) w)
    by (unfold w; rewrite take_take; f_equal; lia).
  destruct (blit_ok (data rb) (take (Z.to_nat n1) w) h) as [d1 Hd1];
    [lia|rewrite zlen_take; lia|]. rewrite Hd1. cbn [mbind option_bind].
  destruct (blit_inv _ _ _ _ Hd1) as (_ & _ & Ld1 & _).
  assert (exists d2, (if decide (zlen w > n1)
     then blit d1 0 (drop (Z.to_nat n1) w) else Some d1) = Some d2) as [d2 Hd2].
  { case_decide; [|eauto]. apply blit_ok; [lia|]. rewrite zlen_drop; lia. }
  destruct (circular_blit (data rb) w (cap rb) h n1 d1 d2) as [Ld2 G2]; try done; try lia.
  replace (if decide (n > n1) then _ else Some d1) with (Some d2); cycle 1.
  { rewrite <- Hd2, Hw. destruct (decide (n > n1)); [|done]. rewrite (slice_ok src n1) by lia.
    cbn. f_equal. unfold w. rewrite take_drop_commute. f_equal. f_equal. lia. }
  cbn [mbind option_bind]. eexists. split; [done|].
  match goal with |- rb_wf ?r /\ _ => set (rb' := r) end.
  assert (Hcap' : cap rb' = cap rb) by done.
  assert (Hcnt' : count rb' = count rb + n) by (cbn; rewrite u64_small; lia).
  assert (Hwf' : rb_wf rb').
  { destruct Hwf as (k' & ? & Hm & ? & ? & ? & ?). exists k'. cbn in Hcnt'.
    unfold cap in *. cbn. rewrite Hcnt'. split_and!; try lia.
    rewrite Hhd. wrap_lia. }
  split_and!; [done|done|]. apply zget_ext. intros j Hj.
  destruct (decide (j < count rb + n)); cycle 1.
  { rewrite !zget_ge; [done|rewrite zlen_app, zlen_contents|rewrite zlen_contents];
      try done; lia. }
  rewrite contents_get by (done || lia).
  rewrite Hcap'. change (tail rb') with (tail rb). change (data rb') with d2.
  set (p := (tail rb + j) mod cap rb).
  assert (Hp : 0 <= p < cap rb) by (apply Z.mod_pos_bound; lia).
  rewrite G2 by done.
  assert (Hph : (p - h) mod cap rb = (j - count rb) mod cap rb).
  { unfold p, h. rewrite Hhd, mod_cap_u64 by done.
    rewrite <- Zminus_mod. f_equal. lia. }
  rewrite Hph. destruct (decide (j < count rb)).
  - rewrite <- (Z.mod_add _ 1), Z.mod_small by lia.
    rewrite decide_False by lia.
    rewrite zget_app_l by (rewrite zlen_contents by done; lia).
    by rewrite contents_get by (done || lia).
  - rewrite Z.mod_small by lia. rewrite decide_True by lia.
    rewrite zget_app_r; rewrite zlen_contents by done; [done|lia].
Qed.

(** Advancing the tail by [n] drops the [n] oldest bytes. *)
Lemma rb_consume_spec rb n :
  rb_wf rb -> 0 <= n <= count rb ->
  let rb' := rb <| tail := u64 (tail rb + n) |> <| count := u64 (count rb - n) |> in
  rb_wf rb' /\ cap rb' = cap rb /\
  rb_contents rb' = drop (Z.to_nat n) (rb_contents rb).
Proof.
  intros Hwf Hn rb'. pose proof (wf_bounds rb Hwf) as (Hcnt & Hsto & Htl & Hhd).
  destruct (cap_pow2 rb Hwf) as (k & Hk & Hck & Hcap).
  assert (Hc' : count rb' = count rb - n) by (cbn; rewrite u64_small; lia).
  assert (Hwf' : rb_wf rb').
  { destruct Hwf as (k' & ? & Hm & ? & ? & ? & ?). exists k'.
    rewrite Hc'. cbn. split_and!; try lia; [apply u64_range|apply u64_range|].
    rewrite Hhd. wrap_lia. }
  split_and!; [done|done|]. apply zget_ext. intros j Hj.
  rewrite zget_drop by lia. destruct (decide (j < count rb - n)); cycle 1.
  { rewrite !zget_ge; [done|rewrite zlen_contents|rewrite zlen_contents]; try done; lia. }
  rewrite !contents_get by (done || lia). change (cap rb') with (cap rb).
  change (data rb') with (data rb). change (tail rb') with (u64 (tail rb + n)).
  f_equal. rewrite <- Zplus_mod_idemp_l, mod_cap_u64, Zplus_mod_idemp_l by done.
  f_equal. lia.
Qed.

(** [copy_out] delivers the [len] oldest bytes. *)
Lemma copy_out_spec rb out len :
  rb_wf rb -> 0 < len <= count rb -> len <= zlen out ->
  copy_out rb out len
  = Some (overwrite out (take (Z.to_nat len) (rb_contents rb))).
Proof.
  intros Hwf Hlen Hout. pose proof (wf_bounds rb Hwf) as (Hcnt & Hsto & Htl & Hhd).
  destruct (cap_pow2 rb Hwf) as (k & Hk & Hck & Hcap).
  unfold copy_out. cbv zeta. rewrite capacity_eq, !rb_mask_mod by done.
  set (t := tail rb mod cap rb).
  assert (Ht : 0 <= t < cap rb) by (apply Z.mod_pos_bound; lia).
  rewrite (u64_small (cap rb - t)) by lia.
  replace (if decide (len < cap rb - t) then len else cap rb - t)
    with (Z.min len (cap rb - t)) by (case_decide; lia).
  set (n1 := Z.min len (cap rb - t)).
  destruct (slice (data rb) t n1) as [s1|] eqn:S1;
    [|rewrite slice_ok in S1 by lia; done].
  destruct (slice (data rb) 0 (len - n1)) as [s2|] eqn:S2;
    [|rewrite slice_ok in S2 by lia; done].
  destruct (circular_slice (data rb) s1 s2 (cap rb) t n1 len) as [L G]; try done; try lia.
  assert (L1 : zlen s1 = n1) by (by eapply slice_zlen).
  assert (Hs : s1 ++ s2 = take (Z.to_nat len) (rb_contents rb)).
  { apply zget_ext. intros j Hj. destruct (decide (j < len)); cycle 1.
    { rewrite !zget_ge; [done|rewrite zlen_take, zlen_contents|]; try done; lia. }
    rewrite G, zget_take, contents_get by (done || lia). f_equal.
    unfold t. by rewrite Zplus_mod_idemp_l. }
  rewrite <- Hs. cbn [mbind option_bind].
  assert (blit out 0 s1 = Some (overwrite out s1)) as ->
    by (unfold blit; rewrite decide_True by lia; done).
  cbn [mbind option_bind]. unfold overwrite.
  case_decide as Hgt.
  - cbn [mbind option_bind].
    rewrite <- (take_drop (length s2) (drop (length s1) out)), drop_drop.
    rewrite <- L1. rewrite blit_app; [|rewrite length_take, length_drop].
    + f_equal. unfold overwrite. rewrite <- app_assoc. do 2 f_equal.
      rewrite length_app. done.
    + rewrite zlen_app in L. unfold zlen in *. lia.
  - assert (length s2 = 0%nat) as ->%length_zero_iff_nil
      by (rewrite zlen_app in L; unfold zlen in *; lia).
    unfold overwrite. by rewrite app_nil_r.
Qed.

(** A read removes the oldest bytes and delivers them in order. *)
Lemma read_spec rb out len :
  rb_wf rb -> 0 <= len -> Z.min len (count rb) <= zlen out ->
  let n := Z.min len (count rb) in
  exists rb', vmc_ringbuf_read rb (Some out) len
      = Some (n, Some (overwrite out (take (Z.to_nat n) (rb_contents rb))), rb') /\
    rb_wf rb' /\ cap rb' = cap rb /\
    rb_contents rb' = drop (Z.to_nat n) (rb_contents rb).
Proof.
  intros Hwf Hlen Hout n. pose proof (wf_bounds rb Hwf) as (Hcnt & Hsto & Htl & Hhd).
  unfold vmc_ringbuf_read. cbv zeta.
  replace (if decide (len > count rb) then count rb else len)
    with n by (case_decide; lia).
  case_decide as H0.
  { exists rb. rewrite H0. done. }
  rewrite copy_out_spec by (done || lia). cbn [mbind option_bind].
  eexists. split; [done|]. apply rb_consume_spec; [done|lia].
Qed.

(** Peeking delivers the same bytes and leaves the buffer alone. *)
Lemma peek_spec rb out len :
  rb_wf rb -> 0 <= len -> Z.min len (count rb) <= zlen out ->
  let n := Z.min len (count rb) in
  vmc_ringbuf_peek rb out len
  = Some (n, overwrite out (take (Z.to_nat n) (rb_contents rb))).
Proof.
  intros Hwf Hlen Hout n. pose proof (wf_bounds rb Hwf).
  unfold vmc_ringbuf_peek. cbv zeta.
  replace (if decide (len > count rb) then count rb else len)
    with n by (case_decide; lia).
  case_decide as H0; [by rewrite H0|].
  by rewrite copy_out_spec by (done || lia).
Qed.

Lemma discard_spec rb len :
  rb_wf rb -> 0 <= len ->
  let '(n, rb') := vmc_ringbuf_discard rb len in
  n = Z.min len (count rb) /\ rb_wf rb' /\
  rb_contents rb' = drop (Z.to_nat n) (rb_contents rb).
Proof.
  intros Hwf Hlen. pose proof (wf_bounds rb Hwf). unfold vmc_ringbuf_discard. cbv zeta.
  replace (if decide (len > count rb) then count rb else len)
    with (Z.min len (count rb)) by (case_decide; lia).
  destruct (rb_consume_spec rb (Z.min len (count rb))) as (? & _ & ?); [done|lia|].
  split_and!; done.
Qed.

(** ** The ring buffer implements the queue interface *)

#[export] Instance ringbuf_fifo : ByteFifo vmc_ringbuf := {
  fifo_ok := rb_wf;
  fifo_cap := cap;
  fifo_used := vmc_ringbuf_used;
  fifo_data := rb_contents;
  fifo_reset := vmc_ringbuf_reset;
  fifo_write := vmc_ringbuf_write;
  fifo_read := vmc_ringbuf_read;
}.

#[export] Instance ringbuf_fifo_laws : ByteFifoLaws vmc_ringbuf.
Proof.
  split; cbn.
  - intros q Hq. by rewrite zlen_contents.
  - intros q Hq. rewrite zlen_contents by done. by apply wf_bounds.
  - intros q Hq. by destruct (reset_wf q Hq).
  - intros q src len Hq Hlen. rewrite zlen_contents by done.
    destruct (write_spec q src len Hq Hlen) as (q' & ? & ? & ? & ?).
    eexists _, q'. eauto.
  - intros q out len Hq Hlen. rewrite zlen_contents by done.
    pose proof (wf_bounds q Hq).
    destruct (read_spec q out len Hq) as (q' & ? & ? & ? & ?); [lia|lia|].
    eexists _, q'. eauto.
Qed.

(** ** Refinement: a run of the ring buffer is a run of a bounded queue *)

Inductive rb_op :=
| OpWrite (src : list Z) (len : Z)
| OpRead (out : list Z) (len : Z)
| OpPeek (out : list Z) (len : Z)
| OpDiscard (len : Z)
| OpReset.

(** The calls a C program may make: the source and output objects hold [len]
    bytes. *)
Definition op_ok (o : rb_op) : Prop :=
  match o with
  | OpWrite b len | OpRead b len | OpPeek b len => 0 <= len <= zlen b
  | OpDiscard len => 0 <= len
  | OpReset => True
  end.

#[export] Instance op_ok_dec o : Decision (op_ok o).
Proof. destruct o; cbn; apply _. Defined.

(** One call on the implementation: the returned count, the output object. *)
Definition rb_step (rb : vmc_ringbuf) (o : rb_op)
    : option (Z * list Z * vmc_ringbuf) :=
  match o with
  | OpWrite src len =>
    '(n, rb') ← vmc_ringbuf_write rb src len; Some (n, [], rb')
  | OpRead out len =>
    '(n, out', rb') ← vmc_ringbuf_read rb (Some out) len;
    Some (n, default [] out', rb')
  | OpPeek out len =>
    '(n, out') ← vmc_ringbuf_peek rb out len; Some (n, out', rb)
  | OpDiscard len => let '(n, rb') := vmc_ringbuf_discard rb len in Some (n, [], rb')
  | OpReset => Some (0, [], vmc_ringbuf_reset rb)
  end.

(** The same call on the specification, a queue [q] of capacity [c]. *)
Definition queue_step (c : Z) (q : list Z) (o : rb_op) : Z * list Z * list Z :=
  match o with
  | OpWrite src len =>
    let n := Z.min len (c - zlen q) in (n, [], q ++ take (Z.to_nat n) src)
  | OpRead out len =>
    let n := Z.min len (zlen q) in
    (n, overwrite out (take (Z.to_nat n) q), drop (Z.to_nat n) q)
  | OpPeek out len =>
    let n := Z.min len (zlen q) in (n, overwrite out (take (Z.to_nat n) q), q)
  | OpDiscard len => let n := Z.min len (zlen q) in (n, [], drop (Z.to_nat n) q)
  | OpReset => (0, [], [])
  end.

Fixpoint rb_run (rb : vmc_ringbuf) (os : list rb_op)
    : option (list (Z * list Z) * vmc_ringbuf) :=
  match os with
  | [] => Some ([], rb)
  | o :: os =>
    '(n, out, rb1) ← rb_step rb o;
    '(rs, rb2) ← rb_run rb1 os; Some ((n, out) :: rs, rb2)
  end.

Fixpoint queue_run (c : Z) (q : list Z) (os : list rb_op)
    : list (Z * list Z) * list Z :=
  match os with
  | [] => ([], q)
  | o :: os =>
    let '(n, out, q1) := queue_step c q o in
    let '(rs, q2) := queue_run c q1 os in ((n, out) :: rs, q2)
  end.

Lemma rb_step_refines rb o :
  rb_wf rb -> op_ok o ->
  let '(n, out, q) := queue_step (cap rb) (rb_contents rb) o in
  exists rb', rb_step rb o = Some (n, out, rb') /\ rb_wf rb' /\
    cap rb' = cap rb /\ rb_contents rb' = q.
Proof.
  intros Hwf Ho. pose proof (zlen_contents rb Hwf) as Hz.
  pose proof (wf_bounds rb Hwf).
  destruct o as [src len|out len|out len|len|]; cbn [op_ok queue_step rb_step] in Ho |- *; rewrite ?Hz.
  - destruct (write_spec rb src len) as (rb' & -> & ? & ? & ?); [done|lia|].
    cbn. eauto.
  - destruct (read_spec rb out len) as (rb' & -> & ? & ? & ?); [done|lia|lia|].
    cbn. eauto.
  - rewrite peek_spec by (done || lia). cbn. eauto.
  - pose proof (discard_spec rb len Hwf ltac:(lia)) as Hd.
    destruct (vmc_ringbuf_discard rb len) as [n rb'] eqn:E.
    destruct Hd as (-> & ? & ?). exists rb'. split; [done|].
    unfold vmc_ringbuf_discard in E. simplify_eq. eauto.
  - destruct (reset_wf rb Hwf). eauto.
Qed.

Lemma rb_run_refines os : forall rb,
  rb_wf rb -> Forall op_ok os ->
  exists rb', rb_run rb os
      = Some (fst (queue_run (cap rb) (rb_contents rb) os), rb') /\
    rb_wf rb' /\ rb_contents rb' = snd (queue_run (cap rb) (rb_contents rb) os).
Proof.
  induction os as [|o os IH]; intros rb Hwf Hos; cbn; [eauto|].
  inversion_clear Hos as [|? ? Ho Hos'].
  pose proof (rb_step_refines rb o Hwf Ho) as Hs.
  destruct (queue_step (cap rb) (rb_contents rb) o) as [[n out] q].
  destruct Hs as (rb1 & -> & Hwf1 & Hc1 & <-). cbn.
  destruct (IH rb1 Hwf1 Hos') as (rb2 & Hrun & Hwf2 & Hq). rewrite Hc1 in *.
  destruct (queue_run (cap rb) (rb_contents rb1) os) as [rs q2].
  rewrite Hrun. cbn. eauto.
Qed.

(** ** Properties *)

(** C12. Any sequence of write, read, peek, discard and reset calls on an
    initialised ring buffer returns exactly the counts and bytes that a FIFO
    queue of the same capacity returns, never accesses memory outside the
    storage or the callers' buffers ([Some]), and leaves the queue's content
    in the buffer; this holds whatever the values of the wrapping counters. *)
Theorem ringbuf_refines_queue r st capacity rb os :
  0 <= capacity < 18446744073709551616 -> capacity <= zlen st ->
  vmc_ringbuf_init (Some r) (Some st) capacity = (VMC_OK, Some rb) ->
  Forall op_ok os ->
  exists rb', rb_run rb os = Some (fst (queue_run capacity [] os), rb') /\
    rb_contents rb' = snd (queue_run capacity [] os).
Proof.
  intros Hc Hst Hi Hos. destruct (init_wf r st capacity rb Hc Hst Hi) as (Hwf & He & Hcap).
  destruct (rb_run_refines os rb Hwf Hos) as (rb' & Hrun & _ & Hq).
  rewrite Hcap, He in *. eauto.
Qed.

Definition demo_ring : vmc_ringbuf := mk_ringbuf [] 0 0 0 0.
Definition demo_ops : list rb_op :=
  [OpWrite [1; 2; 3] 3; OpRead [0; 0] 2; OpWrite [4; 5; 6; 7] 4; OpPeek [0; 0; 0; 0] 4;
   OpRead [9; 9; 9; 9; 9] 5].

Lemma ringbuf_refines_queue_witness :
  exists rb', rb_run (mk_ringbuf [0; 0; 0; 0] 3 0 0 0) demo_ops
    = Some ([(3, []); (2, [1; 2]); (3, []); (4, [3; 4; 5; 6]); (4, [3; 4; 5; 6; 9])], rb').
Proof.
  destruct (ringbuf_refines_queue demo_ring [0; 0; 0; 0] 4
              (mk_ringbuf [0; 0; 0; 0] 3 0 0 0) demo_ops) as (rb' & H & _).
  - lia.
  - vm_compute. discriminate.
  - reflexivity.
  - apply (bool_decide_unpack _). vm_compute. exact I.
  - exists rb'. exact H.
Defined.

(** [vmc_ringbuf_init] accepts exactly the non-NULL buffers and storages
    with a power-of-two capacity; it then yields an empty, well-formed buffer,
    and otherwise it returns [VMC_ERR_INVALID_ARG] and changes nothing. *)
Theorem ringbuf_init_accepts r st capacity :
  0 <= capacity < 18446744073709551616 ->
  (forall rb', vmc_ringbuf_init r st capacity = (VMC_OK, rb') ->
     exists k rb d, 0 <= k /\ capacity = 2 ^ k /\ st = Some d /\
       rb' = Some rb /\ data rb = d /\ rb_contents rb = [] /\
       vmc_ringbuf_free rb = capacity) /\
  ((exists k r' d, 0 <= k /\ capacity = 2 ^ k /\ r = Some r' /\ st = Some d) ->
     fst (vmc_ringbuf_init r st capacity) = VMC_OK) /\
  (fst (vmc_ringbuf_init r st capacity) <> VMC_OK ->
     vmc_ringbuf_init r st capacity = (VMC_ERR_INVALID_ARG, r)).
Proof.
  intros Hc. split_and!.
  - intros rb' H. unfold vmc_ringbuf_init, is_pow2_or_zero in H.
    destruct r as [r|], st as [d|]; try done.
    destruct (capacity =? 0) eqn:E0; [done|].
    destruct (Z.land _ _ =? 0) eqn:E1; cbn in H; [|done]. simplify_eq.
    rewrite u64_small in E1 by lia.
    exists (Z.log2 capacity). eexists _, d. split; [apply Z.log2_nonneg|].
    split; [apply pow2_test; lia|]. split_and!; try done.
    unfold vmc_ringbuf_free, vmc_ringbuf_capacity. cbn.
    rewrite (u64_small (capacity - 1)) by lia.
    rewrite Z.sub_add, Z.sub_0_r. by rewrite !(u64_small capacity) by lia.
  - intros (k & r' & d & Hk & -> & -> & ->). unfold vmc_ringbuf_init, is_pow2_or_zero.
    assert (0 < 2 ^ k) by (apply Z.pow_pos_nonneg; lia).
    rewrite (u64_small (2 ^ k - 1)) by lia.
    rewrite (proj2 (Z.eqb_neq (2 ^ k) 0)) by lia.
    rewrite land_ones_mod, Z.mod_same by lia. done.
  - unfold vmc_ringbuf_init. destruct r, st; try done.
    by destruct (is_pow2_or_zero capacity).
Qed.

Lemma ringbuf_init_accepts_witness :
  fst (vmc_ringbuf_init (Some demo_ring) (Some [0; 0; 0; 0]) 4) = VMC_OK /\
  vmc_ringbuf_init (Some demo_ring) (Some [0; 0; 0]) 3
  = (VMC_ERR_INVALID_ARG, Some demo_ring).
Proof.
  split.
  - apply (ringbuf_init_accepts (Some demo_ring) (Some [0; 0; 0; 0]) 4); [lia|].
    exists 2, demo_ring, [0; 0; 0; 0]. split; [lia|]. split_and!; reflexivity.
  - apply (ringbuf_init_accepts (Some demo_ring) (Some [0; 0; 0]) 3); [lia|].
    vm_compute. discriminate.
Defined.

End RB.
