(* ===== verification/Wire.v ===== *)
(** * Little-endian loads and stores

    The byte-wise accessors that [src/transport/protocol.c] (lines 8-26),
    [src/input/batch.c] (lines 24-32) and [src/video/fragment.c] (lines 8-11)
    each define for themselves, with the arithmetic facts their clients need. *)

From S2P Require Import Prelude.

Module LE.

(** ** Loads and stores *)

Definition rd16 (p : list Z) (off : Z) : option Z :=
  b0 ← zget p off; b1 ← zget p (off + 1);
  Some (u16 (Z.lor b0 (Z.shiftl b1 8))).

Definition rd32 (p : list Z) (off : Z) : option Z :=
  b0 ← zget p off; b1 ← zget p (off + 1);
  b2 ← zget p (off + 2); b3 ← zget p (off + 3);
  Some (Z.lor (Z.lor (Z.lor b0 (u32 (Z.shiftl b1 8))) (u32 (Z.shiftl b2 16)))
              (u32 (Z.shiftl b3 24))).

(** The bytes that [wr16] and [wr32] store, lowest address first. *)
Definition bytes16 (v : Z) : list Z :=
  [u8 (Z.land v 255); u8 (Z.land (Z.shiftr v 8) 255)].
Definition bytes32 (v : Z) : list Z :=
  [u8 (Z.land v 255); u8 (Z.land (Z.shiftr v 8) 255);
   u8 (Z.land (Z.shiftr v 16) 255); u8 (Z.land (Z.shiftr v 24) 255)].

Definition wr16 (p : list Z) (off v : Z) : option (list Z) := blit p off (bytes16 v).
Definition wr32 (p : list Z) (off v : Z) : option (list Z) := blit p off (bytes32 v).

(** ** Bits and positional arithmetic *)

Lemma lor_shiftl_add a b k : 0 <= k -> 0 <= a < 2 ^ k ->
  Z.lor a (Z.shiftl b k) = a + b * 2 ^ k.
Proof.
  intros Hk Ha. rewrite <- (Z.shiftl_mul_pow2 b k) by lia.
  assert (Hl : Z.land a (Z.shiftl b k) = 0).
  { apply Z.bits_inj'. intros n Hn. rewrite Z.land_spec, Z.bits_0.
    destruct (decide (n < k)).
    - rewrite Z.shiftl_spec_low by lia. apply andb_false_r.
    - rewrite <- (Z.mod_small a (2 ^ k)) by lia.
      by rewrite Z.mod_pow2_bits_high by lia. }
  by rewrite Z.add_nocarry_lxor, Z.lxor_lor.
Qed.

Lemma land_255 v : Z.land v 255 = v mod 256.
Proof. apply (land_ones_mod v 8). lia. Qed.

Lemma byte_of v k : 0 <= k -> u8 (Z.land (Z.shiftr v k) 255) = v / 2 ^ k mod 256.
Proof.
  intros. rewrite land_255, Z.shiftr_div_pow2 by done. unfold u8.
  by rewrite Z.mod_mod by lia.
Qed.

Lemma bytes16_eq v : bytes16 v = [v mod 256; v / 256 mod 256].
Proof.
  unfold bytes16. rewrite byte_of by lia. rewrite land_255. unfold u8.
  by rewrite Z.mod_mod by lia.
Qed.

Lemma bytes32_eq v :
  bytes32 v = [v mod 256; v / 256 mod 256; v / 65536 mod 256; v / 16777216 mod 256].
Proof.
  unfold bytes32. rewrite !byte_of by lia. rewrite land_255. unfold u8.
  by rewrite Z.mod_mod by lia.
Qed.

Lemma bytes16_bytes v : bytes (bytes16 v).
Proof. unfold bytes16. repeat constructor; apply u8_range. Qed.
Lemma bytes32_bytes v : bytes (bytes32 v).
Proof. unfold bytes32. repeat constructor; apply u8_range. Qed.
#[export] Hint Resolve bytes16_bytes bytes32_bytes : vmc.

Lemma bytes16_zlen v : zlen (bytes16 v) = 2. Proof. done. Qed.
Lemma bytes32_zlen v : zlen (bytes32 v) = 4. Proof. done. Qed.

(** Lengths of concatenations of encoded fields. *)
Ltac zlen_le := rewrite ?zlen_app, ?bytes16_zlen, ?bytes32_zlen; lia.

Definition le16 (b0 b1 : Z) : Z := b0 + 256 * b1.
Definition le32 (b0 b1 b2 b3 : Z) : Z := b0 + 256 * b1 + 65536 * b2 + 16777216 * b3.

Lemma rd16_le b0 b1 : is_byte b0 -> is_byte b1 ->
  u16 (Z.lor b0 (Z.shiftl b1 8)) = le16 b0 b1.
Proof.
  unfold is_byte. intros. rewrite lor_shiftl_add by lia.
  rewrite u16_small by lia. unfold le16. lia.
Qed.

Lemma rd32_le b0 b1 b2 b3 : is_byte b0 -> is_byte b1 -> is_byte b2 -> is_byte b3 ->
  Z.lor (Z.lor (Z.lor b0 (u32 (Z.shiftl b1 8))) (u32 (Z.shiftl b2 16)))
        (u32 (Z.shiftl b3 24)) = le32 b0 b1 b2 b3.
Proof.
  unfold is_byte. intros.
  rewrite !u32_small by (rewrite Z.shiftl_mul_pow2; lia).
  rewrite (lor_shiftl_add b0 b1) by lia.
  rewrite (lor_shiftl_add _ b2), (lor_shiftl_add _ b3) by lia. unfold le32. lia.
Qed.

Lemma le16_bytes v : 0 <= v < 65536 -> le16 (v mod 256) (v / 256 mod 256) = v.
Proof. unfold le16. intros. Z.div_mod_to_equations. lia. Qed.

Lemma le32_bytes v : 0 <= v < 4294967296 ->
  le32 (v mod 256) (v / 256 mod 256) (v / 65536 mod 256) (v / 16777216 mod 256) = v.
Proof. unfold le32. intros. Z.div_mod_to_equations. lia. Qed.

Lemma bytes16_le b0 b1 : is_byte b0 -> is_byte b1 -> bytes16 (le16 b0 b1) = [b0; b1].
Proof.
  unfold is_byte. intros. rewrite bytes16_eq. unfold le16.
  do 2 f_equal; Z.div_mod_to_equations; lia.
Qed.

Lemma bytes32_le b0 b1 b2 b3 : is_byte b0 -> is_byte b1 -> is_byte b2 -> is_byte b3 ->
  bytes32 (le32 b0 b1 b2 b3) = [b0; b1; b2; b3].
Proof.
  unfold is_byte. intros. rewrite bytes32_eq. unfold le32.
  f_equal; [|f_equal; [|f_equal; [|f_equal]]]; Z.div_mod_to_equations; lia.
Qed.

(** ** Reading back what was written *)

Lemma rd16_app pre v rest off : off = zlen pre -> 0 <= v < 65536 ->
  rd16 (pre ++ bytes16 v ++ rest) off = Some v.
Proof.
  intros -> Hv. unfold rd16. rewrite bytes16_eq. pose proof (zlen_nonneg pre).
  rewrite zget_here, zget_app_plus by lia.
  cbn [app]. rewrite zget_0, zget_1. cbn [mbind option_bind].
  rewrite rd16_le by (apply Z.mod_pos_bound; lia). by rewrite le16_bytes.
Qed.

Lemma rd16_head v rest : 0 <= v < 65536 -> rd16 (bytes16 v ++ rest) 0 = Some v.
Proof. exact (rd16_app [] v rest 0 eq_refl). Qed.

Lemma rd32_app pre v rest off : off = zlen pre -> 0 <= v < 4294967296 ->
  rd32 (pre ++ bytes32 v ++ rest) off = Some v.
Proof.
  intros -> Hv. unfold rd32. rewrite bytes32_eq. pose proof (zlen_nonneg pre).
  rewrite zget_here, !zget_app_plus by lia.
  cbn [app]. rewrite zget_0, zget_1, zget_2, zget_3. cbn [mbind option_bind].
  rewrite rd32_le by (apply Z.mod_pos_bound; lia). by rewrite le32_bytes.
Qed.

Lemma rd16_range p off v : bytes p -> rd16 p off = Some v -> 0 <= v < 65536.
Proof.
  unfold rd16. intros Hp. destruct (zget p off), (zget p (off + 1)); cbn; try done.
  intros [= <-]. apply u16_range.
Qed.

Lemma rd16_is_Some p off : 0 <= off -> off + 2 <= zlen p -> is_Some (rd16 p off).
Proof.
  intros. unfold rd16. destruct (zget_is_Some p off) as [a ->]; [lia|].
  destruct (zget_is_Some p (off + 1)) as [b ->]; [lia|]. cbn. eauto.
Qed.

Lemma rd32_is_Some p off : 0 <= off -> off + 4 <= zlen p -> is_Some (rd32 p off).
Proof.
  intros. unfold rd32. destruct (zget_is_Some p off) as [a ->]; [lia|].
  destruct (zget_is_Some p (off + 1)) as [b ->]; [lia|].
  destruct (zget_is_Some p (off + 2)) as [c ->]; [lia|].
  destruct (zget_is_Some p (off + 3)) as [d ->]; [lia|]. cbn. eauto.
Qed.

End LE.
