(* ===== verification/Protocol.v ===== *)
(** * The datagram protocol ([src/transport/protocol.c])

    The CRC-8, the header check, the encoder and the two decoders, and what
    they guarantee together: what is encoded decodes to the same header and
    payload, what decodes re-encodes to the same bytes, no access leaves the
    buffer, and no corruption of a single byte (the length field apart) is
    accepted. *)

From S2P Require Import Prelude Wire.
Import LE.

Module Proto.

(** ** Constants and the decoded header ([include/vmc/transport/protocol.h]) *)

Definition VMC_PROTO_MAGIC : Z := 0x5643.
Definition VMC_PROTO_VERSION : Z := 1.
Definition VMC_PROTO_HEADER_SIZE : Z := 17.
Definition VMC_PROTO_MAX_PAYLOAD : Z := 65535.
Definition VMC_PROTO_MAX_PACKET : Z := VMC_PROTO_HEADER_SIZE + VMC_PROTO_MAX_PAYLOAD.

Definition VMC_PROTO_STREAM_CONTROL : Z := 0.
Definition VMC_PROTO_STREAM_VIDEO : Z := 1.
Definition VMC_PROTO_STREAM_AUDIO : Z := 2.
Definition VMC_PROTO_STREAM_INPUT : Z := 3.
Definition VMC_PROTO_STREAM_TELEMETRY : Z := 4.

Definition VMC_PROTO_FLAG_FEC : Z := 1.
Definition VMC_PROTO_FLAG_KEYFRAME : Z := 2.
Definition VMC_PROTO_FLAG_FRAGMENTED : Z := 4.

Record vmc_proto_header := mk_header {
  magic : Z;
  version : Z;
  flags : Z;
  stream : Z;
  reserved : Z;
  payload_len : Z;
  seq : Z;
  ts_us : Z;
  crc : Z;
}.

#[export] Instance eta_header : Eta vmc_proto_header := fun h =>
  mk_header (magic h) (version h) (flags h) (stream h) (reserved h)
    (payload_len h) (seq h) (ts_us h) (crc h).

#[export] Instance header_eq_dec : EqDecision vmc_proto_header.
Proof. solve_decision. Defined.

(** ** CRC-8 *)

Definition crc8_bit (crc : Z) : Z :=
  if Z.eqb (Z.land crc 0x80) 0
  then u8 (Z.shiftl crc 1)
  else u8 (Z.lxor (u32 (Z.shiftl crc 1)) 0x07).

Definition crc8_byte (crc b : Z) : Z := Nat.iter 8 crc8_bit (Z.lxor crc b).
#[global] Arguments crc8_byte : simpl never.

(** [crc8_update(crc, data, len)]; [data] holds the [len] bytes it visits. *)
Fixpoint crc8_update (crc : Z) (data : list Z) : Z :=
  match data with
  | [] => crc
  | b :: data => crc8_update (crc8_byte crc b) data
  end.

Definition vmc_proto_crc8 (data : list Z) : Z := crc8_update 0 data.

(** [payload] is [None] for a NULL pointer. *)
Definition frame_crc (prefix : list Z) (payload : option (list Z)) : Z :=
  let crc := crc8_update 0 prefix in
  match payload with
  | Some p => if decide (zlen p > 0) then crc8_update crc p else crc
  | None => crc
  end.

(** ** Header check, encoder, decoders *)

Definition vmc_proto_header_valid (h : option vmc_proto_header) : bool :=
  match h with
  | None => false
  | Some h =>
    if negb (magic h =? VMC_PROTO_MAGIC) then false else
    if negb (version h =? VMC_PROTO_VERSION) then false else
    if negb (reserved h =? 0) then false else true
  end.

(** [buf], [h] and [payload] are pointers ([None] is NULL); [payload] does not
    overlap [buf]. The result is the returned value and the object [buf]
    points to; [None] is an access outside an object. *)
Definition vmc_proto_encode (buf : option (list Z)) (buf_cap : Z)
    (h : option vmc_proto_header) (payload : option (list Z))
    : option (Z * option (list Z)) :=
  match buf, h with
  | Some b, Some hd =>
    if negb (vmc_proto_header_valid h) then Some (VMC_ERR_INVALID_ARG, buf) else
    let total := VMC_PROTO_HEADER_SIZE + payload_len hd in
    if decide (buf_cap < total) then Some (VMC_ERR_NOMEM, buf) else
    b ← wr16 b 0 (magic hd);
    b ← zset b 2 (version hd);
    b ← zset b 3 (flags hd);
    b ← zset b 4 (stream hd);
    b ← zset b 5 (reserved hd);
    b ← wr16 b 6 (payload_len hd);
    b ← wr32 b 8 (seq hd);
    b ← wr32 b 12 (ts_us hd);
    b ← zset b 16 0;
    pay ← (match payload with
           | Some p => p' ← slice p 0 (payload_len hd); Some (Some p')
           | None => Some None
           end);
    b ← (match pay with
         | Some p => if decide (payload_len hd > 0)
                     then blit b VMC_PROTO_HEADER_SIZE p else Some b
         | None => Some b
         end);
    prefix ← slice b 0 (VMC_PROTO_HEADER_SIZE - 1);
    b ← zset b 16 (frame_crc prefix pay);
    Some (total, Some b)
  | _, _ => Some (VMC_ERR_INVALID_ARG, buf)
  end.

(** [out_h] is the object the caller's pointer designates, [None] for NULL. *)
Definition vmc_proto_decode_header (buf : option (list Z)) (len : Z)
    (out_h : option vmc_proto_header)
    : option (vmc_status * option vmc_proto_header) :=
  match buf, out_h with
  | Some b, Some _ =>
    if decide (len < VMC_PROTO_HEADER_SIZE)
    then Some (VMC_ERR_INVALID_ARG, out_h) else
    f_magic ← rd16 b 0;
    f_version ← zget b 2;
    f_flags ← zget b 3;
    f_stream ← zget b 4;
    f_reserved ← zget b 5;
    f_len ← rd16 b 6;
    f_seq ← rd32 b 8;
    f_ts ← rd32 b 12;
    f_crc ← zget b 16;
    let h := {| magic := f_magic; version := f_version; flags := f_flags;
                stream := f_stream; reserved := f_reserved;
                payload_len := f_len; seq := f_seq; ts_us := f_ts;
                crc := f_crc |} in
    if negb (vmc_proto_header_valid (Some h)) then Some (VMC_ERR_PROTO, out_h)
    else Some (VMC_OK, Some h)
  | _, _ => Some (VMC_ERR_INVALID_ARG, out_h)
  end.

(** The uninitialised local header of [vmc_proto_decode]. *)
Definition header_local : vmc_proto_header := mk_header 0 0 0 0 0 0 0 0 0.

(** On success: the header stored through a non-NULL [out_h] and the offset
    into [buf] stored through a non-NULL [out_payload]. *)
Definition vmc_proto_decode (buf : option (list Z)) (len : Z)
    : option (vmc_status * option (vmc_proto_header * Z)) :=
  '(st, oh) ← vmc_proto_decode_header buf len (Some header_local);
  if decide (st <> VMC_OK) then Some (st, None) else
  match buf, oh with
  | Some b, Some h =>
    if decide (len < VMC_PROTO_HEADER_SIZE + payload_len h)
    then Some (VMC_ERR_PROTO, None) else
    prefix ← slice b 0 (VMC_PROTO_HEADER_SIZE - 1);
    payload ← slice b VMC_PROTO_HEADER_SIZE (payload_len h);
    if decide (crc h <> frame_crc prefix (Some payload))
    then Some (VMC_ERR_CORRUPT, None)
    else Some (VMC_OK, Some (h, VMC_PROTO_HEADER_SIZE))
  | _, _ => None
  end.

(** ** The CRC separates states and bytes *)

(** One shift of the register can be undone: the polynomial's constant term
    makes bit 0 of the result tell whether the top bit was set. *)
Definition crc8_unbit (c : Z) : Z :=
  if Z.odd c then Z.lor (Z.shiftr (Z.lxor c 7) 1) 128 else Z.shiftr c 1.

Definition byte_range : list Z := seqZ 0 256.

Lemma in_byte_range b : is_byte b -> b ∈ byte_range.
Proof. unfold is_byte, byte_range. intros. apply elem_of_seqZ. lia. Qed.

Lemma crc8_table :
  Forall (fun c => crc8_unbit (crc8_bit c) = c /\ is_byte (crc8_bit c)) byte_range.
Proof. apply (bool_decide_unpack _). vm_compute. exact I. Qed.

Lemma crc8_bit_undo c : is_byte c -> crc8_unbit (crc8_bit c) = c /\ is_byte (crc8_bit c).
Proof.
  intros Hc. pose proof crc8_table as Ht. rewrite Forall_forall in Ht.
  apply Ht. by apply in_byte_range.
Qed.

Lemma crc8_iter_byte n c : is_byte c -> is_byte (Nat.iter n crc8_bit c).
Proof. intros. induction n; [done|]. cbn. by apply crc8_bit_undo. Qed.

Lemma crc8_iter_inj n c d : is_byte c -> is_byte d ->
  Nat.iter n crc8_bit c = Nat.iter n crc8_bit d -> c = d.
Proof.
  intros Hc Hd. induction n as [|n IH]; [done|].
  rewrite !Nat.iter_succ. intros H. apply IH.
  rewrite <- (proj1 (crc8_bit_undo _ (crc8_iter_byte n c Hc))), H.
  by apply crc8_bit_undo, crc8_iter_byte.
Qed.

Lemma lxor_byte a b : is_byte a -> is_byte b -> is_byte (Z.lxor a b).
Proof.
  unfold is_byte. intros Ha Hb.
  assert (0 <= Z.lxor a b) by (apply Z.lxor_nonneg; lia).
  destruct (decide (Z.lxor a b = 0)); [lia|]. split; [lia|].
  apply (Z.log2_lt_pow2 _ 8); [lia|].
  pose proof (Z.log2_lxor a b). pose proof (Z.log2_nonneg a).
  assert (forall x, 0 <= x < 256 -> Z.log2 x < 8) as Hl.
  { intros x Hx. destruct (decide (x = 0)); [by subst|]. apply Z.log2_lt_pow2; lia. }
  pose proof (Hl a). pose proof (Hl b). lia.
Qed.

Lemma lxor_cancel_l a b c : Z.lxor a b = Z.lxor a c -> b = c.
Proof.
  intros H. rewrite <- (Z.lxor_0_l b), <- (Z.lxor_0_l c), <- (Z.lxor_nilpotent a).
  by rewrite !Z.lxor_assoc, H.
Qed.

Lemma crc8_byte_byte c b : is_byte c -> is_byte b -> is_byte (crc8_byte c b).
Proof. intros. by apply crc8_iter_byte, lxor_byte. Qed.

Lemma crc8_byte_inj_state c d b : is_byte c -> is_byte d -> is_byte b ->
  crc8_byte c b = crc8_byte d b -> c = d.
Proof.
  intros Hc Hd Hb H%crc8_iter_inj; try by apply lxor_byte.
  rewrite !(Z.lxor_comm _ b) in H. by apply lxor_cancel_l in H.
Qed.

Lemma crc8_byte_inj_data c b d : is_byte c -> is_byte b -> is_byte d ->
  crc8_byte c b = crc8_byte c d -> b = d.
Proof.
  intros Hc Hb Hd H%crc8_iter_inj; try by apply lxor_byte.
  by apply lxor_cancel_l in H.
Qed.

Lemma crc8_update_app l : forall c k,
  crc8_update c (l ++ k) = crc8_update (crc8_update c l) k.
Proof. induction l; cbn; auto. Qed.

Lemma crc8_update_byte l : forall c, is_byte c -> bytes l -> is_byte (crc8_update c l).
Proof.
  induction l as [|b l IH]; intros c Hc Hl; cbn; [done|].
  inversion_clear Hl. apply IH; [|done]. by apply crc8_byte_byte.
Qed.

Lemma crc8_update_inj l : forall c d, is_byte c -> is_byte d -> bytes l ->
  crc8_update c l = crc8_update d l -> c = d.
Proof.
  induction l as [|b l IH]; intros c d Hc Hd Hl H; cbn in H; [done|].
  inversion_clear Hl. apply IH in H; try done; try by apply crc8_byte_byte.
  by apply crc8_byte_inj_state in H.
Qed.

(** Replacing one byte by another one changes the checksum. *)
Lemma crc8_insert l : forall i c b, is_byte c -> is_byte b -> bytes l ->
  (i < length l)%nat -> crc8_update c (<[i := b]> l) = crc8_update c l ->
  l !! i = Some b.
Proof.
  induction l as [|a l IH]; intros i c b Hc Hb Hl Hi H; cbn in Hi; [lia|].
  inversion_clear Hl. destruct i as [|i]; cbn in H |- *.
  - apply (crc8_update_inj l) in H; [|by apply crc8_byte_byte..|assumption].
    f_equal. symmetry. apply (crc8_byte_inj_data c); try done.
  - eapply (IH i (crc8_byte c a)); try done; [by apply crc8_byte_byte|lia].
Qed.

(** ** The wire image of a header *)

Definition header_wf (h : vmc_proto_header) : Prop :=
  0 <= magic h < 65536 /\ is_byte (version h) /\ is_byte (flags h) /\
  is_byte (stream h) /\ is_byte (reserved h) /\ 0 <= payload_len h < 65536 /\
  0 <= seq h < 4294967296 /\ 0 <= ts_us h < 4294967296 /\ is_byte (crc h).

#[export] Instance header_wf_dec h : Decision (header_wf h).
Proof. unfold header_wf. apply _. Defined.

(** The 16 checksummed header bytes, in the order of the header comment. *)
Definition prefix16 (h : vmc_proto_header) : list Z :=
  bytes16 (magic h) ++ [version h; flags h; stream h; reserved h]
  ++ bytes16 (payload_len h) ++ bytes32 (seq h) ++ bytes32 (ts_us h).

(** The datagram for header [h] and payload [p]. *)
Definition packet (h : vmc_proto_header) (p : list Z) : list Z :=
  prefix16 h ++ [crc8_update 0 (prefix16 h ++ p)] ++ p.

Lemma prefix16_length h : length (prefix16 h) = 16%nat.
Proof. done. Qed.
Lemma prefix16_zlen h : zlen (prefix16 h) = 16.
Proof. done. Qed.

Lemma prefix16_bytes h : header_wf h -> bytes (prefix16 h).
Proof.
  intros (? & ? & ? & ? & ? & ? & ? & ? & ?). unfold prefix16.
  rewrite !bytes_app. split_and!; auto with vmc.
  unfold bytes. rewrite !Forall_cons. by split_and!.
Qed.

Lemma zero_byte : is_byte 0. Proof. unfold is_byte. lia. Qed.
#[local] Hint Resolve zero_byte : vmc.

Lemma packet_bytes h p : header_wf h -> bytes p -> bytes (packet h p).
Proof.
  intros Hh%prefix16_bytes Hp. unfold packet. rewrite !bytes_app.
  split_and!; try done. unfold bytes. rewrite Forall_singleton.
  apply crc8_update_byte; [auto with vmc|by apply bytes_app].
Qed.

Lemma packet_zlen h p : zlen (packet h p) = 17 + zlen p.
Proof. unfold packet. rewrite !zlen_app, prefix16_zlen. unfold zlen. cbn [length]. lia. Qed.

Lemma frame_crc_app prefix p :
  frame_crc prefix (Some p) = crc8_update 0 (prefix ++ p).
Proof.
  unfold frame_crc. rewrite crc8_update_app. case_decide; [done|].
  destruct p; [done|]. rewrite zlen_cons in *. pose proof (zlen_nonneg p). lia.
Qed.

(** Every 17 bytes are the image of exactly one header. *)
Lemma header_of_bytes b : bytes b -> 17 <= zlen b ->
  exists h rest, header_wf h /\ b = prefix16 h ++ [crc h] ++ rest.
Proof.
  intros Hb Hl.
  destruct b as [|b0 [|b1 [|b2 [|b3 [|b4 [|b5 [|b6 [|b7 [|b8 [|b9 [|b10 [|b11 [|b12
    [|b13 [|b14 [|b15 [|b16 b]]]]]]]]]]]]]]]]]; try (unfold zlen in Hl; cbn in Hl; lia).
  unfold bytes in Hb. rewrite !Forall_cons in Hb.
  destruct Hb as (?&?&?&?&?&?&?&?&?&?&?&?&?&?&?&?&?&_).
  exists (mk_header (le16 b0 b1) b2 b3 b4 b5 (le16 b6 b7) (le32 b8 b9 b10 b11)
            (le32 b12 b13 b14 b15) b16), b.
  split; [|unfold prefix16; cbn [magic version flags stream reserved payload_len seq ts_us crc];
    rewrite !bytes16_le, !bytes32_le by assumption; reflexivity].
  unfold header_wf, is_byte, le16, le32 in *. cbn. lia.
Qed.

(** ** Encoder and decoder against the wire image *)

(** The payload the encoder sends: NULL is an empty payload. *)
Definition payload_ok (h : vmc_proto_header) (pl : option (list Z)) : Prop :=
  match pl with Some p => payload_len h <= zlen p | None => payload_len h = 0 end.

Definition payload_sent (h : vmc_proto_header) (pl : option (list Z)) : list Z :=
  take (Z.to_nat (payload_len h)) (default [] pl).

Ltac blit_step :=
  rewrite ?zset_blit; rewrite blit_next;
  [|reflexivity|rewrite ?length_drop; cbn [length bytes16 bytes32]; lia];
  cbn [mbind option_bind].

Lemma encode_spec h pl b cap :
  vmc_proto_header_valid (Some h) = true -> 0 <= payload_len h ->
  payload_ok h pl -> 17 + payload_len h <= cap <= zlen b ->
  vmc_proto_encode (Some b) cap (Some h) pl
  = Some (17 + payload_len h,
          Some (packet h (payload_sent h pl)
                ++ drop (Z.to_nat (17 + payload_len h)) b)).
Proof.
  intros Hv Hn Hp Hc. unfold vmc_proto_encode. rewrite Hv. cbn [negb]. cbv zeta.
  rewrite decide_False by (unfold VMC_PROTO_HEADER_SIZE; lia).
  assert (17 + payload_len h <= Z.of_nat (length b)) by (unfold zlen in Hc; lia).
  change b with ([] ++ b) at 1. unfold wr16, wr32.
  do 9 blit_step.
  rewrite !drop_drop. cbn [length bytes16 bytes32 Nat.add].
  set (rest := drop 17 b).
  match goal with |- context [?x ++ rest] => change x with (prefix16 h ++ [0]) end.
  assert (Hpl : exists pay, (match pl with
      | Some p => p' ← slice p 0 (payload_len h); Some (Some p')
      | None => Some None end) = Some pay /\ default [] pay = payload_sent h pl
      /\ (pay = None -> payload_len h = 0)).
  { destruct pl as [p|]; cbn in Hp.
    - rewrite slice_ok by lia. cbn. eexists. split; [done|]. done.
    - exists None. unfold payload_sent. cbn. by rewrite take_nil. }
  destruct Hpl as (pay & -> & Hpay & Hnone). cbn [mbind option_bind].
  assert (Hsent : zlen (payload_sent h pl) = payload_len h).
  { unfold payload_sent. destruct pl as [p|]; cbn in Hp |- *.
    - rewrite zlen_take; lia.
    - rewrite take_nil. by rewrite Hp. }
  assert (match pay with
     | Some p => if decide (payload_len h > 0)
                 then blit ((prefix16 h ++ [0]) ++ rest) VMC_PROTO_HEADER_SIZE p
                 else Some ((prefix16 h ++ [0]) ++ rest)
     | None => Some ((prefix16 h ++ [0]) ++ rest) end
     = Some (prefix16 h ++ [0] ++ payload_sent h pl
             ++ drop (Z.to_nat (payload_len h)) rest)) as ->.
  { destruct pay as [p|]; cbn in Hpay; subst.
    - case_decide.
      + rewrite blit_next; [|done|unfold rest; rewrite length_drop; unfold zlen in *; lia].
        rewrite <- !app_assoc. do 4 f_equal. f_equal. unfold zlen in *. lia.
      + assert (payload_sent h pl = []) as -> by (apply length_zero_iff_nil; unfold zlen in *; lia).
        replace (payload_len h) with 0 by lia. by rewrite <- app_assoc.
    - rewrite <- Hpay. rewrite Hnone by done. by rewrite <- app_assoc. }
  cbn [mbind option_bind].
  change (VMC_PROTO_HEADER_SIZE - 1) with (zlen (prefix16 h)).
  rewrite slice_prefix. cbn [mbind option_bind].
  rewrite zset_blit. rewrite (blit_app (prefix16 h) [0]) by done.
  cbn [mbind option_bind]. do 3 f_equal.
  unfold packet. rewrite <- !app_assoc. do 3 f_equal.
  - destruct pay as [p|]; cbn in Hpay; subst; [by rewrite frame_crc_app|].
    rewrite <- Hpay, app_nil_r. done.
  - unfold rest. rewrite drop_drop. f_equal. lia.
Qed.

(** The fields of a datagram's header, read back. *)
Lemma decode_header_app h rest len o :
  header_wf h ->
  vmc_proto_decode_header (Some (prefix16 h ++ [crc h] ++ rest)) len (Some o)
  = Some (if decide (len < 17) then (VMC_ERR_INVALID_ARG, Some o)
          else if vmc_proto_header_valid (Some h) then (VMC_OK, Some h)
          else (VMC_ERR_PROTO, Some o)).
Proof.
  intros (Hm & _ & _ & _ & _ & Hl & Hs & Ht & _). unfold vmc_proto_decode_header.
  unfold VMC_PROTO_HEADER_SIZE. case_decide; [done|].
  set (b := prefix16 h ++ [crc h] ++ rest).
  assert (rd16 b 0 = Some (magic h)) as ->
    by exact (rd16_app [] (magic h) (drop 2 (prefix16 h) ++ [crc h] ++ rest) 0 eq_refl Hm).
  set (fl := [version h; flags h; stream h; reserved h]).
  assert (rd16 b 6 = Some (payload_len h)) as ->
    by exact (rd16_app (bytes16 (magic h) ++ fl) (payload_len h)
                (bytes32 (seq h) ++ bytes32 (ts_us h) ++ [crc h] ++ rest) 6 eq_refl Hl).
  assert (rd32 b 8 = Some (seq h)) as ->
    by exact (rd32_app (bytes16 (magic h) ++ fl ++ bytes16 (payload_len h)) (seq h)
                (bytes32 (ts_us h) ++ [crc h] ++ rest) 8 eq_refl Hs).
  assert (rd32 b 12 = Some (ts_us h)) as ->
    by exact (rd32_app (bytes16 (magic h) ++ fl ++ bytes16 (payload_len h)
                        ++ bytes32 (seq h)) (ts_us h) ([crc h] ++ rest) 12 eq_refl Ht).
  change (zget b 2) with (Some (version h)). change (zget b 3) with (Some (flags h)).
  change (zget b 4) with (Some (stream h)). change (zget b 5) with (Some (reserved h)).
  change (zget b 16) with (Some (crc h)). cbn [mbind option_bind].
  destruct h; cbn [magic version flags stream reserved payload_len seq ts_us crc].
  by destruct (vmc_proto_header_valid _).
Qed.

(** The decision of the decoder on a datagram it can read completely. *)
Definition decode_status (h : vmc_proto_header) (rest : list Z) (len : Z) : vmc_status :=
  if decide (len < 17) then VMC_ERR_INVALID_ARG else
  if negb (vmc_proto_header_valid (Some h)) then VMC_ERR_PROTO else
  if decide (len < 17 + payload_len h) then VMC_ERR_PROTO else
  if decide (crc h <> crc8_update 0 (prefix16 h ++ take (Z.to_nat (payload_len h)) rest))
  then VMC_ERR_CORRUPT else VMC_OK.

Lemma decode_app h rest len :
  header_wf h -> len <= 17 + zlen rest ->
  vmc_proto_decode (Some (prefix16 h ++ [crc h] ++ rest)) len
  = Some (decode_status h rest len,
          if decide (decode_status h rest len = VMC_OK) then Some (h, 17) else None).
Proof.
  intros Hh Hlen. unfold vmc_proto_decode, decode_status. rewrite decode_header_app by done.
  destruct (decide (len < 17)); [done|].
  destruct (vmc_proto_header_valid (Some h)); [|done]. cbn [mbind option_bind negb].
  rewrite decide_False by (intros Hne; by apply Hne).
  unfold VMC_PROTO_HEADER_SIZE. destruct (decide (len < 17 + payload_len h)); [done|].
  change (17 - 1) with (zlen (prefix16 h)). rewrite slice_prefix. cbn [mbind option_bind].
  destruct Hh as (_ & _ & _ & _ & _ & Hl & _).
  assert (slice (prefix16 h ++ [crc h] ++ rest) 17 (payload_len h)
          = Some (take (Z.to_nat (payload_len h)) rest)) as ->.
  { rewrite app_assoc. rewrite slice_ok; [done|lia|lia|].
    rewrite zlen_app. change (zlen (prefix16 h ++ [crc h])) with 17. lia. }
  cbn [mbind option_bind]. rewrite frame_crc_app.
  by destruct (decide (crc h <> _)).
Qed.

Lemma decode_ok_out b len out :
  vmc_proto_decode b len = Some (VMC_OK, out) -> is_Some out.
Proof.
  unfold vmc_proto_decode.
  destruct (vmc_proto_decode_header _ _ _) as [[st oh]|]; cbn [mbind option_bind]; [|done].
  case_decide as Hst; [by intros [= ->]|]. destruct b as [b|], oh as [h|]; try done.
  case_decide; [done|].
  destruct (slice b 0 _); cbn [mbind option_bind]; [|done].
  destruct (slice b _ _); cbn [mbind option_bind]; [|done].
  case_decide; [done|]. by intros [= <-].
Qed.

(** What an accepted datagram looks like. *)
Lemma decode_ok_inv b len h off :
  bytes b -> len <= zlen b ->
  vmc_proto_decode (Some b) len = Some (VMC_OK, Some (h, off)) ->
  header_wf h /\ off = 17 /\ vmc_proto_header_valid (Some h) = true /\
  17 + payload_len h <= len /\
  exists p rest, zlen p = payload_len h /\ b = packet h p ++ rest /\
    crc h = crc8_update 0 (prefix16 h ++ p).
Proof.
  intros Hb Hlen H. destruct (decide (len < 17)) as [|Hl].
  { unfold vmc_proto_decode, vmc_proto_decode_header in H.
    rewrite decide_True in H by (unfold VMC_PROTO_HEADER_SIZE; lia). done. }
  destruct (header_of_bytes b) as (h' & rest & Hwf & ->); [done|lia|].
  rewrite !zlen_app, prefix16_zlen in Hlen. change (zlen [crc h']) with 1 in Hlen.
  rewrite decode_app in H by (done || lia). injection H as Hs Ho.
  rewrite Hs in Ho. cbn in Ho. injection Ho as <- <-.
  unfold decode_status in Hs. rewrite decide_False in Hs by done.
  destruct (vmc_proto_header_valid (Some h')); [|done]. cbn [negb] in Hs.
  case_decide; [done|]. case_decide as Hc; [done|].
  pose proof Hwf as (_ & _ & _ & _ & _ & Hr & _).
  set (p := take (Z.to_nat (payload_len h')) rest) in *.
  split_and!; try done; [lia|].
  exists p, (drop (Z.to_nat (payload_len h')) rest). split_and!; [| |done].
  - unfold p. rewrite zlen_take; lia.
  - unfold packet. rewrite <- Hc, <- !app_assoc. unfold p. by rewrite take_drop.
Qed.

(** ** Properties *)

Lemma packet_split h p rest :
  packet h p ++ rest
  = prefix16 h ++ [crc8_update 0 (prefix16 h ++ p)] ++ (p ++ rest).
Proof. unfold packet. by rewrite <- !app_assoc. Qed.

Lemma packet_header h p rest :
  header_wf h -> bytes p -> exists h', h' = h <| crc := crc8_update 0 (prefix16 h ++ p) |> /\
    header_wf h' /\ prefix16 h' = prefix16 h /\
    packet h p ++ rest = prefix16 h' ++ [crc h'] ++ (p ++ rest).
Proof.
  intros Hh Hp. eexists. split; [done|]. split_and!; [|done|by rewrite packet_split].
  assert (is_byte (crc8_update 0 (prefix16 h ++ p))).
  { apply crc8_update_byte; [auto with vmc|]. apply bytes_app. split; [|done].
    by apply prefix16_bytes. }
  unfold header_wf in *. cbn. tauto.
Qed.

(** A well-formed datagram is accepted whatever follows it in the buffer. *)
Lemma decode_packet h p rest len :
  header_wf h -> vmc_proto_header_valid (Some h) = true -> bytes p ->
  zlen p = payload_len h -> 17 + payload_len h <= len <= 17 + zlen p + zlen rest ->
  vmc_proto_decode (Some (packet h p ++ rest)) len
  = Some (VMC_OK, Some (h <| crc := crc8_update 0 (prefix16 h ++ p) |>, 17)).
Proof.
  intros Hh Hv Hp Hl Hlen. pose proof (zlen_nonneg p).
  destruct (packet_header h p rest Hh Hp) as (h' & Eh & Hwf & Hpre & ->).
  rewrite decode_app by (done || rewrite zlen_app; lia).
  assert (decode_status h' (p ++ rest) len = VMC_OK) as ->.
  { unfold decode_status. subst h'. cbn [payload_len crc upd_field].
    rewrite decide_False by lia.
    change (vmc_proto_header_valid (Some _)) with (vmc_proto_header_valid (Some h)).
    rewrite Hv. cbn [negb]. cbn. rewrite decide_False by lia.
    rewrite take_app_length' by (unfold zlen in *; lia).
    change (prefix16 _) with (prefix16 h).
    by rewrite decide_False by (intros Hne; by apply Hne). }
  by subst.
Qed.

(** C26. Round trip: a valid header and its payload, encoded into a buffer that
    is large enough and decoded from the bytes written (with any bytes after
    them, and any received length that covers them), come back unchanged: the
    decoder returns [VMC_OK], every header field as encoded, and a payload
    pointer to exactly the payload's bytes; the encoder reports the datagram's
    size and touches nothing beyond it. *)
Theorem proto_roundtrip h p buf cap len :
  header_wf h -> vmc_proto_header_valid (Some h) = true -> bytes p ->
  zlen p = payload_len h -> 17 + payload_len h <= cap <= zlen buf ->
  17 + payload_len h <= len <= zlen buf ->
  exists buf' h', vmc_proto_encode (Some buf) cap (Some h) (Some p)
      = Some (17 + payload_len h, Some buf') /\
    vmc_proto_decode (Some buf') len = Some (VMC_OK, Some (h', 17)) /\
    h' <| crc := crc h |> = h /\
    slice buf' 17 (payload_len h') = Some p /\
    zlen buf' = zlen buf /\
    drop (Z.to_nat (17 + payload_len h)) buf' = drop (Z.to_nat (17 + payload_len h)) buf.
Proof.
  intros Hh Hv Hp Hl Hcap Hlen. pose proof (zlen_nonneg p).
  rewrite encode_spec; try done; [|lia|cbn; lia].
  assert (payload_sent h (Some p) = p) as ->.
  { unfold payload_sent. cbn. apply take_ge. unfold zlen in *. lia. }
  eexists _, _. split; [done|].
  assert (Hz : zlen (packet h p) = 17 + payload_len h) by (rewrite packet_zlen; lia).
  split_and!.
  - apply decode_packet; try done. rewrite zlen_drop; lia.
  - by destruct h.
  - change (payload_len (h <| crc := _ |>)) with (payload_len h).
    rewrite packet_split, <- Hl, app_assoc. exact (slice_app (prefix16 h ++ [_]) p _).
  - rewrite zlen_app, zlen_drop by lia. lia.
  - apply drop_app_length'. unfold zlen in *. lia.
Qed.

Definition demo_header : vmc_proto_header :=
  mk_header VMC_PROTO_MAGIC VMC_PROTO_VERSION 6 VMC_PROTO_STREAM_VIDEO 0 3 70000 123456 0.

Lemma proto_roundtrip_witness :
  exists buf' h', vmc_proto_encode (Some (replicate 20 0xAA)) 20 (Some demo_header) (Some [7; 8; 9])
      = Some (20, Some buf') /\
    vmc_proto_decode (Some buf') 20 = Some (VMC_OK, Some (h', 17)) /\
    slice buf' 17 (payload_len h') = Some [7; 8; 9].
Proof.
  destruct (proto_roundtrip demo_header [7; 8; 9] (replicate 20 0xAA) 20 20)
    as (buf' & h' & H1 & H2 & _ & H3 & _); try by_computation; try reflexivity.
  exists buf', h'. split; [exact H1|]. split; [exact H2|exact H3].
Defined.

(** The two length bytes determine the length. *)
Lemma packet_len_field h p rest :
  (packet h p ++ rest) !! 6%nat = Some (payload_len h mod 256) /\
  (packet h p ++ rest) !! 7%nat = Some (payload_len h / 256 mod 256).
Proof. unfold packet, prefix16. rewrite !bytes16_eq. done. Qed.

Lemma packet_len_eq h p rest h' p' rest' k :
  header_wf h -> header_wf h' ->
  packet h' p' ++ rest' = k -> (packet h p ++ rest) !! 6%nat = k !! 6%nat ->
  (packet h p ++ rest) !! 7%nat = k !! 7%nat -> payload_len h' = payload_len h.
Proof.
  intros (_&_&_&_&_&?&_) (_&_&_&_&_&?&_) <-.
  rewrite !(proj1 (packet_len_field _ _ _)), !(proj2 (packet_len_field _ _ _)).
  intros [= E6] [= E7].
  rewrite <- (le16_bytes (payload_len h')), <- (le16_bytes (payload_len h)) by lia.
  congruence.
Qed.

(** A covered byte that changes without changing the checksum did not change. *)
Lemma covered_byte h p cov j b :
  header_wf h -> bytes p -> is_byte b -> (j < length (prefix16 h ++ p))%nat ->
  crc8_update 0 cov = crc8_update 0 (prefix16 h ++ p) ->
  cov = <[j := b]> (prefix16 h ++ p) -> (prefix16 h ++ p) !! j = Some b.
Proof.
  intros Hh Hp Hb Hj Hc ->. apply (crc8_insert _ _ 0); auto with vmc.
  apply bytes_app. split; [by apply prefix16_bytes|done].
Qed.

(** C11. Corruption: when one byte of a well-formed datagram is replaced by any
    other value, the decoder does not accept the result, unless the byte
    belongs to the length field (offsets 6 and 7). *)
Theorem proto_corruption_detected h p i b :
  header_wf h -> bytes p -> zlen p = payload_len h -> is_byte b ->
  (i < length (packet h p))%nat -> i <> 6%nat -> i <> 7%nat ->
  packet h p !! i <> Some b ->
  forall out, vmc_proto_decode (Some (<[i := b]> (packet h p))) (zlen (packet h p))
    <> Some (VMC_OK, out).
Proof.
  intros Hh Hp Hl Hb Hi H6 H7 Hne [[h' off]|] Hd; cycle 1.
  { by apply decode_ok_out in Hd as [? ?]. }
  assert (Hz : zlen (<[i := b]> (packet h p)) = zlen (packet h p))
    by (unfold zlen; by rewrite length_insert).
  pose proof (packet_bytes h p Hh Hp) as Hpb.
  apply decode_ok_inv in Hd; [|by apply Forall_insert|lia].
  destruct Hd as (Hh' & _ & _ & Hlen & p' & rest & Hl' & Heq & Hcrc).
  (* the length field, and so the extent of the checksum, is unchanged *)
  assert (Hpl : payload_len h' = payload_len h).
  { apply (packet_len_eq h p [] h' p' rest (<[i := b]> (packet h p))); try done;
      rewrite app_nil_r; symmetry; by apply list_lookup_insert_ne. }
  assert (rest = []) as ->.
  { apply (f_equal zlen) in Heq. rewrite Hz, zlen_app, !packet_zlen in Heq.
    destruct rest; [done|]. rewrite zlen_cons in Heq. pose proof (zlen_nonneg rest). lia. }
  rewrite app_nil_r in Heq.
  (* split both datagrams into prefix, checksum and payload *)
  assert (Hpre : take 16 (<[i := b]> (packet h p)) = prefix16 h') by (by rewrite Heq).
  assert (Hc16 : (<[i := b]> (packet h p)) !! 16%nat = Some (crc h'))
    by (rewrite Heq, Hcrc; done).
  assert (Hpay : drop 17 (<[i := b]> (packet h p)) = p') by (by rewrite Heq).
  pose proof (fun j => covered_byte h p (prefix16 h' ++ p') j b Hh Hp Hb) as Hcov.
  rewrite <- Hcrc in Hcov.
  set (c0 := crc8_update 0 (prefix16 h ++ p)) in *.
  assert (Hpkt : packet h p = prefix16 h ++ [c0] ++ p) by done.
  destruct (decide (i < 16)%nat); [|destruct (decide (i = 16%nat))].
  - rewrite list_lookup_insert_ne, Hpkt in Hc16 by lia. injection Hc16 as Hc16.
    rewrite drop_insert_lt in Hpay by lia. rewrite take_insert_lt in Hpre by lia.
    apply Hne. rewrite Hpkt, lookup_app_l by (cbn; lia).
    rewrite <- (lookup_app_l (prefix16 h) p) by (cbn; lia).
    apply Hcov; [rewrite length_app; cbn; lia|done|].
    rewrite <- Hpre, <- Hpay, insert_app_l by (cbn; lia). done.
  - subst i. rewrite list_lookup_insert_eq in Hc16 by lia. injection Hc16 as Hc16.
    rewrite drop_insert_lt in Hpay by lia. rewrite take_insert_ge in Hpre by lia.
    apply Hne. rewrite Hpkt. cbn. f_equal. rewrite Hc16, Hcrc, <- Hpre, <- Hpay. done.
  - rewrite list_lookup_insert_ne, Hpkt in Hc16 by lia. injection Hc16 as Hc16.
    rewrite take_insert_ge in Hpre by lia.
    rewrite drop_insert_ge in Hpay by lia.
    rewrite Hpkt, !length_app in Hi. cbn in Hi.
    apply Hne. rewrite Hpkt.
    replace i with (S (16 + (i - 17)))%nat by lia. cbn.
    change (p !! (i - 17)%nat) with ((prefix16 h ++ p) !! (16 + (i - 17))%nat).
    apply Hcov; [rewrite length_app; cbn; lia|done|].
    rewrite <- Hpre, <- Hpay. done.
Qed.

Lemma proto_corruption_detected_witness :
  vmc_proto_decode (Some (<[18%nat := 0xFF]> (packet demo_header [7; 8; 9]))) 20
  <> Some (VMC_OK, None) /\
  fst <$> vmc_proto_decode (Some (<[18%nat := 0xFF]> (packet demo_header [7; 8; 9]))) 20
  = Some VMC_ERR_CORRUPT.
Proof.
  split; [|reflexivity].
  apply (proto_corruption_detected demo_header [7; 8; 9] 18 0xFF); try by_computation; lia.
Defined.

(** Decoding is total, in bounds and canonical. Whatever bytes a buffer
    holds, decoding at most as many as it has never reads outside it and
    returns one of the four documented statuses; [VMC_ERR_INVALID_ARG] exactly
    for less than a header; nothing is delivered on failure; and an accepted
    datagram is the encoding of the delivered header and payload: encoding
    them again gives back the same bytes. *)
Theorem proto_decode_canonical buf len :
  bytes buf -> len <= zlen buf ->
  exists st out, vmc_proto_decode (Some buf) len = Some (st, out) /\
    st ∈ [VMC_OK; VMC_ERR_INVALID_ARG; VMC_ERR_PROTO; VMC_ERR_CORRUPT] /\
    (st = VMC_ERR_INVALID_ARG <-> len < 17) /\
    (st <> VMC_OK -> out = None) /\
    (st = VMC_OK -> exists h p, out = Some (h, 17) /\
       slice buf 17 (payload_len h) = Some p /\ 17 + payload_len h <= len /\
       forall dst cap, 17 + payload_len h <= cap <= zlen dst ->
         vmc_proto_encode (Some dst) cap (Some h) (Some p)
         = Some (17 + payload_len h,
                 Some (take (Z.to_nat (17 + payload_len h)) buf
                       ++ drop (Z.to_nat (17 + payload_len h)) dst))).
Proof.
  intros Hb Hlen. destruct (decide (len < 17)) as [Hl|Hl].
  { exists VMC_ERR_INVALID_ARG, None. split; [|split_and!; try done; set_solver].
    unfold vmc_proto_decode, vmc_proto_decode_header.
    by rewrite decide_True by (unfold VMC_PROTO_HEADER_SIZE; lia). }
  destruct (header_of_bytes buf) as (h & rest & Hwf & ->); [done|lia|].
  pose proof Hlen as Hlen'.
  rewrite !zlen_app, prefix16_zlen in Hlen'. change (zlen [crc h]) with 1 in Hlen'.
  eexists _, _. split; [apply decode_app; [done|lia]|].
  assert (Hr : 0 <= payload_len h < 65536) by (by destruct Hwf as (_&_&_&_&_&?&_)).
  split_and!.
  - unfold decode_status. repeat first [case_decide | case_match]; clear; set_solver.
  - unfold decode_status. rewrite decide_False by done. split; [|lia].
    destruct (negb _); [done|]. by repeat case_decide.
  - intros Hne. by rewrite decide_False.
  - intros Hok. exists h, (take (Z.to_nat (payload_len h)) rest).
    assert (Hd : vmc_proto_decode (Some (prefix16 h ++ [crc h] ++ rest)) len
                 = Some (VMC_OK, Some (h, 17)))
      by (rewrite decode_app by (done || lia); rewrite Hok; done).
    apply decode_ok_inv in Hd as (_ & _ & Hv & Hpl & p & k & Hp & Heq & Hc); [|done|done].
    rewrite packet_split, <- Hc in Heq.
    apply app_inv_head in Heq. injection Heq as ->.
    rewrite take_app_length' by (unfold zlen in *; lia).
    rewrite decide_True by done. split_and!; [done| |done|].
    + rewrite <- Hp, app_assoc. exact (slice_app (prefix16 h ++ [_]) p _).
    + intros dst cap Hcap. rewrite encode_spec; try done; [|lia|cbn; lia].
      unfold payload_sent. cbn [default]. rewrite (take_ge p) by (unfold zlen in *; lia).
      do 4 f_equal. rewrite Hc, <- packet_split.
      rewrite take_app_length'; [done|].
      pose proof (packet_zlen h p). unfold zlen in *. lia.
Qed.

Lemma proto_decode_canonical_witness :
  exists out, vmc_proto_decode (Some (packet demo_header [7; 8; 9])) 20
    = Some (VMC_OK, out) /\ is_Some out.
Proof.
  destruct (proto_decode_canonical (packet demo_header [7; 8; 9]) 20)
    as (st & out & H & _ & _ & _ & Hok); [by_computation|by_computation|].
  assert (st = VMC_OK) as -> by (vm_compute in H; injection H as <- _; reflexivity).
  exists out. split; [exact H|]. destruct (Hok eq_refl) as (h & p & -> & _).
  exists (h, 17). reflexivity.
Defined.

End Proto.
