(* ===== verification/Fragment.v ===== *)
(** * Access-unit fragmentation ([src/video/fragment.c])

    The 4-byte fragment header and the assembler that rebuilds an access unit
    from its chunks. *)

From S2P Require Import Prelude Wire.
Import LE.

Module Frag.

Definition VMC_VIDEO_FRAG_CHUNK : Z := 1400.
Definition VMC_VIDEO_FRAG_LAST : Z := 0x8000.
Definition VMC_VIDEO_FRAG_INDEX_MASK : Z := 0x7FFF.
Definition VMC_VIDEO_AU_MAX : Z := 512 * 1024.

(** ** The fragment header *)

Definition vmc_video_frag_hdr_pack (out : list Z) (frame_id frag_index : Z)
    : option (list Z) :=
  out ← zset out 0 (u8 (Z.land frame_id 0xff));
  out ← zset out 1 (u8 (Z.land (Z.shiftr frame_id 8) 0xff));
  out ← zset out 2 (u8 (Z.land frag_index 0xff));
  zset out 3 (u8 (Z.land (Z.shiftr frag_index 8) 0xff)).

(** The values stored through non-NULL [frame_id], [frag_index], [last]. *)
Definition vmc_video_frag_hdr_unpack (inp : list Z) : option (Z * Z * bool) :=
  b2 ← zget inp 2; b3 ← zget inp 3;
  let idx := u16 (Z.lor b2 (Z.shiftl b3 8)) in
  b0 ← zget inp 0; b1 ← zget inp 1;
  Some (u16 (Z.lor b0 (Z.shiftl b1 8)),
        Z.land idx VMC_VIDEO_FRAG_INDEX_MASK,
        negb (Z.land idx VMC_VIDEO_FRAG_LAST =? 0)).

(** ** The assembler *)

Record vmc_frag_assembler := mk_asm {
  buf : list Z;
  cap : Z;
  frame_id : Z;
  next_index : Z;
  filled : Z;
  started : bool;
}.

#[export] Instance eta_asm : Eta vmc_frag_assembler := fun a =>
  mk_asm (buf a) (cap a) (frame_id a) (next_index a) (filled a) (started a).

Definition vmc_frag_reset (a : vmc_frag_assembler) : vmc_frag_assembler :=
  a <| frame_id := 0 |> <| next_index := 0 |> <| filled := 0 |> <| started := false |>.

Definition vmc_frag_init (a : option vmc_frag_assembler) (b : option (list Z)) (c : Z)
    : vmc_status * option vmc_frag_assembler :=
  match a, b with
  | Some x, Some st =>
    if decide (c = 0 \/ c > VMC_VIDEO_AU_MAX) then (VMC_ERR_INVALID_ARG, a)
    else (VMC_OK, Some (vmc_frag_reset (x <| buf := st |> <| cap := c |>)))
  | _, _ => (VMC_ERR_INVALID_ARG, a)
  end.

(** A chunk of another frame than the one in progress starts a new assembly. *)
Definition start_frame (a : vmc_frag_assembler) (fid : Z) : vmc_frag_assembler :=
  if decide (started a = false \/ fid <> frame_id a)
  then a <| frame_id := fid |> <| next_index := 0 |> <| filled := 0 |> <| started := true |>
  else a.

(** Result: the status, [*out_au_len], the assembler. *)
Definition vmc_frag_feed (a : option vmc_frag_assembler) (fid frag_index : Z)
    (last : bool) (chunk : option (list Z)) (len : Z)
    : option (vmc_status * Z * option vmc_frag_assembler) :=
  match a with
  | None => Some (VMC_ERR_INVALID_ARG, 0, a)
  | Some a0 =>
    if decide (len > 0 /\ chunk = None) then Some (VMC_ERR_INVALID_ARG, 0, a) else
    let a1 := start_frame a0 fid in
    if decide (frag_index <> next_index a1)
    then Some (VMC_ERR_OUT_OF_SYNC, 0, Some (a1 <| started := false |>)) else
    if decide (len > u64 (cap a1 - filled a1))
    then Some (VMC_ERR_OVERRUN, 0, Some (a1 <| started := false |>)) else
    src ← slice (default [] chunk) 0 len;
    b ← blit (buf a1) (filled a1) src;
    let a2 := a1 <| buf := b |> <| filled := u64 (filled a1 + len) |>
                 <| next_index := u16 (next_index a1 + 1) |> in
    if last then Some (VMC_OK, filled a2, Some (a2 <| started := false |>))
    else Some (VMC_OK, 0, Some a2)
  end.

(** ** Feeding a sequence of chunks *)

Record feed_in := mk_feed { f_id : Z; f_index : Z; f_last : bool; f_chunk : list Z }.

Definition feed1 (a : vmc_frag_assembler) (i : feed_in)
    : option (vmc_status * Z * option vmc_frag_assembler) :=
  vmc_frag_feed (Some a) (f_id i) (f_index i) (f_last i)
    (Some (f_chunk i)) (zlen (f_chunk i)).

(** The results of a run, in order, and the final assembler. *)
Fixpoint feed_all (a : vmc_frag_assembler) (ins : list feed_in)
    : option (list (vmc_status * Z) * vmc_frag_assembler) :=
  match ins with
  | [] => Some ([], a)
  | i :: ins =>
    '(st, n, a1) ← feed1 a i; a1 ← a1;
    '(rs, a2) ← feed_all a1 ins; Some ((st, n) :: rs, a2)
  end.

(** ** Invariant *)

Definition asm_wf (a : vmc_frag_assembler) : Prop :=
  0 <= filled a <= cap a /\ cap a <= VMC_VIDEO_AU_MAX /\ cap a <= zlen (buf a) /\
  0 <= next_index a < 65536.

#[export] Instance asm_wf_dec a : Decision (asm_wf a).
Proof. unfold asm_wf. apply _. Defined.

Definition au_bytes (run : list feed_in) : list Z := concat (f_chunk <$> run).

(** Consecutive chunks 0, 1, ... of one frame (the index wraps at 2^16). *)
Definition chunk_run (fid : Z) (run : list feed_in) : Prop :=
  forall j i, run !! j = Some i -> f_id i = fid /\ f_index i = u16 (Z.of_nat j).

(** While a frame is in progress, the buffer holds the chunks of a run that
    ends with the latest chunk of the history. *)
Definition asm_inv (a : vmc_frag_assembler) (hist : list feed_in) : Prop :=
  asm_wf a /\
  (started a = true -> exists pre run, hist = pre ++ run /\
     chunk_run (frame_id a) run /\ Forall (fun k => f_last k = false) run /\ next_index a = u16 (zlen run) /\
     filled a = zlen (au_bytes run) /\
     take (length (au_bytes run)) (buf a) = au_bytes run).

Lemma au_bytes_snoc run i : au_bytes (run ++ [i]) = au_bytes run ++ f_chunk i.
Proof. unfold au_bytes. rewrite fmap_app, concat_app. cbn. by rewrite app_nil_r. Qed.

Lemma chunk_run_nil fid : chunk_run fid [].
Proof. intros j i. by rewrite lookup_nil. Qed.

Lemma chunk_run_snoc fid run i :
  chunk_run fid run -> f_id i = fid -> f_index i = u16 (zlen run) ->
  chunk_run fid (run ++ [i]).
Proof.
  intros Hr Hf Hi j k. destruct (decide (j < length run)%nat).
  - rewrite lookup_app_l by lia. apply Hr.
  - rewrite lookup_app_r by lia. intros Hk.
    assert (j - length run = 0)%nat as E
      by (destruct (j - length run)%nat; [done|done]).
    rewrite E in Hk. injection Hk as <-. split; [done|].
    rewrite Hi. f_equal. unfold zlen. lia.
Qed.

Lemma start_frame_started a fid : started (start_frame a fid) = true.
Proof. unfold start_frame. case_decide; [done|]. destruct (started a); tauto. Qed.

Lemma start_frame_wf a fid : asm_wf a -> asm_wf (start_frame a fid).
Proof. unfold start_frame. case_decide; [|done]. unfold asm_wf. cbn. lia. Qed.

Lemma start_frame_id a fid : frame_id (start_frame a fid) = fid.
Proof. unfold start_frame. case_decide; [done|]. destruct (decide (fid = frame_id a)); [done|tauto]. Qed.

(** After [start_frame] there is a run in progress, empty if the frame is new. *)
Lemma start_frame_inv a hist fid :
  asm_inv a hist ->
  exists pre run, hist = pre ++ run /\ chunk_run fid run /\
    Forall (fun k => f_last k = false) run /\
    next_index (start_frame a fid) = u16 (zlen run) /\
    filled (start_frame a fid) = zlen (au_bytes run) /\
    take (length (au_bytes run)) (buf (start_frame a fid)) = au_bytes run.
Proof.
  intros [Hwf Hs]. unfold start_frame. case_decide as Hd.
  - exists hist, []. rewrite app_nil_r. by split_and!.
  - destruct (started a) eqn:E; [|tauto]. destruct (Hs eq_refl) as (pre & run & H).
    destruct (decide (fid = frame_id a)) as [->|]; [|tauto]. by exists pre, run.
Qed.

(** One chunk: never out of bounds, the invariant is kept, and a delivery is
    the concatenation of the chunks of a complete run. *)
Lemma feed1_inv a hist i :
  asm_inv a hist ->
  exists st n a', feed1 a i = Some (st, n, Some a') /\ asm_inv a' (hist ++ [i]) /\
    st ∈ [VMC_OK; VMC_ERR_OUT_OF_SYNC; VMC_ERR_OVERRUN] /\
    (st = VMC_OK -> f_last i = true -> started a' = false /\
       exists pre run, hist ++ [i] = pre ++ run ++ [i] /\
         chunk_run (f_id i) (run ++ [i]) /\ Forall (fun k => f_last k = false) run /\
         n = zlen (au_bytes (run ++ [i])) /\
         slice (buf a') 0 n = Some (au_bytes (run ++ [i]))) /\
    (st <> VMC_OK \/ f_last i = false -> n = 0).
Proof.
  intros Hinv. pose proof (start_frame_wf a (f_id i) (proj1 Hinv)) as Hwf.
  destruct (start_frame_inv a hist (f_id i) Hinv) as (pre & run & Hh & Hr & Hl0 & Hn & Hf & Hb).
  pose proof (start_frame_id a (f_id i)) as Hid.
  unfold feed1, vmc_frag_feed. rewrite decide_False by (intros [_ ?]; done). cbv zeta.
  set (a1 := start_frame a (f_id i)) in *.
  pose proof Hwf as (Hf1 & Hc1 & Hz1 & Hn1). unfold VMC_VIDEO_AU_MAX in Hc1.
  assert (Hdrop : asm_inv (a1 <| started := false |>) (hist ++ [i])) by (by split).
  destruct (decide (f_index i <> next_index a1)) as [|Hi].
  { eexists _, _, _. split; [done|]. split_and!; try done; clear; set_solver. }
  apply dec_stable in Hi.
  rewrite (u64_small (cap a1 - filled a1)) by lia.
  destruct (decide (zlen (f_chunk i) > cap a1 - filled a1)) as [|Hl].
  { eexists _, _, _. split; [done|]. split_and!; try done; clear; set_solver. }
  pose proof (zlen_nonneg (f_chunk i)).
  change (default [] (Some (f_chunk i))) with (f_chunk i). rewrite slice_ok by lia. cbn [mbind option_bind].
  assert (take (Z.to_nat (zlen (f_chunk i))) (drop (Z.to_nat 0) (f_chunk i)) = f_chunk i)
    as -> by (apply take_ge; unfold zlen; lia).
  destruct (blit_ok (buf a1) (f_chunk i) (filled a1)) as [b Hblit]; [lia|lia|].
  rewrite Hblit. cbn [mbind option_bind].
  rewrite (u64_small (filled a1 + _)) by lia.
  set (a2 := a1 <| buf := b |> <| filled := filled a1 + zlen (f_chunk i) |>
                <| next_index := u16 (next_index a1 + 1) |>).
  destruct (blit_inv _ _ _ _ Hblit) as (_ & _ & Hzb & _).
  assert (Hau : take (length (au_bytes (run ++ [i]))) b = au_bytes (run ++ [i])).
  { rewrite au_bytes_snoc, length_app. unfold blit in Hblit. case_decide; [|done].
    injection Hblit as <-. rewrite Hf. unfold zlen. rewrite Nat2Z.id, Hb.
    rewrite app_assoc. apply take_app_length'. by rewrite length_app. }
  assert (Hwf2 : asm_wf a2).
  { unfold asm_wf, a2, VMC_VIDEO_AU_MAX. cbn. pose proof (u16_range (next_index a1 + 1)). lia. }
  assert (Hrun : chunk_run (f_id i) (run ++ [i]))
    by (apply chunk_run_snoc; [done|done|congruence]).
  assert (Hfill : filled a2 = zlen (au_bytes (run ++ [i])))
    by (rewrite au_bytes_snoc, zlen_app; cbn; lia).
  destruct (f_last i) eqn:Elast; eexists _, _, _; (split; [done|]).
  - split_and!; [by split|clear; set_solver| |by intros [?|?]].
    intros _ _. split; [done|]. exists pre, run.
    split_and!; [by rewrite Hh, app_assoc|done|done|done|].
    rewrite Hfill. rewrite slice_ok; [|lia|apply zlen_nonneg|].
    + cbn [Z.to_nat drop]. f_equal. unfold zlen. rewrite Nat2Z.id. exact Hau.
    + rewrite <- Hfill. cbn. lia.
  - split_and!; [|clear; set_solver|done|done].
    split; [done|]. intros _. exists pre, (run ++ [i]).
    split_and!; [by rewrite Hh, app_assoc| | | |done|done].
    + unfold a2. cbn. by rewrite Hid.
    + apply Forall_app. split; [done|]. by apply Forall_singleton.
    + cbn. rewrite Hn, zlen_app. change (zlen [i]) with 1. unfold u16.
      Z.div_mod_to_equations. lia.
Qed.

Lemma init_inv a st c a0 :
  vmc_frag_init (Some a) (Some st) c = (VMC_OK, Some a0) ->
  0 <= c <= zlen st -> asm_inv a0 [] /\ started a0 = false.
Proof.
  unfold vmc_frag_init. case_decide as Hd; [done|]. intros [= <-] Hc.
  split; [|done]. split; [|done]. unfold asm_wf, VMC_VIDEO_AU_MAX in *. cbn. lia.
Qed.

Lemma feed_all_inv ins : forall a hist,
  asm_inv a hist ->
  exists rs a', feed_all a ins = Some (rs, a') /\ asm_inv a' (hist ++ ins) /\
    length rs = length ins.
Proof.
  induction ins as [|i ins IH]; intros a hist Hinv; cbn [feed_all].
  - exists [], a. by rewrite app_nil_r.
  - destruct (feed1_inv a hist i Hinv) as (st & n & a1 & -> & Hinv1 & _).
    cbn [mbind option_bind].
    destruct (IH a1 (hist ++ [i]) Hinv1) as (rs & a2 & -> & Hinv2 & Hl).
    cbn [mbind option_bind]. eexists _, _. split; [done|].
    rewrite <- app_assoc in Hinv2. split; [done|]. cbn. by rewrite Hl.
Qed.

(** A chunk that is expected and fits is appended. *)
Lemma feed1_accept a i :
  asm_wf a -> f_index i = next_index (start_frame a (f_id i)) ->
  filled (start_frame a (f_id i)) + zlen (f_chunk i) <= cap a ->
  let a1 := start_frame a (f_id i) in
  exists b, blit (buf a) (filled a1) (f_chunk i) = Some b /\
  let a2 := a1 <| buf := b |> <| filled := filled a1 + zlen (f_chunk i) |>
               <| next_index := u16 (next_index a1 + 1) |> in
  feed1 a i = Some (VMC_OK, if f_last i then filled a2 else 0,
                    Some (if f_last i then a2 <| started := false |> else a2)) /\
  asm_wf a2.
Proof.
  intros Hwf0 Hi Hl a1. pose proof (start_frame_wf a (f_id i) Hwf0) as Hwf.
  fold a1 in Hi, Hl, Hwf. pose proof Hwf as (Hf1 & Hc1 & Hz1 & Hn1).
  unfold VMC_VIDEO_AU_MAX in Hc1. pose proof (zlen_nonneg (f_chunk i)).
  assert (Hcap : cap a1 = cap a) by (unfold a1, start_frame; by case_decide).
  assert (Hbuf : buf a1 = buf a) by (unfold a1, start_frame; by case_decide).
  unfold feed1, vmc_frag_feed. rewrite decide_False by (intros [_ ?]; done). cbv zeta.
  fold a1. rewrite decide_False by (intros Hne; by apply Hne).
  rewrite (u64_small (cap a1 - filled a1)) by lia. rewrite decide_False by lia.
  change (default [] (Some (f_chunk i))) with (f_chunk i). rewrite slice_ok by lia. cbn [mbind option_bind].
  assert (take (Z.to_nat (zlen (f_chunk i))) (drop (Z.to_nat 0) (f_chunk i)) = f_chunk i)
    as -> by (apply take_ge; unfold zlen; lia).
  destruct (blit_ok (buf a1) (f_chunk i) (filled a1)) as [b Hb]; [lia|lia|].
  rewrite Hb. cbn [mbind option_bind]. rewrite (u64_small (filled a1 + _)) by lia.
  exists b. split; [by rewrite <- Hbuf|]. split; [by destruct (f_last i)|].
  destruct (blit_inv _ _ _ _ Hb) as (_ & _ & Hzb & _).
  unfold asm_wf, VMC_VIDEO_AU_MAX. cbn. pose proof (u16_range (next_index a1 + 1)). lia.
Qed.

(** The chunks [cs] of frame [fid] from index [j], the last one marked. *)
Fixpoint au_feeds (fid : Z) (j : Z) (cs : list (list Z)) : list feed_in :=
  match cs with
  | [] => []
  | c :: cs => mk_feed fid (u16 j) (bool_decide (cs = [])) c :: au_feeds fid (j + 1) cs
  end.

Lemma feed_rest fid cs : forall a j done_,
  asm_wf a -> started a = true -> frame_id a = fid -> next_index a = u16 j ->
  take (length done_) (buf a) = done_ -> filled a = zlen done_ ->
  cs <> [] -> zlen (done_ ++ concat cs) <= cap a ->
  exists a', feed_all a (au_feeds fid j cs)
    = Some (replicate (length cs - 1) (VMC_OK, 0)
            ++ [(VMC_OK, zlen (done_ ++ concat cs))], a') /\
    started a' = false /\
    slice (buf a') 0 (zlen (done_ ++ concat cs)) = Some (done_ ++ concat cs) /\
    asm_wf a' /\ cap a' = cap a.
Proof.
  induction cs as [|c cs IH]; intros a j done_ Hwf Hst Hid Hj Hb Hf Hne Hcap; [done|].
  assert (Hsf : start_frame a fid = a).
  { unfold start_frame. rewrite decide_False; [done|]. rewrite Hst. intros [?|?]; done. }
  set (i := mk_feed fid (u16 j) (bool_decide (cs = [])) c).
  cbn [concat] in Hcap |- *. rewrite app_assoc, zlen_app in Hcap.
  pose proof (zlen_nonneg (concat cs)).
  destruct (feed1_accept a i) as (b & Hblit & Hf1 & Hwf2); [done|cbn; by rewrite Hsf| |].
  { cbn. rewrite Hsf, Hf. rewrite zlen_app in Hcap. lia. }
  change (f_id i) with fid in Hblit, Hf1, Hwf2. rewrite Hsf in Hblit, Hf1, Hwf2.
  cbn [au_feeds feed_all]. fold i. rewrite Hf1. cbn [mbind option_bind].
  assert (Hb2 : take (length (done_ ++ c)) b = done_ ++ c).
  { unfold blit in Hblit. case_decide; [|done]. injection Hblit as <-.
    change (f_chunk i) with c. rewrite Hf. unfold zlen. rewrite Nat2Z.id, Hb, app_assoc.
    by apply take_app_length. }
  change (f_last i) with (bool_decide (cs = [])). case_bool_decide as Hcs.
  - subst cs. cbn. eexists. rewrite app_nil_r.
    split; [by rewrite Hf, zlen_app|]. split; [done|]. split; [|split; [rewrite Hf in Hwf2; exact Hwf2|done]].
    rewrite slice_ok; [|lia|apply zlen_nonneg|].
    + cbn. rewrite <- Hb2 at 2. f_equal. unfold zlen. by rewrite Nat2Z.id.
    + destruct Hwf2 as (_ & _ & Hz & _). cbn in Hz |- *.
      change (zlen (concat [])) with 0 in Hcap. lia.
  - match goal with |- context [feed_all ?x _] => set (a2 := x) in * end.
    destruct (IH a2 (j + 1) (done_ ++ c)) as (a' & Hrun & Hs' & Hsl & Hw' & Hc'); try done.
    + cbn. rewrite Hj. unfold u16. Z.div_mod_to_equations. lia.
    + cbn. rewrite Hf, zlen_app. done.
    + rewrite zlen_app. cbn. lia.
    + rewrite Hrun. cbn [mbind option_bind]. exists a'.
      rewrite <- app_assoc in *. split_and!; try done.
      do 3 f_equal. destruct cs; [done|]. cbn. by rewrite Nat.sub_0_r.
Qed.

(** ** Properties *)

(** C8. Integrity of delivered access units: whatever chunks arrive in
    whatever order (lost, duplicated, reordered, of any frame), the assembler
    never writes outside its buffer; it reports a non-zero length only for a
    chunk marked last, and then the buffer holds exactly the concatenation of
    the latest consecutive chunks 0, 1, ..., n of that one frame, none of the
    earlier ones marked last. *)
Theorem frag_delivers_whole_runs a st c a0 hist i :
  vmc_frag_init (Some a) (Some st) c = (VMC_OK, Some a0) -> 0 <= c <= zlen st ->
  exists rs a1 r n a2,
    feed_all a0 hist = Some (rs, a1) /\ feed1 a1 i = Some (r, n, Some a2) /\
    r ∈ [VMC_OK; VMC_ERR_OUT_OF_SYNC; VMC_ERR_OVERRUN] /\
    (r <> VMC_OK \/ f_last i = false -> n = 0) /\
    (r = VMC_OK -> f_last i = true ->
       exists pre run, hist ++ [i] = pre ++ run ++ [i] /\
         chunk_run (f_id i) (run ++ [i]) /\ Forall (fun k => f_last k = false) run /\
         n = zlen (au_bytes (run ++ [i])) /\
         slice (buf a2) 0 n = Some (au_bytes (run ++ [i]))).
Proof.
  intros Hi Hc. destruct (init_inv a st c a0 Hi Hc) as [Hinv _].
  destruct (feed_all_inv hist a0 [] Hinv) as (rs & a1 & Hrun & Hinv1 & _).
  destruct (feed1_inv a1 hist i Hinv1) as (r & n & a2 & Hf & _ & Hr & Hd & Hn).
  exists rs, a1, r, n, a2. split_and!; try done. intros H1 H2. by apply Hd.
Qed.

Definition demo_asm : vmc_frag_assembler := mk_asm (replicate 8 0) 8 0 0 0 false.

(** Chunk 0 of frame 5 is lost once, then the frame is sent again. *)
Definition demo_hist : list feed_in :=
  [mk_feed 5 1 true [9]; mk_feed 5 0 false [1; 2]; mk_feed 5 1 false [3]].

Lemma frag_delivers_whole_runs_witness :
  exists a2, feed1 (mk_asm [1; 2; 3; 0; 0; 0; 0; 0] 8 5 2 3 true) (mk_feed 5 2 true [4; 5])
    = Some (VMC_OK, 5, Some a2) /\ slice (buf a2) 0 5 = Some [1; 2; 3; 4; 5].
Proof.
  destruct (frag_delivers_whole_runs demo_asm (replicate 8 0) 8 demo_asm demo_hist
              (mk_feed 5 2 true [4; 5])) as (rs & a1 & r & n & a2 & H1 & H2 & _ & _ & H3).
  - reflexivity.
  - vm_compute. split; discriminate.
  - vm_compute in H1. injection H1 as <- <-.
    exists a2. vm_compute in H2. injection H2 as <- <- <-.
    split; reflexivity.
Defined.

(** Completeness: the chunks 0, 1, ..., n of one frame, fed in order to any
    assembler that has no chunk of that frame in progress and room for the
    frame, are all accepted, and the last one delivers exactly their
    concatenation. *)
Theorem frag_reassembles fid cs a :
  asm_wf a -> started a = false \/ frame_id a <> fid -> cs <> [] ->
  zlen (concat cs) <= cap a ->
  exists a', feed_all a (au_feeds fid 0 cs)
    = Some (replicate (length cs - 1) (VMC_OK, 0) ++ [(VMC_OK, zlen (concat cs))], a') /\
    started a' = false /\ slice (buf a') 0 (zlen (concat cs)) = Some (concat cs) /\
    asm_wf a' /\ cap a' = cap a.
Proof.
  intros Hwf Hnew Hne Hcap.
  set (a0 := start_frame a fid).
  assert (Ha0 : a0 = a <| frame_id := fid |> <| next_index := 0 |> <| filled := 0 |>
                       <| started := true |>).
  { unfold a0, start_frame. rewrite decide_True; [done|]. destruct Hnew; auto. }
  destruct (feed_rest fid cs a0 0 []) as (a' & Hrun & Hs & Hsl & Hw' & Hc'); try done.
  { by apply start_frame_wf. }
  all: try by rewrite Ha0.
  rewrite Ha0 in Hc'.
  exists a'. split_and!; try done. cbn [app] in Hrun. rewrite <- Hrun.
  (* the first chunk meets the same assembler either way *)
  destruct cs as [|c cs]; [done|]. cbn [au_feeds feed_all].
  assert (start_frame a0 fid = start_frame a fid) as Hss.
  { unfold start_frame at 1. rewrite decide_False; [done|]. rewrite Ha0. cbn. intros [?|?]; done. }
  unfold feed1, vmc_frag_feed. cbn [f_id f_index f_last f_chunk].
  destruct (decide (zlen c > 0 /\ Some c = None)) as [[_ ?]|_]; [done|].
  by rewrite Hss.
Qed.

Lemma frag_reassembles_witness :
  exists a', feed_all demo_asm (au_feeds 5 0 [[1; 2]; [3]; [4; 5]])
    = Some ([(VMC_OK, 0); (VMC_OK, 0); (VMC_OK, 5)], a') /\
    slice (buf a') 0 5 = Some [1; 2; 3; 4; 5].
Proof.
  destruct (frag_reassembles 5 [[1; 2]; [3]; [4; 5]] demo_asm) as (a' & H1 & _ & H2 & _).
  - apply (bool_decide_unpack _). vm_compute. exact I.
  - left. reflexivity.
  - discriminate.
  - vm_compute. discriminate.
  - exists a'. split; [exact H1|exact H2].
Defined.

(** The fragment header round-trips: for a 16-bit frame id, a 15-bit chunk
    index and the last-chunk mark, packing [index | 0x8000 if last] into any
    buffer of four bytes or more and unpacking it gives the three values back,
    and the rest of the buffer is untouched. *)
Theorem frag_header_roundtrip out fid idx (last : bool) :
  0 <= fid < 65536 -> 0 <= idx < 32768 -> 4 <= zlen out ->
  exists out', vmc_video_frag_hdr_pack out fid
      (Z.lor idx (if last then VMC_VIDEO_FRAG_LAST else 0)) = Some out' /\
    vmc_video_frag_hdr_unpack out' = Some (fid, idx, last) /\
    drop 4 out' = drop 4 out.
Proof.
  intros Hf Hi Ho.
  destruct out as [|b0 [|b1 [|b2 [|b3 out]]]]; try (unfold zlen in Ho; cbn in Ho; lia).
  set (w := Z.lor idx _).
  assert (Hw : w = idx + (if last then 1 else 0) * 2 ^ 15).
  { unfold w. rewrite <- (lor_shiftl_add idx _ 15) by lia. by destruct last. }
  assert (Hpow : 2 ^ 15 = 32768) by done.
  exists (bytes16 fid ++ bytes16 w ++ out). split; [|split; [|done]].
  - unfold vmc_video_frag_hdr_pack. rewrite !zset_blit.
    change (b0 :: b1 :: b2 :: b3 :: out) with ([] ++ [b0; b1; b2; b3] ++ out).
    assert (4 <= length ([b0; b1; b2; b3] ++ out))%nat by (cbn; lia).
    do 4 (rewrite ?zset_blit; rewrite blit_next;
          [|reflexivity|rewrite ?length_drop; cbn [length] in *; lia];
          cbn [mbind option_bind]). rewrite !drop_drop. done.
  - unfold vmc_video_frag_hdr_unpack. rewrite !bytes16_eq. cbn [app].
    rewrite zget_0, zget_1, zget_2, zget_3. cbn [mbind option_bind].
    rewrite !rd16_le by (apply Z.mod_pos_bound; lia).
    rewrite !le16_bytes by (destruct last; lia). do 2 f_equal; [f_equal|].
    + change VMC_VIDEO_FRAG_INDEX_MASK with (2 ^ 15 - 1). rewrite (land_ones_mod w 15) by lia.
      rewrite Hw, Hpow, Z.mod_add by lia. apply Z.mod_small. lia.
    + assert (Z.land w VMC_VIDEO_FRAG_LAST = if last then VMC_VIDEO_FRAG_LAST else 0) as ->;
        [|by destruct last].
      unfold w. rewrite Z.land_lor_distr_l.
      assert (Z.land idx VMC_VIDEO_FRAG_LAST = 0) as ->; [|by destruct last].
      change VMC_VIDEO_FRAG_LAST with (2 ^ 15). apply Z.bits_inj'. intros n Hn.
      rewrite Z.land_spec, Z.bits_0, Z.pow2_bits_eqb by lia.
      destruct (decide (n = 15)) as [->|]; [|rewrite (proj2 (Z.eqb_neq 15 n)) by done; apply andb_false_r].
      rewrite <- (Z.mod_small idx (2 ^ 15)) by lia. by rewrite Z.mod_pow2_bits_high by lia.
Qed.

Lemma frag_header_roundtrip_witness :
  exists out', vmc_video_frag_hdr_pack [0; 0; 0; 0; 7] 4660 (Z.lor 3 VMC_VIDEO_FRAG_LAST)
    = Some out' /\ vmc_video_frag_hdr_unpack out' = Some (4660, 3, true).
Proof.
  destruct (frag_header_roundtrip [0; 0; 0; 0; 7] 4660 3 true) as (o & H1 & H2 & _);
    [lia|lia|vm_compute; discriminate|].
  exists o. split; [exact H1|exact H2].
Defined.

End Frag.
