(* ===== verification/JitterBuffer.v ===== *)
(** * The jitter buffer ([src/transport/jitter_buffer.c])

    256 packet slots ordered by wrapping 32-bit sequence numbers, released
    once they are [target_delay_us] old. *)

From Stdlib Require Import Sorted.
From S2P Require Import Prelude.

Module JB.

Definition VMC_JB_MAX_SLOTS : Z := 256.
Definition VMC_JB_PAYLOAD_CAP : Z := 1408.

(** ** State *)

(** [payload] tells whether the pointer designates the slot's own storage
    (the only non-NULL value it takes). *)
Record vmc_jb_slot := mk_slot {
  seq : Z;
  ts_us : Z;
  flags : Z;
  stream : Z;
  len : Z;
  recv_us : Z;
  payload : bool;
  storage : list Z;
  valid : bool;
}.

#[export] Instance eta_slot : Eta vmc_jb_slot := fun s =>
  mk_slot (seq s) (ts_us s) (flags s) (stream s) (len s) (recv_us s) (payload s)
    (storage s) (valid s).

Record vmc_jitter_buffer := mk_jb {
  slots : list vmc_jb_slot;
  next_seq : Z;
  target_delay_us : Z;
  stats_pushed : Z;
  stats_played : Z;
  stats_dropped_late : Z;
  stats_dropped_dupe : Z;
  stats_gaps : Z;
}.

#[export] Instance eta_jb : Eta vmc_jitter_buffer := fun j =>
  mk_jb (slots j) (next_seq j) (target_delay_us j) (stats_pushed j)
    (stats_played j) (stats_dropped_late j) (stats_dropped_dupe j) (stats_gaps j).

(** The all-zero objects that [memset] leaves. *)
Definition slot_zero : vmc_jb_slot :=
  mk_slot 0 0 0 0 0 0 false (replicate (Z.to_nat VMC_JB_PAYLOAD_CAP) 0) false.
Definition jb_zero : vmc_jitter_buffer :=
  mk_jb (replicate (Z.to_nat VMC_JB_MAX_SLOTS) slot_zero) 0 0 0 0 0 0 0.

(** ** Operations *)

Definition vmc_jb_init (jb : option vmc_jitter_buffer) (target : Z)
    : vmc_status * option vmc_jitter_buffer :=
  match jb with
  | None => (VMC_ERR_INVALID_ARG, None)
  | Some _ => (VMC_OK, Some (jb_zero <| target_delay_us := target |>))
  end.

Definition vmc_jb_reset (jb : vmc_jitter_buffer) (first_seq : Z) : vmc_jitter_buffer :=
  jb_zero <| next_seq := first_seq |>.

Definition seq_cmp (a b : Z) : Z := i32 (u32 (a - b)).

(** The index of the first slot that satisfies [p], as the C scans do. *)
Fixpoint first_slot (p : vmc_jb_slot -> bool) (l : list vmc_jb_slot) : option nat :=
  match l with
  | [] => None
  | s :: l => if p s then Some 0%nat else S <$> first_slot p l
  end.

Definition find_slot (jb : vmc_jitter_buffer) (sq : Z) : option nat :=
  first_slot (fun s => valid s && (seq s =? sq)) (slots jb).

Definition vmc_jb_push (jb : option vmc_jitter_buffer) (sq ts st fl : Z)
    (pl : option (list Z)) (ln recv : Z)
    : option (vmc_status * option vmc_jitter_buffer) :=
  match jb with
  | None => Some (VMC_ERR_INVALID_ARG, jb)
  | Some j =>
    if decide (ln > 0 /\ pl = None) then Some (VMC_ERR_INVALID_ARG, jb) else
    let j := if decide (stats_pushed j = 0) then j <| next_seq := sq |> else j in
    match find_slot j sq with
    | Some _ =>
      Some (VMC_ERR_AGAIN,
            Some (j <| stats_dropped_dupe := u64 (stats_dropped_dupe j + 1) |>))
    | None =>
      let fwd := seq_cmp sq (next_seq j) in
      if decide (fwd >= VMC_JB_MAX_SLOTS \/ fwd <= - VMC_JB_MAX_SLOTS)
      then Some (VMC_ERR_OUT_OF_SYNC,
                 Some (j <| stats_dropped_late := u64 (stats_dropped_late j + 1) |>))
      else
      match first_slot (fun s => negb (valid s)) (slots j) with
      | None =>
        Some (VMC_ERR_OVERRUN,
              Some (j <| stats_dropped_late := u64 (stats_dropped_late j + 1) |>))
      | Some i =>
        s ← slots j !! i;
        let s := s <| seq := sq |> <| ts_us := ts |> <| flags := fl |>
                   <| stream := st |> <| len := ln |> <| recv_us := recv |>
                   <| valid := true |> in
        s ← (if decide (ln > 0)
             then let cap := if decide (ln < VMC_JB_PAYLOAD_CAP)
                             then ln else VMC_JB_PAYLOAD_CAP in
                  src ← slice (default [] pl) 0 cap;
                  sto ← blit (storage s) 0 src;
                  Some (s <| storage := sto |> <| len := u16 cap |>)
             else Some s);
        let s := s <| payload := true |> in
        Some (VMC_OK, Some (j <| slots := <[i := s]> (slots j) |>
                              <| stats_pushed := u64 (stats_pushed j + 1) |>))
      end
    end
  end.

(** The first loop of [vmc_jb_peek]: the earliest sequence number and the
    latest arrival among the valid slots; ties keep the first. *)
Fixpoint scan_slots (l : list vmc_jb_slot) (i : nat)
    (mn nw : option (nat * vmc_jb_slot)) : option (nat * vmc_jb_slot) * option (nat * vmc_jb_slot) :=
  match l with
  | [] => (mn, nw)
  | s :: l =>
    if negb (valid s) then scan_slots l (S i) mn nw else
    let mn := match mn with
              | None => Some (i, s)
              | Some (_, m) => if decide (seq_cmp (seq s) (seq m) < 0)
                               then Some (i, s) else mn
              end in
    let nw := match nw with
              | None => Some (i, s)
              | Some (_, m) => if decide (recv_us s > recv_us m)
                               then Some (i, s) else nw
              end in
    scan_slots l (S i) mn nw
  end.

(** [now_us - recv_us >= target_delay_us], on 64-bit unsigned integers. *)
Definition aged (j : vmc_jitter_buffer) (now : Z) (s : vmc_jb_slot) : bool :=
  bool_decide (u64 (now - recv_us s) >= target_delay_us j).

(** The returned slot (its index) and the buffer. Every path of the C loop
    body returns, so its second iteration is never reached. *)
Definition vmc_jb_peek (jb : option vmc_jitter_buffer) (now : Z)
    : option nat * option vmc_jitter_buffer :=
  match jb with
  | None => (None, jb)
  | Some j =>
    match scan_slots (slots j) 0 None None with
    | (Some (i, mn), Some (_, nw)) =>
      if decide (seq_cmp (seq mn) (next_seq j) < 0) then
        if aged j now mn then (Some i, Some (j <| next_seq := seq mn |>))
        else (None, jb)
      else if decide (seq_cmp (seq mn) (next_seq j) > 0) then
        if aged j now nw then
          let j := j <| stats_gaps := u64 (stats_gaps j + u32 (seq mn - next_seq j)) |>
                     <| next_seq := seq mn |> in
          if aged j now mn then (Some i, Some j) else (None, Some j)
        else (None, jb)
      else if aged j now mn then (Some i, jb) else (None, jb)
    | _ => (None, jb)
    end
  end.

Definition vmc_jb_consume (jb : vmc_jitter_buffer) : vmc_jitter_buffer :=
  match find_slot jb (next_seq jb) with
  | None => jb
  | Some i =>
    jb <| slots := alter (fun s => s <| valid := false |>) i (slots jb) |>
       <| next_seq := u32 (next_seq jb + 1) |>
       <| stats_played := u64 (stats_played jb + 1) |>
  end.

Definition vmc_jb_flush_before (jb : vmc_jitter_buffer) (sq : Z) : vmc_jitter_buffer :=
  let jb := jb <| slots := (fun s => if decide (valid s = true /\ seq_cmp (seq s) sq < 0)
                                     then s <| valid := false |> else s) <$> slots jb |> in
  if decide (seq_cmp sq (next_seq jb) > 0) then jb <| next_seq := sq |> else jb.

Definition vmc_jb_estimate_jitter_us (jb : vmc_jitter_buffer) : Z := 0.

(** ** Invariant *)

Definition slot_wf (s : vmc_jb_slot) : Prop :=
  zlen (storage s) = VMC_JB_PAYLOAD_CAP /\ 0 <= seq s < 4294967296 /\
  0 <= len s <= VMC_JB_PAYLOAD_CAP /\
  (valid s = true -> payload s = true).

(** 256 slots, no sequence number buffered twice. *)
Record jb_wf (j : vmc_jitter_buffer) : Prop := {
  wf_slots : zlen (slots j) = VMC_JB_MAX_SLOTS;
  wf_slot : Forall slot_wf (slots j);
  wf_next : 0 <= next_seq j < 4294967296;
  wf_nodup : forall i k s t, slots j !! i = Some s -> slots j !! k = Some t ->
    valid s = true -> valid t = true -> seq s = seq t -> i = k;
}.

Lemma first_slot_Some p l : forall i,
  first_slot p l = Some i ->
  (exists s, l !! i = Some s /\ p s = true) /\
  forall k s, (k < i)%nat -> l !! k = Some s -> p s = false.
Proof.
  induction l as [|x l IH]; intros i; cbn; [done|]. destruct (p x) eqn:Ex.
  - intros [= <-]. split; [by exists x|]. lia.
  - destruct (first_slot p l) as [k|]; cbn; [|done]. intros [= <-].
    destruct (IH k eq_refl) as [[s [H1 H2]] H3]. split; [by exists s|].
    intros [|m] t Hm Ht; cbn in Ht; [by simplify_eq|]. apply (H3 m); [lia|done].
Qed.

Lemma first_slot_None p l :
  first_slot p l = None -> forall k s, l !! k = Some s -> p s = false.
Proof.
  induction l as [|x l IH]; cbn; [done|]. destruct (p x) eqn:Ex; [done|].
  destruct (first_slot p l); cbn; [done|]. intros _ [|k] s Hk; cbn in Hk; [by simplify_eq|].
  by eapply IH.
Qed.

Lemma find_slot_Some j sq i :
  find_slot j sq = Some i ->
  exists s, slots j !! i = Some s /\ valid s = true /\ seq s = sq.
Proof.
  intros [(s & H1 & H2) _]%first_slot_Some. exists s.
  apply andb_true_iff in H2 as [? ?%Z.eqb_eq]. done.
Qed.

Lemma find_slot_None j sq i s :
  find_slot j sq = None -> slots j !! i = Some s -> valid s = true -> seq s <> sq.
Proof.
  intros Hn Hi Hv Heq. apply (first_slot_None _ _ Hn) in Hi.
  rewrite Hv, Heq, Z.eqb_refl in Hi. done.
Qed.

(** The slot of a buffered sequence number is the one the scan finds. *)
Lemma find_slot_wf j i s :
  jb_wf j -> slots j !! i = Some s -> valid s = true -> find_slot j (seq s) = Some i.
Proof.
  intros Hwf Hi Hv. destruct (find_slot j (seq s)) as [k|] eqn:E.
  - apply find_slot_Some in E as (t & Hk & Hvt & Hst). f_equal.
    by eapply (wf_nodup j Hwf).
  - by apply (find_slot_None _ _ i s E) in Hv.
Qed.

Lemma jb_init_wf jb t j : vmc_jb_init jb t = (VMC_OK, Some j) -> jb_wf j.
Proof.
  unfold vmc_jb_init. destruct jb; [|done]. intros [= <-]. split; cbn [slots upd_field].
  - done.
  - apply (bool_decide_unpack _). vm_compute. exact I.
  - done.
  - intros i k s ? (? & ?)%lookup_replicate_1 _ Hv. by subst.
Qed.

(** ** Pushing *)

Definition buffered (j : vmc_jitter_buffer) (sq : Z) : Prop :=
  exists i s, slots j !! i = Some s /\ valid s = true /\ seq s = sq.

Definition rebase (j : vmc_jitter_buffer) (sq : Z) : vmc_jitter_buffer :=
  if decide (stats_pushed j = 0) then j <| next_seq := sq |> else j.

Definition in_window (j : vmc_jitter_buffer) (sq : Z) : Prop :=
  - VMC_JB_MAX_SLOTS < seq_cmp sq (next_seq (rebase j sq)) < VMC_JB_MAX_SLOTS.

(** The slot that holds a stored packet. *)
Definition holds (s : vmc_jb_slot) (sq ts st fl : Z) (p : list Z) (ln recv : Z) : Prop :=
  seq s = sq /\ ts_us s = ts /\ stream s = st /\ flags s = fl /\ recv_us s = recv /\
  valid s = true /\ payload s = true /\ len s = Z.min ln VMC_JB_PAYLOAD_CAP /\
  slice (storage s) 0 (len s) = Some (take (Z.to_nat (len s)) p).

Lemma rebase_slots j sq : slots (rebase j sq) = slots j.
Proof. unfold rebase. by case_decide. Qed.

Lemma rebase_wf j sq : jb_wf j -> 0 <= sq < 4294967296 -> jb_wf (rebase j sq).
Proof.
  intros [H1 H2 Hn H3] Hsq. split; rewrite ?rebase_slots; try done.
  unfold rebase. by case_decide.
Qed.

Lemma same_slots_wf j j' :
  jb_wf j -> slots j' = slots j -> 0 <= next_seq j' < 4294967296 -> jb_wf j'.
Proof. intros [H1 H2 Hn H3] E ?. split; by rewrite ?E. Qed.

(** Sequence numbers of valid slots: where the two orders agree. *)
Lemma seq_cmp_zero x y :
  0 <= x < 4294967296 -> 0 <= y < 4294967296 ->
  ~ seq_cmp x y < 0 -> ~ seq_cmp x y > 0 -> x = y.
Proof. unfold seq_cmp. wrap_lia. Qed.

Lemma insert_slot_wf j i s :
  jb_wf j -> slot_wf s -> ~ buffered j (seq s) -> jb_wf (j <| slots := <[i := s]> (slots j) |>).
Proof.
  intros [H1 H2 Hn H3] Hs Hnb. split; cbn [slots upd_field].
  - unfold zlen. by rewrite length_insert.
  - by apply Forall_insert.
  - done.
  - intros k m t u Hk Hm Hvt Hvu Heq.
    apply list_lookup_insert_Some in Hk as [(? & ? & ?)|[? Hk]];
      apply list_lookup_insert_Some in Hm as [(? & ? & ?)|[? Hm]]; subst; try done.
    + destruct Hnb. by exists m, u.
    + destruct Hnb. by exists k, t.
    + by eapply H3.
Qed.

(** Storing the payload into a free slot. *)
Lemma store_payload s ln p :
  zlen (storage s) = VMC_JB_PAYLOAD_CAP -> 0 <= ln < 65536 -> ln <= zlen p -> len s = ln ->
  exists s', (if decide (ln > 0)
     then let cap := if decide (ln < VMC_JB_PAYLOAD_CAP) then ln else VMC_JB_PAYLOAD_CAP in
          src ← slice (default [] (Some p)) 0 cap;
          sto ← blit (storage s) 0 src;
          Some (s <| storage := sto |> <| len := u16 cap |>)
     else Some s) = Some s' /\
    s' = s <| storage := storage s' |> <| len := len s' |> /\
    zlen (storage s') = VMC_JB_PAYLOAD_CAP /\ len s' = Z.min ln VMC_JB_PAYLOAD_CAP /\
    slice (storage s') 0 (len s') = Some (take (Z.to_nat (len s')) p).
Proof.
  intros Hsto Hln Hp Hlen. unfold VMC_JB_PAYLOAD_CAP in *. case_decide as H0.
  - cbv zeta. replace (if decide (ln < 1408) then ln else 1408) with (Z.min ln 1408)
      by (case_decide; lia).
    set (cap := Z.min ln 1408).
    change (default [] (Some p)) with p. rewrite slice_take by lia. cbn [mbind option_bind].
    assert (Hz : zlen (take (Z.to_nat cap) p) = cap) by (rewrite zlen_take; lia).
    destruct (blit_ok (storage s) (take (Z.to_nat cap) p) 0) as [sto Hb]; [lia|lia|].
    rewrite Hb. cbn [mbind option_bind]. eexists. split; [done|].
    cbn [storage len upd_field]. cbn. rewrite u16_small by lia.
    destruct (blit_inv _ _ _ _ Hb) as (_ & _ & Hzs & _).
    split; [by destruct s|]. split; [lia|]. split; [done|].
    unfold blit in Hb. case_decide; [|done]. injection Hb as <-.
    pose proof (slice_prefix (take (Z.to_nat cap) p)
      (drop (length (take (Z.to_nat cap) p)) (storage s))) as Hs.
    rewrite Hz in Hs. exact Hs.
  - exists s. split; [done|]. split; [by destruct s|]. split; [done|].
    split; [lia|]. rewrite Hlen. replace ln with 0 by lia.
    by rewrite slice_take by (pose proof (zlen_nonneg (storage s)); lia).
Qed.

Lemma push_spec j sq ts st fl p ln recv :
  jb_wf j -> 0 <= sq < 4294967296 -> 0 <= ln < 65536 -> ln <= zlen p ->
  exists r j', vmc_jb_push (Some j) sq ts st fl (Some p) ln recv = Some (r, Some j') /\
    jb_wf j' /\
    next_seq j' = next_seq (rebase j sq) /\ target_delay_us j' = target_delay_us j /\
    (r <> VMC_OK -> slots j' = slots j /\ stats_pushed j' = stats_pushed j) /\
    (buffered j sq /\ r = VMC_ERR_AGAIN \/
     ~ buffered j sq /\ ~ in_window j sq /\ r = VMC_ERR_OUT_OF_SYNC \/
     ~ buffered j sq /\ in_window j sq /\
       (forall i s, slots j !! i = Some s -> valid s = true) /\ r = VMC_ERR_OVERRUN \/
     ~ buffered j sq /\ in_window j sq /\ r = VMC_OK /\
       exists i s s', slots j !! i = Some s /\ valid s = false /\
         slots j' = <[i := s']> (slots j) /\ holds s' sq ts st fl p ln recv /\
         stats_pushed j' = u64 (stats_pushed j + 1)).
Proof.
  intros Hwf0 Hsq Hln Hp. pose proof (rebase_wf j sq Hwf0 Hsq) as Hwf.
  pose proof (wf_next _ Hwf) as Hnx.
  unfold vmc_jb_push. rewrite decide_False by (intros [_ ?]; done).
  unfold in_window, buffered. rewrite <- !(rebase_slots j sq). fold (rebase j sq).
  assert (target_delay_us (rebase j sq) = target_delay_us j) as <-
    by (unfold rebase; by case_decide).
  assert (stats_pushed (rebase j sq) = stats_pushed j) as <-
    by (unfold rebase; by case_decide).
  set (j1 := rebase j sq) in *. clearbody j1. cbv zeta.
  destruct (find_slot j1 sq) as [k|] eqn:Ef.
  { apply find_slot_Some in Ef as (s & ? & ? & ?). eexists _, _. split; [done|].
    split; [by eapply same_slots_wf|]. split_and!; try done. left. split; [|done]. exists k, s. done. }
  assert (Hnb : ~ buffered j1 sq).
  { intros (i & s & Hi & Hv & Hs). exact (find_slot_None _ _ i s Ef Hi Hv Hs). }
  destruct (decide (_ \/ _)) as [Hd|Hd].
  { eexists _, _. split; [done|]. split; [by eapply same_slots_wf|].
    split_and!; try done. right; left. split_and!; [done|lia|done]. }
  destruct (first_slot _ _) as [i|] eqn:E0; cycle 1.
  { eexists _, _. split; [done|]. split; [by eapply same_slots_wf|].
    split_and!; try done. right; right; left. split_and!; [done|lia|lia| |done].
    intros k s Hk. apply (first_slot_None _ _ E0) in Hk. by apply negb_false_iff. }
  apply first_slot_Some in E0 as [(s & Hi & Hv%negb_true_iff) _].
  rewrite Hi. cbn [mbind option_bind].
  assert (Hsw : slot_wf s) by (eapply Forall_lookup_1; [by apply (wf_slot j1)|done]).
  set (s1 := s <| seq := sq |> <| ts_us := ts |> <| flags := fl |> <| stream := st |>
               <| len := ln |> <| recv_us := recv |> <| valid := true |>).
  destruct (store_payload s1 ln p) as (s2 & Es2 & E2 & Hz2 & Hl2 & Hsl); try done.
  { apply Hsw. }
  cbv zeta in Es2. rewrite Es2. clear Es2. cbn [mbind option_bind]. eexists _, _. split; [done|].
  set (s3 := s2 <| payload := true |>).
  assert (Hseq : seq s3 = sq) by (unfold s3; rewrite E2; done).
  split.
  { eapply same_slots_wf; [apply (insert_slot_wf j1 i s3 Hwf)|done|done].
    - unfold slot_wf, VMC_JB_PAYLOAD_CAP in *. change (storage s3) with (storage s2).
      change (len s3) with (len s2). rewrite Hseq. split_and!; try done; try lia.
    - by rewrite Hseq. }
  split_and!; try done. right; right; right. split_and!; [done|lia|lia|done|].
  exists i, s, s3. split_and!; try done.
  unfold s3. rewrite E2. unfold holds. cbn. split_and!; done.
Qed.

(** ** Sequence numbers in a half window

    When the sequence numbers at hand lie in one half of the 32-bit circle,
    starting at [b], the wrapping comparison is the order of their distances
    from [b]. *)

Definition dist (b sq : Z) : Z := u32 (sq - b).
Definition near (b : Z) (s : vmc_jb_slot) : Prop := dist b (seq s) < 2147483648.

Lemma seq_cmp_dist b x y :
  dist b x < 2147483648 -> dist b y < 2147483648 ->
  seq_cmp x y = dist b x - dist b y.
Proof. unfold seq_cmp, dist. wrap_lia. Qed.

Lemma dist_inj b x y :
  0 <= x < 4294967296 -> 0 <= y < 4294967296 -> dist b x = dist b y -> x = y.
Proof. unfold dist. wrap_lia. Qed.

(** ** The scan finds the earliest valid slot and the latest arrival *)

Section scan.
Context (b : Z).

Definition is_min (l : list vmc_jb_slot) (i : nat) (m : vmc_jb_slot) : Prop :=
  l !! i = Some m /\ valid m = true /\
  forall k s, l !! k = Some s -> valid s = true -> dist b (seq m) <= dist b (seq s).

Definition is_newest (l : list vmc_jb_slot) (i : nat) (m : vmc_jb_slot) : Prop :=
  l !! i = Some m /\ valid m = true /\
  forall k s, l !! k = Some s -> valid s = true -> recv_us s <= recv_us m.

Definition scan_ok (l : list vmc_jb_slot) (r : option (nat * vmc_jb_slot) * option (nat * vmc_jb_slot)) : Prop :=
  match r with
  | (Some (i, m), Some (k, w)) => is_min l i m /\ is_newest l k w
  | (None, None) => forall k s, l !! k = Some s -> valid s = false
  | _ => False
  end.

Lemma lookup_snoc_inv {A} (l : list A) x k y :
  (l ++ [x]) !! k = Some y -> l !! k = Some y \/ (k = length l /\ y = x).
Proof.
  intros [?|[? H]]%lookup_app_Some; [by left|right].
  destruct (k - length l)%nat eqn:E; [|done]. cbn in H. simplify_eq. split; [lia|done].
Qed.

Lemma scan_slots_ok l : forall pre mn nw,
  Forall (fun s => valid s = true -> near b s) (pre ++ l) ->
  scan_ok pre (mn, nw) -> scan_ok (pre ++ l) (scan_slots l (length pre) mn nw).
Proof.
  induction l as [|x l IH]; intros pre mn nw Hn Hok; cbn [scan_slots].
  { by rewrite app_nil_r. }
  assert (Hnx : valid x = true -> near b x).
  { apply Forall_app in Hn as [_ Hn]. by inversion Hn. }
  assert (Hnp : Forall (fun s => valid s = true -> near b s) pre)
    by (by apply Forall_app in Hn as [? _]).
  rewrite (cons_middle x pre l), app_assoc in Hn |- *.
  replace (S (length pre)) with (length (pre ++ [x])) by (rewrite length_app; cbn; lia).
  assert (Hget : (pre ++ [x]) !! length pre = Some x)
    by (by rewrite lookup_app_r, Nat.sub_diag by lia).
  destruct (valid x) eqn:Ev; cbn [negb].
  - cbv zeta. apply IH; [done|]. unfold scan_ok in Hok.
    destruct mn as [[i m]|], nw as [[k w]|]; try done.
    + destruct Hok as [(Hi & Hvm & Hmin) (Hk & Hvw & Hmax)].
      assert (Hnm : near b m)
        by exact (Forall_lookup_1 _ _ _ _ Hnp Hi Hvm).
      pose proof (Hnx eq_refl) as Hnx'. unfold near in Hnx', Hnm.
      rewrite (seq_cmp_dist b) by done.
      case_decide; case_decide; (split; (split; [first [done|by apply lookup_app_l_Some]|]);
        (split; [done|]); intros q s [Hq|[-> ->]]%lookup_snoc_inv Hv; try lia;
        first [pose proof (Hmin q s Hq Hv) | idtac];
        first [pose proof (Hmax q s Hq Hv) | idtac]; lia).
    + split; (split; [done|]); (split; [done|]);
        intros q s [Hq|[-> ->]]%lookup_snoc_inv Hv; try lia;
        apply Hok in Hq; congruence.
  - apply IH; [done|]. unfold scan_ok in *.
    destruct mn as [[i m]|], nw as [[k w]|]; try done.
    + destruct Hok as [(Hi & Hvm & Hmin) (Hk & Hvw & Hmax)].
      split; (split; [by apply lookup_app_l_Some|]); (split; [done|]);
        intros q s [Hq|[-> ->]]%lookup_snoc_inv Hv; try congruence;
        [by eapply Hmin|by eapply Hmax].
    + intros q s [Hq|[-> ->]]%lookup_snoc_inv; [by eapply Hok|done].
Qed.
End scan.

(** ** Peek, consume and the playout loop *)

Definition live (j : vmc_jitter_buffer) : list vmc_jb_slot :=
  filter (fun s => valid s = true) (slots j).

Definition windowed (b : Z) (j : vmc_jitter_buffer) : Prop :=
  Forall (fun s => valid s = true -> near b s) (slots j).

#[export] Instance near_dec b s : Decision (near b s).
Proof. unfold near. apply _. Defined.
#[export] Instance windowed_dec b j : Decision (windowed b j).
Proof. unfold windowed. apply _. Defined.

Lemma scan_top b j :
  windowed b j -> scan_ok b (slots j) (scan_slots (slots j) 0 None None).
Proof. intros Hw. apply (scan_slots_ok b (slots j) []); [done|]. intros k s Hk. done. Qed.

(** What a successful peek promises: the earliest of the valid slots, old
    enough, and [next_seq] moved to it; a jump forward is counted as a gap. *)
Lemma peek_sound b j now i j' :
  jb_wf j -> windowed b j -> vmc_jb_peek (Some j) now = (Some i, Some j') ->
  exists s, is_min b (slots j) i s /\ aged j now s = true /\ next_seq j' = seq s /\
    slots j' = slots j /\ target_delay_us j' = target_delay_us j /\
    stats_gaps j' = (if decide (seq_cmp (seq s) (next_seq j) > 0)
                     then u64 (stats_gaps j + u32 (seq s - next_seq j))
                     else stats_gaps j).
Proof.
  intros Hwf Hw. pose proof (scan_top b j Hw) as Hok. unfold vmc_jb_peek.
  destruct (scan_slots (slots j) 0 None None) as [[[k mn]|] [[q nw]|]]; try done.
  destruct Hok as [Hmin _]. pose proof Hmin as (Hk & Hv & _).
  assert (Hsw : slot_wf mn) by exact (Forall_lookup_1 _ _ _ _ (wf_slot j Hwf) Hk).
  destruct (decide (seq_cmp (seq mn) (next_seq j) < 0)).
  - destruct (aged j now mn) eqn:Ea; [|done]. intros [= <- <-].
    exists mn. split_and!; try done. by rewrite decide_False by lia.
  - destruct (decide (seq_cmp (seq mn) (next_seq j) > 0)).
    + destruct (aged j now nw); [|done].
      destruct (aged _ now mn) eqn:Ea; [|done]. intros [= <- <-].
      exists mn. split_and!; try done. by rewrite decide_True by lia.
    + destruct (aged j now mn) eqn:Ea; [|done]. intros [= <- <-].
      exists mn. split_and!; try done.
      * symmetry. apply seq_cmp_zero; try done; [apply Hsw|apply Hwf].
      * by rewrite decide_False by lia.
Qed.

(** A peek that returns nothing leaves the buffered packets alone. *)
Lemma peek_None_slots j now j' :
  vmc_jb_peek (Some j) now = (None, Some j') -> slots j' = slots j.
Proof.
  unfold vmc_jb_peek. destruct (scan_slots _ _ _ _) as [[[k mn]|] [[q nw]|]];
    repeat case_decide; repeat case_match; intros; by simplify_eq.
Qed.

(** When every buffered packet is old enough, peek finds one. *)
Lemma peek_progress b j now :
  jb_wf j -> windowed b j -> Forall (fun s => valid s = true -> aged j now s = true) (slots j) ->
  (live j = [] /\ vmc_jb_peek (Some j) now = (None, Some j)) \/
  exists i j', vmc_jb_peek (Some j) now = (Some i, Some j').
Proof.
  intros Hwf Hw Ha. pose proof (scan_top b j Hw) as Hok. unfold vmc_jb_peek.
  destruct (scan_slots (slots j) 0 None None) as [[[k mn]|] [[q nw]|]]; try done.
  - right. destruct Hok as [(Hk & Hv & _) (Hq & Hvq & _)].
    assert (Hmn : aged j now mn = true) by exact (Forall_lookup_1 _ _ _ _ Ha Hk Hv).
    assert (Hnw : aged j now nw = true) by exact (Forall_lookup_1 _ _ _ _ Ha Hq Hvq).
    rewrite Hmn, Hnw.
    change (aged (_ <| next_seq := _ |>) now mn) with (aged j now mn). rewrite Hmn.
    repeat case_decide; eauto.
  - left. split; [|done]. unfold live.
    clear -Hok. cbn in Hok. induction (slots j) as [|s l IH]; [done|].
    rewrite filter_cons_False; [|rewrite (Hok 0%nat s) by done; done].
    apply IH. intros m t Hm. by apply (Hok (S m) t).
Qed.

Definition unset (s : vmc_jb_slot) : vmc_jb_slot := s <| valid := false |>.

Lemma live_remove l i s :
  l !! i = Some s -> valid s = true ->
  filter (fun s => valid s = true) l
  ≡ₚ s :: filter (fun s => valid s = true) (alter unset i l).
Proof.
  revert i. induction l as [|x l IH]; intros [|i] Hi Hv; cbn in Hi; simplify_eq.
  - change (alter unset 0%nat (s :: l)) with (unset s :: l).
    rewrite filter_cons_True by done. by rewrite (filter_cons_False _ (unset s)).
  - change (alter unset (S i) (x :: l)) with (x :: alter unset i l).
    rewrite !filter_cons. case_decide; rewrite (IH i Hi Hv); [constructor|done].
Qed.

Lemma alter_unset_inv (l : list vmc_jb_slot) (i k : nat) t :
  alter unset i l !! k = Some t -> valid t = true -> i <> k /\ l !! k = Some t.
Proof.
  intros Hk Hv. destruct (decide (i = k)) as [->|Hne].
  - rewrite list_lookup_alter_eq in Hk. destruct (l !! k); cbn in Hk; [|done].
    by simplify_eq.
  - split; [done|]. by rewrite list_lookup_alter_ne in Hk.
Qed.

(** Consuming the slot a peek returned removes exactly that packet. *)
Lemma consume_spec j i s :
  jb_wf j -> slots j !! i = Some s -> valid s = true -> next_seq j = seq s ->
  let j' := vmc_jb_consume j in
  jb_wf j' /\ slots j' = alter unset i (slots j) /\ next_seq j' = u32 (seq s + 1) /\
  stats_played j' = u64 (stats_played j + 1) /\ target_delay_us j' = target_delay_us j.
Proof.
  intros Hwf Hi Hv Hn. unfold vmc_jb_consume. rewrite Hn, (find_slot_wf j i s) by done.
  cbn [slots next_seq stats_played target_delay_us upd_field]. split_and!; try done.
  split; cbn [slots next_seq upd_field].
  - unfold zlen. rewrite length_alter. apply Hwf.
  - apply Forall_alter; [apply Hwf|]. intros t _ (?&?&?&?). done.
  - apply u32_range.
  - intros k m t u Hk Hm Hvt Hvu.
    apply alter_unset_inv in Hk as [_ Hk]; [|done].
    apply alter_unset_inv in Hm as [_ Hm]; [|done]. by eapply (wf_nodup j Hwf).
Qed.

(** The playout loop of the UDP client (apps/thinclient/main.c, lines
    3999-4061) at one instant: peek, hand the slot over, consume, until a peek
    returns nothing. *)
Fixpoint jb_drain (fuel : nat) (j : vmc_jitter_buffer) (now : Z)
    : list vmc_jb_slot * vmc_jitter_buffer :=
  match fuel with
  | O => ([], j)
  | S fuel =>
    match vmc_jb_peek (Some j) now with
    | (Some i, Some j1) =>
      match slots j1 !! i with
      | Some s => let '(out, j2) := jb_drain fuel (vmc_jb_consume j1) now in (s :: out, j2)
      | None => ([], j1)
      end
    | (_, Some j1) => ([], j1)
    | (_, None) => ([], j)
    end
  end.

Definition all_aged (j : vmc_jitter_buffer) (now : Z) : Prop :=
  Forall (fun s => valid s = true -> aged j now s = true) (slots j).

#[export] Instance all_aged_dec j now : Decision (all_aged j now).
Proof. unfold all_aged. apply _. Defined.

Lemma live_elem j s : s ∈ live j <-> valid s = true /\ exists i, slots j !! i = Some s.
Proof. unfold live. by rewrite list_elem_of_filter, list_elem_of_lookup. Qed.

(** One round: the packet that leaves and what stays. *)
Lemma drain_round b j now :
  jb_wf j -> windowed b j -> all_aged j now -> live j <> [] ->
  exists i j1 s, vmc_jb_peek (Some j) now = (Some i, Some j1) /\
    slots j1 !! i = Some s /\
    let j2 := vmc_jb_consume j1 in
    jb_wf j2 /\ windowed b j2 /\ all_aged j2 now /\ live j ≡ₚ s :: live j2 /\
    Forall (fun t => dist b (seq s) < dist b (seq t)) (live j2) /\
    next_seq j2 = u32 (seq s + 1) /\ target_delay_us j2 = target_delay_us j.
Proof.
  intros Hwf Hw Ha Hne.
  destruct (peek_progress b j now Hwf Hw Ha) as [[? _]|(i & j1 & Hp)]; [done|].
  destruct (peek_sound b j now i j1 Hwf Hw Hp) as (s & Hmin & _ & Hn & Hs & Ht & _).
  pose proof Hmin as (Hi & Hv & Hle).
  assert (Hsw : slot_wf s) by exact (Forall_lookup_1 _ _ _ _ (wf_slot j Hwf) Hi).
  exists i, j1, s. rewrite Hs. split; [done|]. split; [done|].
  assert (Hwf1 : jb_wf j1) by (eapply same_slots_wf; [done..|]; rewrite Hn; apply Hsw).
  rewrite <- Hs in Hi.
  destruct (consume_spec j1 i s Hwf1 Hi Hv Hn) as (Hwf2 & Hs2 & Hn2 & _ & Ht2).
  cbv zeta. set (j2 := vmc_jb_consume j1) in *. rewrite Hs in Hs2.
  assert (Hfrom : forall k t, slots j2 !! k = Some t -> valid t = true ->
    i <> k /\ slots j !! k = Some t) by (rewrite Hs2; apply alter_unset_inv).
  split_and!; [done| | | | |done|by rewrite Ht2].
  - apply Forall_lookup. intros k t Hk Hvt. destruct (Hfrom k t Hk Hvt) as [_ Hk0].
    exact (Forall_lookup_1 _ _ _ _ Hw Hk0 Hvt).
  - apply Forall_lookup. intros k t Hk Hvt. destruct (Hfrom k t Hk Hvt) as [_ Hk0].
    unfold aged. rewrite Ht2, Ht. exact (Forall_lookup_1 _ _ _ _ Ha Hk0 Hvt).
  - unfold live. rewrite Hs2. apply live_remove; [by rewrite <- Hs|done].
  - apply Forall_forall. intros t [Hvt [k Hk]]%live_elem.
    destruct (Hfrom k t Hk Hvt) as [Hik Hk0]. pose proof (Hle k t Hk0 Hvt).
    assert (dist b (seq s) <> dist b (seq t)); [|lia].
    intros Heq. apply Hik. rewrite Hs in Hi. eapply (wf_nodup j Hwf i k s t); try done.
    apply (dist_inj b); [apply Hsw| |done].
    by apply (Forall_lookup_1 _ _ _ _ (wf_slot j Hwf) Hk0).
Qed.

Lemma drain_spec b now n : forall fuel j,
  jb_wf j -> windowed b j -> all_aged j now ->
  length (live j) = n -> (n < fuel)%nat ->
  let '(out, j') := jb_drain fuel j now in
  out ≡ₚ live j /\ StronglySorted (fun s t => dist b (seq s) < dist b (seq t)) out /\
  live j' = [] /\ jb_wf j'.
Proof.
  induction n as [|n IH]; intros fuel j Hwf Hw Ha Hl Hf; (destruct fuel as [|fuel]; [lia|]);
    cbn [jb_drain].
  - destruct (peek_progress b j now Hwf Hw Ha) as [[Hnil ->]|(i & j1 & Hp)].
    + rewrite Hnil. split_and!; try done. constructor.
    + destruct (peek_sound b j now i j1 Hwf Hw Hp) as (s & (Hi & Hv & _) & _).
      assert (s ∈ live j) as Hin by (apply live_elem; eauto).
      apply length_zero_iff_nil in Hl. by rewrite Hl, elem_of_nil in Hin.
  - destruct (drain_round b j now Hwf Hw Ha) as (i & j1 & s & -> & -> & H).
    { intros E. by rewrite E in Hl. }
    cbv zeta in H. destruct H as (Hwf2 & Hw2 & Ha2 & Hp & Hlt & _).
    set (j2 := vmc_jb_consume j1) in *.
    assert (length (live j2) = n) as Hl2
      by (apply Permutation_length in Hp; cbn in Hp; lia).
    pose proof (IH fuel j2 Hwf2 Hw2 Ha2 Hl2 ltac:(lia)) as H.
    destruct (jb_drain fuel j2 now) as [out j']. destruct H as (Hpo & Hso & Hl' & Hwf').
    split_and!; [by rewrite Hp, Hpo| |done|done].
    constructor; [done|]. by rewrite Hpo.
Qed.

(** ** Any sequence of calls *)

Inductive jb_op :=
| JPush (sq ts st fl : Z) (p : list Z) (ln recv : Z)
| JPeek (now : Z)
| JConsume
| JFlush (sq : Z)
| JReset (sq : Z).

Definition jb_op_ok (o : jb_op) : Prop :=
  match o with
  | JPush sq _ _ _ p ln _ => 0 <= sq < 4294967296 /\ 0 <= ln < 65536 /\ ln <= zlen p
  | JFlush sq | JReset sq => 0 <= sq < 4294967296
  | _ => True
  end.

#[export] Instance jb_op_ok_dec o : Decision (jb_op_ok o).
Proof. destruct o; cbn; apply _. Defined.

Definition jb_step (j : vmc_jitter_buffer) (o : jb_op) : option vmc_jitter_buffer :=
  match o with
  | JPush sq ts st fl p ln recv =>
    '(_, j') ← vmc_jb_push (Some j) sq ts st fl (Some p) ln recv; j'
  | JPeek now => snd (vmc_jb_peek (Some j) now)
  | JConsume => Some (vmc_jb_consume j)
  | JFlush sq => Some (vmc_jb_flush_before j sq)
  | JReset sq => Some (vmc_jb_reset j sq)
  end.

Fixpoint jb_run (j : vmc_jitter_buffer) (os : list jb_op) : option vmc_jitter_buffer :=
  match os with [] => Some j | o :: os => j' ← jb_step j o; jb_run j' os end.

Lemma flush_wf j sq : jb_wf j -> 0 <= sq < 4294967296 -> jb_wf (vmc_jb_flush_before j sq).
Proof.
  intros [H1 H2 Hn H3] Hsq. unfold vmc_jb_flush_before.
  set (g := fun s => if decide _ then _ else s).
  assert (Hg : forall s, seq (g s) = seq s /\ (valid (g s) = true -> valid s = true) /\
                    (slot_wf s -> slot_wf (g s))).
  { intros s. unfold g. case_decide; [|done]. split_and!; try done.
    intros (?&?&?&?). done. }
  assert (Hwf : jb_wf (j <| slots := g <$> slots j |>)).
  { split; cbn [slots next_seq upd_field]; try done.
    - unfold zlen. by rewrite length_fmap.
    - apply Forall_fmap. eapply Forall_impl; [done|]. intros s Hs. by apply Hg.
    - intros i k s t. rewrite !list_lookup_fmap.
      destruct (slots j !! i) as [s0|] eqn:Ei; [|done].
      destruct (slots j !! k) as [t0|] eqn:Ek; [|done]. cbn. intros [= <-] [= <-] Hv Hu.
      rewrite !(proj1 (Hg _)). apply (H3 i k s0 t0); try done; by apply Hg. }
  case_decide; [|done]. by eapply same_slots_wf.
Qed.

Lemma peek_wf j now : jb_wf j -> exists j', snd (vmc_jb_peek (Some j) now) = Some j' /\ jb_wf j'.
Proof.
  intros Hwf. unfold vmc_jb_peek.
  destruct (scan_slots _ _ _ _) as [[[k mn]|] [[q nw]|]] eqn:E; try by exists j.
  assert (Hmn : exists i, slots j !! i = Some mn).
  { assert (forall l i m w, scan_slots l i m w = (Some (k, mn), Some (q, nw)) ->
      (exists n, l !! n = Some mn) \/ snd <$> m = Some mn) as Hgen.
    { induction l as [|x l IH]; intros i m w; cbn [scan_slots]; [intros [= -> _]; by right|].
      case_match; intros Hgo%IH; destruct Hgo as [[n Hn]|Hm]; try (left; by exists (S n)); [by right|].
      destruct m as [[? m]|]; [case_decide|]; cbn in Hm; simplify_eq;
        first [left; by exists 0%nat | by right]. }
    destruct (Hgen _ _ _ _ E) as [?|?]; done. }
  destruct Hmn as [i Hi].
  assert (Hseq : 0 <= seq mn < 4294967296)
    by (by apply (Forall_lookup_1 _ _ _ _ (wf_slot j Hwf) Hi)).
  repeat case_decide; repeat case_match; eexists; split; try done; by eapply same_slots_wf.
Qed.

Lemma consume_wf j : jb_wf j -> jb_wf (vmc_jb_consume j).
Proof.
  intros Hwf. destruct (find_slot j (next_seq j)) as [i|] eqn:E.
  - destruct (find_slot_Some _ _ _ E) as (s & Hi & Hv & Hs).
    by apply (consume_spec j i s Hwf Hi Hv).
  - unfold vmc_jb_consume. by rewrite E.
Qed.

Lemma jb_step_wf j o : jb_wf j -> jb_op_ok o -> exists j', jb_step j o = Some j' /\ jb_wf j'.
Proof.
  intros Hwf Ho. destruct o; cbn [jb_step jb_op_ok] in *.
  - destruct Ho as (? & ? & ?).
    destruct (push_spec j sq ts st fl p ln recv) as (r & j' & -> & ? & _); try done.
    exists j'. done.
  - by apply peek_wf.
  - eexists. split; [done|]. by apply consume_wf.
  - eexists. split; [done|]. by apply flush_wf.
  - eexists. split; [done|]. 
    apply (same_slots_wf (jb_zero <| target_delay_us := 0 |>)); [|done|done].
    by apply (jb_init_wf (Some j) 0).
Qed.

Lemma jb_run_wf os : forall j, jb_wf j -> Forall jb_op_ok os ->
  exists j', jb_run j os = Some j' /\ jb_wf j'.
Proof.
  induction os as [|o os IH]; intros j Hwf Hos; cbn [jb_run]; [eauto|].
  inversion_clear Hos as [|? ? Ho Hos'].
  destruct (jb_step_wf j o Hwf Ho) as (j1 & -> & Hwf1). by apply IH.
Qed.

Lemma live_insert (l : list vmc_jb_slot) (i : nat) s t :
  l !! i = Some t -> valid t = false -> valid s = true ->
  filter (fun s => valid s = true) (<[i := s]> l)
  ≡ₚ s :: filter (fun s => valid s = true) l.
Proof.
  intros Hi Ht Hs. revert i Hi. induction l as [|x l IH]; intros [|i] Hi; cbn in Hi; simplify_eq.
  - change (<[0%nat := s]> (t :: l)) with (s :: l).
    rewrite filter_cons_True by done. rewrite (filter_cons_False _ t); [done|congruence].
  - change (<[S i := s]> (x :: l)) with (x :: <[i := s]> l).
    rewrite !filter_cons. case_decide; rewrite (IH i Hi); [constructor|done].
Qed.

(** ** Properties *)

#[export] Instance in_window_dec j sq : Decision (in_window j sq).
Proof. unfold in_window. apply _. Defined.

(** The outcome of a push, as a function of the buffer's contents. *)
Definition push_status (j : vmc_jitter_buffer) (sq : Z) : vmc_status :=
  if decide (Exists (fun s => valid s = true /\ seq s = sq) (slots j)) then VMC_ERR_AGAIN
  else if decide (in_window j sq) then
    if decide (Forall (fun s => valid s = true) (slots j)) then VMC_ERR_OVERRUN else VMC_OK
  else VMC_ERR_OUT_OF_SYNC.

Lemma buffered_Exists j sq :
  buffered j sq <-> Exists (fun s => valid s = true /\ seq s = sq) (slots j).
Proof.
  rewrite Exists_exists. unfold buffered. setoid_rewrite list_elem_of_lookup.
  split; [intros (i & s & ? & ?); exists s; eauto|intros (s & [i ?] & ?); exists i, s; eauto].
Qed.

(** A push stores the packet or rejects it for the documented reason and
    changes no other packet: a sequence number already buffered is refused with
    [VMC_ERR_AGAIN], one 256 or more away from the playout position with
    [VMC_ERR_OUT_OF_SYNC], one that finds 256 packets buffered with
    [VMC_ERR_OVERRUN]; otherwise the packet (its first 1408 payload bytes) is
    added to the buffered ones. No access leaves the slots or the payload. *)
Theorem jb_push_outcome j sq ts st fl p ln recv :
  jb_wf j -> 0 <= sq < 4294967296 -> 0 <= ln < 65536 -> ln <= zlen p ->
  exists j', vmc_jb_push (Some j) sq ts st fl (Some p) ln recv
      = Some (push_status j sq, Some j') /\ jb_wf j' /\
    (push_status j sq <> VMC_OK -> live j' = live j) /\
    (push_status j sq = VMC_OK ->
       exists s, live j' ≡ₚ s :: live j /\ holds s sq ts st fl p ln recv).
Proof.
  intros Hwf Hsq Hln Hp.
  destruct (push_spec j sq ts st fl p ln recv Hwf Hsq Hln Hp)
    as (r & j' & Hpush & Hwf' & _ & _ & Hsame & Hcases).
  assert (r = push_status j sq) as Hr.
  { unfold push_status. rewrite buffered_Exists in Hcases.
    destruct Hcases as [(? & ->)|[(? & ? & ->)|[(? & ? & Hfull & ->)|(? & ? & -> & Hok)]]].
    - by rewrite decide_True.
    - by rewrite !decide_False.
    - rewrite decide_False, !decide_True; try done. by apply Forall_lookup.
    - rewrite decide_False, decide_True, decide_False; try done.
      destruct Hok as (i & s & _ & Hi & Hv & _). intros Hall.
      pose proof (Forall_lookup_1 _ _ _ _ Hall Hi). cbn in *. congruence. }
  rewrite <- Hr. exists j'. split_and!; try done.
  - intros Hne. unfold live. by rewrite (proj1 (Hsame Hne)).
  - intros ->. destruct Hcases as [(_ & ?)|[(_ & _ & ?)|[(_ & _ & _ & ?)|(_ & _ & _ & Hok)]]];
      try done.
    destruct Hok as (i & s & s' & Hi & Hv & Hs & Hh & _). exists s'. split; [|done].
    unfold live. rewrite Hs. eapply live_insert; [done|done|]. by apply Hh.
Qed.

Definition demo_jb : vmc_jitter_buffer := jb_zero <| target_delay_us := 20000 |>.
Lemma demo_jb_wf : jb_wf demo_jb.
Proof. by apply (jb_init_wf (Some jb_zero) 20000). Defined.

Lemma jb_push_outcome_witness :
  exists j', vmc_jb_push (Some demo_jb) 4294967295 0 1 0 (Some [1; 2; 3]) 3 1000
    = Some (VMC_OK, Some j') /\ jb_wf j'.
Proof.
  destruct (jb_push_outcome demo_jb 4294967295 0 1 0 [1; 2; 3] 3 1000)
    as (j' & H1 & H2 & _); [exact demo_jb_wf|lia|lia|vm_compute; discriminate|].
  exists j'. split; [|exact H2]. rewrite H1. do 2 f_equal.
Defined.

(** C27. Memory safety and uniqueness for every history: after any sequence of
    push, peek, consume, flush and reset calls on an initialised buffer, with
    whatever wrapping sequence numbers and times, no call has left the slots or
    a payload, the buffer still has its 256 slots of 1408 bytes, every
    buffered length fits its slot, every buffered packet points to its own
    storage, and no sequence number is buffered twice. *)
Theorem jb_run_safe jb target j os :
  vmc_jb_init jb target = (VMC_OK, Some j) -> Forall jb_op_ok os ->
  exists j', jb_run j os = Some j' /\ jb_wf j'.
Proof.
  intros Hi Hos. apply jb_run_wf; [|done]. by eapply jb_init_wf.
Qed.

Definition demo_jb_ops : list jb_op :=
  [JPush 4294967295 0 1 0 [1; 2] 2 1000; JPush 1 0 1 0 [5] 1 1200; JPush 0 0 1 0 [3] 1 1500;
   JPeek 30000; JConsume; JPeek 30000; JConsume; JFlush 7; JReset 9].

Lemma jb_run_safe_witness :
  exists j', jb_run demo_jb demo_jb_ops = Some j' /\ jb_wf j'.
Proof.
  apply (jb_run_safe (Some jb_zero) 20000 demo_jb demo_jb_ops); [reflexivity|].
  apply (bool_decide_unpack _). vm_compute. exact I.
Defined.

(** C9. Playout is in order and complete. When the buffered sequence numbers
    lie in one half of the 32-bit circle and every packet has waited for the
    target delay, the peek/consume loop terminates (within 257 rounds),
    delivers every buffered packet exactly once, in increasing sequence order
    across the 2^32 wrap, and leaves the buffer empty. *)
Theorem jb_playout_in_order b j now :
  jb_wf j -> windowed b j -> all_aged j now ->
  let '(out, j') := jb_drain 257 j now in
  out ≡ₚ live j /\ StronglySorted (fun s t => dist b (seq s) < dist b (seq t)) out /\
  live j' = [] /\ jb_wf j'.
Proof.
  intros Hwf Hw Ha. apply (drain_spec b now (length (live j))); try done.
  pose proof (wf_slots j Hwf) as Hl. unfold zlen, VMC_JB_MAX_SLOTS in Hl.
  pose proof (length_filter (fun s => valid s = true) (slots j)). unfold live. lia.
Qed.

(** Three packets around the wrap, pushed out of order. *)
Definition demo_full : vmc_jitter_buffer :=
  default demo_jb (jb_run demo_jb
    [JPush 4294967295 0 1 0 [1; 2; 3] 3 1000; JPush 1 0 1 0 [4] 1 1200;
     JPush 0 0 1 0 [5; 6] 2 1500]).

Lemma demo_full_wf : jb_wf demo_full.
Proof.
  unfold demo_full.
  match goal with |- context [jb_run demo_jb ?os] =>
    destruct (jb_run_wf os demo_jb demo_jb_wf) as (j & -> & W); [by_computation|exact W] end.
Qed.

Lemma jb_playout_in_order_witness :
  seq <$> fst (jb_drain 257 demo_full 30000) = [4294967295; 0; 1] /\
  live (snd (jb_drain 257 demo_full 30000)) = [].
Proof.
  split; [vm_compute; reflexivity|].
  pose proof (jb_playout_in_order 4294967200 demo_full 30000 demo_full_wf) as H.
  destruct (jb_drain 257 demo_full 30000) as [out j'].
  apply H; by_computation.
Defined.

(** ** Behaviours the headers do not announce *)

(** [vmc_jb_reset] clears the whole object, the configured delay included:
    every packet pushed afterwards is playable at once. *)
Lemma jb_reset_clears_delay j sq now s : aged (vmc_jb_reset j sq) now s = true.
Proof.
  unfold aged. apply bool_decide_eq_true. pose proof (u64_range (now - recv_us s)).
  cbn. lia.
Qed.

(** A duplicate that arrives after its packet was played is played again: the
    duplicate check only sees buffered packets. *)
Example jb_replays_duplicate :
  exists j, jb_run demo_jb [JPush 5 0 1 0 [1] 1 1000; JPeek 30000; JConsume;
                            JPush 5 0 1 0 [1] 1 2000] = Some j /\
    seq <$> fst (jb_drain 257 j 30000) = [5] /\ stats_played j = 1 /\
    stats_dropped_dupe j = 0.
Proof. eexists. split; [vm_compute; reflexivity|]. vm_compute. done. Qed.

End JB.
