(* ===== verification/InputBatch.v ===== *)
(** * Input events and their batches ([src/input/batch.c])

    Up to 32 events per batch; the wire form is a 16-bit count followed by 16
    little-endian bytes per event. *)

From S2P Require Import Prelude Wire.
Import LE.

Module Input.

(** ** Events ([include/vmc/input/input.h]) *)

Definition VMC_INPUT_TOUCH_DOWN : Z := 0.
Definition VMC_INPUT_TOUCH_MOVE : Z := 1.
Definition VMC_INPUT_TOUCH_UP : Z := 2.
Definition VMC_INPUT_BUTTON : Z := 3.
Definition VMC_INPUT_SENSOR : Z := 4.

Record vmc_input_event := mk_event {
  type : Z;
  slot : Z;
  x : Z;
  y : Z;
  pressure : Z;
  buttons : Z;
  ts_us : Z;
}.

#[export] Instance event_eq_dec : EqDecision vmc_input_event.
Proof. solve_decision. Defined.

Definition event_zero : vmc_input_event := mk_event 0 0 0 0 0 0 0.
Definition sizeof_event : Z := 16.

Definition event_wf (e : vmc_input_event) : Prop :=
  0 <= type e < 65536 /\ 0 <= slot e < 65536 /\ 0 <= x e < 65536 /\
  0 <= y e < 65536 /\ 0 <= pressure e < 65536 /\ 0 <= buttons e < 65536 /\
  0 <= ts_us e < 4294967296.

#[export] Instance event_wf_dec e : Decision (event_wf e).
Proof. unfold event_wf. apply _. Defined.

(** ** Batches *)

Definition VMC_INPUT_BATCH_MAX_EVENTS : Z := 32.

Record vmc_input_batch := mk_batch { events : list vmc_input_event; count : Z }.

#[export] Instance eta_batch : Eta vmc_input_batch := fun b =>
  mk_batch (events b) (count b).

Definition vmc_input_batch_reset (b : vmc_input_batch) : vmc_input_batch :=
  b <| count := 0 |>.

Definition vmc_input_batch_full (b : vmc_input_batch) : bool :=
  bool_decide (count b >= VMC_INPUT_BATCH_MAX_EVENTS).

Definition vmc_input_batch_push (b : option vmc_input_batch) (ev : option vmc_input_event)
    : option (vmc_status * option vmc_input_batch) :=
  match b, ev with
  | Some bt, Some e =>
    if vmc_input_batch_full bt then Some (VMC_ERR_OVERRUN, b) else
    es ← zset (events bt) (count bt) e;
    Some (VMC_OK, Some (bt <| events := es |> <| count := u16 (count bt + 1) |>))
  | _, _ => Some (VMC_ERR_INVALID_ARG, b)
  end.

(** The seven stores of the serializer's loop body at offset [p]. *)
Definition put_event (out : list Z) (p : Z) (e : vmc_input_event) : option (list Z) :=
  out ← wr16 out (p + 0) (type e);
  out ← wr16 out (p + 2) (slot e);
  out ← wr16 out (p + 4) (x e);
  out ← wr16 out (p + 6) (y e);
  out ← wr16 out (p + 8) (pressure e);
  out ← wr16 out (p + 10) (buttons e);
  wr32 out (p + 12) (ts_us e).

(** [n] iterations from index [i]; [p] is the output position. *)
Fixpoint put_events (es : list vmc_input_event) (n i : nat) (out : list Z) (p : Z)
    : option (list Z) :=
  match n with
  | O => Some out
  | S n =>
    e ← es !! i;
    out ← put_event out p e;
    put_events es n (S i) out (p + sizeof_event)
  end.

Definition vmc_input_batch_serialize (b : option vmc_input_batch) (out : option (list Z))
    (cap : Z) : option (Z * option (list Z)) :=
  match b, out with
  | Some bt, Some o =>
    let need := 2 + count bt * sizeof_event in
    if decide (cap < need) then Some (VMC_ERR_NOMEM, out) else
    o ← wr16 o 0 (count bt);
    o ← put_events (events bt) (Z.to_nat (count bt)) 0 o 2;
    Some (need, Some o)
  | _, _ => Some (VMC_ERR_INVALID_ARG, out)
  end.

Definition get_event (data : list Z) (p : Z) : option vmc_input_event :=
  f_type ← rd16 data (p + 0);
  f_slot ← rd16 data (p + 2);
  f_x ← rd16 data (p + 4);
  f_y ← rd16 data (p + 6);
  f_pressure ← rd16 data (p + 8);
  f_buttons ← rd16 data (p + 10);
  f_ts ← rd32 data (p + 12);
  Some (mk_event f_type f_slot f_x f_y f_pressure f_buttons f_ts).

Fixpoint get_events (data : list Z) (n : nat) (i p : Z) (es : list vmc_input_event)
    : option (list vmc_input_event) :=
  match n with
  | O => Some es
  | S n =>
    e ← get_event data p;
    es ← zset es i e;
    get_events data n (i + 1) (p + sizeof_event) es
  end.

Definition vmc_input_batch_deserialize (data : option (list Z)) (len : Z)
    (out : option vmc_input_batch) : option (vmc_status * option vmc_input_batch) :=
  match data, out with
  | Some d, Some o =>
    if decide (len < 2) then Some (VMC_ERR_PROTO, out) else
    cnt ← rd16 d 0;
    let need := 2 + cnt * sizeof_event in
    if decide (need > len) then Some (VMC_ERR_PROTO, out) else
    if decide (cnt > VMC_INPUT_BATCH_MAX_EVENTS) then Some (VMC_ERR_PROTO, out) else
    es ← get_events d (Z.to_nat cnt) 0 2 (events o);
    Some (VMC_OK, Some (o <| count := cnt |> <| events := es |>))
  | _, _ => Some (VMC_ERR_INVALID_ARG, out)
  end.

(** ** Invariant and abstract content *)

Definition batch_wf (b : vmc_input_batch) : Prop :=
  zlen (events b) = VMC_INPUT_BATCH_MAX_EVENTS /\
  0 <= count b <= VMC_INPUT_BATCH_MAX_EVENTS /\ Forall event_wf (events b).

#[export] Instance batch_wf_dec b : Decision (batch_wf b).
Proof. unfold batch_wf. apply _. Defined.

Definition batch_list (b : vmc_input_batch) : list vmc_input_event :=
  take (Z.to_nat (count b)) (events b).

Lemma batch_list_zlen b : batch_wf b -> zlen (batch_list b) = count b.
Proof.
  intros (Hl & Hc & _). unfold batch_list. rewrite zlen_take by lia. lia.
Qed.

(** ** The wire image *)

Definition ev_bytes (e : vmc_input_event) : list Z :=
  bytes16 (type e) ++ bytes16 (slot e) ++ bytes16 (x e) ++ bytes16 (y e) ++
  bytes16 (pressure e) ++ bytes16 (buttons e) ++ bytes32 (ts_us e).

Definition batch_bytes (es : list vmc_input_event) : list Z :=
  bytes16 (zlen es) ++ concat (ev_bytes <$> es).

Lemma ev_bytes_zlen e : zlen (ev_bytes e) = 16. Proof. done. Qed.

Lemma evs_bytes_zlen es : zlen (concat (ev_bytes <$> es)) = 16 * zlen es.
Proof.
  induction es as [|e es IH]; [done|]. cbn [fmap list_fmap concat].
  rewrite zlen_app, ev_bytes_zlen, zlen_cons. change (concat (list_fmap _ _ ev_bytes es))
    with (concat (ev_bytes <$> es)). lia.
Qed.

Lemma put_event_ok pre rest e p :
  p = zlen pre -> (16 <= length rest)%nat ->
  put_event (pre ++ rest) p e = Some ((pre ++ ev_bytes e) ++ drop 16 rest).
Proof.
  intros -> Hr. unfold put_event, wr16, wr32.
  do 6 (rewrite blit_next;
    [|zlen_le|rewrite ?length_drop; cbn [length bytes16]; lia];
    cbn [mbind option_bind]).
  rewrite blit_next;
    [|zlen_le|rewrite ?length_drop; cbn [length bytes16 bytes32]; lia].
  rewrite !drop_drop. unfold ev_bytes. by rewrite <- !app_assoc.
Qed.

Lemma put_events_ok es n : forall i pre rest,
  (i + n <= length es)%nat -> (16 * n <= length rest)%nat ->
  put_events es n i (pre ++ rest) (zlen pre)
  = Some ((pre ++ concat (ev_bytes <$> take n (drop i es))) ++ drop (16 * n) rest).
Proof.
  induction n as [|n IH]; intros i pre rest Hi Hr; cbn [put_events].
  { cbn. by rewrite app_nil_r. }
  destruct (lookup_lt_is_Some_2 es i) as [e He]; [lia|]. rewrite He. cbn [mbind option_bind].
  rewrite put_event_ok by (done || lia). cbn [mbind option_bind].
  replace (zlen pre + sizeof_event) with (zlen (pre ++ ev_bytes e)) by (by rewrite zlen_app).
  rewrite IH by (rewrite ?length_drop; lia).
  rewrite (drop_S es e i He). cbn [take fmap list_fmap concat].
  replace (16 * S n)%nat with (16 + 16 * n)%nat by lia.
  by rewrite drop_drop, <- !app_assoc.
Qed.

Lemma serialize_spec b out cap :
  batch_wf b -> 2 + 16 * count b <= cap <= zlen out ->
  vmc_input_batch_serialize (Some b) (Some out) cap
  = Some (2 + 16 * count b,
          Some (batch_bytes (batch_list b) ++ drop (Z.to_nat (2 + 16 * count b)) out)).
Proof.
  intros Hwf Hc. pose proof Hwf as (Hl & Hn & _). unfold vmc_input_batch_serialize.
  unfold sizeof_event, VMC_INPUT_BATCH_MAX_EVENTS in *. cbv zeta.
  rewrite decide_False by lia. assert (2 + 16 * count b <= Z.of_nat (length out))
    by (unfold zlen in Hc; lia).
  change out with ([] ++ out) at 1. unfold wr16.
  rewrite blit_next by (done || (cbn [length bytes16]; lia)). cbn [mbind option_bind].
  change (length (bytes16 (count b))) with 2%nat.
  pose proof (put_events_ok (events b) (Z.to_nat (count b)) 0
                ([] ++ bytes16 (count b)) (drop 2 out)) as Hpe.
  change (zlen ([] ++ bytes16 (count b))) with 2 in Hpe.
  rewrite Hpe by (rewrite ?length_drop; unfold zlen in *; lia).
  cbn [mbind option_bind]. f_equal. f_equal; [lia|]. f_equal.
  unfold batch_bytes, batch_list. rewrite zlen_take by lia.
  replace (Z.min (count b) (zlen (events b))) with (count b) by lia.
  rewrite drop_drop, drop_0. cbn [app]. do 3 f_equal. lia.
Qed.

Lemma get_event_ok pre e rest p :
  p = zlen pre -> event_wf e -> get_event (pre ++ ev_bytes e ++ rest) p = Some e.
Proof.
  intros -> (H1 & H2 & H3 & H4 & H5 & H6 & H7). unfold get_event, ev_bytes.
  rewrite <- !app_assoc.
  rewrite (rd16_app pre (type e) _ (zlen pre + 0)) by lia. cbn [mbind option_bind].
  rewrite (app_assoc _ (bytes16 (type e))).
  rewrite (rd16_app _ (slot e) _ (zlen pre + 2)) by zlen_le. cbn [mbind option_bind].
  rewrite (app_assoc _ (bytes16 (slot e))).
  rewrite (rd16_app _ (x e) _ (zlen pre + 4)) by zlen_le. cbn [mbind option_bind].
  rewrite (app_assoc _ (bytes16 (x e))).
  rewrite (rd16_app _ (y e) _ (zlen pre + 6)) by zlen_le. cbn [mbind option_bind].
  rewrite (app_assoc _ (bytes16 (y e))).
  rewrite (rd16_app _ (pressure e) _ (zlen pre + 8)) by zlen_le. cbn [mbind option_bind].
  rewrite (app_assoc _ (bytes16 (pressure e))).
  rewrite (rd16_app _ (buttons e) _ (zlen pre + 10)) by zlen_le. cbn [mbind option_bind].
  rewrite (app_assoc _ (bytes16 (buttons e))).
  rewrite (rd32_app _ (ts_us e) _ (zlen pre + 12)) by zlen_le. cbn [mbind option_bind].
  by destruct e.
Qed.

Lemma get_events_ok es : forall pre rest i acc,
  Forall event_wf es -> 0 <= i -> i + zlen es <= zlen acc ->
  get_events (pre ++ concat (ev_bytes <$> es) ++ rest) (length es) i (zlen pre) acc
  = Some (take (Z.to_nat i) acc ++ es ++ drop (Z.to_nat i + length es) acc).
Proof.
  induction es as [|e es IH]; intros pre rest i acc Hes Hi Hl; cbn [length get_events].
  { cbn [app]. rewrite Nat.add_0_r. by rewrite take_drop. }
  inversion_clear Hes as [|? ? He Hes']. rewrite zlen_cons in Hl. pose proof (zlen_nonneg es).
  cbn [fmap list_fmap concat]. change (list_fmap _ _ ev_bytes es) with (ev_bytes <$> es).
  rewrite <- (app_assoc (ev_bytes e)). rewrite get_event_ok by done. cbn [mbind option_bind].
  rewrite zset_ok by lia. cbn [mbind option_bind].
  rewrite (app_assoc pre). change sizeof_event with (zlen (ev_bytes e)).
  rewrite <- zlen_app. rewrite IH; [|done|lia|unfold zlen in *; rewrite length_insert; lia].
  assert (Hti : length (take (Z.to_nat i) acc) = Z.to_nat i)
    by (rewrite length_take; unfold zlen in *; lia).
  assert (<[Z.to_nat i := e]> acc
          = (take (Z.to_nat i) acc ++ [e]) ++ drop (S (Z.to_nat i)) acc) as ->.
  { rewrite insert_take_drop by (unfold zlen in *; lia). by rewrite <- app_assoc. }
  replace (Z.to_nat (i + 1)) with (Z.to_nat i + 1)%nat by lia.
  rewrite take_app_length' by (rewrite length_app, Hti; done).
  rewrite drop_app_ge by (rewrite length_app, Hti; cbn; lia).
  rewrite length_app, Hti, drop_drop, <- !app_assoc. cbn [app length].
  replace (S (Z.to_nat i) + _)%nat with (Z.to_nat i + S (length es))%nat by lia. done.
Qed.

Lemma deserialize_spec es rest len o :
  Forall event_wf es -> zlen es <= VMC_INPUT_BATCH_MAX_EVENTS ->
  zlen (events o) = VMC_INPUT_BATCH_MAX_EVENTS -> 2 + 16 * zlen es <= len ->
  exists o', vmc_input_batch_deserialize (Some (batch_bytes es ++ rest)) len (Some o)
    = Some (VMC_OK, Some o') /\ batch_list o' = es /\ count o' = zlen es /\
    zlen (events o') = VMC_INPUT_BATCH_MAX_EVENTS /\
    (Forall event_wf (events o) -> Forall event_wf (events o')).
Proof.
  unfold VMC_INPUT_BATCH_MAX_EVENTS. intros Hes Hn Ho Hlen. pose proof (zlen_nonneg es).
  unfold vmc_input_batch_deserialize, batch_bytes. rewrite <- app_assoc.
  rewrite decide_False by lia. rewrite rd16_head by lia. cbn [mbind option_bind].
  unfold sizeof_event, VMC_INPUT_BATCH_MAX_EVENTS. cbv zeta. rewrite !decide_False by lia.
  replace (Z.to_nat (zlen es)) with (length es) by (unfold zlen; lia).
  pose proof (get_events_ok es (bytes16 (zlen es)) rest 0 (events o)) as Hg.
  rewrite bytes16_zlen in Hg.
  change (take (Z.to_nat 0) (events o)) with (@nil vmc_input_event) in Hg.
  cbn [app] in Hg. rewrite Hg by (done || lia). cbn [mbind option_bind].
  eexists. split; [done|]. cbn [events count upd_field]. split_and!.
  - unfold batch_list. cbn [events count upd_field]. cbn.
    apply take_app_length'. unfold zlen. lia.
  - done.
  - cbn. rewrite zlen_app. unfold zlen in *. rewrite length_drop. lia.
  - intros Hw. cbn. apply Forall_app. split; [done|]. by apply Forall_drop.
Qed.

(** Every sixteen bytes are the image of one event. *)
Lemma event_of_bytes l : bytes l -> (16 <= length l)%nat ->
  exists e, event_wf e /\ l = ev_bytes e ++ drop 16 l.
Proof.
  intros Hb Hl.
  destruct l as [|b0 [|b1 [|b2 [|b3 [|b4 [|b5 [|b6 [|b7 [|b8 [|b9 [|b10 [|b11 [|b12
    [|b13 [|b14 [|b15 l]]]]]]]]]]]]]]]]; try (cbn in Hl; lia).
  unfold bytes in Hb. rewrite !Forall_cons in Hb.
  destruct Hb as (?&?&?&?&?&?&?&?&?&?&?&?&?&?&?&?&_).
  exists (mk_event (le16 b0 b1) (le16 b2 b3) (le16 b4 b5) (le16 b6 b7) (le16 b8 b9)
            (le16 b10 b11) (le32 b12 b13 b14 b15)).
  split; [unfold event_wf, is_byte, le16, le32 in *; cbn; lia|].
  unfold ev_bytes. cbn [type slot x y pressure buttons ts_us].
  rewrite !bytes16_le, !bytes32_le by assumption. reflexivity.
Qed.

Lemma events_of_bytes n : forall l, bytes l -> (16 * n <= length l)%nat ->
  exists es, Forall event_wf es /\ length es = n /\
    l = concat (ev_bytes <$> es) ++ drop (16 * n) l.
Proof.
  induction n as [|n IH]; intros l Hb Hl; [by exists []|].
  destruct (event_of_bytes l) as (e & He & El); [done|lia|].
  destruct (IH (drop 16 l)) as (es & Hes & Hn & Es);
    [by apply Forall_drop|rewrite length_drop; lia|].
  exists (e :: es). split; [by constructor|]. split; [cbn; lia|].
  cbn [fmap list_fmap concat]. change (list_fmap _ _ ev_bytes es) with (ev_bytes <$> es).
  rewrite <- app_assoc. replace (16 * S n)%nat with (16 + 16 * n)%nat by lia.
  rewrite <- drop_drop, <- Es. exact El.
Qed.

(** ** Properties *)

Fixpoint push_all (b : vmc_input_batch) (es : list vmc_input_event)
    : option vmc_input_batch :=
  match es with
  | [] => Some b
  | e :: es => '(_, b') ← vmc_input_batch_push (Some b) (Some e); b' ← b'; push_all b' es
  end.

Lemma batch_push_spec b e :
  batch_wf b -> event_wf e ->
  exists b', vmc_input_batch_push (Some b) (Some e)
    = Some (if decide (count b < 32) then VMC_OK else VMC_ERR_OVERRUN, Some b') /\
    batch_wf b' /\
    batch_list b' = (if decide (count b < 32) then batch_list b ++ [e] else batch_list b).
Proof.
  intros Hwf He. pose proof Hwf as (Hl & Hc & Hf). unfold vmc_input_batch_push.
  unfold vmc_input_batch_full, VMC_INPUT_BATCH_MAX_EVENTS in *.
  case_bool_decide; [rewrite !decide_False by lia; eauto|]. rewrite !decide_True by lia.
  rewrite zset_ok by lia. cbn [mbind option_bind]. eexists. split; [done|].
  cbn [events count upd_field]. split.
  - unfold batch_wf, VMC_INPUT_BATCH_MAX_EVENTS. cbn. rewrite u16_small by lia.
    split_and!; [unfold zlen in *; by rewrite length_insert|lia|lia|by apply Forall_insert].
  - unfold batch_list. cbn. rewrite u16_small by lia.
    rewrite insert_take_drop by (unfold zlen in *; lia).
    rewrite (cons_middle e), app_assoc. apply take_app_length'.
    rewrite length_app, length_take. unfold zlen in *. cbn. lia.
Qed.

Lemma push_all_spec es : forall b,
  batch_wf b -> Forall event_wf es ->
  exists b', push_all b es = Some b' /\ batch_wf b' /\
    batch_list b' = take 32 (batch_list b ++ es).
Proof.
  induction es as [|e es IH]; intros b Hwf Hes; cbn [push_all].
  - exists b. rewrite app_nil_r, take_ge; [done|]. pose proof (batch_list_zlen b Hwf).
    destruct Hwf as (_ & Hc & _). unfold VMC_INPUT_BATCH_MAX_EVENTS, zlen in *. lia.
  - inversion_clear Hes as [|? ? He Hes'].
    destruct (batch_push_spec b e Hwf He) as (b1 & -> & Hwf1 & Hl1). cbn [mbind option_bind].
    destruct (IH b1 Hwf1 Hes') as (b2 & -> & Hwf2 & Hl2).
    exists b2. split; [done|]. split; [done|]. rewrite Hl2, Hl1.
    pose proof (batch_list_zlen b Hwf). case_decide; [by rewrite <- app_assoc|].
    rewrite !take_app_le by (unfold zlen in *; lia). done.
Qed.

(** C28. Input uplink: events pushed one by one onto a reset batch are kept in
    order, the first 32 of them; serializing the batch writes exactly the
    advertised size and nothing else, and deserializing those bytes (with
    anything after them) into any batch object gives the same events back,
    every field unchanged. No push, store or load leaves its object. *)
Theorem input_batch_roundtrip b0 o es out cap :
  batch_wf b0 -> zlen (events o) = VMC_INPUT_BATCH_MAX_EVENTS -> Forall event_wf es ->
  2 + 16 * 32 <= cap <= zlen out ->
  exists b n out' o', push_all (vmc_input_batch_reset b0) es = Some b /\
    batch_list b = take 32 es /\
    vmc_input_batch_serialize (Some b) (Some out) cap = Some (n, Some out') /\
    n = 2 + 16 * count b /\ drop (Z.to_nat n) out' = drop (Z.to_nat n) out /\
    vmc_input_batch_deserialize (Some out') n (Some o) = Some (VMC_OK, Some o') /\
    batch_list o' = take 32 es.
Proof.
  intros (Hl & Hc & Hf) Ho Hes Hcap.
  assert (Hwf0 : batch_wf (vmc_input_batch_reset b0)) by (split; [done|split; [cbn; lia|done]]).
  destruct (push_all_spec es _ Hwf0 Hes) as (b & Hpush & Hwf & Hlist).
  pose proof (batch_list_zlen b Hwf) as Hz.
  pose proof Hwf as (_ & Hc' & Hf'). unfold VMC_INPUT_BATCH_MAX_EVENTS in Hc'.
  pose proof (serialize_spec b out cap Hwf ltac:(lia)) as Hser.
  destruct (deserialize_spec (batch_list b) (drop (Z.to_nat (2 + 16 * count b)) out)
              (2 + 16 * count b) o) as (o' & Hde & Hlo & _);
    [by apply Forall_take|unfold VMC_INPUT_BATCH_MAX_EVENTS; lia|done|lia|].
  exists b. eexists _, _, o'.
  split_and!; [done| |exact Hser|done| |exact Hde|]; try (by rewrite ?Hlo, Hlist).
  apply drop_app_length'. unfold batch_bytes. rewrite length_app.
  pose proof (evs_bytes_zlen (batch_list b)). unfold zlen in *. cbn. lia.
Qed.

Definition demo_batch : vmc_input_batch := mk_batch (replicate 32 event_zero) 7.
Definition demo_events : list vmc_input_event :=
  [mk_event 1 0 40000 512 3 0 4000000000; mk_event 2 1 0 0 0 0 17].

Lemma input_batch_roundtrip_witness :
  exists b n out' o', push_all (vmc_input_batch_reset demo_batch) demo_events = Some b /\
    vmc_input_batch_serialize (Some b) (Some (replicate 600 0)) 600 = Some (n, Some out') /\
    vmc_input_batch_deserialize (Some out') n (Some demo_batch) = Some (VMC_OK, Some o') /\
    batch_list o' = demo_events.
Proof.
  destruct (input_batch_roundtrip demo_batch demo_batch demo_events (replicate 600 0) 600)
    as (b & n & out' & o' & H1 & _ & H2 & _ & _ & H3 & H4).
  - by_computation.
  - reflexivity.
  - by_computation.
  - vm_compute. split; discriminate.
  - exists b, n, out', o'. split; [exact H1|]. split; [exact H2|]. split; [exact H3|exact H4].
Defined.

(** Deserializing untrusted bytes is total, in bounds and canonical: for
    any bytes and any length up to theirs the parser returns [VMC_OK] or
    [VMC_ERR_PROTO], never stores past the 32 events, leaves the output alone
    on failure, and on success the consumed bytes are exactly the wire form of
    the events delivered. *)
Theorem input_deserialize_safe d len o :
  bytes d -> len <= zlen d -> batch_wf o ->
  exists st o', vmc_input_batch_deserialize (Some d) len (Some o) = Some (st, Some o') /\
    batch_wf o' /\ (st = VMC_OK \/ st = VMC_ERR_PROTO) /\
    (st = VMC_ERR_PROTO -> o' = o) /\
    (st = VMC_OK -> 2 + 16 * count o' <= len /\
       exists rest, d = batch_bytes (batch_list o') ++ rest).
Proof.
  intros Hb Hlen (Ho & Hoc & Hof). destruct (decide (len < 2)).
  { eexists _, o. unfold vmc_input_batch_deserialize. rewrite decide_True by done.
    split; [done|]. split_and!; [done..|by right|done|done]. }
  destruct d as [|b0 [|b1 d]]; try (unfold zlen in Hlen; cbn in Hlen; lia).
  unfold bytes in Hb. rewrite !Forall_cons in Hb. destruct Hb as (H0 & H1 & Hb).
  set (cnt := le16 b0 b1).
  assert (Hcnt : 0 <= cnt < 65536) by (unfold cnt, le16, is_byte in *; lia).
  assert (Hrd : rd16 (b0 :: b1 :: d) 0 = Some cnt).
  { rewrite <- (rd16_head cnt d) by done. unfold cnt. by rewrite bytes16_le. }
  rewrite !zlen_cons in Hlen.
  destruct (decide (2 + cnt * 16 > len \/ cnt > 32)) as [Hbad|Hgood].
  { eexists _, o. unfold vmc_input_batch_deserialize. rewrite decide_False by done.
    rewrite Hrd. cbn [mbind option_bind]. unfold sizeof_event, VMC_INPUT_BATCH_MAX_EVENTS.
    split; [repeat case_decide; done || lia|]. split_and!; [done..|by right|done|done]. }
  destruct (events_of_bytes (Z.to_nat cnt) d) as (es & Hes & Hn & Ed);
    [done|unfold zlen in Hlen; lia|].
  assert (Hz : zlen es = cnt) by (unfold zlen; lia).
  assert (E : b0 :: b1 :: d = batch_bytes es ++ drop (16 * Z.to_nat cnt) d).
  { unfold batch_bytes. rewrite Hz. unfold cnt. rewrite bytes16_le by done.
    rewrite <- app_assoc. fold cnt. rewrite <- Ed. done. }
  rewrite E. destruct (deserialize_spec es (drop (16 * Z.to_nat cnt) d) len o)
    as (o' & Hde & Hlo & Hco & Hzo & Hwo); try done.
  { unfold VMC_INPUT_BATCH_MAX_EVENTS. lia. } { lia. }
  exists VMC_OK, o'. split; [done|]. unfold batch_wf.
  unfold VMC_INPUT_BATCH_MAX_EVENTS in *.
  split_and!; try done; try lia; [by apply Hwo|].
  intros _. split; [lia|]. rewrite Hlo. by eexists.
Qed.

Lemma input_deserialize_safe_witness :
  exists st o', vmc_input_batch_deserialize (Some (255 :: 255 :: replicate 40 0)) 42
      (Some demo_batch) = Some (st, Some o') /\ batch_wf o'.
Proof.
  destruct (input_deserialize_safe (255 :: 255 :: replicate 40 0) 42 demo_batch)
    as (st & o' & H1 & H2 & _); [by_computation|vm_compute; discriminate|by_computation|].
  exists st, o'. split; [exact H1|exact H2].
Defined.

End Input.
