(* ===== verification/Evdev.v ===== *)
(** * The evdev capture backend ([src/input/evdev_input.c])

    The kernel's side of [read] is an argument: the list of results the next
    reads of the descriptor return, with the clock value at that moment. *)

From S2P Require Import Prelude InputBatch.
Import Input.

Module Evdev.

(** Event codes of [linux/input-event-codes.h] that the source names. *)
Definition EV_SYN : Z := 0x00.
Definition EV_KEY : Z := 0x01.
Definition EV_ABS : Z := 0x03.
Definition SYN_REPORT : Z := 0.
Definition ABS_MT_SLOT : Z := 0x2f.
Definition ABS_MT_POSITION_X : Z := 0x35.
Definition ABS_MT_POSITION_Y : Z := 0x36.
Definition ABS_MT_TRACKING_ID : Z := 0x39.
Definition ABS_MT_PRESSURE : Z := 0x3a.
Definition BTN_TOOL_FINGER : Z := 0x145.
Definition BTN_TOUCH : Z := 0x14a.

(** [struct input_event] as far as the source reads it; [ie_value] is an
    [__s32]. *)
Record input_event := mk_ie { ie_type : Z; ie_code : Z; ie_value : Z }.

(** What one [read(fd, &ie, sizeof ie)] does. *)
Inductive read_result :=
| RdEvent (ie : input_event)   (* a whole event *)
| RdShort                      (* any other non-negative count *)
| RdAgain                      (* -1, EAGAIN or EWOULDBLOCK *)
| RdFail.                      (* -1, any other errno *)

Record vmc_evdev_input := mk_evdev { fd : Z; abs_x_max : Z; abs_y_max : Z }.

#[export] Instance eta_evdev : Eta vmc_evdev_input := fun i =>
  mk_evdev (fd i) (abs_x_max i) (abs_y_max i).

Definition evdev_open (inp : vmc_evdev_input) : vmc_status := VMC_OK.

(** The [close] of a non-negative descriptor is counted in the result. *)
Definition evdev_close (inp : vmc_evdev_input) : vmc_evdev_input * bool :=
  if decide (fd inp >= 0) then (inp <| fd := -1 |>, true) else (inp, false).

(** The local variables of [evdev_poll]. *)
Record poll_locals := mk_locals {
  l_tx : Z; l_ty : Z; l_pressure : Z; l_slot : Z; l_have_tx : bool; l_have_ty : bool;
}.

#[export] Instance eta_locals : Eta poll_locals := fun l =>
  mk_locals (l_tx l) (l_ty l) (l_pressure l) (l_slot l) (l_have_tx l) (l_have_ty l).

Definition locals0 : poll_locals := mk_locals 0 0 0 0 false false.

Definition touch_up (l : poll_locals) (now : Z) : vmc_input_event :=
  mk_event VMC_INPUT_TOUCH_UP (u16 (l_slot l)) 0 0 0 0 (u32 now).

Definition touch_move (l : poll_locals) (now : Z) : vmc_input_event :=
  mk_event VMC_INPUT_TOUCH_MOVE (u16 (l_slot l)) (u16 (l_tx l)) (u16 (l_ty l))
    (u16 (l_pressure l)) 0 (u32 now).

(** One pass through the [switch]: either an event to return or new locals. *)
Definition poll_event (l : poll_locals) (ie : input_event) (now : Z)
    : vmc_input_event + poll_locals :=
  let v := ie_value ie in
  if decide (ie_type ie = EV_ABS) then
    if decide (ie_code ie = ABS_MT_SLOT) then inr (l <| l_slot := u32 v |>)
    else if decide (ie_code ie = ABS_MT_POSITION_X)
    then inr (l <| l_tx := u32 v |> <| l_have_tx := true |>)
    else if decide (ie_code ie = ABS_MT_POSITION_Y)
    then inr (l <| l_ty := u32 v |> <| l_have_ty := true |>)
    else if decide (ie_code ie = ABS_MT_PRESSURE) then inr (l <| l_pressure := u32 v |>)
    else if decide (ie_code ie = ABS_MT_TRACKING_ID)
    then if decide (v < 0) then inl (touch_up l now) else inr l
    else inr l
  else if decide (ie_type ie = EV_KEY) then
    if decide (ie_code ie = BTN_TOUCH \/ ie_code ie = BTN_TOOL_FINGER)
    then if decide (v = 0) then inl (touch_up l now) else inr l
    else inr l
  else if decide (ie_type ie = EV_SYN) then
    if decide (ie_code ie = SYN_REPORT)
    then if l_have_tx l || l_have_ty l then inl (touch_move l now) else inr l
    else inr l
  else inr l.

(** The [for (;;)] of [evdev_poll] over the coming reads: the status, the event
    stored through [ev] and the reads left; [None] while it still reads. *)
Fixpoint poll_loop (l : poll_locals) (reads : list (read_result * Z))
    : option (vmc_status * option vmc_input_event * list (read_result * Z)) :=
  match reads with
  | [] => None
  | (RdAgain, _) :: reads => Some (VMC_ERR_AGAIN, None, reads)
  | (RdFail, _) :: reads => Some (VMC_ERR_IO, None, reads)
  | (RdShort, _) :: reads => poll_loop l reads
  | (RdEvent ie, now) :: reads =>
    match poll_event l ie now with
    | inl ev => Some (VMC_OK, Some ev, reads)
    | inr l => poll_loop l reads
    end
  end.

Definition evdev_poll (inp : vmc_evdev_input) (reads : list (read_result * Z))
    : option (vmc_status * option vmc_input_event * list (read_result * Z)) :=
  if decide (fd inp < 0) then Some (VMC_ERR_IO, None, reads) else poll_loop locals0 reads.

(** The kernel's answers to [open] and the two [EVIOCGABS] queries are the
    arguments [opened], [absx], [absy] ([None]: the [ioctl] fails). *)
Definition vmc_evdev_init (inp : option vmc_evdev_input) (opened : Z)
    (absx absy : option Z) : vmc_status * option vmc_evdev_input :=
  match inp with
  | None => (VMC_ERR_INVALID_ARG, None)
  | Some _ =>
    let i := mk_evdev opened 0 0 in
    if decide (opened < 0) then (VMC_ERR_IO, Some i) else
    let i := match absx with Some m => i <| abs_x_max := u32 m |> | None => i end in
    let i := match absy with Some m => i <| abs_y_max := u32 m |> | None => i end in
    let i := if decide (abs_x_max i = 0) then i <| abs_x_max := 32767 |> else i in
    let i := if decide (abs_y_max i = 0) then i <| abs_y_max := 32767 |> else i in
    (VMC_OK, Some i)
  end.

(** ** Reports *)

(** The absolute-axis events of one touch report: no lift. *)
Definition axis_event (ie : input_event) : Prop :=
  ie_type ie = EV_ABS /\ (ie_code ie = ABS_MT_TRACKING_ID -> 0 <= ie_value ie).

#[export] Instance axis_event_dec ie : Decision (axis_event ie).
Proof. unfold axis_event. apply _. Defined.

(** The latest value of an axis in a report, if any event names it. *)
Fixpoint axis_last (code : Z) (ies : list input_event) : option Z :=
  match ies with
  | [] => None
  | ie :: ies =>
    match axis_last code ies with
    | Some v => Some v
    | None => if decide (ie_code ie = code) then Some (ie_value ie) else None
    end
  end.

Definition reads_of (ies : list input_event) (now : Z) : list (read_result * Z) :=
  (fun ie => (RdEvent ie, now)) <$> ies.

Definition has_axis (code : Z) (ies : list input_event) : bool :=
  bool_decide (is_Some (axis_last code ies)).

(** The locals after the axis events of a report. *)
Definition report_locals (l : poll_locals) (ies : list input_event) : poll_locals :=
  mk_locals
    (default (l_tx l) (u32 <$> axis_last ABS_MT_POSITION_X ies))
    (default (l_ty l) (u32 <$> axis_last ABS_MT_POSITION_Y ies))
    (default (l_pressure l) (u32 <$> axis_last ABS_MT_PRESSURE ies))
    (default (l_slot l) (u32 <$> axis_last ABS_MT_SLOT ies))
    (l_have_tx l || has_axis ABS_MT_POSITION_X ies)
    (l_have_ty l || has_axis ABS_MT_POSITION_Y ies).

Lemma poll_axis l ie now :
  axis_event ie -> poll_event l ie now = inr (report_locals l [ie]).
Proof.
  intros [Ht Hl]. unfold poll_event, report_locals, has_axis. cbn [axis_last]. rewrite decide_True by done.
  destruct l. unfold ABS_MT_SLOT, ABS_MT_POSITION_X, ABS_MT_POSITION_Y, ABS_MT_PRESSURE,
    ABS_MT_TRACKING_ID in *.
  repeat (case_decide; try lia); cbn; rewrite ?orb_false_r, ?orb_true_r; try done.
Qed.

Lemma axis_last_cons code ie ies :
  axis_last code (ie :: ies) =
  match axis_last code ies with Some v => Some v | None => axis_last code [ie] end.
Proof. cbn. by destruct (axis_last code ies). Qed.

Lemma report_locals_cons l ie ies :
  report_locals (report_locals l [ie]) ies = report_locals l (ie :: ies).
Proof.
  unfold report_locals, has_axis. rewrite !(axis_last_cons _ ie ies). cbn [l_tx l_ty l_pressure l_slot l_have_tx l_have_ty].
  f_equal.
  - by destruct (axis_last ABS_MT_POSITION_X ies).
  - by destruct (axis_last ABS_MT_POSITION_Y ies).
  - by destruct (axis_last ABS_MT_PRESSURE ies).
  - by destruct (axis_last ABS_MT_SLOT ies).
  - rewrite <- orb_assoc. f_equal. destruct (axis_last ABS_MT_POSITION_X ies); cbn; [by rewrite orb_true_r|by rewrite orb_false_r].
  - rewrite <- orb_assoc. f_equal. destruct (axis_last ABS_MT_POSITION_Y ies); cbn; [by rewrite orb_true_r|by rewrite orb_false_r].
Qed.

Lemma poll_axes ies : forall l now rest,
  Forall axis_event ies ->
  poll_loop l (reads_of ies now ++ rest) = poll_loop (report_locals l ies) rest.
Proof.
  induction ies as [|ie ies IH]; intros l now rest Hi.
  - cbn. unfold report_locals, has_axis. cbn. rewrite !orb_false_r. by destruct l.
  - inversion_clear Hi as [|? ? H1 H2]. cbn [reads_of fmap list_fmap app poll_loop].
    rewrite poll_axis by done. rewrite (IH _ now rest H2). by rewrite report_locals_cons.
Qed.

(** ** Properties *)

Definition axis_value (code : Z) (ies : list input_event) : Z :=
  u16 (default 0 (u32 <$> axis_last code ies)).

(** A touch report becomes one move event: when the device delivers the
    absolute-axis events of a report, at least one of them a position, and
    then [SYN_REPORT], one poll returns [VMC_OK] with a [TOUCH_MOVE] that
    carries the latest value of each axis in the report (zero for an axis the
    report does not mention, truncated to 16 bits) and leaves the later reads
    for the next poll. *)
Theorem evdev_report_is_move inp ies now rest :
  fd inp >= 0 -> Forall axis_event ies ->
  has_axis ABS_MT_POSITION_X ies || has_axis ABS_MT_POSITION_Y ies = true ->
  evdev_poll inp (reads_of ies now ++ (RdEvent (mk_ie EV_SYN SYN_REPORT 0), now) :: rest)
  = Some (VMC_OK,
          Some (mk_event VMC_INPUT_TOUCH_MOVE (axis_value ABS_MT_SLOT ies)
                  (axis_value ABS_MT_POSITION_X ies) (axis_value ABS_MT_POSITION_Y ies)
                  (axis_value ABS_MT_PRESSURE ies) 0 (u32 now)), rest).
Proof.
  intros Hfd Hi Hpos. unfold evdev_poll. rewrite decide_False by lia.
  rewrite poll_axes by done. cbn [poll_loop]. unfold poll_event.
  cbn [ie_type ie_code]. unfold EV_SYN, EV_ABS, EV_KEY. rewrite !decide_False by lia.
  rewrite !decide_True by done. cbn [report_locals l_have_tx l_have_ty orb] in *.
  cbn. by rewrite Hpos.
Qed.

Definition demo_report : list input_event :=
  [mk_ie EV_ABS ABS_MT_SLOT 1; mk_ie EV_ABS ABS_MT_POSITION_X 300;
   mk_ie EV_ABS ABS_MT_POSITION_X 310; mk_ie EV_ABS ABS_MT_PRESSURE 20].

Lemma evdev_report_is_move_witness :
  evdev_poll (mk_evdev 3 0 0)
    (reads_of demo_report 99 ++ [(RdEvent (mk_ie EV_SYN SYN_REPORT 0), 99)])
  = Some (VMC_OK, Some (mk_event VMC_INPUT_TOUCH_MOVE 1 310 0 20 0 99), []).
Proof.
  apply (evdev_report_is_move (mk_evdev 3 0 0) demo_report 99 []);
    [vm_compute; discriminate|by_computation|reflexivity].
Defined.

(** What a poll can return: over any sequence of reads, an event is stored
    exactly when the status is [VMC_OK], it is a well-formed [TOUCH_MOVE] or
    [TOUCH_UP] (the backend emits nothing else), and any other status is
    [VMC_ERR_AGAIN] or [VMC_ERR_IO]; every read is consumed at most once. *)
Theorem evdev_poll_outcome inp reads st ev rest :
  evdev_poll inp reads = Some (st, ev, rest) ->
  (exists used, reads = used ++ rest) /\
  match ev with
  | Some e => st = VMC_OK /\ event_wf e /\
              (type e = VMC_INPUT_TOUCH_MOVE \/ type e = VMC_INPUT_TOUCH_UP)
  | None => st = VMC_ERR_AGAIN \/ st = VMC_ERR_IO
  end.
Proof.
  unfold evdev_poll. case_decide; [intros [= <- <- <-]; split; [by exists []|by right]|].
  clear H. generalize locals0.
  induction reads as [|[r now] reads IH]; intros l; cbn [poll_loop]; [done|].
  assert (Hstep : forall l, poll_loop l reads = Some (st, ev, rest) ->
    (exists used, (r, now) :: reads = used ++ rest) /\
    match ev with
    | Some e => st = VMC_OK /\ event_wf e /\
                (type e = VMC_INPUT_TOUCH_MOVE \/ type e = VMC_INPUT_TOUCH_UP)
    | None => st = VMC_ERR_AGAIN \/ st = VMC_ERR_IO
    end).
  { intros l' Hl. destruct (IH l' Hl) as [[used ->] ?].
    split; [by exists ((r, now) :: used)|done]. }
  assert (Hwf : forall l now, event_wf (touch_up l now) /\ event_wf (touch_move l now)).
  { intros l' t. unfold event_wf, touch_up, touch_move. cbn.
    pose proof (u16_range (l_slot l')). pose proof (u16_range (l_tx l')).
    pose proof (u16_range (l_ty l')). pose proof (u16_range (l_pressure l')).
    pose proof (u32_range t). unfold VMC_INPUT_TOUCH_UP, VMC_INPUT_TOUCH_MOVE. lia. }
  destruct r as [ie| | |]; [|by apply Hstep|..].
  - destruct (poll_event l ie now) as [e|l'] eqn:E; [|by apply Hstep].
    intros [= <- <- <-]. split; [by exists [(RdEvent ie, now)]|]. split; [done|].
    assert (e = touch_up l now \/ e = touch_move l now) as [-> | ->]; cycle 1.
    { split; [apply Hwf|by right]. } { split; [apply Hwf|by left]. }
    unfold poll_event in E. repeat case_decide; repeat case_match; simplify_eq; auto.
  - intros [= <- <- <-]. split; [by exists [(RdAgain, now)]|by left].
  - intros [= <- <- <-]. split; [by exists [(RdFail, now)]|by right].
Qed.

Lemma evdev_poll_outcome_witness :
  (exists used, [(RdShort, 1); (RdAgain, 2); (RdShort, 3)] = used ++ [(RdShort, 3)]) /\
  (VMC_ERR_AGAIN = VMC_ERR_AGAIN \/ VMC_ERR_AGAIN = VMC_ERR_IO).
Proof.
  apply (evdev_poll_outcome (mk_evdev 3 0 0)
           [(RdShort, 1); (RdAgain, 2); (RdShort, 3)] VMC_ERR_AGAIN None [(RdShort, 3)]).
  reflexivity.
Defined.

(** A report that the device delivers in two bursts loses its first half: the
    axes are locals of the poll, which ends at the first [EAGAIN]. *)
Example evdev_split_report :
  let x := RdEvent (mk_ie EV_ABS ABS_MT_POSITION_X 300) in
  let y := RdEvent (mk_ie EV_ABS ABS_MT_POSITION_Y 40) in
  let syn := RdEvent (mk_ie EV_SYN SYN_REPORT 0) in
  evdev_poll (mk_evdev 3 0 0) [(x, 1); (RdAgain, 1); (y, 2); (syn, 2)]
  = Some (VMC_ERR_AGAIN, None, [(y, 2); (syn, 2)]) /\
  evdev_poll (mk_evdev 3 0 0) [(y, 2); (syn, 2)]
  = Some (VMC_OK, Some (mk_event VMC_INPUT_TOUCH_MOVE 0 0 40 0 0 2), []).
Proof. split; reflexivity. Qed.

End Evdev.
