(* ===== verification/SessionState.v ===== *)
(** * The session state machine ([src/session/state.c])

    States, events and the dispatcher with the callbacks it fires, an abstract
    transition relation, and what every history of events satisfies. *)

From Stdlib Require Import String.
From S2P Require Import Prelude.

Module SM.

(** ** States and events ([include/vmc/session/state.h]) *)

Inductive vmc_session_state :=
| VMC_SESSION_OFFLINE
| VMC_SESSION_DISCOVER
| VMC_SESSION_CONNECTING
| VMC_SESSION_ACTIVE
| VMC_SESSION_DEGRADED
| VMC_SESSION_RECONNECTING
| VMC_SESSION_TERMINATING.

Inductive vmc_session_event :=
| VMC_EVENT_BOOT
| VMC_EVENT_MAPPER_RESP
| VMC_EVENT_TRANSPORT_UP
| VMC_EVENT_LINK_OK
| VMC_EVENT_LINK_DEGRADED
| VMC_EVENT_LINK_LOST
| VMC_EVENT_USER_TERMINATE
| VMC_EVENT_SECURITY_TERM
| VMC_EVENT_TIMEOUT.

#[export] Instance state_eq_dec : EqDecision vmc_session_state.
Proof. solve_decision. Defined.
#[export] Instance event_eq_dec : EqDecision vmc_session_event.
Proof. solve_decision. Defined.

Definition vmc_session_state_name (st : vmc_session_state) : string :=
  match st with
  | VMC_SESSION_OFFLINE => "OFFLINE"
  | VMC_SESSION_DISCOVER => "DISCOVER"
  | VMC_SESSION_CONNECTING => "CONNECTING"
  | VMC_SESSION_ACTIVE => "ACTIVE"
  | VMC_SESSION_DEGRADED => "DEGRADED"
  | VMC_SESSION_RECONNECTING => "RECONNECTING"
  | VMC_SESSION_TERMINATING => "TERMINATING"
  end%string.

Definition vmc_session_event_name (ev : vmc_session_event) : string :=
  match ev with
  | VMC_EVENT_BOOT => "BOOT"
  | VMC_EVENT_MAPPER_RESP => "MAPPER_RESP"
  | VMC_EVENT_TRANSPORT_UP => "TRANSPORT_UP"
  | VMC_EVENT_LINK_OK => "LINK_OK"
  | VMC_EVENT_LINK_DEGRADED => "LINK_DEGRADED"
  | VMC_EVENT_LINK_LOST => "LINK_LOST"
  | VMC_EVENT_USER_TERMINATE => "USER_TERMINATE"
  | VMC_EVENT_SECURITY_TERM => "SECURITY_TERM"
  | VMC_EVENT_TIMEOUT => "TIMEOUT"
  end%string.

(** ** The session object *)

(** Which of the four callback pointers are non-NULL. *)
Record vmc_session_callbacks := mk_cb {
  on_state_change : bool;
  on_quality_drop : bool;
  on_session_lost : bool;
  on_terminated : bool;
}.

Record vmc_session := mk_session {
  state : vmc_session_state;
  cb : vmc_session_callbacks;
  retries : Z;
}.

#[export] Instance eta_session : Eta vmc_session := fun s =>
  mk_session (state s) (cb s) (retries s).

(** A callback invocation. *)
Inductive notice :=
| NStateChange (from to : vmc_session_state)
| NQualityDrop
| NSessionLost
| NTerminated (reason : vmc_session_state).

#[export] Instance notice_eq_dec : EqDecision notice.
Proof. solve_decision. Defined.

Definition vmc_session_init (s : option vmc_session) (c : vmc_session_callbacks)
    : vmc_status * option vmc_session :=
  match s with
  | None => (VMC_ERR_INVALID_ARG, None)
  | Some _ => (VMC_OK, Some (mk_session VMC_SESSION_OFFLINE c 0))
  end.

Definition vmc_session_get_state (s : option vmc_session) : vmc_session_state :=
  match s with Some s => state s | None => VMC_SESSION_OFFLINE end.

Definition fire (b : bool) (n : notice) : list notice := if b then [n] else [].

Definition transition (s : vmc_session) (to : vmc_session_state)
    : vmc_session * list notice :=
  let from := state s in
  if decide (from = to) then (s, []) else
  let s := s <| state := to |> in
  (s, fire (on_state_change (cb s)) (NStateChange from to) ++
      match to with
      | VMC_SESSION_DEGRADED => fire (on_quality_drop (cb s)) NQualityDrop
      | VMC_SESSION_RECONNECTING => fire (on_session_lost (cb s)) NSessionLost
      | _ => []
      end).

Definition goto (s : vmc_session) (to : vmc_session_state)
    : vmc_status * vmc_session * list notice :=
  let '(s, ns) := transition s to in (VMC_OK, s, ns).

(** [transition] to TERMINATING followed by the [on_terminated] callback. *)
Definition terminate (s : vmc_session) : vmc_status * vmc_session * list notice :=
  let '(s, ns) := transition s VMC_SESSION_TERMINATING in
  (VMC_OK, s, ns ++ fire (on_terminated (cb s)) (NTerminated (state s))).

Definition count_retry (s : vmc_session) : vmc_session :=
  s <| retries := u32 (retries s + 1) |>.

Definition invalid_event (s : vmc_session) : vmc_status * vmc_session * list notice :=
  (VMC_ERR_INVALID_STATE, s, []).

Definition dispatch (s : vmc_session) (ev : vmc_session_event)
    : vmc_status * vmc_session * list notice :=
  match state s with
  | VMC_SESSION_OFFLINE =>
    match ev with
    | VMC_EVENT_BOOT => goto s VMC_SESSION_DISCOVER
    | _ => invalid_event s
    end
  | VMC_SESSION_DISCOVER =>
    match ev with
    | VMC_EVENT_MAPPER_RESP => goto s VMC_SESSION_CONNECTING
    | VMC_EVENT_TIMEOUT => (VMC_OK, count_retry s, [])
    | VMC_EVENT_LINK_LOST => goto s VMC_SESSION_OFFLINE
    | _ => invalid_event s
    end
  | VMC_SESSION_CONNECTING =>
    match ev with
    | VMC_EVENT_TRANSPORT_UP => goto s VMC_SESSION_ACTIVE
    | VMC_EVENT_TIMEOUT => goto (count_retry s) VMC_SESSION_DISCOVER
    | VMC_EVENT_LINK_LOST => goto s VMC_SESSION_OFFLINE
    | _ => invalid_event s
    end
  | VMC_SESSION_ACTIVE =>
    match ev with
    | VMC_EVENT_LINK_DEGRADED => goto s VMC_SESSION_DEGRADED
    | VMC_EVENT_LINK_LOST => goto s VMC_SESSION_RECONNECTING
    | VMC_EVENT_USER_TERMINATE | VMC_EVENT_SECURITY_TERM => terminate s
    | _ => invalid_event s
    end
  | VMC_SESSION_DEGRADED =>
    match ev with
    | VMC_EVENT_LINK_OK => goto s VMC_SESSION_ACTIVE
    | VMC_EVENT_LINK_LOST => goto s VMC_SESSION_RECONNECTING
    | VMC_EVENT_USER_TERMINATE | VMC_EVENT_SECURITY_TERM => terminate s
    | _ => invalid_event s
    end
  | VMC_SESSION_RECONNECTING =>
    match ev with
    | VMC_EVENT_TRANSPORT_UP => goto s VMC_SESSION_ACTIVE
    | VMC_EVENT_LINK_OK => goto s VMC_SESSION_DISCOVER
    | VMC_EVENT_TIMEOUT => goto (count_retry s) VMC_SESSION_OFFLINE
    | _ => invalid_event s
    end
  | VMC_SESSION_TERMINATING => (VMC_OK, s, [])
  end.

Definition vmc_session_dispatch (s : option vmc_session) (ev : vmc_session_event)
    : vmc_status * option vmc_session * list notice :=
  match s with
  | None => (VMC_ERR_INVALID_ARG, None, [])
  | Some s => let '(st, s, ns) := dispatch s ev in (st, Some s, ns)
  end.

(** ** Histories *)

Fixpoint run (s : vmc_session) (evs : list vmc_session_event)
    : vmc_session * list notice :=
  match evs with
  | [] => (s, [])
  | ev :: evs =>
    let '(_, s1, ns) := dispatch s ev in
    let '(s2, ms) := run s1 evs in (s2, ns ++ ms)
  end.

Definition run_state (s : vmc_session) (evs : list vmc_session_event)
    : vmc_session_state := state (fst (run s evs)).

Lemma run_app s evs fvs :
  run s (evs ++ fvs) =
  let '(s1, ns) := run s evs in let '(s2, ms) := run s1 fvs in (s2, ns ++ ms).
Proof.
  revert s. induction evs as [|ev evs IH]; intros s; cbn [run app].
  - by destruct (run s fvs).
  - destruct (dispatch s ev) as [[st s1] ns]. rewrite IH.
    destruct (run s1 evs) as [s2 ms]. destruct (run s2 fvs) as [s3 ks].
    by rewrite app_assoc.
Qed.

(** ** The abstract machine *)

Inductive next : vmc_session_state -> vmc_session_event -> vmc_session_state -> Prop :=
| next_boot : next VMC_SESSION_OFFLINE VMC_EVENT_BOOT VMC_SESSION_DISCOVER
| next_route : next VMC_SESSION_DISCOVER VMC_EVENT_MAPPER_RESP VMC_SESSION_CONNECTING
| next_retry : next VMC_SESSION_DISCOVER VMC_EVENT_TIMEOUT VMC_SESSION_DISCOVER
| next_up : next VMC_SESSION_CONNECTING VMC_EVENT_TRANSPORT_UP VMC_SESSION_ACTIVE
| next_rediscover : next VMC_SESSION_CONNECTING VMC_EVENT_TIMEOUT VMC_SESSION_DISCOVER
| next_early_loss st : st = VMC_SESSION_DISCOVER \/ st = VMC_SESSION_CONNECTING ->
    next st VMC_EVENT_LINK_LOST VMC_SESSION_OFFLINE
| next_degrade : next VMC_SESSION_ACTIVE VMC_EVENT_LINK_DEGRADED VMC_SESSION_DEGRADED
| next_restore : next VMC_SESSION_DEGRADED VMC_EVENT_LINK_OK VMC_SESSION_ACTIVE
| next_loss st : st = VMC_SESSION_ACTIVE \/ st = VMC_SESSION_DEGRADED ->
    next st VMC_EVENT_LINK_LOST VMC_SESSION_RECONNECTING
| next_end st ev : st = VMC_SESSION_ACTIVE \/ st = VMC_SESSION_DEGRADED ->
    ev = VMC_EVENT_USER_TERMINATE \/ ev = VMC_EVENT_SECURITY_TERM ->
    next st ev VMC_SESSION_TERMINATING
| next_resume : next VMC_SESSION_RECONNECTING VMC_EVENT_TRANSPORT_UP VMC_SESSION_ACTIVE
| next_reroute : next VMC_SESSION_RECONNECTING VMC_EVENT_LINK_OK VMC_SESSION_DISCOVER
| next_give_up : next VMC_SESSION_RECONNECTING VMC_EVENT_TIMEOUT VMC_SESSION_OFFLINE
| next_absorb ev : next VMC_SESSION_TERMINATING ev VMC_SESSION_TERMINATING.

(** What the callbacks are told about a step from [from] to [to]. *)
Definition notices (c : vmc_session_callbacks) (from to : vmc_session_state) : list notice :=
  if decide (from = to) then [] else
  fire (on_state_change c) (NStateChange from to) ++
  fire (bool_decide (to = VMC_SESSION_DEGRADED) && on_quality_drop c) NQualityDrop ++
  fire (bool_decide (to = VMC_SESSION_RECONNECTING) && on_session_lost c) NSessionLost ++
  fire (bool_decide (to = VMC_SESSION_TERMINATING) && on_terminated c)
    (NTerminated VMC_SESSION_TERMINATING).

Definition is_terminated (n : notice) : bool :=
  match n with NTerminated _ => true | _ => false end.

Definition no_end (ns : list notice) : Prop :=
  forallb (fun n => negb (is_terminated n)) ns = true.

Lemma no_end_app ns ms : no_end (ns ++ ms) <-> no_end ns /\ no_end ms.
Proof. unfold no_end. by rewrite forallb_app, andb_true_iff. Qed.

(** The first end notice of [ns ++ ks] is not in [ns]. *)
Lemma no_end_split ns pre n post ks :
  no_end ns -> ns ++ ks = pre ++ NTerminated n :: post ->
  exists pre', pre = ns ++ pre' /\ ks = pre' ++ NTerminated n :: post.
Proof.
  revert pre. induction ns as [|m ns IH]; intros pre Hn E; [by exists pre|].
  apply andb_true_iff in Hn as [Hm Hns]. destruct pre as [|x pre]; cbn in E.
  - injection E as -> _. done.
  - injection E as -> E. destruct (IH pre Hns E) as (pre' & -> & ->). by exists pre'.
Qed.

(** A run from TERMINATING does nothing. *)
Lemma run_terminating more c r :
  run (mk_session VMC_SESSION_TERMINATING c r) more
  = (mk_session VMC_SESSION_TERMINATING c r, []).
Proof. induction more as [|e more IH]; [done|]. cbn [run dispatch state]. by rewrite IH. Qed.

(** One step: no end notice before TERMINATING, at most one on entering it. *)
Lemma dispatch_end s ev :
  state s <> VMC_SESSION_TERMINATING ->
  let '(_, s', ns) := dispatch s ev in
  (state s' <> VMC_SESSION_TERMINATING /\ no_end ns) \/
  (state s' = VMC_SESSION_TERMINATING /\
   exists ms, no_end ms /\ (ns = ms \/ ns = ms ++ [NTerminated VMC_SESSION_TERMINATING])).
Proof.
  destruct s as [st [c1 c2 c3 c4] r]. intros Hst.
  destruct st, ev; cbn in Hst |- *; try done;
    first [ left; split; [discriminate|]; destruct c1, c2, c3; reflexivity | right; split; [done|] ];
    [exists (fire c1 (NStateChange VMC_SESSION_ACTIVE VMC_SESSION_TERMINATING))
    |exists (fire c1 (NStateChange VMC_SESSION_ACTIVE VMC_SESSION_TERMINATING))
    |exists (fire c1 (NStateChange VMC_SESSION_DEGRADED VMC_SESSION_TERMINATING))
    |exists (fire c1 (NStateChange VMC_SESSION_DEGRADED VMC_SESSION_TERMINATING))];
    (split; [by destruct c1|]); destruct c1, c4; cbn; first [by left|by right].
Qed.

Lemma next_fun st ev a b : next st ev a -> next st ev b -> a = b.
Proof. destruct 1; inversion 1; subst; intuition congruence. Qed.

(** ** Properties *)

(** C13. The dispatcher implements the transition relation: an event the
    relation allows returns [VMC_OK], moves to the state it gives and fires
    exactly the callbacks that state change calls for (none when the state is
    unchanged), each at most once; any other event returns
    [VMC_ERR_INVALID_STATE] and changes nothing; [retries] counts timeouts,
    modulo 2^32, and the callbacks are never replaced. *)
Theorem session_dispatch_refines s ev :
  let '(st, s', ns) := dispatch s ev in
  (st = VMC_OK /\ next (state s) ev (state s') /\ ns = notices (cb s) (state s) (state s') \/
   st = VMC_ERR_INVALID_STATE /\ s' = s /\ ns = [] /\ forall to, ~ next (state s) ev to) /\
  cb s' = cb s /\
  retries s' = (if decide (ev = VMC_EVENT_TIMEOUT /\ st = VMC_OK /\
                           state s <> VMC_SESSION_TERMINATING)
                then u32 (retries s + 1) else retries s).
Proof.
  destruct s as [st c r]. destruct st, ev; cbn; (split; [|done]);
    first [ left; split; [done|]; split; [constructor; auto|];
            unfold notices; cbn; rewrite ?app_nil_r; done
          | right; split; [done|]; split; [done|]; split; [done|];
            intros to; inversion 1; subst; intuition congruence ].
Qed.

Definition demo_cb : vmc_session_callbacks := mk_cb true true true true.
Definition demo_session : vmc_session := mk_session VMC_SESSION_OFFLINE demo_cb 0.

(** No session without discovery and transport: from boot, a history of
    events can only leave the machine ACTIVE (or any later state) if it
    contains BOOT, then MAPPER_RESP, then TRANSPORT_UP, in this order. *)
Theorem session_needs_route_and_transport c r evs :
  run_state (mk_session VMC_SESSION_OFFLINE c r) evs
    ∈ [VMC_SESSION_ACTIVE; VMC_SESSION_DEGRADED; VMC_SESSION_RECONNECTING;
       VMC_SESSION_TERMINATING] ->
  sublist [VMC_EVENT_BOOT; VMC_EVENT_MAPPER_RESP; VMC_EVENT_TRANSPORT_UP] evs.
Proof.
  intros H.
  set (need := fun st => match st with
    | VMC_SESSION_OFFLINE => []
    | VMC_SESSION_DISCOVER => [VMC_EVENT_BOOT]
    | VMC_SESSION_CONNECTING => [VMC_EVENT_BOOT; VMC_EVENT_MAPPER_RESP]
    | _ => [VMC_EVENT_BOOT; VMC_EVENT_MAPPER_RESP; VMC_EVENT_TRANSPORT_UP]
    end).
  assert (Hinv : sublist (need (run_state (mk_session VMC_SESSION_OFFLINE c r) evs)) evs).
  { clear H. induction evs as [|ev evs IH] using rev_ind; [constructor|].
    unfold run_state in *. rewrite run_app.
    destruct (run _ evs) as [[st c' r'] ns]. cbn [fst state] in IH. cbn [run].
    assert (Hk : forall l, sublist l (need st) -> sublist l (evs ++ [ev]))
      by (intros l Hl; eapply sublist_inserts_r; by etrans).
    assert (Ha : forall l, l = need st ++ [ev] -> sublist l (evs ++ [ev]))
      by (intros l ->; by apply sublist_app).
    destruct st, ev; cbn; first
      [ apply Ha; reflexivity
      | apply Hk; cbn; repeat constructor
      | apply Hk; cbn; apply sublist_nil_l ]. }
  repeat (apply elem_of_cons in H as [H|H]; [by rewrite H in Hinv|]). by apply elem_of_nil in H.
Qed.

Lemma session_needs_route_and_transport_witness :
  sublist [VMC_EVENT_BOOT; VMC_EVENT_MAPPER_RESP; VMC_EVENT_TRANSPORT_UP]
    [VMC_EVENT_BOOT; VMC_EVENT_TIMEOUT; VMC_EVENT_MAPPER_RESP; VMC_EVENT_LINK_OK;
     VMC_EVENT_TRANSPORT_UP; VMC_EVENT_LINK_LOST].
Proof.
  apply (session_needs_route_and_transport demo_cb 0). by_computation.
Defined.

(** Termination is final: once TERMINATING, every further event returns
    [VMC_OK], leaves the session object unchanged and calls nobody; so over any
    history the [on_terminated] callback runs at most once, and it is the last
    callback ever made. *)
Theorem session_termination_final s evs pre post n :
  snd (run s evs) = pre ++ NTerminated n :: post ->
  state s <> VMC_SESSION_TERMINATING ->
  n = VMC_SESSION_TERMINATING /\ post = [] /\
  no_end pre /\ run_state s evs = VMC_SESSION_TERMINATING /\
  forall more, run s (evs ++ more) = run s evs.
Proof.
  revert s pre. induction evs as [|ev evs IH]; intros s pre Hrun Hst; [by destruct pre|].
  cbn [run] in Hrun. unfold run_state in *. cbn [run app].
  pose proof (dispatch_end s ev Hst) as Ho. destruct (dispatch s ev) as [[r0 s1] ns].
  destruct Ho as [[Hs1 Hns]|[Hs1 (ms & Hms & Hns)]].
  - assert (exists pre', pre = ns ++ pre' /\ snd (run s1 evs) = pre' ++ NTerminated n :: post)
      as (pre' & -> & Hrest).
    { destruct (run s1 evs) as [s2 ks]. cbn [snd] in Hrun |- *.
      by apply no_end_split. }
    destruct (IH s1 pre' Hrest Hs1) as (Hn & Hp & Hpre & Hfin & Hmore).
    split_and!; try done; [by apply no_end_app|by destruct (run s1 evs)|].
    intros more. by rewrite Hmore.
  - destruct s1 as [st1 c1 r1]. cbn in Hs1. subst st1.
    rewrite run_terminating in Hrun. cbn [snd] in Hrun. rewrite app_nil_r in Hrun.
    assert (Hends : ns = pre ++ [NTerminated VMC_SESSION_TERMINATING] /\ no_end pre /\
      n = VMC_SESSION_TERMINATING /\ post = []).
    { destruct Hns as [-> | ->].
      - exfalso. rewrite Hrun in Hms. by apply no_end_app in Hms as [_ ?].
      - symmetry in Hrun. destruct (no_end_split ms pre n post [NTerminated VMC_SESSION_TERMINATING])
          as (pre' & -> & Hrest); [done|by symmetry|].
        destruct pre' as [|x [|y pre']]; [|done|done]. cbn in Hrest. simplify_eq.
        by rewrite app_nil_r. }
    destruct Hends as (-> & Hp & -> & ->). rewrite !run_terminating.
    split_and!; try done. intros more. by rewrite run_terminating.
Qed.

Lemma session_termination_final_witness :
  let evs := [VMC_EVENT_BOOT; VMC_EVENT_MAPPER_RESP; VMC_EVENT_TRANSPORT_UP;
              VMC_EVENT_USER_TERMINATE; VMC_EVENT_LINK_LOST] in
  run_state demo_session evs = VMC_SESSION_TERMINATING /\
  run demo_session (evs ++ [VMC_EVENT_SECURITY_TERM]) = run demo_session evs.
Proof.
  intros evs.
  destruct (session_termination_final demo_session evs
    [NStateChange VMC_SESSION_OFFLINE VMC_SESSION_DISCOVER;
     NStateChange VMC_SESSION_DISCOVER VMC_SESSION_CONNECTING;
     NStateChange VMC_SESSION_CONNECTING VMC_SESSION_ACTIVE;
     NStateChange VMC_SESSION_ACTIVE VMC_SESSION_TERMINATING] []
    VMC_SESSION_TERMINATING) as (_ & _ & _ & H1 & H2); [reflexivity|discriminate|].
  split; [exact H1|apply H2].
Defined.

End SM.
