(* ===== verification/Transport.v ===== *)
(** * The datagram transport ([src/transport/transport.c], [udp_transport.c])

    [Class Transport] states what the session relies on: a successful send puts
    exactly the packet on the wire. The UDP implementation over scripted
    kernel answers discharges it. *)

From S2P Require Import Prelude.

(** ** The interface ([include/vmc/transport/transport.h]) *)

(** [wire t] lists the datagrams handed to the network so far. *)
Class Transport (T : Type) := {
  vmc_transport_send : T -> list Z -> Z -> vmc_status * T;
  wire : T -> list (list Z);
}.

Class TransportLaws (T : Type) `{Transport T} := {
  send_ok_law t p len t' : vmc_transport_send t p len = (VMC_OK, t') ->
    wire t' = wire t ++ [take (Z.to_nat len) p];
  send_err_law t p len st t' : vmc_transport_send t p len = (st, t') -> st <> VMC_OK ->
    wire t' = wire t;
}.

Module Udp.

(** ** Statistics shared by the implementations *)

Record vmc_transport := mk_transport {
  tx_bytes : Z; rx_bytes : Z; tx_packets : Z; rx_packets : Z;
}.

#[export] Instance eta_transport : Eta vmc_transport := fun t =>
  mk_transport (tx_bytes t) (rx_bytes t) (tx_packets t) (rx_packets t).

Definition vmc_transport_note_tx (t : vmc_transport) (n : Z) : vmc_transport :=
  t <| tx_bytes := u64 (tx_bytes t + n) |> <| tx_packets := u64 (tx_packets t + 1) |>.

Definition vmc_transport_note_rx (t : vmc_transport) (n : Z) : vmc_transport :=
  t <| rx_bytes := u64 (rx_bytes t + n) |> <| rx_packets := u64 (rx_packets t + 1) |>.

(** ** The UDP transport *)

Definition VMC_UDP_RECV_BUF_DEFAULT : Z := 2048.

(** [own_buf] tells whether [recv_buf] is the static default buffer. *)
Record vmc_udp_transport := mk_udp {
  base : vmc_transport; fd : Z; own_buf : bool; recv_cap : Z; local_port : Z;
}.

#[export] Instance eta_udp : Eta vmc_udp_transport := fun u =>
  mk_udp (base u) (fd u) (own_buf u) (recv_cap u) (local_port u).

(** The outcome of a system call: a value, or -1 with EAGAIN/EWOULDBLOCK or
    another errno. *)
Inductive sys (A : Type) := SysOk (a : A) | SysAgain | SysFail.
Arguments SysOk {A} _.
Arguments SysAgain {A}.
Arguments SysFail {A}.

Definition udp_open (u : vmc_udp_transport) (socket : Z) : vmc_status * vmc_udp_transport :=
  if decide (fd u >= 0) then (VMC_OK, u) else
  let u := u <| fd := socket |> in
  if decide (fd u < 0) then (VMC_ERR_IO, u) else (VMC_OK, u).

(** The second component: the descriptor passed to [close], if any. *)
Definition udp_close (u : vmc_udp_transport) : vmc_udp_transport * option Z :=
  if decide (fd u >= 0) then (u <| fd := -1 |>, Some (fd u)) else (u, None).

Definition udp_send (u : vmc_udp_transport) (sent : sys Z) : vmc_status * vmc_udp_transport :=
  if decide (fd u < 0) then (VMC_ERR_NOT_CONNECTED, u) else
  match sent with
  | SysAgain => (VMC_ERR_AGAIN, u)
  | SysFail => (VMC_ERR_IO, u)
  | SysOk n => (VMC_OK, u <| base := vmc_transport_note_tx (base u) n |>)
  end.

(** [rcvd] is the datagram the kernel dequeues; [recv] truncates it to [cap].
    The result has the bytes stored in [buf] and [*out_len]. *)
Definition udp_recv (u : vmc_udp_transport) (cap : Z) (rcvd : sys (list Z))
    : vmc_status * option (list Z * Z) * vmc_udp_transport :=
  if decide (fd u < 0) then (VMC_ERR_NOT_CONNECTED, None, u) else
  match rcvd with
  | SysAgain => (VMC_ERR_AGAIN, None, u)
  | SysFail => (VMC_ERR_IO, None, u)
  | SysOk d =>
    let b := take (Z.to_nat cap) d in
    let n := zlen b in
    if decide (n = 0) then (VMC_ERR_AGAIN, None, u)
    else (VMC_OK, Some (b, n), u <| base := vmc_transport_note_rx (base u) n |>)
  end.

Definition udp_stats (u : vmc_udp_transport) : Z * Z * Z * Z :=
  (tx_bytes (base u), rx_bytes (base u), tx_packets (base u), rx_packets (base u)).

(** [buf] is the caller's buffer pointer: NULL is [false]. *)
Definition vmc_udp_init (u : option vmc_udp_transport) (buf : bool) (cap : Z)
    : vmc_status * option vmc_udp_transport :=
  match u with
  | None => (VMC_ERR_INVALID_ARG, None)
  | Some _ =>
    let u := mk_udp (mk_transport 0 0 0 0) (-1) false 0 0 in
    if buf && bool_decide (cap > 0) then (VMC_OK, Some (u <| recv_cap := cap |>))
    else (VMC_OK, Some (u <| own_buf := true |> <| recv_cap := VMC_UDP_RECV_BUF_DEFAULT |>))
  end.

(** [resolved]: does [getaddrinfo] give an address; [connected]: the result of
    [connect]. *)
Definition vmc_udp_connect (u : option vmc_udp_transport) (host : bool) (port : Z)
    (socket : Z) (resolved : bool) (connected : Z)
    : vmc_status * option vmc_udp_transport :=
  match u with
  | Some x =>
    if negb host || bool_decide (port = 0) then (VMC_ERR_INVALID_ARG, u) else
    let '(st, x) := udp_open x socket in
    if decide (st <> VMC_OK) then (st, Some x) else
    if negb resolved then (VMC_ERR_IO, Some x) else
    if decide (connected <> 0) then (VMC_ERR_IO, Some x) else (VMC_OK, Some x)
  | None => (VMC_ERR_INVALID_ARG, u)
  end.

(** ** The implementation of the interface

    A transport together with the answers the kernel will give to its sends
    and the datagrams it has accepted. A datagram socket takes a packet whole
    or not at all. *)

Record endpoint := mk_endpoint {
  udp : vmc_udp_transport;
  answers : list (sys unit);
  accepted : list (list Z);
}.

Definition endpoint_send (e : endpoint) (p : list Z) (len : Z) : vmc_status * endpoint :=
  let dg := take (Z.to_nat len) p in
  let '(ans, rest) := match answers e with [] => (SysAgain, []) | a :: r => (a, r) end in
  let sent := match ans with SysOk _ => SysOk (zlen dg) | SysAgain => SysAgain | SysFail => SysFail end in
  let '(st, u) := udp_send (udp e) sent in
  if decide (fd (udp e) < 0) then (st, mk_endpoint u (answers e) (accepted e))
  else (st, mk_endpoint u rest
              (match ans with SysOk _ => accepted e ++ [dg] | _ => accepted e end)).

#[export] Instance endpoint_transport : Transport endpoint := {
  vmc_transport_send := endpoint_send;
  wire := accepted;
}.

#[export] Instance endpoint_laws : TransportLaws endpoint.
Proof.
  split; cbn; unfold endpoint_send, udp_send; intros t p len;
    destruct (answers t) as [|[u| |] r]; case_decide; cbn; intros; by simplify_eq.
Qed.

(** ** Accounting *)

Inductive udp_op := USend (sent : sys Z) | URecv (cap : Z) (rcvd : sys (list Z)).

Definition udp_step (u : vmc_udp_transport) (o : udp_op) : vmc_status * vmc_udp_transport :=
  match o with
  | USend s => udp_send u s
  | URecv cap d => let '(st, _, u) := udp_recv u cap d in (st, u)
  end.

Fixpoint udp_run (u : vmc_udp_transport) (os : list udp_op)
    : list vmc_status * vmc_udp_transport :=
  match os with
  | [] => ([], u)
  | o :: os =>
    let '(st, u1) := udp_step u o in
    let '(sts, u2) := udp_run u1 os in (st :: sts, u2)
  end.

(** Bytes and packets a successful operation moves. *)
Definition sent_bytes (o : udp_op) : Z := match o with USend (SysOk n) => n | _ => 0 end.
Definition sent_packets (o : udp_op) : Z := match o with USend (SysOk _) => 1 | _ => 0 end.
Definition got_bytes (o : udp_op) : Z :=
  match o with URecv cap (SysOk d) => zlen (take (Z.to_nat cap) d) | _ => 0 end.
Definition got_packets (o : udp_op) : Z :=
  if decide (got_bytes o = 0) then 0 else 1.

Definition total (f : udp_op -> Z) (os : list udp_op) : Z := foldr Z.add 0 (f <$> os).

Lemma total_cons f o os : total f (o :: os) = f o + total f os.
Proof. done. Qed.

Definition stats_wf (t : vmc_transport) : Prop :=
  0 <= tx_bytes t < 18446744073709551616 /\ 0 <= rx_bytes t < 18446744073709551616 /\
  0 <= tx_packets t < 18446744073709551616 /\ 0 <= rx_packets t < 18446744073709551616.

Lemma udp_step_open u o : fd u >= 0 ->
  let '(st, u') := udp_step u o in
  fd u' = fd u /\
  base u' = mk_transport (tx_bytes (base u')) (rx_bytes (base u')) (tx_packets (base u'))
              (rx_packets (base u')) /\
  (stats_wf (base u) -> stats_wf (base u') /\
    tx_bytes (base u') = u64 (tx_bytes (base u) + sent_bytes o) /\
    rx_bytes (base u') = u64 (rx_bytes (base u) + got_bytes o) /\
    tx_packets (base u') = u64 (tx_packets (base u) + sent_packets o) /\
    rx_packets (base u') = u64 (rx_packets (base u) + got_packets o)) /\
  (st = VMC_OK <-> sent_packets o + got_packets o = 1).
Proof.
  intros Hfd. destruct u as [[b1 b2 b3 b4] f own rc lp]. cbn in Hfd.
  assert (Hid : forall x, 0 <= x < 18446744073709551616 -> x = u64 (x + 0))
    by (intros; by rewrite Z.add_0_r, u64_small).
  pose proof u64_range as Hr.
  destruct o as [[n| |]|cap [d| |]]; cbn; unfold udp_send, udp_recv, got_packets; cbn;
    rewrite decide_False by lia; try (destruct (decide (zlen _ = 0)) as [E|E]; cbn);
    rewrite ?E; cbn; unfold stats_wf; cbn;
    (split; [done|]; split; [done|]; split;
     [intros (?&?&?&?); rewrite <- ?Hid by done; split_and!; try lia; try apply Hr; done
     |split; done || lia]).
Qed.

(** Transport accounting: over any sequence of sends and receives on an
    open transport, each call reports [VMC_OK] exactly when the kernel moved a
    datagram (a failed or would-block call, and an empty receive, change
    nothing), and the four counters equal, modulo 2^64, the bytes and packets
    moved since they were zero; the descriptor stays open. *)
Theorem udp_accounting os : forall u sts u',
  fd u >= 0 -> stats_wf (base u) -> udp_run u os = (sts, u') ->
  fd u' = fd u /\
  tx_bytes (base u') = u64 (tx_bytes (base u) + total sent_bytes os) /\
  rx_bytes (base u') = u64 (rx_bytes (base u) + total got_bytes os) /\
  tx_packets (base u') = u64 (tx_packets (base u) + total sent_packets os) /\
  rx_packets (base u') = u64 (rx_packets (base u) + total got_packets os) /\
  Forall2 (fun st o => st = VMC_OK <-> sent_packets o + got_packets o = 1) sts os.
Proof.
  induction os as [|o os IH]; intros u sts u' Hfd Hwf Hrun; cbn [udp_run] in Hrun.
  - injection Hrun as <- <-. destruct Hwf as (?&?&?&?). unfold total. cbn.
    rewrite !Z.add_0_r, !u64_small by lia. done.
  - pose proof (udp_step_open u o Hfd) as Hs. destruct (udp_step u o) as [st u1].
    destruct (udp_run u1 os) as [sts1 u2] eqn:E. injection Hrun as <- <-.
    destruct Hs as (Hf1 & _ & Hc & Hst). destruct (Hc Hwf) as (Hwf1 & E1 & E2 & E3 & E4).
    destruct (IH u1 sts1 u2) as (F0 & F1 & F2 & F3 & F4 & F5); try done; [lia|].
    rewrite !total_cons, F1, F2, F3, F4, E1, E2, E3, E4.
    split_and!; [congruence|..|by constructor]; unfold u64; rewrite Zplus_mod_idemp_l;
      f_equal; lia.
Qed.

Lemma udp_accounting_witness :
  exists u', udp_run (mk_udp (mk_transport 18446744073709551615 0 0 0) 3 true 2048 0)
      [USend (SysOk 20); USend SysAgain; URecv 1 (SysOk [1; 2]); URecv 9 (SysOk [])]
    = ([VMC_OK; VMC_ERR_AGAIN; VMC_OK; VMC_ERR_AGAIN], u') /\
    tx_bytes (base u') = 19 /\ rx_bytes (base u') = 1 /\ rx_packets (base u') = 1.
Proof.
  eexists. split; [reflexivity|].
  destruct (udp_accounting [USend (SysOk 20); USend SysAgain; URecv 1 (SysOk [1; 2]);
                            URecv 9 (SysOk [])]
    (mk_udp (mk_transport 18446744073709551615 0 0 0) 3 true 2048 0)
    [VMC_OK; VMC_ERR_AGAIN; VMC_OK; VMC_ERR_AGAIN] _
    ltac:(cbn; lia) ltac:(unfold stats_wf; cbn; lia) eq_refl) as (_ & H1 & H2 & _ & H3 & _).
  split; [rewrite H1; reflexivity|]. split; [rewrite H2; reflexivity|rewrite H3; reflexivity].
Defined.

End Udp.
