(* ===== verification/Session.v ===== *)
(** * The session object ([src/session/session.c])

    Keepalives, link-loss detection and packet reception, for any transport
    that satisfies the interface of [Transport.v]. *)

From S2P Require Import Prelude Protocol Transport SessionState.
Import Proto.

Module Sess.
Import SM.

Section session.
Context {T : Type} `{TransportLaws T}.

(** [vmc_session_config] without the route, and the session context. The
    borrowed transport is a component: the session is its only user here. *)
Record vmc_session_config := mk_cfg { keepalive_ms : Z; link_timeout_ms : Z }.

Record vmc_session_ctx := mk_ctx {
  sm : vmc_session;
  transport : T;
  cfg : vmc_session_config;
  last_rx_ms : Z;
  last_keepalive_ms : Z;
  last_ka_send_us : Z;
  tx_seq : Z;
  keepalive_interval_ms : Z;
}.

#[export] Instance eta_ctx : Eta vmc_session_ctx := fun c =>
  mk_ctx (sm c) (transport c) (cfg c) (last_rx_ms c) (last_keepalive_ms c)
    (last_ka_send_us c) (tx_seq c) (keepalive_interval_ms c).

(** [now_ms] is the value of [vmc_time_now_ms()] in the call. *)
Definition vmc_session_ctx_init (sc : option vmc_session_ctx) (t : option T)
    (c : option vmc_session_config) (now_ms : Z) : vmc_status * option vmc_session_ctx :=
  match sc, t, c with
  | Some _, Some t, Some c =>
    (VMC_OK,
     Some (mk_ctx (mk_session VMC_SESSION_OFFLINE (mk_cb false false false false) 0) t c
             now_ms now_ms 0 0
             (if decide (keepalive_ms c <> 0) then keepalive_ms c else 2000)))
  | _, _, _ => (VMC_ERR_INVALID_ARG, sc)
  end.

Definition dispatch_sm (sc : vmc_session_ctx) (ev : vmc_session_event)
    : vmc_status * vmc_session_ctx :=
  let '(st, s, _) := dispatch (sm sc) ev in (st, sc <| sm := s |>).

Definition vmc_session_start (sc : vmc_session_ctx) : vmc_status * vmc_session_ctx :=
  dispatch_sm sc VMC_EVENT_BOOT.

Definition vmc_session_stop (sc : vmc_session_ctx) : vmc_status * vmc_session_ctx :=
  dispatch_sm sc VMC_EVENT_USER_TERMINATE.

Definition keepalive_header (sq now_ms : Z) : vmc_proto_header :=
  {| magic := VMC_PROTO_MAGIC; version := VMC_PROTO_VERSION; flags := 0;
     stream := u8 VMC_PROTO_STREAM_CONTROL; reserved := 0; payload_len := 0;
     seq := u32 sq; ts_us := u32 now_ms; crc := 0 |}.

(** [pkt] is the uninitialised stack buffer; [now_us] the clock. *)
Definition send_keepalive (sc : vmc_session_ctx) (pkt : list Z) (now_ms now_us : Z)
    : option (vmc_status * vmc_session_ctx) :=
  let h := keepalive_header (tx_seq sc) now_ms in
  let sc := sc <| tx_seq := u64 (tx_seq sc + 1) |> in
  '(st, b) ← vmc_proto_encode (Some pkt) VMC_PROTO_HEADER_SIZE (Some h) None;
  if decide (st < 0) then Some (st, sc) else
  b ← b;
  let sc := sc <| last_ka_send_us := now_us |> in
  let '(r, t) := vmc_transport_send (transport sc) b st in
  Some (r, sc <| transport := t |>).

Definition vmc_session_step (sc : vmc_session_ctx) (pkt : list Z) (now_ms now_us : Z)
    : option (vmc_status * vmc_session_ctx) :=
  match state (sm sc) with
  | VMC_SESSION_ACTIVE | VMC_SESSION_DEGRADED =>
    sc ← (if decide (u64 (now_ms - last_keepalive_ms sc) >= keepalive_interval_ms sc)
          then '(_, sc) ← send_keepalive sc pkt now_ms now_us;
               Some (sc <| last_keepalive_ms := now_ms |>)
          else Some sc);
    if decide (link_timeout_ms (cfg sc) > 0 /\
               u64 (now_ms - last_rx_ms sc) > link_timeout_ms (cfg sc))
    then Some (dispatch_sm sc VMC_EVENT_LINK_LOST)
    else Some (VMC_OK, sc)
  | _ => Some (VMC_OK, sc)
  end.

(** [packet] is NULL for [None]; [now_ms] is the clock. *)
Definition vmc_session_on_rx (sc : vmc_session_ctx) (packet : option (list Z)) (len now_ms : Z)
    : option (vmc_status * vmc_session_ctx) :=
  match packet with
  | None => Some (VMC_ERR_INVALID_ARG, sc)
  | Some _ =>
    '(st, oh) ← vmc_proto_decode_header packet len (Some header_local);
    if decide (st <> VMC_OK) then Some (st, sc) else
    h ← oh;
    if decide (stream h = VMC_PROTO_STREAM_CONTROL)
    then Some (VMC_OK, sc <| last_rx_ms := now_ms |>)
    else Some (VMC_OK, sc)
  end.

(** ** The keepalive datagram *)

Definition keepalive_due (sc : vmc_session_ctx) (now_ms : Z) : Prop :=
  u64 (now_ms - last_keepalive_ms sc) >= keepalive_interval_ms sc.

Definition link_expired (sc : vmc_session_ctx) (now_ms : Z) : Prop :=
  link_timeout_ms (cfg sc) > 0 /\ u64 (now_ms - last_rx_ms sc) > link_timeout_ms (cfg sc).

Definition streaming (sc : vmc_session_ctx) : Prop :=
  state (sm sc) = VMC_SESSION_ACTIVE \/ state (sm sc) = VMC_SESSION_DEGRADED.

#[export] Instance link_expired_dec sc now_ms : Decision (link_expired sc now_ms).
Proof. unfold link_expired. apply _. Defined.

Lemma keepalive_header_wf sq now_ms : header_wf (keepalive_header sq now_ms).
Proof.
  pose proof (u32_range sq). pose proof (u32_range now_ms).
  unfold header_wf, is_byte, keepalive_header, VMC_PROTO_MAGIC, VMC_PROTO_VERSION,
    VMC_PROTO_STREAM_CONTROL.
  cbn [magic version flags stream reserved payload_len seq ts_us crc].
  change (u8 0) with 0. lia.
Qed.

(** The 17 bytes a keepalive puts on the wire. *)
Definition keepalive_packet (sq now_ms : Z) : list Z :=
  packet (keepalive_header sq now_ms) [].

Lemma keepalive_encode sq now_ms pkt :
  zlen pkt = 17 ->
  vmc_proto_encode (Some pkt) VMC_PROTO_HEADER_SIZE (Some (keepalive_header sq now_ms)) None
  = Some (17, Some (keepalive_packet sq now_ms)).
Proof.
  intros Hp. rewrite encode_spec; [|done|done|done|].
  - change (payload_len (keepalive_header sq now_ms)) with 0.
    change (payload_sent (keepalive_header sq now_ms) None) with (@nil Z).
    rewrite drop_ge by (unfold zlen in Hp; cbn; lia). by rewrite app_nil_r.
  - unfold VMC_PROTO_HEADER_SIZE. cbn. lia.
Qed.

Lemma keepalive_zlen sq now_ms :
  take (Z.to_nat 17) (keepalive_packet sq now_ms) = keepalive_packet sq now_ms /\
  zlen (keepalive_packet sq now_ms) = 17.
Proof.
  assert (Hz : zlen (keepalive_packet sq now_ms) = 17) by apply packet_zlen.
  split; [|done]. apply take_ge. unfold zlen in Hz. lia.
Qed.

(** Receivers accept it, as an empty packet of the control stream. *)
Lemma keepalive_decodes sq now_ms :
  exists h, vmc_proto_decode (Some (keepalive_packet sq now_ms))
              (zlen (keepalive_packet sq now_ms)) = Some (VMC_OK, Some (h, 17)) /\
    stream h = VMC_PROTO_STREAM_CONTROL /\ payload_len h = 0 /\
    seq h = u32 sq /\ ts_us h = u32 now_ms.
Proof.
  rewrite (proj2 (keepalive_zlen sq now_ms)).
  eexists. rewrite <- (app_nil_r (keepalive_packet _ _)). unfold keepalive_packet.
  rewrite decode_packet; [split; [done|]|apply keepalive_header_wf|done|constructor|done|].
  - done.
  - cbn [payload_len keepalive_header]. change (zlen (@nil Z)) with 0. lia.
Qed.

#[local] Opaque keepalive_packet.

Lemma send_keepalive_spec sc pkt now_ms now_us :
  zlen pkt = 17 ->
  exists st sc', send_keepalive sc pkt now_ms now_us = Some (st, sc') /\
    sc' = sc <| transport := transport sc' |> <| tx_seq := u64 (tx_seq sc + 1) |>
             <| last_ka_send_us := now_us |> /\
    wire (transport sc') =
      (if decide (st = VMC_OK) then wire (transport sc) ++ [keepalive_packet (tx_seq sc) now_ms]
       else wire (transport sc)).
Proof.
  intros Hp. unfold send_keepalive. rewrite keepalive_encode by done.
  cbn [mbind option_bind]. rewrite decide_False by lia. cbn [mbind option_bind].
  cbn [transport upd_field]. destruct (vmc_transport_send _ _ _) as [st t] eqn:E.
  eexists _, _. split; [done|]. cbn [transport upd_field]. split; [by destruct sc|].
  case_decide as Hst.
  - subst st. rewrite (send_ok_law _ _ _ _ E). by rewrite (proj1 (keepalive_zlen _ _)).
  - by rewrite (send_err_law _ _ _ _ _ E Hst).
Qed.

(** ** Properties *)

(** One step of a streaming session (ACTIVE or DEGRADED): it never
    accesses memory out of bounds; when the keepalive interval has elapsed it
    hands the transport exactly one datagram, which every receiver's decoder
    accepts as an empty control packet carrying the next sequence number, and
    restarts the interval whether or not the transport took it; it never
    touches the wire otherwise; and it moves to RECONNECTING exactly when a
    link timeout is configured and no control packet arrived for longer. *)
Theorem session_step_streaming sc pkt now_ms now_us :
  streaming sc -> zlen pkt = 17 ->
  exists st sc', vmc_session_step sc pkt now_ms now_us = Some (st, sc') /\ st = VMC_OK /\
    (if decide (u64 (now_ms - last_keepalive_ms sc) >= keepalive_interval_ms sc)
     then last_keepalive_ms sc' = now_ms /\ tx_seq sc' = u64 (tx_seq sc + 1) /\
          (wire (transport sc') = wire (transport sc) \/
           exists dg h, wire (transport sc') = wire (transport sc) ++ [dg] /\
             vmc_proto_decode (Some dg) (zlen dg) = Some (VMC_OK, Some (h, 17)) /\
             stream h = VMC_PROTO_STREAM_CONTROL /\ payload_len h = 0 /\
             seq h = u32 (tx_seq sc))
     else last_keepalive_ms sc' = last_keepalive_ms sc /\ tx_seq sc' = tx_seq sc /\
          transport sc' = transport sc) /\
    last_rx_ms sc' = last_rx_ms sc /\ cfg sc' = cfg sc /\
    state (sm sc') = (if decide (link_expired sc now_ms) then VMC_SESSION_RECONNECTING
                      else state (sm sc)).
Proof.
  intros Hs Hp. unfold vmc_session_step.
  set (body := fun sc0 : vmc_session_ctx =>
    if decide (link_timeout_ms (cfg sc0) > 0 /\
               u64 (now_ms - last_rx_ms sc0) > link_timeout_ms (cfg sc0))
    then Some (dispatch_sm sc0 VMC_EVENT_LINK_LOST) else Some (VMC_OK, sc0)).
  assert (Hbody : forall sc1, sm sc1 = sm sc -> cfg sc1 = cfg sc -> last_rx_ms sc1 = last_rx_ms sc ->
    exists sc', body sc1 = Some (VMC_OK, sc') /\ sc' = sc1 <| sm := sm sc' |> /\
      state (sm sc') = (if decide (link_expired sc now_ms) then VMC_SESSION_RECONNECTING
                        else state (sm sc))).
  { intros sc1 E1 E2 E3. unfold body. rewrite E2, E3.
    destruct (decide (link_expired sc now_ms)) as [Hx|Hx]; cycle 1.
    { exists sc1. rewrite decide_False by done.
      split_and!; [done|by destruct sc1|by rewrite E1]. }
    rewrite decide_True by done. unfold dispatch_sm. rewrite E1. unfold streaming in Hs.
    destruct (sm sc) as [s0 c0 r0]. cbn in Hs.
    exists (sc1 <| sm := mk_session VMC_SESSION_RECONNECTING c0 r0 |>).
    destruct Hs; subst s0; cbn; (split; [done|]; split; [by destruct sc1|done]). }
  assert (Hmatch : forall A (x y : A), match state (sm sc) with
    | VMC_SESSION_ACTIVE | VMC_SESSION_DEGRADED => x | _ => y end = x)
    by (intros; destruct Hs as [-> | ->]; done).
  rewrite Hmatch. fold body.
  destruct (decide (u64 (now_ms - last_keepalive_ms sc) >= keepalive_interval_ms sc)) as [Hdue|Hdue].
  - destruct (send_keepalive_spec sc pkt now_ms now_us Hp) as (st & sc1 & -> & E & Hw).
    cbn [mbind option_bind].
    destruct (Hbody (sc1 <| last_keepalive_ms := now_ms |>)) as (sc' & Hb & E' & Hst);
      [by rewrite E..|]. rewrite Hb.
    exists VMC_OK, sc'. split; [done|]. split; [done|]. rewrite E'.
    cbn [last_keepalive_ms tx_seq transport last_rx_ms cfg upd_field].
    split_and!; [done|by rewrite E| |by rewrite E|by rewrite E|done].
    rewrite Hw. destruct (decide (st = VMC_OK)); [right|by left].
    destruct (keepalive_decodes (tx_seq sc) now_ms) as (h & Hd & ? & ? & ? & _).
    exists (keepalive_packet (tx_seq sc) now_ms), h. split; [done|].
    split; [exact Hd|]. split_and!; assumption.
  - cbn [mbind option_bind]. destruct (Hbody sc) as (sc' & Hb & E' & Hst); [done..|].
    rewrite Hb.
    exists VMC_OK, sc'. split; [done|]. split; [done|]. rewrite E'. cbn. done.
Qed.

(** What the client's main loop does with a session besides starting and
    stopping it. *)
Inductive loop_call := LStep (pkt : list Z) (now_ms now_us : Z) | LRx (p : list Z) (len now_ms : Z).

Definition loop_step (sc : vmc_session_ctx) (c : loop_call) : option vmc_session_ctx :=
  match c with
  | LStep pkt now_ms now_us => '(_, sc) ← vmc_session_step sc pkt now_ms now_us; Some sc
  | LRx p len now_ms => '(_, sc) ← vmc_session_on_rx sc (Some p) len now_ms; Some sc
  end.

Fixpoint loop_run (sc : vmc_session_ctx) (cs : list loop_call) : option vmc_session_ctx :=
  match cs with [] => Some sc | c :: cs => sc ← loop_step sc c; loop_run sc cs end.

(** C29. A lost session does not come back by itself: from RECONNECTING, no
    sequence of steps and received packets (at whatever times) ever leaves that
    state or puts another datagram on the wire, so a peer that becomes
    reachable again is never noticed. *)
Theorem session_lost_is_stuck cs : forall sc sc',
  state (sm sc) = VMC_SESSION_RECONNECTING -> loop_run sc cs = Some sc' ->
  state (sm sc') = VMC_SESSION_RECONNECTING /\ wire (transport sc') = wire (transport sc).
Proof.
  induction cs as [|c cs IH]; intros sc sc' Hst; cbn [loop_run]; [by intros [= <-]|].
  assert (forall sc1, loop_step sc c = Some sc1 ->
    sm sc1 = sm sc /\ transport sc1 = transport sc) as Hkeep.
  { intros sc1. destruct c as [pkt a b|p l a]; cbn [loop_step].
    - unfold vmc_session_step. rewrite Hst. cbn. by intros [= <-].
    - unfold vmc_session_on_rx.
      destruct (vmc_proto_decode_header (Some p) l (Some header_local)) as [[st [h|]]|];
        cbn [mbind option_bind]; repeat case_decide; cbn [mbind option_bind];
        intros; by simplify_eq. }
  destruct (loop_step sc c) as [sc1|]; cbn; [|done]. intros Hrun.
  destruct (Hkeep sc1 eq_refl) as [E1 E2].
  destruct (IH sc1 sc') as [F1 F2]; [by rewrite E1|done|]. by rewrite F1, F2, E2.
Qed.

End session.
Arguments vmc_session_ctx : clear implicits.

(** ** Witnesses, on the UDP transport *)

#[local] Existing Instances Udp.endpoint_transport Udp.endpoint_laws.

Definition demo_udp : Udp.endpoint :=
  Udp.mk_endpoint
    (Udp.mk_udp (Udp.mk_transport 0 0 0 0) 3 true 2048 0) [Udp.SysOk tt; Udp.SysAgain] [].

Definition demo_ctx (st : vmc_session_state) : vmc_session_ctx Udp.endpoint :=
  mk_ctx (mk_session st (mk_cb false false false false) 0) demo_udp (mk_cfg 2000 5000)
    1000 1000 0 7 2000.

Lemma session_step_streaming_witness :
  exists sc', vmc_session_step (demo_ctx VMC_SESSION_ACTIVE) (replicate 17 0) 7001 7001000
    = Some (VMC_OK, sc') /\ state (sm sc') = VMC_SESSION_RECONNECTING /\
    length (wire (transport sc')) = 1%nat.
Proof.
  destruct (session_step_streaming (demo_ctx VMC_SESSION_ACTIVE) (replicate 17 0) 7001 7001000)
    as (st & sc' & H1 & -> & _ & _ & _ & H2); [left; reflexivity|reflexivity|].
  exists sc'. split; [exact H1|]. split; [rewrite H2; reflexivity|].
  vm_compute in H1. injection H1 as <-. reflexivity.
Defined.

Lemma session_lost_is_stuck_witness :
  exists sc', loop_run (demo_ctx VMC_SESSION_RECONNECTING)
      [LStep (replicate 17 0) 90000 0; LRx (keepalive_packet 1 2) 17 90001;
       LStep (replicate 17 0) 95000 0] = Some sc' /\
    state (sm sc') = VMC_SESSION_RECONNECTING /\ wire (transport sc') = [].
Proof.
  match goal with |- exists sc', loop_run ?c ?l = Some sc' /\ _ =>
    destruct (loop_run c l) as [sc'|] eqn:E; [|vm_compute in E; discriminate];
    exists sc'; split; [reflexivity|]; exact (session_lost_is_stuck l c sc' eq_refl E)
  end.
Defined.

End Sess.
