(* ===== verification/Text.v ===== *)
(** * Numbers and substrings in byte strings

    The parts of the C library's [strtol], [sscanf], [snprintf] and [strstr]
    that the mapper, the HTTP client and the manifest parser rely on, on lists
    of bytes without the terminating NUL. *)

From S2P Require Import Prelude.
From Stdlib Require Strings.String Strings.Byte.

Module Text.

(** The bytes of a literal, and the literal in double quotes. *)
Definition chars (s : String.string) : list Z :=
  map (fun b => Z.of_N (Byte.to_N b)) (String.list_byte_of_string s).

Definition quoted (l : list Z) : list Z := 34 :: l ++ [34].

(** ** Digits *)

(** The value of a digit of base 16 or below, as [strtol] reads it. *)
Definition digit_val (c : Z) : option Z :=
  if decide (48 <= c <= 57) then Some (c - 48)
  else if decide (97 <= c <= 102) then Some (c - 87)
  else if decide (65 <= c <= 70) then Some (c - 55)
  else None.

Definition base_digit (base c : Z) : option Z :=
  match digit_val c with
  | Some d => if decide (d < base) then Some d else None
  | None => None
  end.

(** The longest digit prefix: its value added to [acc], and the rest. *)
Fixpoint num_scan (base acc : Z) (l : list Z) : Z * list Z :=
  match l with
  | [] => (acc, [])
  | c :: k =>
    match base_digit base c with
    | Some d => num_scan base (base * acc + d) k
    | None => (acc, l)
    end
  end.

Definition digit_char (d : Z) : Z := if decide (d < 10) then 48 + d else 87 + d.

(** [printf] of a non-negative number in the base ([%u], [%x]): the fuel is the
    number itself plus one, more than its digits. *)
Fixpoint num_print_fuel (fuel : nat) (base n : Z) (acc : list Z) : list Z :=
  match fuel with
  | O => acc
  | S fuel =>
    let acc := digit_char (n mod base) :: acc in
    if decide (n / base = 0) then acc else num_print_fuel fuel base (n / base) acc
  end.

Definition num_print (base n : Z) : list Z :=
  num_print_fuel (S (Z.to_nat (Z.log2 n))) base n [].

Lemma digit_char_val base d : 2 <= base <= 16 -> 0 <= d < base ->
  base_digit base (digit_char d) = Some d.
Proof.
  intros Hb Hd. unfold base_digit, digit_val, digit_char.
  destruct (decide (d < 10)).
  - rewrite decide_True by lia. rewrite decide_True by lia. f_equal. lia.
  - rewrite decide_False by lia. rewrite decide_True by lia.
    rewrite decide_True by lia. f_equal. lia.
Qed.

Definition no_digit (base : Z) (l : list Z) : Prop :=
  match l with [] => True | c :: _ => base_digit base c = None end.

Lemma num_scan_stop base acc l : no_digit base l -> num_scan base acc l = (acc, l).
Proof. destruct l as [|c l]; cbn; [done|]. by intros ->. Qed.

Lemma num_print_fuel_app fuel base : forall n acc,
  num_print_fuel fuel base n acc = num_print_fuel fuel base n [] ++ acc.
Proof.
  induction fuel as [|fuel IH]; intros n acc; cbn [num_print_fuel]; [done|].
  cbv zeta. case_decide; [done|].
  rewrite IH, (IH _ [_]), <- app_assoc. done.
Qed.

Lemma num_print_fuel_scan fuel base : forall n a rest,
  2 <= base <= 16 -> 0 <= n -> n < 2 ^ Z.of_nat fuel ->
  exists k, 0 < k /\ n < k /\
    num_scan base a (num_print_fuel fuel base n [] ++ rest) = num_scan base (k * a + n) rest.
Proof.
  induction fuel as [|fuel IH]; intros n a rest Hb Hn Hf.
  - cbn in Hf. assert (n = 0) as -> by lia. exists 1. cbn. split_and!; try lia.
    f_equal. lia.
  - cbn [num_print_fuel]. cbv zeta.
    pose proof (Z.mod_pos_bound n base ltac:(lia)) as Hm.
    pose proof (Z.div_mod n base ltac:(lia)) as Hdm.
    case_decide as H0.
    + exists base. split_and!; try lia. cbn [app num_scan].
      rewrite digit_char_val by done. f_equal. lia.
    + rewrite num_print_fuel_app, <- app_assoc.
      destruct (IH (n / base) a ([digit_char (n mod base)] ++ rest)) as (k & Hk & Hlt & ->);
        [done|apply Z.div_pos; lia| |].
      { apply Z.div_lt_upper_bound; [lia|].
        rewrite Nat2Z.inj_succ, Z.pow_succ_r in Hf by lia. nia. }
      exists (base * k). split_and!; [nia|nia|]. cbn [app num_scan].
      rewrite digit_char_val by done. f_equal. nia.
Qed.

(** What is printed scans back, up to the first character that is no digit. *)
Lemma num_print_scan base n rest :
  2 <= base <= 16 -> 0 <= n -> no_digit base rest ->
  num_scan base 0 (num_print base n ++ rest) = (n, rest).
Proof.
  intros Hb Hn Hr. unfold num_print.
  destruct (num_print_fuel_scan (S (Z.to_nat (Z.log2 n))) base n 0 rest)
    as (k & _ & _ & ->); [done|done| |].
  - rewrite Nat2Z.inj_succ, Z2Nat.id by apply Z.log2_nonneg.
    destruct (decide (n = 0)) as [->|]; [done|].
    apply (Z.log2_spec n). lia.
  - rewrite num_scan_stop by done. f_equal. lia.
Qed.

(** The first character printed is a digit of the base. *)
Lemma num_print_head base n :
  2 <= base <= 16 -> 0 <= n ->
  exists d l, num_print base n = digit_char d :: l /\ 0 <= d < base.
Proof.
  intros Hb Hn. unfold num_print. generalize (Z.to_nat (Z.log2 n)) as fuel.
  assert (forall fuel n acc, 0 <= n ->
    exists d l, num_print_fuel (S fuel) base n acc = digit_char d :: l /\ 0 <= d < base) as Hg.
  { induction fuel as [|fuel IH]; intros m acc Hm; cbn [num_print_fuel]; cbv zeta.
    - case_decide; eexists _, _; (split; [done|]); apply Z.mod_pos_bound; lia.
    - case_decide; [eexists _, _; (split; [done|]); apply Z.mod_pos_bound; lia|].
      apply (IH (m / base)). apply Z.div_pos; lia. }
  intros fuel. by apply Hg.
Qed.

(** The first digit of a positive number is not 0. *)
Lemma num_print_pos base n :
  2 <= base <= 16 -> 0 < n ->
  exists d l, num_print base n = digit_char d :: l /\ 0 < d < base.
Proof.
  intros Hb Hn. unfold num_print.
  assert (Hf : n < 2 ^ Z.of_nat (S (Z.to_nat (Z.log2 n)))).
  { rewrite Nat2Z.inj_succ, Z2Nat.id by apply Z.log2_nonneg. by apply Z.log2_spec. }
  revert Hf. generalize (S (Z.to_nat (Z.log2 n))) as fuel. generalize (@nil Z) as acc.
  intros acc fuel. revert n acc Hn. induction fuel as [|fuel IH]; intros n acc Hn Hf; [cbn in Hf; lia|].
  pose proof (Z.mod_pos_bound n base ltac:(lia)). pose proof (Z.div_mod n base ltac:(lia)).
  cbn [num_print_fuel]. cbv zeta. case_decide as Hz.
  - eexists _, _. split; [done|]. nia.
  - apply IH; [pose proof (Z.div_pos n base); lia|].
    apply Z.div_lt_upper_bound; [lia|]. rewrite Nat2Z.inj_succ, Z.pow_succ_r in Hf by lia. nia.
Qed.

(** Every printed character is a digit; a number has at most one digit per bit. *)
Lemma num_print_fuel_chars (P : Z -> Prop) base fuel : forall n acc,
  2 <= base -> (forall d, 0 <= d < base -> P (digit_char d)) -> Forall P acc ->
  Forall P (num_print_fuel fuel base n acc) /\
  (length (num_print_fuel fuel base n acc) <= fuel + length acc)%nat.
Proof.
  induction fuel as [|fuel IH]; intros n acc Hb HP Ha; cbn [num_print_fuel]; [done|].
  cbv zeta.
  assert (Hc : Forall P (digit_char (n mod base) :: acc)).
  { constructor; [|done]. apply HP, Z.mod_pos_bound. lia. }
  case_decide; [split; [done|cbn; lia]|].
  destruct (IH (n / base) _ Hb HP Hc) as [? Hle]. split; [done|]. cbn [length] in Hle. lia.
Qed.

Lemma num_print_chars (P : Z -> Prop) base n :
  2 <= base -> (forall d, 0 <= d < base -> P (digit_char d)) -> Forall P (num_print base n).
Proof.
  intros Hb HP. unfold num_print.
  generalize (S (Z.to_nat (Z.log2 n))) as fuel. intros fuel.
  by apply (num_print_fuel_chars P base fuel n []).
Qed.

Lemma num_print_length base n :
  2 <= base -> (length (num_print base n) <= S (Z.to_nat (Z.log2 n)))%nat.
Proof.
  intros Hb. pose proof (num_print_fuel_chars (fun _ => True) base (S (Z.to_nat (Z.log2 n))) n [])
    as [_ H]; try done. rewrite Nat.add_0_r in H. exact H.
Qed.

Lemma num_print_bytes base n : 2 <= base <= 16 -> bytes (num_print base n).
Proof.
  intros Hb. apply num_print_chars; [lia|]. intros d Hd. unfold digit_char, is_byte.
  case_decide; lia.
Qed.

Lemma chars_bytes s : bytes (chars s).
Proof.
  unfold chars. apply Forall_forall. intros z (b & <- & _)%list_elem_of_In%in_map_iff.
  destruct b; by_computation.
Qed.

Lemma quoted_bytes l : bytes l -> bytes (quoted l).
Proof.
  intros Hl. unfold quoted. apply Forall_cons. split; [by_computation|].
  apply bytes_app. split; [done|by_computation].
Qed.
#[export] Hint Resolve chars_bytes quoted_bytes : vmc.

(** ** Prefixes and substrings *)

(** [snprintf(dst, size, ...)] of a text: what is stored, without the NUL. *)
Definition stored (size : Z) (text : list Z) : list Z := take (Z.to_nat (size - 1)) text.

Fixpoint strip (pre l : list Z) : option (list Z) :=
  match pre, l with
  | [], _ => Some l
  | p :: pre, c :: l => if decide (p = c) then strip pre l else None
  | _, [] => None
  end.

(** [strstr(l, pat)], as the text from the match on. *)
Fixpoint strstr (pat l : list Z) : option (list Z) :=
  match strip pat l with
  | Some _ => Some l
  | None => match l with [] => None | _ :: l => strstr pat l end
  end.

Lemma strip_app pre l : strip pre (pre ++ l) = Some l.
Proof. induction pre as [|c pre IH]; cbn; [done|]. by rewrite decide_True. Qed.

Lemma strip_inv pre l r : strip pre l = Some r -> l = pre ++ r.
Proof.
  revert l. induction pre as [|p pre IH]; intros [|c l]; cbn; try done.
  - by intros [= <-].
  - by intros [= <-].
  - case_decide; [|done]. intros Hs%IH. by subst.
Qed.

Lemma strstr_here pat l : strstr pat (pat ++ l) = Some (pat ++ l).
Proof. destruct (pat ++ l) eqn:E; cbn; rewrite <- E, strip_app; done. Qed.

(** A match is a suffix that starts with the pattern. *)
Lemma strstr_inv pat l r :
  strstr pat l = Some r -> exists pre post, l = pre ++ r /\ r = pat ++ post.
Proof.
  induction l as [|c l IH]; cbn [strstr].
  - destruct (strip pat []) eqn:E; [|done]. intros [= <-]. apply strip_inv in E. by exists [], l.
  - destruct (strip pat (c :: l)) as [post|] eqn:E.
    + intros [= <-]. apply strip_inv in E. by exists [], post.
    + intros H. destruct (IH H) as (pre & post & -> & ->). by exists (c :: pre), post.
Qed.

(** The bytes up to the first NUL: the C string in a buffer. *)
Fixpoint c_string (l : list Z) : list Z :=
  match l with
  | [] => []
  | c :: l => if decide (c = 0) then [] else c :: c_string l
  end.

Lemma c_string_id l : Forall (fun c => c <> 0) l -> c_string l = l.
Proof.
  induction 1 as [|c l Hc _ IH]; cbn; [done|]. by rewrite decide_False, IH by done.
Qed.

(** The longest prefix, of at most [n] characters, whose characters satisfy
    [p]: a scan set. *)
Fixpoint span (p : Z -> bool) (n : nat) (l : list Z) : list Z * list Z :=
  match n, l with
  | S n, c :: k => if p c then let '(a, b) := span p n k in (c :: a, b) else ([], l)
  | _, _ => ([], l)
  end.

Lemma span_app p n a b :
  forallb p a = true -> (length a <= n)%nat ->
  (match b with [] => True | c :: _ => p c = false end) ->
  span p n (a ++ b) = (a, b).
Proof.
  revert n. induction a as [|c a IH]; intros n Ha Hn Hb; cbn in Ha |- *.
  - destruct n, b as [|c b]; cbn; try done. by rewrite Hb.
  - apply andb_true_iff in Ha as [Hc Ha]. destruct n as [|n]; [cbn in Hn; lia|].
    cbn [span]. rewrite Hc, IH by (done || (cbn in Hn; lia)). done.
Qed.

Lemma span_inv p n l a b : span p n l = (a, b) ->
  l = a ++ b /\ (length a <= n)%nat /\ forallb p a = true.
Proof.
  revert l a b. induction n as [|n IH]; intros l a b; [by destruct l; intros [= <- <-]|].
  destruct l as [|c l]; cbn [span]; [intros [= <- <-]; cbn; auto with arith|].
  destruct (p c) eqn:Ep; [|intros [= <- <-]; cbn; auto with arith].
  destruct (span p n l) as [a' b'] eqn:E. intros [= <- <-].
  destruct (IH l a' b' E) as (-> & ? & Ha). cbn. rewrite Ep, Ha. split_and!; [done|lia|done].
Qed.

(** Space characters of [isspace]. *)
Definition is_space (c : Z) : bool := bool_decide (c = 32) || bool_decide (9 <= c <= 13).

Fixpoint skip_space (l : list Z) : list Z :=
  match l with [] => [] | c :: k => if is_space c then skip_space k else l end.

(** [strtol] in base 10: white space, an optional sign, digits; the 64-bit
    value, and the rest of the text; [None] where no number starts. *)
Definition scan_long (l : list Z) : option (Z * list Z) :=
  let l := skip_space l in
  let '(neg, l) := match l with
                   | c :: k => if decide (c = 45) then (true, k)
                               else if decide (c = 43) then (false, k) else (false, l)
                   | [] => (false, l)
                   end in
  match l with
  | c :: _ =>
    match base_digit 10 c with
    | None => None
    | Some _ =>
      let '(v, rest) := num_scan 10 0 l in
      let v := if neg : bool then Z.max (- v) (-9223372036854775808)
               else Z.min v 9223372036854775807 in
      Some (v, rest)
    end
  | [] => None
  end.

(** [%d]: the same, truncated to an [int]. *)
Definition scan_int (l : list Z) : option (Z * list Z) :=
  match scan_long l with Some (v, rest) => Some (i32 v, rest) | None => None end.

(** [strtol(l, NULL, 10)] and [atoi(l)], which are 0 where no number starts. *)
Definition strtol (l : list Z) : Z := match scan_long l with Some (n, _) => n | None => 0 end.
Definition atoi (l : list Z) : Z := match scan_int l with Some (n, _) => n | None => 0 end.

(** A printed number is read back. *)
Lemma scan_long_print n rest :
  0 <= n < 9223372036854775808 -> no_digit 10 rest ->
  scan_long (num_print 10 n ++ rest) = Some (n, rest).
Proof.
  intros Hn Hr. pose proof (num_print_scan 10 n rest ltac:(lia) ltac:(lia) Hr) as Hs.
  destruct (num_print_head 10 n) as (d & l & E & Hd); [lia|lia|].
  rewrite E in Hs |- *. cbn [app] in Hs |- *.
  assert (Hc : digit_char d = 48 + d) by (unfold digit_char; by rewrite decide_True by lia).
  unfold scan_long. cbn [skip_space]. unfold is_space.
  rewrite !bool_decide_eq_false_2 by lia. cbn [orb].
  rewrite !decide_False by lia. rewrite digit_char_val by lia.
  rewrite Hs. do 2 f_equal. lia.
Qed.

(** [strchr(l, c)]: the text before and from the first [c] on. *)
Fixpoint strchr (c : Z) (l : list Z) : option (list Z * list Z) :=
  match l with
  | [] => None
  | x :: k =>
    if decide (x = c) then Some ([], l) else
    match strchr c k with Some (a, b) => Some (x :: a, b) | None => None end
  end.

(** A number below [base^k] has at most [k] digits. *)
Lemma num_print_digits base n k :
  2 <= base -> (0 < k)%nat -> 0 <= n < base ^ Z.of_nat k ->
  (length (num_print base n) <= k)%nat.
Proof.
  intros Hb Hk Hn. unfold num_print. generalize (S (Z.to_nat (Z.log2 n))) as fuel.
  intros fuel. revert n k Hk Hn. induction fuel as [|fuel IH]; intros n k Hk Hn;
    cbn [num_print_fuel]; cbv zeta; [cbn; lia|].
  case_decide as H0; [cbn; lia|].
  rewrite num_print_fuel_app, length_app. cbn [length].
  destruct k as [|k]; [lia|]. rewrite Nat2Z.inj_succ, Z.pow_succ_r in Hn by lia.
  assert (0 < n / base) by (pose proof (Z.div_pos n base); lia).
  assert (n / base < base ^ Z.of_nat k) by (apply Z.div_lt_upper_bound; lia).
  destruct k as [|k]; [cbn in *; lia|].
  pose proof (IH (n / base) (S k) ltac:(lia) ltac:(lia)). lia.
Qed.

End Text.
