(* ===== verification/Mapper.v ===== *)
(** * The mapper client ([src/session/mapper.c])

    The discovery request/response loop. The resolver, the socket and the
    network are arguments: whether an address and a socket are obtained, and
    for each attempt whether the request is sent and which reply arrives. *)

From S2P Require Import Prelude Text.
Import Text.

Module Map.

Definition VMC_SESSION_MAX_ROUTE : Z := 128.

(** [host] tells whether the pointer is non-NULL. *)
Record vmc_mapper_cfg := mk_mapper_cfg {
  host : bool; port : Z; timeout_ms : Z; max_retries : Z;
}.

#[export] Instance eta_mapper_cfg : Eta vmc_mapper_cfg := fun c =>
  mk_mapper_cfg (host c) (port c) (timeout_ms c) (max_retries c).

(** [alloc]: does [calloc] succeed. *)
Definition vmc_mapper_create (c : option vmc_mapper_cfg) (alloc : bool)
    : option vmc_mapper_cfg :=
  match c with
  | None => None
  | Some c =>
    if negb (host c) || bool_decide (port c = 0) then None else
    if negb alloc then None else
    let c := if decide (timeout_ms c = 0) then c <| timeout_ms := 1000 |> else c in
    Some (if decide (max_retries c = 0) then c <| max_retries := 3 |> else c)
  end.

(** The media route: [container_host] (its characters) and [container_port]. *)
Record route := mk_route { container_host : list Z; container_port : Z }.

(** ** Parsing a reply *)

Definition colon : Z := 58.
Definition route_tag : list Z := [82; 79; 85; 84; 69; 32].       (* "ROUTE " *)
Definition vmc_tag : list Z := [86; 77; 67; 49; 32].             (* "VMC1 " *)

(** [%u]: white space, an optional sign, digits; the value as [strtoul]
    computes it, stored in 32 bits. *)
Definition scan_uint (l : list Z) : option Z :=
  let l := skip_space l in
  let '(neg, l) := match l with
                   | c :: k => if decide (c = 45) then (true, k)
                               else if decide (c = 43) then (false, k) else (false, l)
                   | [] => (false, l)
                   end in
  match l with
  | c :: _ =>
    match base_digit 10 c with
    | None => None
    | Some _ =>
      let '(v, _) := num_scan 10 0 l in
      if decide (v > 18446744073709551615) then Some (u32 18446744073709551615)
      else Some (u32 (if neg : bool then - v else v))
    end
  | [] => None
  end.

(** [sscanf(route, "%127[^:]:%u", host, &port) == 2]. *)
Definition scan_route (l : list Z) : option (list Z * Z) :=
  let '(h, rest) := span (fun c => negb (c =? colon)) 127 l in
  match h, rest with
  | _ :: _, c :: rest =>
    if decide (c = colon) then p ← scan_uint rest; Some (h, p) else None
  | _, _ => None
  end.

(** The reply handling of one attempt: [d] is what [recv] stores in the 255
    bytes it is given. *)
Definition parse_reply (d : list Z) : option route :=
  let buf := c_string (take 255 d) in
  match strstr route_tag buf with
  | None => None
  | Some r =>
    match scan_route (drop 6 r) with
    | Some (h, p) => if decide (p > 0 /\ p <= 65535) then Some (mk_route h (u16 p)) else None
    | None => None
    end
  end.

(** ** The retry loop *)

(** An attempt: is the request sent, and what does [recv] return ([None]: the
    timeout expires). *)
Record attempt := mk_attempt { sent : bool; reply : option (list Z) }.

(** The result, the route object and the number of requests sent; [None] while
    the loop waits for a script that has ended. *)
Fixpoint resolve_loop (retries : Z) (script : list attempt) (i : Z) (result : vmc_status)
    (out : route) (requests : Z) : option (vmc_status * route * Z) :=
  if decide (i <= retries /\ result <> VMC_OK) then
    match script with
    | [] => None
    | a :: script =>
      if negb (sent a) then Some (VMC_ERR_IO, out, requests) else
      match reply a with
      | None => resolve_loop retries script (u32 (i + 1)) result out (requests + 1)
      | Some d =>
        match parse_reply d with
        | Some r => resolve_loop retries script (u32 (i + 1)) VMC_OK r (requests + 1)
        | None => resolve_loop retries script (u32 (i + 1)) VMC_ERR_PROTO out (requests + 1)
        end
      end
    end
  else Some (result, out, requests).

Definition vmc_mapper_resolve (m : option vmc_mapper_cfg) (out : option route)
    (resolved : bool) (socket : Z) (script : list attempt)
    : option (vmc_status * option route * Z) :=
  match m, out with
  | Some m, Some r =>
    if negb resolved then Some (VMC_ERR_IO, out, 0) else
    if decide (socket < 0) then Some (VMC_ERR_IO, out, 0) else
    '(st, r, n) ← resolve_loop (max_retries m) script 0 VMC_ERR_TIMEOUT r 0;
    Some (st, Some r, n)
  | _, _ => Some (VMC_ERR_INVALID_ARG, out, 0)
  end.

(** ** Facts *)

Definition route_ok (r : route) : Prop :=
  0 < container_port r <= 65535 /\ (0 < length (container_host r) <= 127)%nat /\
  ~ colon ∈ container_host r.

Lemma parse_reply_ok d r : parse_reply d = Some r -> route_ok r.
Proof.
  unfold parse_reply. destruct (strstr _ _) as [t|]; [|done].
  unfold scan_route. destruct (span _ _ _) as [h rest] eqn:E.
  apply span_inv in E as (_ & Hl & Hh).
  destruct h as [|c h]; [done|]. destruct rest as [|c' rest]; [done|].
  destruct (decide (c' = colon)); [|done].
  destruct (scan_uint rest) as [p|]; cbn [mbind option_bind]; [|done].
  destruct (decide (p > 0 /\ p <= 65535)); [|done]. intros [= <-].
  unfold route_ok. cbn [container_port container_host]. rewrite u16_small by lia.
  split_and!; [lia|lia|cbn; lia|cbn [length] in *; lia|].
  intros Hin. rewrite forallb_forall in Hh. apply list_elem_of_In in Hin.
  apply Hh in Hin. by rewrite Z.eqb_refl in Hin.
Qed.

(** An attempt that neither ends the loop nor delivers a route. *)
Definition fruitless (a : attempt) : Prop :=
  sent a = true /\ match reply a with Some d => parse_reply d = None | None => True end.

Lemma loop_spec retries script : forall i result out n,
  0 <= i -> retries < 4294967295 -> result <> VMC_OK ->
  retries + 1 - i <= zlen script ->
  exists st r k, resolve_loop retries script i result out n = Some (st, r, n + k) /\
    0 <= k <= Z.max 0 (retries + 1 - i) /\
    (st <> VMC_OK -> r = out) /\
    (st = VMC_OK <-> exists pre d rest, script = pre ++ mk_attempt true (Some d) :: rest /\
       zlen pre < retries + 1 - i /\ Forall fruitless pre /\ parse_reply d = Some r).
Proof.
  induction script as [|a script IH]; intros i result out n Hi Hr Hres Hlen; cbn [resolve_loop].
  - rewrite decide_False by (change (zlen []) with 0 in Hlen; lia).
    exists result, out, 0. rewrite Z.add_0_r. split_and!; [done|lia|lia|done|].
    split; [done|]. intros (pre & d & rest & E & _). by destruct pre.
  - destruct (decide (i <= retries /\ result <> VMC_OK)) as [Hin|Hout]; cycle 1.
    { exists result, out, 0. rewrite Z.add_0_r. split_and!; [done|lia|lia|done|].
      split; [done|]. intros (pre & d & rest & _ & Hz & _).
      pose proof (zlen_nonneg pre). exfalso. apply Hout. split; [lia|done]. }
    rewrite zlen_cons in Hlen. destruct a as [[|] rep]; cbn [sent reply negb]; cycle 1.
    { exists VMC_ERR_IO, out, 0. rewrite Z.add_0_r. split_and!; [done|lia|lia|done|].
      split; [done|]. intros (pre & d & rest & E & _ & Hp & _).
      destruct pre as [|b pre]; cbn in E; [done|]. injection E as <- _.
      by inversion_clear Hp as [|? ? [? _] _]. }
    assert (Hnext : forall res, res <> VMC_OK ->
      (match rep with Some d => parse_reply d = None | None => True end) ->
      exists st r k, resolve_loop retries script (u32 (i + 1)) res out (n + 1)
          = Some (st, r, n + k) /\
        0 <= k <= Z.max 0 (retries + 1 - i) /\ (st <> VMC_OK -> r = out) /\
        (st = VMC_OK <-> exists pre d rest,
           mk_attempt true rep :: script = pre ++ mk_attempt true (Some d) :: rest /\
           zlen pre < retries + 1 - i /\ Forall fruitless pre /\ parse_reply d = Some r)).
    { intros res Hne Hrep. rewrite u32_small by lia.
      destruct (IH (i + 1) res out (n + 1)) as (st & r & k & -> & Hk & Hkeep & Hiff);
        [lia|done|done|lia|].
      exists st, r, (1 + k). rewrite Z.add_assoc. split_and!; [done|lia|lia|done|].
      rewrite Hiff. split.
      - intros (pre & d & rest & -> & Hz & Hp & Hd).
        exists (mk_attempt true rep :: pre), d, rest. rewrite zlen_cons.
        split_and!; [done|lia| |done]. by constructor.
      - intros ([|b pre] & d & rest & E & Hz & Hp & Hd); cbn in E.
        + injection E as -> _. congruence.
        + injection E as <- ->. rewrite zlen_cons in Hz. inversion_clear Hp.
          exists pre, d, rest. split_and!; [done|lia|done|done]. }
    destruct rep as [d|]; [|by apply Hnext].
    destruct (parse_reply d) as [r|] eqn:Ed; [|by apply Hnext].
    assert (forall l j, resolve_loop retries l j VMC_OK r (n + 1) = Some (VMC_OK, r, n + 1)) as ->
      by (intros [|] j; cbn; rewrite decide_False by (intros [_ ?]; done); done).
    exists VMC_OK, r, 1. split_and!; [done|lia|lia|done|].
    split; [|done]. intros _. exists [], d, script. change (zlen (@nil attempt)) with 0.
    split_and!; [done|lia|constructor|done].
Qed.

(** ** Properties *)

(** Discovery terminates within [max_retries + 1] requests and is honest:
    it returns [VMC_OK] exactly when one of these attempts, all earlier ones
    having been sent and answered by nothing usable, receives a reply that
    parses, and then the route is that reply's (a non-empty host of at most 127
    characters without a colon, a port from 1 to 65535); whatever else happens
    the caller's route is left untouched. *)
Theorem mapper_resolve_outcome m out socket script :
  0 <= max_retries m < 4294967295 -> socket >= 0 -> max_retries m < zlen script ->
  exists st r n, vmc_mapper_resolve (Some m) (Some out) true socket script
      = Some (st, Some r, n) /\
    0 <= n <= max_retries m + 1 /\ (st <> VMC_OK -> r = out) /\
    (st = VMC_OK -> route_ok r) /\
    (st = VMC_OK <-> exists pre d rest, script = pre ++ mk_attempt true (Some d) :: rest /\
       zlen pre <= max_retries m /\ Forall fruitless pre /\ parse_reply d = Some r).
Proof.
  intros Hm Hs Hl. unfold vmc_mapper_resolve. cbn [negb]. rewrite decide_False by lia.
  destruct (loop_spec (max_retries m) script 0 VMC_ERR_TIMEOUT out 0)
    as (st & r & k & -> & Hk & Hkeep & Hiff); [lia|lia|done|lia|].
  cbn [mbind option_bind]. exists st, r, k. split_and!; [done|lia|lia|done| |].
  - intros Hok. apply Hiff in Hok as (pre & d & rest & _ & _ & _ & Hp).
    by eapply parse_reply_ok.
  - rewrite Hiff. split; intros (pre & d & rest & ? & ? & ?); exists pre, d, rest;
      (split; [done|split; [lia|done]]).
Qed.

Definition demo_mapper : vmc_mapper_cfg := mk_mapper_cfg true 9000 1000 2.
Definition demo_route : route := mk_route [] 0.

(** "VMC1 ROUTE 10.0.0.7:5004" *)
Definition demo_reply : list Z :=
  vmc_tag ++ route_tag ++ [49; 48; 46; 48; 46; 48; 46; 55] ++ colon :: num_print 10 5004.

Lemma mapper_resolve_outcome_witness :
  exists r n, vmc_mapper_resolve (Some demo_mapper) (Some demo_route) true 5
      [mk_attempt true None; mk_attempt true (Some [66; 65; 68]);
       mk_attempt true (Some demo_reply)] = Some (VMC_OK, Some r, n) /\ route_ok r.
Proof.
  destruct (mapper_resolve_outcome demo_mapper demo_route 5
    [mk_attempt true None; mk_attempt true (Some [66; 65; 68]); mk_attempt true (Some demo_reply)])
    as (st & r & n & H & _ & _ & Hok & _); [cbn; lia|lia|vm_compute; reflexivity|].
  assert (st = VMC_OK) as -> by (vm_compute in H; injection H as <- _ _; reflexivity).
  exists r, n. split; [exact H|by apply Hok].
Defined.

(** A well-formed answer is understood: for every host of 1 to 127
    characters without NUL and colon and every port from 1 to 65535, the reply
    ["VMC1 ROUTE <host>:<port>"] parses to exactly that host and port. *)
Theorem mapper_reply_roundtrip h p :
  Forall (fun c => c <> 0 /\ c <> colon) h -> (0 < length h <= 127)%nat -> 1 <= p <= 65535 ->
  parse_reply (vmc_tag ++ route_tag ++ h ++ colon :: num_print 10 p) = Some (mk_route h p).
Proof.
  intros Hh Hl Hp. unfold parse_reply.
  assert (Hd0 : Forall (fun c => c <> 0) (num_print 10 p)).
  { apply num_print_chars; [lia|]. intros d Hd. unfold digit_char. case_decide; lia. }
  assert (Hdl : (length (num_print 10 p) <= 17)%nat).
  { assert (Z.log2 p < 16) by (apply Z.log2_lt_pow2; lia). pose proof (Z.log2_nonneg p).
    pose proof (num_print_length 10 p). lia. }
  rewrite take_ge by (rewrite !length_app; cbn [length vmc_tag route_tag]; lia).
  rewrite c_string_id; cycle 1.
  { rewrite !Forall_app, Forall_cons. split_and!; try by_computation; [|done].
    eapply Forall_impl; [done|]. by intros c [? _]. }
  change (strstr route_tag (vmc_tag ++ route_tag ++ h ++ colon :: num_print 10 p))
    with (strstr route_tag (route_tag ++ h ++ colon :: num_print 10 p)).
  rewrite strstr_here. change (drop 6 (route_tag ++ ?x)) with x.
  unfold scan_route.
  rewrite (span_app (fun c => negb (c =? colon)) 127 h (colon :: num_print 10 p)).
  - destruct h as [|c h]; [cbn in Hl; lia|]. rewrite decide_True by done.
    destruct (num_print_head 10 p) as (d & l & E & Hd); [lia|lia|].
    assert (Hs : scan_uint (num_print 10 p) = Some p).
    { unfold scan_uint. rewrite E. cbn [skip_space].
      assert (is_space (digit_char d) = false) as ->.
      { unfold is_space, digit_char. rewrite decide_True by lia.
        rewrite !bool_decide_eq_false_2 by lia. done. }
      assert (Hdc : digit_char d = 48 + d) by (unfold digit_char; by rewrite decide_True by lia).
      rewrite !decide_False by lia. rewrite digit_char_val by lia. rewrite <- E.
      rewrite <- (app_nil_r (num_print 10 p)), num_print_scan by (done || lia).
      rewrite decide_False by lia. f_equal. apply u32_small. lia. }
    rewrite Hs. cbn [mbind option_bind]. rewrite decide_True by lia.
    by rewrite u16_small by lia.
  - rewrite forallb_forall. intros c Hc%list_elem_of_In. rewrite Forall_forall in Hh.
    apply Hh in Hc as [_ Hc]. by apply negb_true_iff, Z.eqb_neq.
  - lia.
  - done.
Qed.

Lemma mapper_reply_roundtrip_witness :
  parse_reply demo_reply = Some (mk_route [49; 48; 46; 48; 46; 48; 46; 55] 5004).
Proof.
  apply (mapper_reply_roundtrip [49; 48; 46; 48; 46; 48; 46; 55] 5004);
    [by_computation|cbn; lia|lia].
Defined.

End Map.
