(* ===== verification/Audio.v ===== *)
(** * Audio: mixer, pipeline and ALSA sink ([src/audio/])

    The fixed-point mixer with its 32-bit accumulator, the pipeline that hands
    PCM to a sink, and the ALSA sink with its stereo-to-mono downmix. The ALSA
    library and the [/proc] files are arguments. *)

From S2P Require Import Prelude Text.
Import Text.

Module Audio.

Definition VMC_AUDIO_SAMPLE_RATE : Z := 48000.
Definition VMC_AUDIO_CHANNELS : Z := 2.

(** Signed 32-bit arithmetic: [None] is overflow, undefined in C. *)
Definition s32 (x : Z) : option Z :=
  if decide (-2147483648 <= x <= 2147483647) then Some x else None.

Definition is_i16 (x : Z) : Prop := -32768 <= x <= 32767.

#[export] Instance is_i16_dec x : Decision (is_i16 x).
Proof. unfold is_i16. apply _. Defined.

(** ** The mixer *)

Definition VMC_MIXER_MAX_SOURCES : Z := 8.

Record vmc_mixer_source := mk_source {
  active : bool; gain_q8 : Z; pcm : option (list Z); frames : Z;
}.

#[export] Instance eta_source : Eta vmc_mixer_source := fun s =>
  mk_source (active s) (gain_q8 s) (pcm s) (frames s).

(** [vmc_mixer] is its source array. *)
Definition vmc_mixer : Type := list vmc_mixer_source.

Definition source_zero : vmc_mixer_source := mk_source false 0 None 0.

Definition vmc_mixer_init (m : option vmc_mixer) : option vmc_mixer :=
  match m with
  | None => None
  | Some _ => Some (replicate (Z.to_nat VMC_MIXER_MAX_SOURCES) source_zero)
  end.

Definition vmc_mixer_set_source (m : option vmc_mixer) (idx : Z) (p : option (list Z))
    (fr gain : Z) : option (vmc_status * option vmc_mixer) :=
  match m with
  | None => Some (VMC_ERR_INVALID_ARG, m)
  | Some ss =>
    if decide (idx >= VMC_MIXER_MAX_SOURCES) then Some (VMC_ERR_INVALID_ARG, m) else
    if decide (fr > 0 /\ p = None) then Some (VMC_ERR_INVALID_ARG, m) else
    if decide (gain < 0) then Some (VMC_ERR_INVALID_ARG, m) else
    ss ← zset ss idx (mk_source (bool_decide (fr > 0)) gain p fr);
    Some (VMC_OK, Some ss)
  end.

Definition vmc_mixer_clear_source (m : option vmc_mixer) (idx : Z)
    : option (option vmc_mixer) :=
  match m with
  | None => Some m
  | Some ss =>
    if decide (idx >= VMC_MIXER_MAX_SOURCES) then Some m else
    s ← zget ss idx;
    ss ← zset ss idx (s <| active := false |>);
    Some (Some ss)
  end.

Definition sat_i16 (v : Z) : Z :=
  if decide (v > 32767) then 32767 else if decide (v < -32768) then -32768 else i16 v.

(** The inner loop over the sources for sample [s]; the integer division of C
    rounds toward zero. *)
Fixpoint mix_sources (ss : list vmc_mixer_source) (s acc : Z) : option Z :=
  match ss with
  | [] => Some acc
  | src :: ss =>
    if negb (active src) then mix_sources ss s acc else
    if decide (s / 2 >= frames src) then mix_sources ss s acc else
    p ← pcm src;
    x ← zget p s;
    prod ← s32 (x * gain_q8 src);
    acc ← s32 (acc + Z.quot prod 256);
    mix_sources ss s acc
  end.

(** [n] iterations of the sample loop from sample [s]. *)
Fixpoint mix_samples (ss : vmc_mixer) (n : nat) (s : Z) (out : list Z) : option (list Z) :=
  match n with
  | O => Some out
  | S n =>
    acc ← mix_sources ss s 0;
    out ← zset out s (sat_i16 acc);
    mix_samples ss n (s + 1) out
  end.

Definition vmc_mixer_mix (m : option vmc_mixer) (out : option (list Z)) (frames_out : Z)
    : option (option (list Z)) :=
  match m, out with
  | Some ss, Some o =>
    if decide (frames_out = 0) then Some out else
    let samples := u64 (frames_out * 2) in
    o ← mix_samples ss (Z.to_nat samples) 0 o; Some (Some o)
  | _, _ => Some out
  end.

(** A source the caller set up as the header asks: 16-bit samples, two per
    frame, a non-negative 16-bit gain. *)
Definition source_wf (src : vmc_mixer_source) : Prop :=
  0 <= gain_q8 src <= 32767 /\
  (active src = true -> exists p, pcm src = Some p /\ 2 * frames src <= zlen p /\
     Forall is_i16 p).

(** What a source contributes to sample [s]. *)
Definition contribution (s : Z) (src : vmc_mixer_source) : Z :=
  if active src && bool_decide (s / 2 < frames src)
  then Z.quot (default 0 (zget (default [] (pcm src)) s) * gain_q8 src) 256 else 0.

Definition mix_sum (ss : vmc_mixer) (s : Z) : Z := foldr Z.add 0 (contribution s <$> ss).

(** ** The pipeline *)

(** A sink: its play function (an argument of the model) over its context. *)
Record vmc_audio_sink (C : Type) := mk_sink {
  play : option (C -> list Z -> Z -> vmc_status * C);
  sink_ctx : C;
}.
Arguments mk_sink {C} _ _.
Arguments play {C} _.
Arguments sink_ctx {C} _.

Record vmc_audio_source (C : Type) := mk_asource {
  capture : option (C -> Z -> vmc_status * list Z * C);
  source_ctx : C;
}.
Arguments mk_asource {C} _ _.
Arguments capture {C} _.
Arguments source_ctx {C} _.

Record vmc_audio_pipeline (C D : Type) := mk_pipeline {
  mixer : vmc_mixer; sink : vmc_audio_sink C; source : vmc_audio_source D; last_mix_ms : Z;
}.
Arguments mk_pipeline {C D} _ _ _ _.
Arguments mixer {C D} _.
Arguments sink {C D} _.
Arguments source {C D} _.
Arguments last_mix_ms {C D} _.

(** [memset] to zero, then [vmc_mixer_init]; [C0] and [D0] are the NULL
    contexts. *)
Definition vmc_audio_pipeline_init {C D} (p : option (vmc_audio_pipeline C D)) (C0 : C) (D0 : D)
    : option (vmc_audio_pipeline C D) :=
  match p with
  | None => None
  | Some a => Some (mk_pipeline (default [] (vmc_mixer_init (Some (mixer a))))
                      (mk_sink None C0) (mk_asource None D0) 0)
  end.

Definition vmc_audio_pipeline_render {C D} (p : option (vmc_audio_pipeline C D))
    (mec_pcm : option (list Z)) (mec_frames : Z)
    : option (vmc_status * option (vmc_audio_pipeline C D)) :=
  match p with
  | None => Some (VMC_ERR_INVALID_ARG, p)
  | Some a =>
    if decide (mec_frames > 0 /\ mec_pcm = None) then Some (VMC_ERR_INVALID_ARG, p) else
    '(st, m) ← vmc_mixer_set_source (Some (mixer a)) 0 mec_pcm mec_frames 256;
    m ← m;
    let a := mk_pipeline m (sink a) (source a) (last_mix_ms a) in
    if decide (st <> VMC_OK) then Some (st, Some a) else
    match play (sink a) with
    | None => Some (VMC_ERR_NOSYS, Some a)
    | Some f =>
      let '(st, c) := f (sink_ctx (sink a)) (default [] mec_pcm) mec_frames in
      Some (st, Some (mk_pipeline m (mk_sink (Some f) c) (source a) (last_mix_ms a)))
    end
  end.

(** Delivers the samples the source captured (at most [2 * max_frames]) and
    their frame count. *)
Definition vmc_audio_pipeline_capture {C D} (p : option (vmc_audio_pipeline C D))
    (buf : bool) (max_frames : Z)
    : vmc_status * list Z * option (vmc_audio_pipeline C D) :=
  match p with
  | None => (VMC_ERR_INVALID_ARG, [], p)
  | Some a =>
    if negb buf then (VMC_ERR_INVALID_ARG, [], p) else
    match capture (source a) with
    | None => (VMC_ERR_NOSYS, [], p)
    | Some f =>
      let '(st, d, c) := f (source_ctx (source a)) max_frames in
      (st, d, Some (mk_pipeline (mixer a) (sink a) (mk_asource (Some f) c) (last_mix_ms a)))
    end
  end.

(** ** The ALSA sink *)

(** [opened]: the PCM handle is non-NULL; [mono] is the downmix scratch. *)
Record alsa_ctx := mk_alsa {
  opened : bool; frames_played : Z; channels : Z; mono : list Z; mono_cap : Z;
}.

#[export] Instance eta_alsa : Eta alsa_ctx := fun a =>
  mk_alsa (opened a) (frames_played a) (channels a) (mono a) (mono_cap a).

(** The answers of the libraries during one [alsa_play]: whether [realloc]
    succeeds, and the results of [snd_pcm_writei] and [snd_pcm_recover]. *)
Record play_env := mk_env { realloc_ok : bool; writei : Z; recover : Z }.

(** [n] iterations of the downmix loop from frame [i]. *)
Fixpoint downmix_loop (p : list Z) (n : nat) (i : Z) (mo : list Z) : option (list Z) :=
  match n with
  | O => Some mo
  | S n =>
    l ← zget p (i * 2);
    r ← zget p (i * 2 + 1);
    sum ← s32 (l + r);
    mo ← zset mo i (i16 (Z.shiftr sum 1));
    downmix_loop p n (i + 1) mo
  end.

(** The status, the context, the samples given to [snd_pcm_writei] ([None]
    when it is not called) and whether the underflow event is reported. *)
Definition alsa_play (a : alsa_ctx) (p : list Z) (fr : Z) (e : play_env)
    : option (vmc_status * alsa_ctx * option (list Z) * bool) :=
  if negb (opened a) then Some (VMC_OK, a, None, false) else
  '(a, out) ← (if decide (channels a = 1) then
      let a1 := if decide (fr > mono_cap a)
                then if realloc_ok e
                     then Some (a <| mono := mono a ++ replicate (Z.to_nat fr - length (mono a)) 0 |>
                                  <| mono_cap := fr |>)
                     else None
                else Some a in
      match a1 with
      | None => Some (a, None)
      | Some a1 =>
        mo ← downmix_loop p (Z.to_nat fr) 0 (mono a1);
        Some (a1 <| mono := mo |>, Some (take (Z.to_nat fr) mo))
      end
    else p' ← slice p 0 (2 * fr); Some (a, Some p'));
  match out with
  | None => Some (VMC_OK, a, None, false)
  | Some o =>
    let r := writei e in
    if decide (r < 0) then
      let r := recover e in
      if decide (r < 0) then Some (VMC_ERR_IO, a <| opened := false |>, Some o, true)
      else Some (VMC_OK, if decide (r > 0)
                         then a <| frames_played := u64 (frames_played a + r) |> else a,
                 Some o, true)
    else Some (VMC_OK, if decide (r > 0)
                       then a <| frames_played := u64 (frames_played a + r) |> else a,
               Some o, false)
  end.

Definition vmc_alsa_sink_playing (a : option alsa_ctx) : bool :=
  match a with Some a => opened a | None => false end.

(** [clock]: the wall clock in microseconds, [None] when it cannot be read. *)
Definition vmc_alsa_sink_position_us (a : option alsa_ctx) (clock : option Z) : option Z :=
  match a with Some a => if opened a then clock else None | None => None end.

(** [delay]: the frames [snd_pcm_delay] reports, [None] on error. *)
Definition vmc_alsa_sink_delay_us (a : option alsa_ctx) (delay : option Z) : option Z :=
  match a with
  | Some a =>
    if negb (opened a) then None else
    d ← delay;
    let d := if decide (d < 0) then 0 else d in
    Some (u64 (d * 1000000) / VMC_AUDIO_SAMPLE_RATE)
  | None => None
  end.

Definition vmc_alsa_sink_frames_played (a : option alsa_ctx) : option Z :=
  match a with
  | Some a => if opened a then Some (frames_played a) else None
  | None => None
  end.

(** *** Device detection *)

Definition playback_tag : list Z := [80; 108; 97; 121; 98; 97; 99; 107; 58].
Definition capture_tag : list Z := [67; 97; 112; 116; 117; 114; 101; 58].
Definition channels_tag : list Z := [67; 104; 97; 110; 110; 101; 108; 115; 58].
Definition usb_audio : list Z := [85; 83; 66; 45; 65; 117; 100; 105; 111].

(** The line loop of [usb_playback_channels]; lines as [fgets] returns them. *)
Fixpoint playback_lines (lines : list (list Z)) (in_playback : bool) (ch : Z) : Z :=
  match lines with
  | [] => ch
  | l :: lines =>
    match strip playback_tag l with
    | Some _ => playback_lines lines true ch
    | None =>
      if in_playback then
        match strip capture_tag l with
        | Some _ => ch
        | None =>
          match strstr channels_tag l with
          | Some c =>
            match scan_int (drop 9 c) with
            | Some (n, _) => n
            | None => playback_lines lines true ch
            end
          | None => playback_lines lines true ch
          end
        end
      else playback_lines lines false ch
    end
  end.

Definition usb_playback_channels (file : option (list (list Z))) : Z :=
  match file with
  | None => 2
  | Some lines => let ch := playback_lines lines false 2 in if decide (ch > 0) then ch else 2
  end.

(** [sscanf(line, " %d [%*[^]]]: %63s -", &card, driver) == 2]. *)
Definition scan_card (l : list Z) : option (Z * list Z) :=
  '(card, l) ← scan_int l;
  l ← strip [91] (skip_space l);
  let '(name, l) := span (fun c => negb (c =? 93)) (length l) l in
  if decide (name = []) then None else
  l ← strip [93; 58] l;
  let '(drv, _) := span (fun c => negb (is_space c)) 63 (skip_space l) in
  if decide (drv = []) then None else Some (card, drv).

(** [has_pcm card]: the playback PCM of the card exists; [stream0 card]: the
    lines of its stream file. The result is the card and its channels. *)
Fixpoint find_usb (cards : list (list Z)) (has_pcm : Z -> bool)
    (stream0 : Z -> option (list (list Z))) : option (Z * Z) :=
  match cards with
  | [] => None
  | l :: cards =>
    match scan_card l with
    | Some (card, drv) =>
      if bool_decide (drv = usb_audio) && has_pcm card
      then Some (card, usb_playback_channels (stream0 card))
      else find_usb cards has_pcm stream0
    | None => find_usb cards has_pcm stream0
    end
  end.

Definition vmc_alsa_find_usb_device (cards : option (list (list Z))) (has_pcm : Z -> bool)
    (stream0 : Z -> option (list (list Z))) : option (Z * Z) :=
  match cards with None => None | Some l => find_usb l has_pcm stream0 end.

(** The context [vmc_alsa_sink_init] leaves; [usb] is what detection found,
    [open_ok], [hw_ok] and [prepare_ok] whether these ALSA steps succeed,
    [hw_alloc] whether the parameter object is allocated. A silent sink keeps
    its context with no PCM. *)
Definition vmc_alsa_sink_init (sink : bool) (alloc : bool) (usb : option (Z * Z))
    (open_ok hw_alloc hw_ok prepare_ok : bool) : vmc_status * option alsa_ctx :=
  if negb sink then (VMC_ERR_INVALID_ARG, None) else
  if negb alloc then (VMC_ERR_NOMEM, None) else
  let ch := match usb with Some (_, n) => n | None => VMC_AUDIO_CHANNELS end in
  let silent := mk_alsa false 0 ch [] 0 in
  if negb open_ok then (VMC_OK, Some silent) else
  if hw_alloc && negb hw_ok then (VMC_OK, Some silent) else
  if negb prepare_ok then (VMC_OK, Some silent) else
  (VMC_OK, Some (mk_alsa true 0 ch [] 0)).

Definition vmc_alsa_sink_close (a : option alsa_ctx) : option alsa_ctx := None.

(** ** The mixer computes the clamped sum *)

Lemma contribution_bound s src :
  source_wf src -> -4194304 <= contribution s src <= 4194304.
Proof.
  intros [Hg Hp]. unfold contribution. destruct (active src) eqn:Ea; cbn [andb]; [|lia].
  case_bool_decide; [|lia]. destruct (Hp eq_refl) as (p & -> & Hl & Hi). change (default [] (Some p)) with p.
  destruct (zget p s) as [x|] eqn:Ex.
  - assert (is_i16 x).
    { unfold zget in Ex. case_decide; [|done]. by eapply Forall_lookup_1. }
    unfold is_i16 in *. change (default 0 (Some x)) with x.
    assert (-1073741824 <= x * gain_q8 src <= 1073741824) by nia.
    pose proof (Z.quot_rem (x * gain_q8 src) 256 ltac:(lia)).
    pose proof (Z.rem_bound_abs (x * gain_q8 src) 256 ltac:(lia)). lia.
  - cbv [default from_option id]. rewrite Z.mul_0_l. by_computation.
Qed.

Lemma mix_sources_ok ss : forall s acc,
  Forall source_wf ss -> 0 <= s ->
  -2147483648 + 4194304 * zlen ss <= acc <= 2147483647 - 4194304 * zlen ss ->
  mix_sources ss s acc = Some (acc + mix_sum ss s).
Proof.
  induction ss as [|src ss IH]; intros s acc Hss Hs Hacc; cbn [mix_sources].
  { unfold mix_sum. cbn. f_equal; lia. }
  inversion_clear Hss as [|? ? Hw Hss']. rewrite zlen_cons in Hacc. pose proof (zlen_nonneg ss).
  change (mix_sum (src :: ss) s) with (contribution s src + mix_sum ss s).
  pose proof (contribution_bound s src Hw) as Hb. unfold contribution in *.
  destruct Hw as [Hg Hp]. destruct (active src) eqn:Ea; cbn [negb andb] in *.
  - destruct (decide (s / 2 >= frames src)) as [Hge|Hlt].
    + rewrite bool_decide_eq_false_2 by lia. rewrite IH by (done || lia). f_equal; lia.
    + rewrite bool_decide_eq_true_2 in Hb |- * by lia.
      destruct (Hp eq_refl) as (p & Ep & Hl & Hi). rewrite Ep in Hb |- *.
      cbn [mbind option_bind]. change (default [] (Some p)) with p in Hb |- *.
      destruct (zget_is_Some p s) as [x Ex].
      { split; [done|]. pose proof (Z.div_mod s 2 ltac:(lia)).
        pose proof (Z.mod_pos_bound s 2 ltac:(lia)). lia. }
      rewrite Ex in Hb |- *. cbn [mbind option_bind]. change (default 0 (Some x)) with x in Hb |- *.
      assert (is_i16 x) as Hx.
      { unfold zget in Ex. case_decide; [|done]. by eapply Forall_lookup_1. }
      unfold is_i16 in Hx. unfold s32. rewrite decide_True by nia. cbn [mbind option_bind].
      rewrite decide_True by lia. cbn [mbind option_bind].
      rewrite IH by (done || lia). f_equal; lia.
  - rewrite IH by (done || lia). f_equal; lia.
Qed.

Lemma sat_i16_clamp v : sat_i16 v = Z.max (-32768) (Z.min v 32767).
Proof. unfold sat_i16. repeat case_decide; rewrite ?i16_small by lia; lia. Qed.

Definition mix_value (ss : vmc_mixer) (s : Z) : Z :=
  Z.max (-32768) (Z.min (mix_sum ss s) 32767).

Lemma mix_samples_ok ss n : forall s out,
  Forall source_wf ss -> zlen ss <= VMC_MIXER_MAX_SOURCES -> 0 <= s ->
  s + Z.of_nat n <= zlen out ->
  exists out', mix_samples ss n s out = Some out' /\ zlen out' = zlen out /\
    forall k, zget out' k = if decide (s <= k < s + Z.of_nat n)
                            then Some (mix_value ss k) else zget out k.
Proof.
  unfold VMC_MIXER_MAX_SOURCES. induction n as [|n IH]; intros s out Hss Hl Hs Hout;
    cbn [mix_samples].
  { exists out. split_and!; [done|done|]. intros k. by rewrite decide_False by lia. }
  pose proof (zlen_nonneg ss).
  rewrite mix_sources_ok by (done || lia). cbn [mbind option_bind]. rewrite Z.add_0_l.
  rewrite zset_ok by lia. cbn [mbind option_bind].
  destruct (zset_inv out (<[Z.to_nat s:=sat_i16 (mix_sum ss s)]> out) s (sat_i16 (mix_sum ss s)))
    as (_ & Hz & Hg); [apply zset_ok; lia|].
  destruct (IH (s + 1) (<[Z.to_nat s:=sat_i16 (mix_sum ss s)]> out))
    as (out' & -> & Hz' & Hg'); [done|done|lia|lia|].
  exists out'. split_and!; [done|lia|]. intros k. rewrite Hg', Hg.
  destruct (decide (k = s)) as [->|].
  - rewrite decide_False, decide_True by lia. by rewrite sat_i16_clamp.
  - repeat case_decide; lia || done.
Qed.

(** ** The downmix *)

Lemma downmix_loop_ok p n : forall i mo,
  Forall is_i16 p -> 0 <= i -> 2 * (i + Z.of_nat n) <= zlen p -> i + Z.of_nat n <= zlen mo ->
  exists mo', downmix_loop p n i mo = Some mo' /\ zlen mo' = zlen mo /\
    forall k, zget mo' k = if decide (i <= k < i + Z.of_nat n)
      then Some ((default 0 (zget p (2 * k)) + default 0 (zget p (2 * k + 1))) / 2)
      else zget mo k.
Proof.
  induction n as [|n IH]; intros i mo Hp Hi Hl Hm; cbn [downmix_loop].
  { exists mo. split_and!; [done|done|]. intros k. by rewrite decide_False by lia. }
  assert (Hget : forall j, 0 <= j < zlen p -> exists x, zget p j = Some x /\ is_i16 x).
  { intros j Hj. destruct (zget_is_Some p j Hj) as [x Hx]. exists x. split; [done|].
    unfold zget in Hx. case_decide; [|done]. by eapply Forall_lookup_1. }
  destruct (Hget (i * 2)) as (l & El & Hl16); [lia|].
  destruct (Hget (i * 2 + 1)) as (r & Er & Hr16); [lia|].
  rewrite El, Er. cbn [mbind option_bind]. unfold is_i16 in *. unfold s32.
  rewrite decide_True by lia. cbn [mbind option_bind].
  assert (Hv : i16 (Z.shiftr (l + r) 1) = (l + r) / 2).
  { rewrite Z.shiftr_div_pow2 by lia. change (2 ^ 1) with 2.
    apply i16_small. Z.div_mod_to_equations. lia. }
  rewrite Hv. rewrite zset_ok by lia. cbn [mbind option_bind].
  destruct (zset_inv mo (<[Z.to_nat i:=(l + r) / 2]> mo) i ((l + r) / 2))
    as (_ & Hz & Hg); [apply zset_ok; lia|].
  destruct (IH (i + 1) (<[Z.to_nat i:=(l + r) / 2]> mo)) as (mo' & -> & Hz' & Hg');
    [done|lia|lia|lia|].
  exists mo'. split_and!; [done|lia|]. intros k. rewrite Hg', Hg.
  destruct (decide (k = i)) as [->|].
  - rewrite decide_False, !decide_True by lia.
    rewrite (Z.mul_comm 2 i), El, Er. done.
  - repeat case_decide; lia || done.
Qed.

(** ** Properties *)

(** C30. The mixer: with at most eight sources set up as its header asks (two
    16-bit samples per frame, a non-negative gain) and room for the output, no
    access leaves a buffer, no 32-bit accumulation overflows, and every output
    sample is the sum of the active sources' samples scaled by [gain/256]
    (rounded toward zero; a source that has ended, and so the unused tail,
    contributes 0), clamped to 16 bits; samples beyond the request are kept. *)
Theorem mixer_mix_correct ss out frames_out :
  Forall source_wf ss -> zlen ss <= VMC_MIXER_MAX_SOURCES ->
  0 <= frames_out -> 2 * frames_out <= zlen out -> zlen out < 18446744073709551616 ->
  exists out', vmc_mixer_mix (Some ss) (Some out) frames_out = Some (Some out') /\
    zlen out' = zlen out /\
    forall k, 0 <= k ->
      zget out' k = if decide (k < 2 * frames_out)
        then Some (Z.max (-32768) (Z.min (mix_sum ss k) 32767)) else zget out k.
Proof.
  intros Hss Hl Hf Hout Hmax. unfold vmc_mixer_mix. case_decide as H0.
  { exists out. split_and!; [done|done|]. intros k Hk. by rewrite decide_False by lia. }
  cbv zeta. rewrite u64_small by lia.
  destruct (mix_samples_ok ss (Z.to_nat (frames_out * 2)) 0 out)
    as (out' & -> & Hz & Hg); [done|done|lia|lia|].
  cbn [mbind option_bind]. exists out'. split_and!; [done|done|].
  intros k Hk. rewrite Hg. repeat case_decide; try lia; done.
Qed.

Definition demo_sources : vmc_mixer :=
  [mk_source true 256 (Some [1000; -1000; 32767; 5]) 2; mk_source true 128 (Some [7; -7]) 1;
   mk_source true 32767 (Some [-32768; 32767]) 1; source_zero].

Lemma mixer_mix_correct_witness :
  vmc_mixer_mix (Some demo_sources) (Some [9; 9; 9; 9; 9; 9; 9]) 3
  = Some (Some [-32768; 32767; 32767; 5; 0; 0; 9]) /\
  exists out', vmc_mixer_mix (Some demo_sources) (Some [9; 9; 9; 9; 9; 9; 9]) 3 = Some (Some out') /\
    zget out' 1 = Some 32767.
Proof.
  split; [reflexivity|].
  destruct (mixer_mix_correct demo_sources [9; 9; 9; 9; 9; 9; 9] 3) as (o & H1 & _ & H2).
  - repeat constructor; try (cbn; lia); intros _; eexists; (split; [reflexivity|]);
      (split; [vm_compute; discriminate|by_computation]).
  - vm_compute. discriminate.
  - lia.
  - vm_compute. discriminate.
  - vm_compute. reflexivity.
  - exists o. split; [exact H1|]. rewrite H2 by lia. reflexivity.
Defined.

(** The pipeline does not mix: rendering a block records it as source 0
    with unit gain, but what the sink plays is the caller's block itself, once
    and unchanged, whatever the other seven sources hold; the returned status
    is the sink's, and no other source is altered. *)
Theorem pipeline_render_plays_unmixed {C D} (m : vmc_mixer) f (c : C) (src : vmc_audio_source D)
    ms p fr :
  zlen m = VMC_MIXER_MAX_SOURCES ->
  let '(st, c') := f c p fr in
  exists m', vmc_audio_pipeline_render
      (Some (mk_pipeline m (mk_sink (Some f) c) src ms)) (Some p) fr
    = Some (st, Some (mk_pipeline m' (mk_sink (Some f) c') src ms)) /\
    zlen m' = zlen m /\
    zget m' 0 = Some (mk_source (bool_decide (fr > 0)) 256 (Some p) fr) /\
    forall i, i <> 0 -> zget m' i = zget m i.
Proof.
  intros Hm. destruct (f c p fr) as [st c'] eqn:Ef.
  unfold vmc_audio_pipeline_render. rewrite decide_False by (intros [_ ?]; done).
  unfold vmc_mixer_set_source, VMC_MIXER_MAX_SOURCES in *. cbn [mixer].
  rewrite decide_False by lia. rewrite decide_False by (intros [_ ?]; done).
  rewrite decide_False by lia.
  destruct (zset m 0 (mk_source (bool_decide (fr > 0)) 256 (Some p) fr)) as [m'|] eqn:Ez;
    [|rewrite zset_ok in Ez by lia; done].
  destruct (zset_inv _ _ _ _ Ez) as (_ & Hz & Hg). cbn [mbind option_bind].
  rewrite decide_False by (intros Hne; by apply Hne).
  cbn [sink play sink_ctx source last_mix_ms].
  change (default [] (Some p)) with p. rewrite Ef. exists m'. split_and!; [done|done| |].
  - by rewrite Hg, decide_True.
  - intros i Hi. by rewrite Hg, decide_False.
Qed.

Lemma pipeline_render_plays_unmixed_witness :
  exists m', vmc_audio_pipeline_render
      (Some (mk_pipeline (replicate 8 source_zero)
               (mk_sink (Some (fun (c : list Z) p _ => (VMC_OK, c ++ p))) [])
               (mk_asource (C := unit) None tt) 0)) (Some [5; -5]) 1
    = Some (VMC_OK, Some (mk_pipeline m' (mk_sink (Some (fun (c : list Z) p _ => (VMC_OK, c ++ p)))
                                            [5; -5]) (mk_asource None tt) 0)).
Proof.
  destruct (pipeline_render_plays_unmixed (replicate 8 source_zero)
    (fun (c : list Z) p _ => (VMC_OK, c ++ p)) [] (mk_asource (C := unit) None tt) 0 [5; -5] 1)
    as (m' & H & _); [reflexivity|].
  exists m'. exact H.
Defined.

(** Growing the scratch buffer covers the request and keeps the capacity true. *)
Lemma mono_grown a fr :
  mono_cap a = zlen (mono a) -> 0 <= fr ->
  let m := if decide (fr > mono_cap a)
           then mono a ++ replicate (Z.to_nat fr - length (mono a)) 0 else mono a in
  fr <= zlen m /\ (if decide (fr > mono_cap a) then fr else mono_cap a) = zlen m.
Proof.
  intros Hc Hf. cbv zeta. case_decide; [|lia].
  rewrite zlen_app, zlen_replicate. unfold zlen in *. lia.
Qed.

(** The mono downmix: on an open single-channel device, a block of [fr]
    stereo frames (two 16-bit samples each) is reduced without leaving a
    buffer and without overflow to [fr] samples, the floor of (L+R)/2, and
    exactly these are handed to ALSA; the played count grows by what ALSA
    accepted, directly or after recovery, and the device is closed and
    [VMC_ERR_IO] returned exactly when writing and recovering both fail. *)
Theorem alsa_play_downmix a p fr e :
  opened a = true -> channels a = 1 -> mono_cap a = zlen (mono a) -> realloc_ok e = true ->
  Forall is_i16 p -> 0 <= fr -> 2 * fr <= zlen p ->
  exists st a' o under, alsa_play a p fr e = Some (st, a', Some o, under) /\
    zlen o = fr /\
    (forall k, 0 <= k < fr ->
       zget o k = Some ((default 0 (zget p (2 * k)) + default 0 (zget p (2 * k + 1))) / 2)) /\
    let r := if decide (writei e < 0) then recover e else writei e in
    (st = VMC_ERR_IO <-> r < 0) /\ opened a' = bool_decide (0 <= r) /\
    frames_played a' = (if decide (r > 0) then u64 (frames_played a + r) else frames_played a) /\
    mono_cap a' = zlen (mono a').
Proof.
  intros Hop Hch Hcap Hra Hp Hfr Hlen.
  destruct (mono_grown a fr Hcap Hfr) as [Hm1 Hm2].
  set (m := if decide (fr > mono_cap a) then _ else mono a) in Hm1, Hm2.
  set (cap := if decide (fr > mono_cap a) then fr else mono_cap a) in Hm2.
  destruct (downmix_loop_ok p (Z.to_nat fr) 0 m) as (mo & Hd & Hz & Hg); [done|lia..|].
  unfold alsa_play. rewrite Hop, Hra. cbn [negb]. rewrite decide_True by done.
  replace (if decide (fr > mono_cap a) then _ else Some a)
    with (Some (mk_alsa (opened a) (frames_played a) (channels a) m cap))
    by (unfold m, cap; case_decide; [done|by destruct a]).
  cbv zeta. cbn [mbind option_bind mono]. rewrite Hd. cbn [mbind option_bind].
  assert (Ho : zlen (take (Z.to_nat fr) mo) = fr) by (rewrite zlen_take; lia).
  assert (Hk : forall k, 0 <= k < fr -> zget (take (Z.to_nat fr) mo) k =
      Some ((default 0 (zget p (2 * k)) + default 0 (zget p (2 * k + 1))) / 2)).
  { intros k Hk. rewrite zget_take, Hg by lia. by rewrite decide_True by lia. }
  destruct (decide (writei e < 0)) as [Hw|Hw];
    [destruct (decide (recover e < 0)) as [Hr|Hr]|];
    (eexists _, _, _, _; split_and!; [reflexivity|exact Ho|exact Hk|..]).
  all: repeat case_decide; cbn [opened frames_played mono mono_cap upd_field]; try lia.
  all: rewrite ?Hop; try (symmetry; apply bool_decide_eq_true; lia);
    try (symmetry; apply bool_decide_eq_false; lia).
  all: first [by split; [discriminate|lia] | by split; [lia|]].
Qed.

Definition mono_dev : alsa_ctx := mk_alsa true 10 1 [] 0.

Lemma alsa_play_downmix_witness :
  exists st a' under, alsa_play mono_dev [3; 4; -3; -4] 2 (mk_env true 2 0)
    = Some (st, a', Some [3; -4], under) /\ frames_played a' = 12 /\ opened a' = true.
Proof.
  destruct (alsa_play_downmix mono_dev [3; 4; -3; -4] 2 (mk_env true 2 0))
    as (st & a' & o & un & He & Hl & Ho & _ & Hop & Hfp & _);
    [reflexivity..|by_computation|lia|vm_compute; discriminate|].
  exists st, a', un. assert (o = [3; -4]) as <-.
  { apply zget_ext. intros i Hi. destruct (decide (i < 2)).
    - rewrite Ho by lia. assert (i = 0 \/ i = 1) as [-> | ->] by lia; reflexivity.
    - assert (zlen [3; -4] = 2) by done. rewrite !zget_ge by lia. done. }
  split_and!; [exact He|exact Hfp|exact Hop].
Defined.

End Audio.
