(* ===== verification/Core.v ===== *)
(** * Core services: errors, logger, clocks ([src/core/], [src/platform/linux/])

    The text of a status code, the level filter of the logger, and the clock
    conversions of the Linux platform layer over the [timespec] the kernel
    returns. The last section is the non-Linux fallback of [platform.c]. *)

From S2P Require Import Prelude.
From stdpp Require Import strings.

#[local] Open Scope string_scope.
#[local] Open Scope Z_scope.

Module Core.

(** ** Status texts ([error.c]) *)

Definition vmc_strerror (status : vmc_status) : string :=
  if decide (status = VMC_OK) then "success" else
  if decide (status = VMC_ERR_GENERAL) then "general error" else
  if decide (status = VMC_ERR_INVALID_ARG) then "invalid argument" else
  if decide (status = VMC_ERR_NOMEM) then "out of memory" else
  if decide (status = VMC_ERR_NOSYS) then "not implemented on this platform" else
  if decide (status = VMC_ERR_TIMEOUT) then "operation timed out" else
  if decide (status = VMC_ERR_BUSY) then "resource busy" else
  if decide (status = VMC_ERR_IO) then "I/O error" else
  if decide (status = VMC_ERR_PROTO) then "protocol violation" else
  if decide (status = VMC_ERR_CORRUPT) then "corrupt framing / checksum" else
  if decide (status = VMC_ERR_AGAIN) then "would block, retry" else
  if decide (status = VMC_ERR_OVERRUN) then "queue overflow" else
  if decide (status = VMC_ERR_NOT_FOUND) then "not found" else
  if decide (status = VMC_ERR_INVALID_STATE) then "invalid state for operation" else
  if decide (status = VMC_ERR_NOT_CONNECTED) then "not connected" else
  if decide (status = VMC_ERR_OUT_OF_SYNC) then "sequence out of sync" else
  if decide (status = VMC_ERR_NO_MEDIA) then "no playable media frame" else
  if decide (status > 0) then "positive application-defined status" else
  "unknown error".

(** ** Logger ([logger.c]) *)

Abbreviation vmc_log_level := Z (only parsing).
Definition VMC_LOG_TRACE : vmc_log_level := 0.
Definition VMC_LOG_DEBUG : vmc_log_level := 1.
Definition VMC_LOG_INFO : vmc_log_level := 2.
Definition VMC_LOG_WARN : vmc_log_level := 3.
Definition VMC_LOG_ERROR : vmc_log_level := 4.
Definition VMC_LOG_OFF : vmc_log_level := 5.

(** [g_log_level]'s initial value. *)
Definition g_log_level : vmc_log_level := VMC_LOG_INFO.

Definition vmc_log_set_level (g level : vmc_log_level) : vmc_log_level :=
  if decide (level < VMC_LOG_TRACE \/ level > VMC_LOG_OFF) then g else level.

Definition vmc_log_get_level (g : vmc_log_level) : vmc_log_level := g.

Definition k_level_names : list string := ["TRACE"; "DEBUG"; "INFO"; "WARN"; "ERROR"]%list.

(** What [vmc_log_msg] writes: nothing, or a line with the level's name, the
    place and the formatted message ([text]). The outer option is the access
    to [k_level_names]. *)
Definition vmc_log_msg (g level : vmc_log_level) (file : string) (line : Z) (text : string)
    : option (option (string * string * Z * string)) :=
  if decide (level < VMC_LOG_TRACE \/ level >= VMC_LOG_OFF \/ level < g)
  then Some None else
  lvl ← zget k_level_names level;
  Some (Some (lvl, file, line, text)).

(** ** Clocks ([platform/linux/time.c]) *)

Record timespec := mk_ts { tv_sec : Z; tv_nsec : Z }.

Definition vmc_time_now_us (ts : timespec) : Z :=
  u64 (u64 (u64 (tv_sec ts) * 1000000) + u64 (Z.quot (tv_nsec ts) 1000)).

Definition vmc_time_wall_us (ts : timespec) : Z :=
  u64 (u64 (u64 (tv_sec ts) * 1000000) + u64 (Z.quot (tv_nsec ts) 1000)).

Definition vmc_time_now_ms (ts : timespec) : Z := vmc_time_now_us ts / 1000.

(** The argument of [usleep]; [useconds_t] is 32 bits wide. *)
Definition vmc_sleep_ms (ms : Z) : Z := u32 (u32 ms * 1000).

(** The order of two readings of a kernel clock. *)
Definition ts_wf (ts : timespec) : Prop :=
  0 <= tv_sec ts <= 18446744073708 /\ 0 <= tv_nsec ts < 1000000000.

Definition ts_le (a b : timespec) : Prop :=
  tv_sec a < tv_sec b \/ tv_sec a = tv_sec b /\ tv_nsec a <= tv_nsec b.

Lemma time_us_eq ts : ts_wf ts ->
  vmc_time_now_us ts = tv_sec ts * 1000000 + tv_nsec ts / 1000.
Proof.
  intros [Hs Hn]. unfold vmc_time_now_us. rewrite Z.quot_div_nonneg by lia.
  rewrite (u64_small (tv_sec ts)) by lia. rewrite (u64_small (tv_sec ts * 1000000)) by lia.
  pose proof (Z.div_pos (tv_nsec ts) 1000).
  assert (tv_nsec ts / 1000 < 1000000) by (apply Z.div_lt_upper_bound; lia).
  rewrite (u64_small (tv_nsec ts / 1000)) by lia. apply u64_small. lia.
Qed.

(** The clocks never run backwards: for readings of a monotonic kernel
    clock within 584 000 years of its epoch, the microsecond conversion does
    not wrap, is the exact number of whole microseconds, and both it and the
    millisecond clock derived from it are monotone; a sleep of up to 4294967 ms
    is passed to the kernel unwrapped. *)
Theorem clock_monotone a b ms :
  ts_wf a -> ts_wf b -> ts_le a b -> 0 <= ms <= 4294967 ->
  vmc_time_now_us a = (tv_sec a * 1000000000 + tv_nsec a) / 1000 /\
  vmc_time_now_us a <= vmc_time_now_us b /\
  vmc_time_now_ms a <= vmc_time_now_ms b /\
  vmc_time_wall_us a = vmc_time_now_us a /\
  vmc_sleep_ms ms = ms * 1000.
Proof.
  intros Ha Hb Hle Hms. assert (Hus : vmc_time_now_us a <= vmc_time_now_us b).
  { rewrite !time_us_eq by done. destruct Ha, Hb. unfold ts_le in Hle.
    Z.div_mod_to_equations. lia. }
  split_and!; [| exact Hus | | done |].
  - rewrite time_us_eq by done. replace (tv_sec a * 1000000000 + tv_nsec a)
      with (tv_nsec a + (tv_sec a * 1000000) * 1000) by lia.
    rewrite Z.div_add by lia. lia.
  - unfold vmc_time_now_ms. by apply Z.div_le_mono.
  - unfold vmc_sleep_ms. rewrite (u32_small ms) by lia. apply u32_small. lia.
Qed.

Lemma clock_monotone_witness :
  vmc_time_now_us (mk_ts 3 999999) <= vmc_time_now_us (mk_ts 3 1000000).
Proof.
  apply (clock_monotone (mk_ts 3 999999) (mk_ts 3 1000000) 0);
    [split; cbn; lia | split; cbn; lia | right; cbn; lia | lia].
Defined.

(** ** The non-Linux fallback ([platform.c]) *)

Section Fallback.

(** [counter]: the static of [vmc_time_now_us]; each call returns the new
    value. *)
Definition fallback_now_us (counter : Z) : Z * Z :=
  let c := u64 (counter + 1000) in (c, c).

Definition fallback_now_ms (counter : Z) : Z * Z :=
  let '(v, c) := fallback_now_us counter in (v / 1000, c).

(** The busy loop of [vmc_sleep_ms], with fuel: [None] when it is not over
    after [fuel] readings. *)
Fixpoint fallback_spin (fuel : nat) (counter until : Z) : option Z :=
  match fuel with
  | O => None
  | S fuel =>
    let '(v, c) := fallback_now_us counter in
    if decide (v < until) then fallback_spin fuel c until else Some c
  end.

Definition fallback_sleep_ms (fuel : nat) (counter ms : Z) : option Z :=
  let '(v, c) := fallback_now_us counter in
  let until := u64 (v + u64 (u32 ms * 1000)) in
  fallback_spin fuel c until.

Lemma fallback_spin_ends n : forall fuel counter until,
  0 <= counter -> counter < until -> until + 1000 < 18446744073709551616 ->
  until - counter <= 1000 * Z.of_nat n -> (n <= fuel)%nat ->
  exists c, fallback_spin fuel counter until = Some c /\ until <= c < until + 1000.
Proof.
  induction n as [|n IH]; intros fuel counter until Hc Hcu Hu Hd Hf; [lia|].
  destruct fuel as [|fuel]; [lia|]. unfold fallback_spin, fallback_now_us; fold fallback_spin.
  rewrite u64_small by lia. case_decide.
  - apply IH; lia.
  - eexists. split; [done|lia].
Qed.

(** Away from the end of the 64-bit counter the loop ends after [ms + 1]
    readings. *)
Lemma fallback_sleep_ends counter ms :
  0 <= counter < 18446742978491000000 -> 0 < ms <= 1000000000 ->
  exists c, fallback_sleep_ms (Z.to_nat ms) counter ms = Some c /\
            counter + 1000 + ms * 1000 <= c.
Proof.
  intros Hc Hms. unfold fallback_sleep_ms, fallback_now_us.
  rewrite (u32_small ms) by lia. rewrite (u64_small (ms * 1000)) by lia.
  rewrite (u64_small (counter + 1000)) by lia. rewrite u64_small by lia.
  destruct (fallback_spin_ends (Z.to_nat ms) (Z.to_nat ms) (counter + 1000)
              (counter + 1000 + ms * 1000)) as (c & -> & Hcc); try lia.
  exists c. split; [done|lia].
Qed.

End Fallback.

(** ** Every code has a text of its own *)

Definition vmc_codes : list vmc_status := [0; -1; -2; -3; -4; -5; -6; -7; -8; -9; -10; -11; -12;
  -13; -14; -15; -16]%list.

Lemma vmc_strerror_distinct : NoDup (vmc_strerror <$> 1 :: -17 :: vmc_codes).
Proof. by_computation. Qed.

(** Only an undocumented negative code is "unknown". *)
Lemma vmc_strerror_unknown st :
  vmc_strerror st = "unknown error" <-> st < -16.
Proof.
  unfold vmc_strerror, VMC_OK, VMC_ERR_GENERAL, VMC_ERR_INVALID_ARG, VMC_ERR_NOMEM,
    VMC_ERR_NOSYS, VMC_ERR_TIMEOUT, VMC_ERR_BUSY, VMC_ERR_IO, VMC_ERR_PROTO, VMC_ERR_CORRUPT,
    VMC_ERR_AGAIN, VMC_ERR_OVERRUN, VMC_ERR_NOT_FOUND, VMC_ERR_INVALID_STATE,
    VMC_ERR_NOT_CONNECTED, VMC_ERR_OUT_OF_SYNC, VMC_ERR_NO_MEDIA.
  repeat case_decide; split; (discriminate || lia || done).
Qed.

(** The logger shows a message exactly when its level is one of TRACE to
    ERROR and not below the current level, under that level's name and without
    leaving the table of names; an out-of-range level leaves the filter alone;
    at OFF nothing is shown. *)
Theorem logger_filter_exact g level new file line text :
  VMC_LOG_TRACE <= g <= VMC_LOG_OFF ->
  let g' := vmc_log_set_level g new in
  VMC_LOG_TRACE <= g' <= VMC_LOG_OFF /\
  (exists name, vmc_log_msg g' level file line text =
    Some (if decide (g' <= level < VMC_LOG_OFF) then Some (name, file, line, text) else None) /\
    (g' <= level < VMC_LOG_OFF -> zget k_level_names level = Some name)).
Proof.
  intros Hg g'. unfold VMC_LOG_TRACE, VMC_LOG_OFF in *.
  assert (Hg' : 0 <= g' <= 5).
  { unfold g', vmc_log_set_level, VMC_LOG_TRACE, VMC_LOG_OFF. case_decide; lia. }
  split; [done|].
  unfold vmc_log_msg, VMC_LOG_TRACE, VMC_LOG_OFF.
  destruct (decide (g' <= level < 5)) as [Hl|Hl].
  - rewrite decide_False by lia. destruct (zget_is_Some k_level_names level) as [n Hn].
    { change (zlen k_level_names) with 5. lia. }
    exists n. rewrite Hn. split; [done|]. intros _. done.
  - exists "". split; [|lia]. rewrite decide_True by lia. done.
Qed.

Lemma logger_filter_exact_witness :
  vmc_log_msg (vmc_log_set_level g_log_level 9) VMC_LOG_WARN "a.c" 3 "m"
  = Some (Some ("WARN", "a.c", 3, "m")).
Proof.
  destruct (logger_filter_exact g_log_level VMC_LOG_WARN 9 "a.c" 3 "m")
    as (_ & n & H & Hn); [vm_compute; split; discriminate|].
  rewrite H. assert (E : zget k_level_names VMC_LOG_WARN = Some n)
    by (apply Hn; vm_compute; split; [discriminate|reflexivity]).
  injection E as <-. reflexivity.
Defined.

End Core.
