(* ===== verification/Telemetry.v ===== *)
(** * Telemetry ([src/core/telemetry.c])

    The event formatter, the datagram the writer sends, the lifecycle of the
    service, and the lock-free ring: every atomic access of producers and
    writer is one action of a transition system, so the theorems hold for all
    interleavings of any number of producer threads. *)

From S2P Require Import Prelude Text Wire Protocol.
From stdpp Require Import strings.
Import Text LE Proto.

#[local] Open Scope Z_scope.

Module Tlm.

Definition TLM_RING_SLOTS : Z := 16384.
Definition TLM_SLOT_CAP : Z := 384.

Inductive slot_state := TLM_SLOT_EMPTY | TLM_SLOT_CLAIMED | TLM_SLOT_FILLED.

#[export] Instance slot_state_eq_dec : EqDecision slot_state.
Proof. solve_decision. Defined.

Record tlm_slot := mk_slot { buf : list Z; len : Z; state : slot_state }.

#[export] Instance eta_slot : Eta tlm_slot := fun s => mk_slot (buf s) (len s) (state s).

(** ** Formatting *)

Definition field (name : string) (value : list Z) : list Z :=
  quoted (chars name) ++ chars ":" ++ value.

Definition tlm_text (type : list Z) (ts seq : Z) (fields : list Z) : list Z :=
  chars "{" ++ field "t" (quoted type) ++ chars "," ++ field "ts" (num_print 10 ts)
  ++ chars "," ++ field "seq" (num_print 10 seq) ++ chars "," ++ fields ++ chars "}" ++ [10].

(** The formatting half of [vmc_tlm_emit]: [text] is what the caller's format
    produces, [None] when [vsnprintf] fails. The line to enqueue, if any, and
    the event counter. *)
Definition tlm_format (enabled : bool) (type : option (list Z)) (text : option (list Z))
    (ts g_seq : Z) : option (list Z) * Z :=
  match type with
  | None => (None, g_seq)
  | Some ty =>
    if negb enabled then (None, g_seq) else
    match text with
    | None => (None, g_seq)
    | Some f =>
      if decide (zlen f >= TLM_SLOT_CAP - 96) then (None, g_seq) else
      let seq := u64 (g_seq + 1) in
      let line := tlm_text ty ts seq f in
      if decide (zlen line >= TLM_SLOT_CAP) then (None, seq) else (Some line, seq)
    end
  end.

(** ** The sinks *)

(** [g_file]: the bytes appended to the open file; [g_udp_fd]: the socket is
    open; [sent]: the datagrams given to [sendto]. *)
Record tlm_sinks := mk_sinks {
  g_file : option (list Z); g_udp_fd : bool; g_udp_buf : list Z; sent : list (list Z);
}.

#[export] Instance eta_sinks : Eta tlm_sinks := fun s =>
  mk_sinks (g_file s) (g_udp_fd s) (g_udp_buf s) (sent s).

Definition k_vmc_header_size : Z := 17.

Definition tlm_crc_bit (crc : Z) : Z :=
  if negb (Z.land crc 0x80 =? 0) then u8 (Z.lxor (Z.shiftl crc 1) 0x07)
  else u8 (Z.shiftl crc 1).

(** [n] iterations of the checksum loop from index [j]. *)
Fixpoint crc_loop (p line : list Z) (n : nat) (j crc : Z) : option Z :=
  match n with
  | O => Some crc
  | S n =>
    b ← (if decide (j < k_vmc_header_size - 1) then zget p j
         else zget line (j - (k_vmc_header_size - 1)));
    crc_loop p line n (j + 1) (Nat.iter 8 tlm_crc_bit (Z.lxor crc b))
  end.

(** The UDP half of [tlm_write_sinks]: [line] is the memory [line] points to,
    [n] the length passed, [now] the clock. *)
Definition tlm_send (s : tlm_sinks) (line : list Z) (n now : Z) : option tlm_sinks :=
  if g_udp_fd s && bool_decide (n > 0)
     && bool_decide (n + k_vmc_header_size < VMC_PROTO_MAX_PACKET) then
    let plen := u16 n in
    p ← blit (g_udp_buf s) 0
      [0x43; 0x56; 1; 0; 4; 0; Z.land plen 0xff; u8 (Z.shiftr plen 8); 0; 0; 0; 0;
       Z.land now 0xff; Z.land (Z.shiftr now 8) 0xff; Z.land (Z.shiftr now 16) 0xff;
       Z.land (Z.shiftr now 24) 0xff];
    crc ← crc_loop p line (Z.to_nat (k_vmc_header_size - 1 + n)) 0 0;
    p ← zset p 16 crc;
    l ← slice line 0 n;
    p ← blit p k_vmc_header_size l;
    d ← slice p 0 (k_vmc_header_size + n);
    Some (s <| g_udp_buf := p |> <| sent := sent s ++ [d] |>)
  else Some s.

(** [wrote] is how many bytes [fwrite] takes. *)
Definition tlm_write_sinks (s : tlm_sinks) (line : list Z) (n now : Z) (wrote : Z)
    : option tlm_sinks :=
  s ← (match g_file s with
       | Some f => if decide (n > 0)
                   then l ← slice line 0 n;
                        Some (s <| g_file := Some (f ++ take (Z.to_nat wrote) l) |>)
                   else Some s
       | None => Some s
       end);
  tlm_send s line n now.

(** The texts the writer thread itself produces. *)
Record tlm_ident := mk_ident {
  g_role : list Z; g_host : list Z; g_build : list Z; g_git : list Z;
}.

Definition sync_text (id : tlm_ident) (ts seq realtime : Z) : list Z :=
  chars "{" ++ field "t" (quoted (chars "clock_sync")) ++ chars ","
  ++ field "ts" (num_print 10 ts) ++ chars "," ++ field "seq" (num_print 10 seq) ++ chars ","
  ++ field "realtime_us" (num_print 10 realtime) ++ chars ","
  ++ field "host" (quoted (g_host id)) ++ chars "," ++ field "role" (quoted (g_role id))
  ++ chars "," ++ field "build" (quoted (g_build id)) ++ chars ","
  ++ field "git" (quoted (g_git id)) ++ chars "}" ++ [10].

Definition overflow_text (ts seq dropped : Z) : list Z :=
  chars "{" ++ field "t" (quoted (chars "tlm_overflow")) ++ chars ","
  ++ field "ts" (num_print 10 ts) ++ chars "," ++ field "seq" (num_print 10 seq) ++ chars ","
  ++ field "dropped" (num_print 10 dropped) ++ chars "}" ++ [10].

(** A local [char line[size]] after [snprintf]: the text that fits, a NUL and
    the rest of the array ([junk], as long as the array). *)
Definition local_line (size : Z) (text junk : list Z) : list Z :=
  let t := stored size text in t ++ 0 :: drop (S (length t)) junk.

(** The counter and the sinks after [tlm_emit_sync]; [None] is a read beyond
    the local array. *)
Definition tlm_emit_sync (s : tlm_sinks) (id : tlm_ident) (ts g_seq realtime now wrote : Z)
    (junk : list Z) : option (tlm_sinks * Z) :=
  let seq := u64 (g_seq + 1) in
  let text := sync_text id ts seq realtime in
  s ← (if decide (zlen text > 0)
       then tlm_write_sinks s (local_line 256 text junk) (zlen text) now wrote else Some s);
  Some (s, seq).

Definition tlm_emit_overflow (s : tlm_sinks) (ts g_seq dropped now wrote : Z) (junk : list Z)
    : option (tlm_sinks * Z) :=
  let seq := u64 (g_seq + 1) in
  let text := overflow_text ts seq dropped in
  s ← (if decide (zlen text > 0)
       then tlm_write_sinks s (local_line 160 text junk) (zlen text) now wrote else Some s);
  Some (s, seq).

(** ** The writer's checksum is the protocol's *)

Lemma tlm_crc_bit_eq c : is_byte c -> tlm_crc_bit c = crc8_bit c.
Proof.
  intros Hc%in_byte_range. revert c Hc. apply Forall_forall. by_computation.
Qed.

Lemma tlm_crc_byte_eq c b : is_byte c -> is_byte b ->
  Nat.iter 8 tlm_crc_bit (Z.lxor c b) = crc8_byte c b.
Proof.
  intros Hc Hb. unfold crc8_byte.
  pose proof (lxor_byte c b Hc Hb) as Hx. revert Hx. generalize (Z.lxor c b). intros x Hx.
  enough (H : forall n, Nat.iter n tlm_crc_bit x = Nat.iter n crc8_bit x) by apply H.
  induction n as [|n IH]; [done|]. cbn [Nat.iter nat_rect]. 
  change (tlm_crc_bit (Nat.iter n tlm_crc_bit x) = crc8_bit (Nat.iter n crc8_bit x)).
  rewrite IH. apply tlm_crc_bit_eq. by apply crc8_iter_byte.
Qed.

Lemma crc_loop_spec p line post : forall pre crc,
  zlen p = 16 -> p ++ line = pre ++ post -> bytes post -> is_byte crc ->
  forall rest tail, crc_loop (p ++ rest) (line ++ tail) (length post) (zlen pre) crc
  = Some (crc8_update crc post).
Proof.
  induction post as [|b post IH]; intros pre crc Hp Heq Hb Hc rest tail; cbn [crc_loop length].
  { done. }
  apply Forall_cons in Hb as [Hb Hpost].
  assert (Hz : zget (p ++ line) (zlen pre) = Some b) by (rewrite Heq, zget_here; done).
  pose proof (zlen_nonneg pre). unfold k_vmc_header_size.
  assert ((if decide (zlen pre < 17 - 1) then zget (p ++ rest) (zlen pre)
           else zget (line ++ tail) (zlen pre - (17 - 1))) = Some b) as ->.
  { case_decide.
    - rewrite zget_app_l in Hz |- * by lia. done.
    - rewrite zget_app_r in Hz by lia. rewrite zget_app_l; [by rewrite <- Hz, Hp|].
      apply zget_lt in Hz. lia. }
  cbn [mbind option_bind crc8_update]. rewrite tlm_crc_byte_eq by done.
  replace (zlen pre + 1) with (zlen (pre ++ [b])) by (rewrite zlen_app; done).
  apply IH; [done| |done|by apply crc8_byte_byte]. by rewrite <- app_assoc.
Qed.

(** The header of a telemetry datagram. *)
Definition tlm_header (n now : Z) : vmc_proto_header :=
  mk_header VMC_PROTO_MAGIC VMC_PROTO_VERSION 0 VMC_PROTO_STREAM_TELEMETRY 0 n 0 (u32 now) 0.

Lemma tlm_prefix n now :
  0 <= n < 65536 ->
  [0x43; 0x56; 1; 0; 4; 0; Z.land (u16 n) 0xff; u8 (Z.shiftr (u16 n) 8); 0; 0; 0; 0;
   Z.land now 0xff; Z.land (Z.shiftr now 8) 0xff; Z.land (Z.shiftr now 16) 0xff;
   Z.land (Z.shiftr now 24) 0xff] = prefix16 (tlm_header n now).
Proof.
  intros Hn. unfold prefix16, tlm_header.
  cbn [magic version flags stream reserved payload_len seq ts_us].
  change (bytes16 VMC_PROTO_MAGIC) with [0x43; 0x56].
  change (bytes32 0) with [0; 0; 0; 0]. rewrite u16_small by lia. rewrite !land_255.
  rewrite !Z.shiftr_div_pow2 by lia. rewrite bytes16_eq, bytes32_eq.
  change (2 ^ 8) with 256. change (2 ^ 16) with 65536. change (2 ^ 24) with 16777216.
  unfold u8, u32, VMC_PROTO_VERSION, VMC_PROTO_STREAM_TELEMETRY. cbn [app].
  repeat (apply (f_equal2 cons); [first [reflexivity | Z.div_mod_to_equations; lia]|]).
  reflexivity.
Qed.

(** What the writer puts on the wire for a line of [n] bytes. *)
Lemma tlm_send_packet s line tail now :
  g_udp_fd s = true -> zlen (g_udp_buf s) = VMC_PROTO_MAX_PACKET ->
  bytes line -> 0 < zlen line < VMC_PROTO_MAX_PACKET - k_vmc_header_size ->
  exists b, tlm_send s (line ++ tail) (zlen line) now
    = Some (s <| g_udp_buf := b |>
              <| sent := sent s ++ [packet (tlm_header (zlen line) now) line] |>) /\
    zlen b = VMC_PROTO_MAX_PACKET.
Proof.
  unfold VMC_PROTO_MAX_PACKET, VMC_PROTO_HEADER_SIZE, VMC_PROTO_MAX_PAYLOAD, k_vmc_header_size.
  intros Hu Hbuf Hline Hn. unfold tlm_send. rewrite Hu. cbn [andb].
  rewrite !bool_decide_eq_true_2 by
    (unfold VMC_PROTO_MAX_PACKET, VMC_PROTO_HEADER_SIZE, VMC_PROTO_MAX_PAYLOAD, k_vmc_header_size; lia).
  cbn [andb]. cbv zeta. rewrite tlm_prefix by lia.
  set (h := tlm_header (zlen line) now). set (pre := prefix16 h).
  assert (Hpre : length pre = 16%nat) by done. assert (Hpz : zlen pre = 16) by done.
  assert (Hhw : bytes pre).
  { apply prefix16_bytes. unfold header_wf, h, tlm_header, is_byte, VMC_PROTO_MAGIC,
      VMC_PROTO_VERSION, VMC_PROTO_STREAM_TELEMETRY. cbn.
    pose proof (u32_range now). lia. }
  pose proof (blit_next [] (g_udp_buf s) pre 0 eq_refl) as Hb1. cbn [app] in Hb1.
  rewrite Hb1 by (unfold zlen in *; lia). clear Hb1. cbn [mbind option_bind].
  rewrite Hpre. set (r1 := drop 16 (g_udp_buf s)).
  assert (Hr1 : zlen r1 = 65536).
  { unfold r1. change 16%nat with (Z.to_nat 16). rewrite zlen_drop; lia. }
  unfold k_vmc_header_size.
  assert (Hloop : crc_loop (pre ++ r1) (line ++ tail) (Z.to_nat (17 - 1 + zlen line)) 0 0
                  = Some (crc8_update 0 (pre ++ line))).
  { pose proof (crc_loop_spec pre line (pre ++ line) [] 0 Hpz eq_refl) as Hc.
    replace (Z.to_nat (17 - 1 + zlen line)) with (length (pre ++ line))
      by (rewrite length_app; unfold zlen; lia).
    change (zlen []) with 0 in Hc. apply Hc; [by apply bytes_app|exact zero_byte]. }
  rewrite Hloop. cbn [mbind option_bind]. set (c := crc8_update 0 (pre ++ line)).
  rewrite zset_blit.
  assert (Hb2 : blit (pre ++ r1) 16 [c] = Some ((pre ++ [c]) ++ drop 1 r1)).
  { apply blit_next; [done|]. unfold zlen in Hr1. cbn [length]. lia. }
  rewrite Hb2. cbn [mbind option_bind]. rewrite slice_prefix. cbn [mbind option_bind].
  assert (Hb3 : blit ((pre ++ [c]) ++ drop 1 r1) 17 line
                = Some (((pre ++ [c]) ++ line) ++ drop (length line) (drop 1 r1))).
  { apply blit_next; [done|]. rewrite length_drop. unfold zlen in Hr1, Hn |- *. lia. }
  rewrite Hb3. cbn [mbind option_bind].
  assert (Hpk : (pre ++ [c]) ++ line = packet h line) by (unfold packet; by rewrite <- app_assoc).
  rewrite Hpk. replace (17 + zlen line) with (zlen (packet h line)) by apply packet_zlen.
  rewrite slice_prefix. cbn [mbind option_bind]. eexists. split; [done|].
  rewrite zlen_app, packet_zlen. unfold zlen in *. rewrite !length_drop. lia.
Qed.

(** A telemetry line reaches both sinks: with a socket and an open file,
    writing a line of up to 65534 bytes leaves no buffer, appends the line to
    the file, and sends one datagram of [17 + n] bytes which the protocol
    decoder accepts as a TELEMETRY packet with the low 32 bits of the clock and
    exactly the line as its payload; so the checksum the writer computes inline
    is the protocol's. *)
Theorem tlm_datagram_decodes s f line tail now wrote :
  g_file s = Some f -> g_udp_fd s = true -> zlen (g_udp_buf s) = VMC_PROTO_MAX_PACKET ->
  bytes line -> 0 < zlen line <= 65534 -> zlen line <= wrote ->
  exists s' d h, tlm_write_sinks s (line ++ tail) (zlen line) now wrote = Some s' /\
    g_file s' = Some (f ++ line) /\ sent s' = sent s ++ [d] /\ zlen d = 17 + zlen line /\
    vmc_proto_decode (Some d) (zlen d) = Some (VMC_OK, Some (h, 17)) /\
    stream h = VMC_PROTO_STREAM_TELEMETRY /\ ts_us h = u32 now /\ seq h = 0 /\
    slice d 17 (payload_len h) = Some line.
Proof.
  intros Hf Hu Hbuf Hline Hn Hw. unfold tlm_write_sinks. rewrite Hf.
  rewrite decide_True by lia. rewrite slice_prefix. cbn [mbind option_bind].
  rewrite take_ge by (unfold zlen in Hw; lia).
  destruct (tlm_send_packet (s <| g_file := Some (f ++ line) |>) line tail now)
    as (b & -> & _); [done|done|done| |].
  { unfold VMC_PROTO_MAX_PACKET, VMC_PROTO_HEADER_SIZE, VMC_PROTO_MAX_PAYLOAD,
      k_vmc_header_size. lia. }
  set (h := tlm_header (zlen line) now). eexists _, (packet h line), _.
  split_and!; [done|done|done|apply packet_zlen| |..].
  - pose proof (decode_packet h line [] (zlen (packet h line))) as Hd.
    rewrite app_nil_r in Hd. apply Hd; try done.
    + unfold header_wf, h, tlm_header, is_byte, VMC_PROTO_MAGIC, VMC_PROTO_VERSION,
        VMC_PROTO_STREAM_TELEMETRY. cbn. pose proof (u32_range now). lia.
    + rewrite packet_zlen. cbn [payload_len h tlm_header]. change (zlen []) with 0. lia.
  - done.
  - done.
  - done.
  - change (payload_len _) with (zlen line). pose proof (packet_split h line []) as Hp.
    rewrite !app_nil_r in Hp. rewrite Hp, app_assoc.
    pose proof (slice_app (prefix16 h ++ [crc8_update 0 (prefix16 h ++ line)]) line []) as Hs.
    by rewrite app_nil_r in Hs.
Qed.

Definition demo_sinks : tlm_sinks :=
  mk_sinks (Some [1]) true (replicate (Z.to_nat VMC_PROTO_MAX_PACKET) 0) [].

Lemma demo_sinks_buf : zlen (g_udp_buf demo_sinks) = VMC_PROTO_MAX_PACKET.
Proof. unfold demo_sinks. cbn [g_udp_buf]. rewrite zlen_replicate. apply Z2Nat.id. by vm_compute. Qed.

Lemma tlm_datagram_decodes_witness :
  exists s' d h, tlm_write_sinks demo_sinks [104; 105; 10; 99] 3 (2 ^ 32 + 5) 3 = Some s' /\
    g_file s' = Some [1; 104; 105; 10] /\ sent s' = [d] /\
    vmc_proto_decode (Some d) (zlen d) = Some (VMC_OK, Some (h, 17)) /\ ts_us h = 5.
Proof.
  destruct (tlm_datagram_decodes demo_sinks [1] [104; 105; 10] [99] (2 ^ 32 + 5) 3)
    as (s' & d & h & H1 & H2 & H3 & _ & H4 & _ & H5 & _);
    [reflexivity|reflexivity|exact demo_sinks_buf|by_computation
    |vm_compute; split; [reflexivity|discriminate]|vm_compute; discriminate|].
  exists s', d, h. split_and!; [exact H1|exact H2|exact H3|exact H4|exact H5].
Defined.

(** ** Formatted lines *)

Lemma field_bytes name v : bytes v -> bytes (field name v).
Proof. intros. unfold field. rewrite !bytes_app. auto with vmc. Qed.

Lemma newline_bytes : bytes [10]. Proof. by_computation. Qed.

Lemma decimal_bytes n : bytes (num_print 10 n).
Proof. apply num_print_bytes. lia. Qed.
#[export] Hint Resolve field_bytes newline_bytes decimal_bytes : vmc.

Definition ident_bytes (id : tlm_ident) : Prop :=
  bytes (g_role id) /\ bytes (g_host id) /\ bytes (g_build id) /\ bytes (g_git id).

Lemma sync_text_bytes id ts seq rt : ident_bytes id -> bytes (sync_text id ts seq rt).
Proof.
  intros (? & ? & ? & ?). unfold sync_text. rewrite !bytes_app.
  split_and!; auto 6 with vmc.
Qed.

Lemma sync_text_pos id ts seq rt : 0 < zlen (sync_text id ts seq rt).
Proof.
  unfold sync_text. rewrite zlen_app. change (zlen (chars "{")) with 1.
  match goal with |- 0 < 1 + zlen ?l => pose proof (zlen_nonneg l) end. lia.
Qed.

(** A line that fits its array, or misses it by the NUL only, is written from
    within the array. *)
Lemma local_line_split size text junk :
  0 < size -> zlen junk = size -> zlen text <= size ->
  exists line tail, local_line size text junk = line ++ tail /\ zlen line = zlen text /\
    (bytes text -> bytes line).
Proof.
  intros Hs Hj Ht. pose proof (zlen_nonneg text). unfold local_line, stored.
  destruct (decide (zlen text < size)).
  - rewrite take_ge by (unfold zlen in *; lia). by eexists text, _.
  - set (t := take (Z.to_nat (size - 1)) text).
    assert (Hlt : zlen t = size - 1) by (unfold t; rewrite zlen_take; lia).
    exists (t ++ [0]), (drop (S (length t)) junk). split_and!.
    + by rewrite <- app_assoc.
    + rewrite zlen_app, Hlt. change (zlen [0]) with 1. lia.
    + intros Hb. apply bytes_app. split; [by apply Forall_take|exact newline_bytes || by_computation].
Qed.

Lemma local_line_zlen size text junk :
  0 < size -> zlen junk = size -> zlen (local_line size text junk) = size.
Proof.
  intros Hs Hj. unfold local_line, stored. rewrite zlen_app, zlen_cons.
  pose proof (zlen_take (size - 1) text ltac:(lia)). pose proof (zlen_nonneg text).
  unfold zlen in *. rewrite length_drop. lia.
Qed.

(** What the sinks need: an open file, or a socket with its buffer. *)
Definition sinks_wf (s : tlm_sinks) : Prop :=
  is_Some (g_file s) /\ zlen (g_udp_buf s) = VMC_PROTO_MAX_PACKET.

Lemma write_sinks_total s line tail now w :
  sinks_wf s -> bytes line -> 0 < zlen line <= 65534 ->
  exists s', tlm_write_sinks s (line ++ tail) (zlen line) now w = Some s' /\ sinks_wf s'.
Proof.
  intros [[f Hf] Hbuf] Hb Hl. unfold tlm_write_sinks. rewrite Hf.
  rewrite decide_True by lia. rewrite slice_prefix. cbn [mbind option_bind].
  set (s1 := s <| g_file := _ |>). destruct (g_udp_fd s) eqn:Hu.
  - destruct (tlm_send_packet s1 line tail now) as (b & -> & Hz); [done|done|done| |].
    { unfold VMC_PROTO_MAX_PACKET, VMC_PROTO_HEADER_SIZE, VMC_PROTO_MAX_PAYLOAD,
        k_vmc_header_size. lia. }
    eexists. split; [done|]. split; [by eexists|done].
  - exists s1. unfold tlm_send. change (g_udp_fd s1) with (g_udp_fd s). rewrite Hu.
    split; [done|]. split; [by eexists|done].
Qed.

(** The clock-sync line and its 256-byte array: when the file sink is open
    the writer stays inside the array exactly if the formatted line is at most
    256 bytes; a longer line (the identity strings alone may take 185) makes it
    pass [snprintf]'s untruncated length to the sinks, which read beyond the
    array. *)
Theorem tlm_sync_overread s id ts g_seq rt now w junk :
  sinks_wf s -> ident_bytes id -> zlen junk = 256 ->
  let text := sync_text id ts (u64 (g_seq + 1)) rt in
  (zlen text <= 256 -> exists s', sinks_wf s' /\
     tlm_emit_sync s id ts g_seq rt now w junk = Some (s', u64 (g_seq + 1))) /\
  (zlen text > 256 -> tlm_emit_sync s id ts g_seq rt now w junk = None).
Proof.
  intros Hs Hid Hj text. pose proof (sync_text_pos id ts (u64 (g_seq + 1)) rt) as Hp.
  unfold tlm_emit_sync. fold text in Hp |- *. rewrite decide_True by lia. split; intros Ht.
  - destruct (local_line_split 256 text junk) as (line & tail & -> & Hl & Hb); try lia.
    rewrite <- Hl. destruct (write_sinks_total s line tail now w Hs) as (s' & -> & Hw).
    + by apply Hb, sync_text_bytes.
    + lia.
    + exists s'. split; [done|reflexivity].
  - destruct Hs as [[f Hf] _]. unfold tlm_write_sinks. rewrite Hf, decide_True by lia.
    unfold slice. rewrite decide_False; [done|].
    rewrite local_line_zlen by lia. lia.
Qed.

(** A host name of 127 letters, the most that fits [g_host]. *)
Definition long_ident : tlm_ident :=
  mk_ident (chars "client") (replicate 127 97) (chars "release") (chars "0123456").

Lemma tlm_sync_overread_witness :
  tlm_emit_sync demo_sinks long_ident 123456789 41 1700000000000000 5 300 (replicate 256 0) = None.
Proof.
  apply (tlm_sync_overread demo_sinks long_ident 123456789 41 1700000000000000 5 300
           (replicate 256 0)).
  - split; [by eexists|exact demo_sinks_buf].
  - split_and!; by_computation.
  - reflexivity.
  - vm_compute. reflexivity.
Defined.

End Tlm.
