(* ===== verification/TlmRing.v ===== *)
(** * The telemetry ring ([src/core/telemetry.c], [vmc_tlm_emit] and [tlm_writer])

    Any number of producers push lines into the ring of slots, one writer
    drains it. Every access the threads make to shared memory is one [action];
    an execution is any sequence of actions, so the invariants hold for all
    interleavings. [reserved], [drained], [lost] and [reported] are ghost
    histories: lines in reservation order, lines the writer passed on and
    freed, lines dropped and counted, and the counts of the overflow notices. *)

From S2P Require Import Prelude Telemetry.
Import Tlm.

#[local] Open Scope Z_scope.

Module Ring.

Abbreviation line := (list Z) (only parsing).

(** Where a producer stands in [vmc_tlm_emit], lines 97-113; [i] is its slot,
    [pos] (ghost) its place in the reservation order. *)
Inductive producer :=
| P_idle
| P_reserved (l : line) (i pos : Z)
| P_checked (l : line) (i pos : Z)
| P_claimed (l : line) (i pos : Z)
| P_copied (l : line) (i pos : Z)
| P_dropping (l : line).

(** Where the writer stands in the loop of [tlm_writer], lines 178-201. *)
Inductive writer :=
| W_outer
| W_inner (head : Z)
| W_store (head : Z) (l : line)
| W_report
| W_swap (dropped : Z).

Record ring := mk_ring {
  g_slots : list tlm_slot; g_head : Z; g_tail : Z; g_dropped : Z;
  procs : list producer; wr : writer;
  reserved : list line; drained : list line; lost : list line; reported : list Z;
}.

#[export] Instance eta_ring : Eta ring := fun r =>
  mk_ring (g_slots r) (g_head r) (g_tail r) (g_dropped r) (procs r) (wr r)
    (reserved r) (drained r) (lost r) (reported r).

(** An action is not possible where the thread stands, or it leaves a buffer,
    or it leads to a state. *)
Inductive outcome := Disabled | Fault | Next (r : ring).

Definition mem {A} (o : option A) (k : A -> outcome) : outcome :=
  match o with Some x => k x | None => Fault end.

(** *** Producers *)

(** [__atomic_fetch_add(&g_head, 1)] for a formatted line. *)
Definition reserve (r : ring) (k : nat) (l : line) : outcome :=
  match procs r !! k with
  | Some P_idle =>
    if decide (zlen l < TLM_SLOT_CAP) then
      let h := g_head r in
      Next (r <| g_head := u32 (h + 1) |> <| reserved := reserved r ++ [l] |>
              <| procs := <[k := P_reserved l (h mod TLM_RING_SLOTS) (zlen (reserved r))]> (procs r) |>)
    else Disabled
  | _ => Disabled
  end.

(** [__atomic_load_n(&sl->state)] and the overflow test. *)
Definition load (r : ring) (k : nat) : outcome :=
  match procs r !! k with
  | Some (P_reserved l i pos) =>
    mem (zget (g_slots r) i) (fun sl =>
    Next (r <| procs := <[k := if decide (state sl <> TLM_SLOT_EMPTY) then P_dropping l
                               else P_checked l i pos]> (procs r) |>))
  | _ => Disabled
  end.

(** [__atomic_fetch_add(&g_dropped, 1)]. *)
Definition drop_line (r : ring) (k : nat) : outcome :=
  match procs r !! k with
  | Some (P_dropping l) =>
    Next (r <| g_dropped := u64 (g_dropped r + 1) |> <| lost := lost r ++ [l] |>
            <| procs := <[k := P_idle]> (procs r) |>)
  | _ => Disabled
  end.

(** The compare-and-exchange from EMPTY to CLAIMED. *)
Definition claim (r : ring) (k : nat) : outcome :=
  match procs r !! k with
  | Some (P_checked l i pos) =>
    mem (zget (g_slots r) i) (fun sl =>
    if decide (state sl = TLM_SLOT_EMPTY) then
      mem (zset (g_slots r) i (sl <| state := TLM_SLOT_CLAIMED |>)) (fun ss =>
      Next (r <| g_slots := ss |> <| procs := <[k := P_claimed l i pos]> (procs r) |>))
    else Next (r <| procs := <[k := P_dropping l]> (procs r) |>))
  | _ => Disabled
  end.

(** [memcpy(sl->buf, tmp, len); sl->len = (u16)len]. *)
Definition copy (r : ring) (k : nat) : outcome :=
  match procs r !! k with
  | Some (P_claimed l i pos) =>
    mem (zget (g_slots r) i) (fun sl =>
    mem (blit (buf sl) 0 l) (fun b =>
    mem (zset (g_slots r) i (sl <| buf := b |> <| len := u16 (zlen l) |>)) (fun ss =>
    Next (r <| g_slots := ss |> <| procs := <[k := P_copied l i pos]> (procs r) |>))))
  | _ => Disabled
  end.

(** [__atomic_store_n(&sl->state, TLM_SLOT_FILLED)]. *)
Definition fill (r : ring) (k : nat) : outcome :=
  match procs r !! k with
  | Some (P_copied l i pos) =>
    mem (zget (g_slots r) i) (fun sl =>
    mem (zset (g_slots r) i (sl <| state := TLM_SLOT_FILLED |>)) (fun ss =>
    Next (r <| g_slots := ss |> <| procs := <[k := P_idle]> (procs r) |>)))
  | _ => Disabled
  end.

(** *** The writer *)

Definition take_head (r : ring) : outcome :=
  match wr r with W_outer => Next (r <| wr := W_inner (g_head r) |>) | _ => Disabled end.

(** One turn of the inner loop up to the call of [tlm_write_sinks], which gets
    the [len] bytes of the slot; or the end of the loop. *)
Definition scan (r : ring) : outcome :=
  match wr r with
  | W_inner h =>
    if decide (g_tail r = h) then Next (r <| wr := W_report |>) else
    mem (zget (g_slots r) (g_tail r mod TLM_RING_SLOTS)) (fun sl =>
    if decide (state sl <> TLM_SLOT_FILLED) then Next (r <| wr := W_report |>) else
    mem (slice (buf sl) 0 (len sl)) (fun l => Next (r <| wr := W_store h l |>)))
  | _ => Disabled
  end.

Definition free_slot (r : ring) : outcome :=
  match wr r with
  | W_store h l =>
    let i := g_tail r mod TLM_RING_SLOTS in
    mem (zget (g_slots r) i) (fun sl =>
    mem (zset (g_slots r) i (sl <| state := TLM_SLOT_EMPTY |>)) (fun ss =>
    Next (r <| g_slots := ss |> <| g_tail := u32 (g_tail r + 1) |>
            <| drained := drained r ++ [l] |> <| wr := W_inner h |>)))
  | _ => Disabled
  end.

Definition report (r : ring) : outcome :=
  match wr r with
  | W_report => Next (r <| wr := if decide (g_dropped r > 0) then W_swap (g_dropped r)
                                 else W_outer |>)
  | _ => Disabled
  end.

(** The compare-and-exchange of [g_dropped] with 0, and the notice. *)
Definition swap (r : ring) : outcome :=
  match wr r with
  | W_swap d =>
    Next (if decide (g_dropped r = d)
          then r <| g_dropped := 0 |> <| reported := reported r ++ [d] |> <| wr := W_outer |>
          else r <| wr := W_outer |>)
  | _ => Disabled
  end.

(** *** Executions *)

Inductive action :=
| A_reserve (k : nat) (l : line) | A_load (k : nat) | A_drop (k : nat) | A_claim (k : nat)
| A_copy (k : nat) | A_fill (k : nat)
| A_head | A_scan | A_free | A_report | A_swap.

Definition act (a : action) (r : ring) : outcome :=
  match a with
  | A_reserve k l => reserve r k l | A_load k => load r k | A_drop k => drop_line r k
  | A_claim k => claim r k | A_copy k => copy r k | A_fill k => fill r k
  | A_head => take_head r | A_scan => scan r | A_free => free_slot r
  | A_report => report r | A_swap => swap r
  end.

Definition slot_zero : tlm_slot :=
  mk_slot (replicate (Z.to_nat TLM_SLOT_CAP) 0) 0 TLM_SLOT_EMPTY.

(** After [vmc_tlm_init], with [n] producer threads. *)
Definition ring_init (n : nat) : ring :=
  mk_ring (replicate (Z.to_nat TLM_RING_SLOTS) slot_zero) 0 0 0 (replicate n P_idle) W_outer
    [] [] [] [].

Definition step (r r' : ring) : Prop := exists a, act a r = Next r'.

(** A step after which at most a ring of lines is reserved and not drained. *)
Definition step_nolap (r r' : ring) : Prop :=
  step r r' /\ zlen (reserved r') - zlen (drained r') <= TLM_RING_SLOTS.

Fixpoint run (acts : list action) (r : ring) : outcome :=
  match acts with
  | [] => Next r
  | a :: acts => match act a r with Next r => run acts r | o => o end
  end.

(** ** Who holds a slot, and where the lines are *)

Definition p_line (p : producer) : list line :=
  match p with
  | P_idle => []
  | P_reserved l _ _ | P_checked l _ _ | P_claimed l _ _ | P_copied l _ _ | P_dropping l => [l]
  end.

(** The slot a producer has claimed and may write. *)
Definition p_slot (p : producer) : option Z :=
  match p with P_claimed _ i _ | P_copied _ i _ => Some i | _ => None end.

Definition slot_text (s : tlm_slot) : line := take (Z.to_nat (len s)) (buf s).

Definition slot_line (s : tlm_slot) : list line :=
  if decide (state s = TLM_SLOT_FILLED) then [slot_text s] else [].

Definition in_flight (r : ring) : list line := procs r ≫= p_line.
Definition in_slots (r : ring) : list line := g_slots r ≫= slot_line.

Definition slot_wf (s : tlm_slot) : Prop := zlen (buf s) = TLM_SLOT_CAP /\ 0 <= len s <= TLM_SLOT_CAP.

Definition idx_ok (l : line) (i : Z) : Prop := 0 <= i < TLM_RING_SLOTS /\ zlen l < TLM_SLOT_CAP.

Definition proc_ok (ss : list tlm_slot) (p : producer) : Prop :=
  match p with
  | P_idle | P_dropping _ => True
  | P_reserved l i _ | P_checked l i _ => idx_ok l i
  | P_claimed l i _ =>
    idx_ok l i /\ exists s, zget ss i = Some s /\ state s = TLM_SLOT_CLAIMED
  | P_copied l i _ =>
    idx_ok l i /\ exists s, zget ss i = Some s /\ state s = TLM_SLOT_CLAIMED /\ slot_text s = l
  end.

Definition procs_ok (ss : list tlm_slot) (ps : list producer) : Prop :=
  (forall k p, ps !! k = Some p -> proc_ok ss p) /\
  (forall k1 k2 p1 p2 i, ps !! k1 = Some p1 -> ps !! k2 = Some p2 ->
     p_slot p1 = Some i -> p_slot p2 = Some i -> k1 = k2).

Definition writer_ok (r : ring) : Prop :=
  match wr r with
  | W_store _ l => exists s, zget (g_slots r) (g_tail r mod TLM_RING_SLOTS) = Some s /\
                             state s = TLM_SLOT_FILLED /\ slot_text s = l
  | _ => True
  end.

Definition slots_ok (ss : list tlm_slot) : Prop :=
  zlen ss = TLM_RING_SLOTS /\ Forall slot_wf ss.

(** ** Counting lines *)

Definition cnt (x : line) (l : list line) : nat := count_occ (decide_rel (=)) l x.

Lemma cnt_app x a b : cnt x (a ++ b) = (cnt x a + cnt x b)%nat.
Proof. apply count_occ_app. Qed.

Lemma bind_insert {A} (f : A -> list line) x ls : forall i a b,
  ls !! i = Some a ->
  (cnt x (<[i := b]> ls ≫= f) + cnt x (f a) = cnt x (ls ≫= f) + cnt x (f b))%nat.
Proof.
  induction ls as [|c ls IH]; intros [|i] a b Hi; cbn in Hi; [done..| |].
  - injection Hi as ->. change (<[0%nat := b]> (a :: ls)) with (b :: ls).
    rewrite !bind_cons, !cnt_app. lia.
  - change (<[S i := b]> (c :: ls)) with (c :: <[i := b]> ls).
    rewrite !bind_cons, !cnt_app. specialize (IH i a b Hi). lia.
Qed.

(** [reserved] is where it went. *)
Definition conserved (r : ring) : Prop := forall x,
  cnt x (reserved r) = (cnt x (drained r) + cnt x (lost r) + cnt x (in_flight r)
                        + cnt x (in_slots r))%nat.

Definition counted (r : ring) : Prop :=
  0 <= g_dropped r /\ 0 <= foldr Z.add 0 (reported r) /\
  (zlen (lost r) < 18446744073709551616 ->
   foldr Z.add 0 (reported r) + g_dropped r = zlen (lost r)).

Record inv (r : ring) : Prop := {
  inv_slots : slots_ok (g_slots r);
  inv_procs : procs_ok (g_slots r) (procs r);
  inv_writer : writer_ok r;
  inv_lines : conserved r;
  inv_count : counted r;
}.

(** ** Preservation *)

Lemma zset_nat {A} (l r : list A) i x : zset l i x = Some r ->
  0 <= i < zlen l /\ r = <[Z.to_nat i := x]> l.
Proof. unfold zset. case_decide; [|done]. by intros [= <-]. Qed.

Lemma slots_ok_zset ss ss' i s : slots_ok ss -> slot_wf s -> zset ss i s = Some ss' -> slots_ok ss'.
Proof.
  intros [Hl Hw] Hs (Hi & ->)%zset_nat. split.
  - unfold zlen in *. by rewrite length_insert.
  - by apply Forall_insert.
Qed.

Lemma slots_ok_zget ss i s : slots_ok ss -> zget ss i = Some s -> slot_wf s.
Proof.
  intros [_ Hw] Hg. pose proof (zget_lt _ _ _ Hg). rewrite zget_to_nat in Hg by lia.
  by eapply Forall_lookup_1.
Qed.

(** One producer moves and one slot changes, a slot no other producer holds. *)
Lemma procs_ok_move ss ss' ps k p p' i s :
  procs_ok ss ps -> ps !! k = Some p -> zset ss i s = Some ss' ->
  (forall k' q, k' <> k -> ps !! k' = Some q -> p_slot q <> Some i) ->
  proc_ok ss' p' -> (p_slot p' = None \/ p_slot p' = Some i) ->
  procs_ok ss' (<[k := p']> ps).
Proof.
  intros [Ha Hu] Hk Hz Hno Hp' Hs. apply zset_inv in Hz as (_ & _ & Hg). split.
  - intros k' q [[-> [<- _]]|[Hne Hq]]%list_lookup_insert_Some; [done|].
    specialize (Ha _ _ Hq). specialize (Hno _ _ (not_eq_sym Hne) Hq). destruct q; try done;
      cbn in *; rewrite Hg, decide_False by congruence; done.
  - intros k1 k2 p1 p2 j [[-> [<- _]]|[Hn1 H1]]%list_lookup_insert_Some
      [[-> [<- _]]|[Hn2 H2]]%list_lookup_insert_Some Hj1 Hj2; [done| | |by eauto].
    + exfalso. destruct Hs as [Hs|Hs]; rewrite Hs in Hj1; [done|].
      apply (Hno _ _ (not_eq_sym Hn2) H2). congruence.
    + exfalso. destruct Hs as [Hs|Hs]; rewrite Hs in Hj2; [done|].
      apply (Hno _ _ (not_eq_sym Hn1) H1). congruence.
Qed.

(** A move of one producer that changes no slot and takes none. *)
Lemma procs_ok_stay ss ps k p p' :
  procs_ok ss ps -> ps !! k = Some p -> proc_ok ss p' -> p_slot p' = None ->
  procs_ok ss (<[k := p']> ps).
Proof.
  intros [Ha Hu] Hk Hp' Hs. split.
  - intros k' q [[-> [<- _]]|[Hne Hq]]%list_lookup_insert_Some; [done|by eauto].
  - intros k1 k2 p1 p2 j [[-> [<- _]]|[Hn1 H1]]%list_lookup_insert_Some
      [[-> [<- _]]|[Hn2 H2]]%list_lookup_insert_Some Hj1 Hj2; [done|congruence|congruence|by eauto].
Qed.

(** Only a CLAIMED slot is held; the holder is the only one. *)
Lemma not_held ss ps i s : procs_ok ss ps -> zget ss i = Some s -> state s <> TLM_SLOT_CLAIMED ->
  forall k q, ps !! k = Some q -> p_slot q <> Some i.
Proof.
  intros [Ha _] Hg Hs k q Hq Hi. specialize (Ha _ _ Hq).
  destruct q; try done; cbn in Hi; injection Hi as ->; cbn in Ha; naive_solver.
Qed.

Lemma held_once ss ps k p i : procs_ok ss ps -> ps !! k = Some p -> p_slot p = Some i ->
  forall k' q, k' <> k -> ps !! k' = Some q -> p_slot q <> Some i.
Proof. intros [_ Hu] Hk Hi k' q Hne Hq Hi'. apply Hne. by eapply Hu. Qed.

Lemma mem_next {A} (o : option A) k r : mem o k = Next r -> exists x, o = Some x /\ k x = Next r.
Proof. destruct o; cbn; [eauto|done]. Qed.

(** Splitting the premise [op r = Next r'] of a preservation lemma. *)
Ltac next_inv H :=
  repeat first
    [ apply mem_next in H as (? & ? & H)
    | match type of H with (match ?x with _ => _ end) = _ =>
        destruct x eqn:?; try discriminate H end ];
  try (injection H as <-); simplify_eq.

(** The count of every line after producer [k] moved to [p'] (and slot [i]
    changed to [s']). *)
Ltac count_lines :=
  let x := fresh "x" in intros x;
  repeat match goal with
  | H : conserved _ |- _ => specialize (H x); unfold in_flight, in_slots in H
  end;
  repeat match goal with
  | H : procs ?r !! ?k = Some ?p |- context [<[?k := ?p']> (procs ?r)] =>
    pose proof (bind_insert p_line x (procs r) k p p' H); clear H
  | H : g_slots ?r !! ?k = Some ?p |- context [<[?k := ?p']> (g_slots ?r)] =>
    pose proof (bind_insert slot_line x (g_slots r) k p p' H); clear H
  end;
  repeat match goal with H : slot_line _ = _ |- _ => rewrite H in *; clear H end;
  unfold in_flight, in_slots; cbn [procs g_slots reserved drained lost upd_field p_line];
  rewrite ?cnt_app; cbn [p_line] in *; change (cnt x []) with 0%nat in *; lia.

Lemma reserve_inv r k l r' : inv r -> reserve r k l = Next r' -> inv r'.
Proof.
  intros [Hss Hps Hw Hl Hc] H. unfold reserve in H. next_inv H. split; try done.
  - cbn. eapply procs_ok_stay; [done|done| |done]. split; [|done].
    apply Z.mod_pos_bound. reflexivity.
  - count_lines.
Qed.

Lemma load_inv r k r' : inv r -> load r k = Next r' -> inv r'.
Proof.
  intros [Hss Hps Hw Hl Hc] H. unfold load in H. next_inv H. split; try done.
  - cbn. eapply procs_ok_stay; [done|done| |by case_decide].
    case_decide; [done|]. destruct Hps as [Ha _]. by apply (Ha _ _ Heqo).
  - case_decide; count_lines.
Qed.

Lemma drop_inv r k r' : inv r -> drop_line r k = Next r' -> inv r'.
Proof.
  intros [Hss Hps Hw Hl Hc] H. unfold drop_line in H. next_inv H. split; try done.
  - cbn. by eapply procs_ok_stay.
  - count_lines.
  - unfold counted in *. cbn. rewrite zlen_app. change (zlen [l]) with 1.
    pose proof (u64_range (g_dropped r + 1)). destruct Hc as (H0 & Hr & Hc).
    split_and!; [lia|done|]. intros Hlt. specialize (Hc ltac:(lia)). rewrite u64_small; lia.
Qed.

(** The slot a producer is about to change, before and after. *)
Lemma slot_change r i s s' ss : slots_ok (g_slots r) -> slot_wf s' ->
  zget (g_slots r) i = Some s -> zset (g_slots r) i s' = Some ss ->
  slots_ok ss /\ ss = <[Z.to_nat i := s']> (g_slots r) /\
  g_slots r !! Z.to_nat i = Some s /\ zget ss i = Some s'.
Proof.
  intros Hss Hs' Hg Hz. split; [by eapply slots_ok_zset|].
  pose proof (zset_inv _ _ _ _ Hz) as (Hi & _ & Hget). rewrite Hget, decide_True by done.
  apply zset_nat in Hz as (_ & ->). split_and!; [done| |done].
  by rewrite <- zget_to_nat by lia.
Qed.

(** The writer's slot is FILLED, so no producer's change concerns it. *)
Lemma writer_ok_keep r ss i s s' : writer_ok r -> zget (g_slots r) i = Some s ->
  state s <> TLM_SLOT_FILLED -> zset (g_slots r) i s' = Some ss ->
  forall ps, writer_ok (r <| g_slots := ss |> <| procs := ps |>).
Proof.
  unfold writer_ok. cbn. intros Hw Hg Hs Hz ps. destruct (wr r); try done.
  destruct Hw as (s0 & Hs0 & Hf & Ht). exists s0. split; [|done].
  apply zset_inv in Hz as (_ & _ & Hget). rewrite Hget, decide_False; [done|].
  intros E. rewrite E in Hs0. congruence.
Qed.

Lemma claim_inv r k r' : inv r -> claim r k = Next r' -> inv r'.
Proof.
  intros [Hss Hps Hw Hl Hc] H. unfold claim in H.
  destruct (procs r !! k) as [[| |l i pos| | |]|] eqn:Hk; try done.
  apply mem_next in H as (s & Hg & H). destruct (decide _) as [Hs|Hs].
  - apply mem_next in H as (ss & Hz & H). injection H as <-.
    destruct (slot_change r i s (s <| state := TLM_SLOT_CLAIMED |>) ss)
      as (Hss' & Ess & Hlk & Hg'); [done|by apply (slots_ok_zget _ _ _ Hss Hg)|done..|].
    split; cbn; try done.
    + eapply procs_ok_move; [done|done|done| | |by right].
      * intros k' q _. eapply not_held; [done|done|congruence].
      * split; [by apply (proj1 Hps _ _ Hk)|]. by eexists.
    + eapply writer_ok_keep; [done|done|congruence|done].
    + rewrite Ess. assert (slot_line s = []) by (unfold slot_line; by rewrite decide_False by congruence).
      assert (slot_line (s <| state := TLM_SLOT_CLAIMED |>) = []) by done. count_lines.
  - injection H as <-. split; try done; cbn; [by eapply procs_ok_stay|]. count_lines.
Qed.

Lemma blit_text (b0 b l : list Z) : zlen b0 = TLM_SLOT_CAP -> zlen l < TLM_SLOT_CAP -> blit b0 0 l = Some b ->
  zlen b = TLM_SLOT_CAP /\ take (Z.to_nat (u16 (zlen l))) b = l.
Proof.
  unfold TLM_SLOT_CAP. intros Hb Hl H. pose proof (blit_inv _ _ _ _ H) as (_ & _ & Hz & _).
  pose proof (zlen_nonneg l). split; [lia|]. rewrite u16_small by lia.
  unfold blit in H. case_decide; [|done]. injection H as <-. change (take (Z.to_nat 0) b0) with (@nil Z). cbn [app].
  apply take_app_length'. unfold zlen. lia.
Qed.

Lemma copy_inv r k r' : inv r -> copy r k = Next r' -> inv r'.
Proof.
  intros [Hss Hps Hw Hl Hc] H. unfold copy in H.
  destruct (procs r !! k) as [[| | |l i pos| |]|] eqn:Hk; try done.
  apply mem_next in H as (s & Hg & H). apply mem_next in H as (b & Hb & H).
  apply mem_next in H as (ss & Hz & H). injection H as <-.
  pose proof (proj1 Hps _ _ Hk) as (Hidx & s0 & Hg0 & Hs). rewrite Hg in Hg0. injection Hg0 as <-.
  pose proof (slots_ok_zget _ _ _ Hss Hg) as [Hbl Hln].
  destruct (blit_text _ _ _ Hbl (proj2 Hidx) Hb) as [Hbz Htxt].
  set (s' := s <| buf := b |> <| len := u16 (zlen l) |>) in *.
  destruct (slot_change r i s s' ss) as (Hss' & Ess & Hlk & Hg'); [done| |done..|].
  { split; [done|]. pose proof (zlen_nonneg l). cbn. destruct Hidx.
    unfold TLM_SLOT_CAP in *. rewrite u16_small; lia. }
  split; cbn; try done.
  - eapply procs_ok_move; [done|done|done| | |by right].
    + eapply held_once; [done|done|done].
    + split; [done|]. by exists s'.
  - eapply writer_ok_keep; [done|done|congruence|done].
  - rewrite Ess. assert (slot_line s = []) by (unfold slot_line; by rewrite decide_False by congruence).
    assert (slot_line s' = []) by (unfold slot_line; cbn; by rewrite decide_False by congruence).
    count_lines.
Qed.

Lemma fill_inv r k r' : inv r -> fill r k = Next r' -> inv r'.
Proof.
  intros [Hss Hps Hw Hl Hc] H. unfold fill in H.
  destruct (procs r !! k) as [[| | | |l i pos|]|] eqn:Hk; try done.
  apply mem_next in H as (s & Hg & H). apply mem_next in H as (ss & Hz & H). injection H as <-.
  pose proof (proj1 Hps _ _ Hk) as (Hidx & s0 & Hg0 & Hs & Ht). rewrite Hg in Hg0. injection Hg0 as <-.
  destruct (slot_change r i s (s <| state := TLM_SLOT_FILLED |>) ss)
    as (Hss' & Ess & Hlk & Hg'); [done|by apply (slots_ok_zget _ _ _ Hss Hg)|done..|].
  split; cbn; try done.
  - eapply procs_ok_move; [done|done|done|eapply held_once; done|done|by left].
  - eapply writer_ok_keep; [done|done|congruence|done].
  - rewrite Ess. assert (slot_line s = []) by (unfold slot_line; by rewrite decide_False by congruence).
    assert (slot_line (s <| state := TLM_SLOT_FILLED |>) = [l]) by (unfold slot_line; cbn; by f_equal).
    count_lines.
Qed.

(** *** The writer's actions *)

Lemma scan_inv r r' : inv r -> scan r = Next r' -> inv r'.
Proof.
  intros [Hss Hps Hw Hl Hc] H. unfold scan in H. destruct (wr r); try done.
  destruct (decide _); [injection H as <-; by split|].
  apply mem_next in H as (s & Hg & H).
  destruct (decide _) as [|Hf]; [injection H as <-; by split|].
  apply mem_next in H as (l & Hs & H). injection H as <-. split; try done.
  unfold writer_ok. cbn. exists s. split; [done|].
  assert (state s = TLM_SLOT_FILLED) by (destruct (decide (state s = TLM_SLOT_FILLED)); tauto).
  split; [done|]. pose proof (slots_ok_zget _ _ _ Hss Hg) as [Hbl Hln].
  unfold slot_text. rewrite slice_take in Hs by lia. congruence.
Qed.

Lemma free_inv r r' : inv r -> free_slot r = Next r' -> inv r'.
Proof.
  intros [Hss Hps Hw Hl Hc] H. unfold free_slot in H. destruct (wr r) as [|h|h l| |] eqn:Hwr; try done.
  apply mem_next in H as (s & Hg & H). apply mem_next in H as (ss & Hz & H). injection H as <-.
  unfold writer_ok in Hw. rewrite Hwr in Hw. destruct Hw as (s0 & Hg0 & Hf & Ht).
  rewrite Hg in Hg0. injection Hg0 as <-.
  destruct (slot_change r (g_tail r mod TLM_RING_SLOTS) s (s <| state := TLM_SLOT_EMPTY |>) ss)
    as (Hss' & Ess & Hlk & Hg'); [done|by apply (slots_ok_zget _ _ _ Hss Hg)|done..|].
  split; cbn; try done.
  - apply zset_inv in Hz as (_ & _ & Hget). pose proof (not_held _ _ _ _ Hps Hg) as Hno.
    destruct Hps as [Ha Hu]. split; [|done]. intros k q Hq. specialize (Ha _ _ Hq).
    assert (Hne : p_slot q <> Some (g_tail r mod TLM_RING_SLOTS)) by (apply (Hno ltac:(congruence) _ _ Hq)).
    destruct q; try done; cbn in *; rewrite Hget, decide_False by congruence; done.
  - rewrite Ess. assert (slot_line s = [l]) by (unfold slot_line; by rewrite decide_True, Ht).
    assert (slot_line (s <| state := TLM_SLOT_EMPTY |>) = []) by done. count_lines.
Qed.

Lemma report_inv r r' : inv r -> report r = Next r' -> inv r'.
Proof.
  intros [Hss Hps Hw Hl Hc] H. unfold report in H. destruct (wr r); try done.
  injection H as <-. split; try done. unfold writer_ok. cbn. by case_decide.
Qed.

Lemma swap_inv r r' : inv r -> swap r = Next r' -> inv r'.
Proof.
  intros [Hss Hps Hw Hl Hc] H. unfold swap in H. destruct (wr r); try done.
  injection H as <-. case_decide as Hd; split; try done.
  destruct Hc as (H0 & Hr & Hc). unfold counted. cbn. rewrite foldr_app. cbn [foldr].
  assert (Hf : forall d ds, foldr Z.add (d + 0) ds = d + foldr Z.add 0 ds)
    by (intros d; induction ds; cbn; lia).
  rewrite Hf. lia.
Qed.

Lemma take_head_inv r r' : inv r -> take_head r = Next r' -> inv r'.
Proof.
  intros [Hss Hps Hw Hl Hc] H. unfold take_head in H. destruct (wr r); try done.
  injection H as <-. by split.
Qed.

Lemma act_inv a r r' : inv r -> act a r = Next r' -> inv r'.
Proof.
  intros Hi. destruct a; cbn [act]; intros H.
  - exact (reserve_inv _ _ _ _ Hi H).
  - exact (load_inv _ _ _ Hi H).
  - exact (drop_inv _ _ _ Hi H).
  - exact (claim_inv _ _ _ Hi H).
  - exact (copy_inv _ _ _ Hi H).
  - exact (fill_inv _ _ _ Hi H).
  - exact (take_head_inv _ _ Hi H).
  - exact (scan_inv _ _ Hi H).
  - exact (free_inv _ _ Hi H).
  - exact (report_inv _ _ Hi H).
  - exact (swap_inv _ _ Hi H).
Qed.

(** No action of a reachable state leaves a buffer. *)
Lemma mem_ok {A} (o : option A) k : is_Some o -> (forall x, o = Some x -> k x <> Fault) ->
  mem o k <> Fault.
Proof. intros [x ->] H. by apply H. Qed.

Lemma slot_is_Some r i : slots_ok (g_slots r) -> 0 <= i < TLM_RING_SLOTS -> is_Some (zget (g_slots r) i).
Proof. intros [Hl _] Hi. apply zget_is_Some. lia. Qed.

Lemma zset_is_Some {A} (l : list A) i y x : zget l i = Some y -> is_Some (zset l i x).
Proof. intros H%zget_lt. rewrite zset_ok by done. by eexists. Qed.

Lemma act_no_fault a r : inv r -> act a r <> Fault.
Proof.
  intros [Hss Hps Hw _ _].
  assert (Hidx : forall k p, procs r !! k = Some p -> proc_ok (g_slots r) p) by apply Hps.
  pose proof (Z.mod_pos_bound (g_tail r) TLM_RING_SLOTS ltac:(reflexivity)) as Ht.
  destruct a as [k l|k|k|k|k|k| | | | |]; cbn [act];
    unfold reserve, load, drop_line, claim, copy, fill, take_head, scan, free_slot, report, swap.
  all: try (destruct (procs r !! k) as [[]|] eqn:Hk; try done; specialize (Hidx _ _ Hk)).
  all: try match goal with |- context [wr ?x] => destruct (wr x) eqn:Hwr; try done end.
  all: repeat case_decide; try done.
  all: try (apply mem_ok; [apply slot_is_Some; [done|first [exact Ht | apply Hidx]]|];
            intros s Hg).
  all: try done; try case_decide; try done.
  all: try (apply mem_ok; [by eapply zset_is_Some|]; done).
  - apply mem_ok.
    + destruct (blit_ok (buf s) l 0) as [b ->]; [done| |by eexists].
      pose proof (slots_ok_zget _ _ _ Hss Hg) as [-> _]. destruct Hidx as [[_ Hlt] _]. lia.
    + intros b _. apply mem_ok; [by eapply zset_is_Some|done].
  - apply mem_ok; [|done]. pose proof (slots_ok_zget _ _ _ Hss Hg) as [Hbl Hln].
    rewrite slice_take by lia. by eexists.
Qed.

Lemma bind_replicate_nil {A B} (f : A -> list B) a n : f a = [] -> replicate n a ≫= f = [].
Proof. intros Hf. induction n as [|n IH]; [done|]. cbn [replicate]. by rewrite bind_cons, Hf. Qed.

Lemma ring_init_inv n : inv (ring_init n).
Proof.
  assert (Hidle : forall k p, replicate n P_idle !! k = Some p -> p = P_idle)
    by (intros k p [? _]%lookup_replicate; done).
  split; unfold writer_ok, counted; cbn [g_slots procs wr reported g_dropped lost ring_init].
  - split; [by rewrite zlen_replicate|]. apply Forall_replicate.
    split; [vm_compute; reflexivity|vm_compute; split; discriminate].
  - split; [by intros k p ->%Hidle|]. by intros k1 k2 p1 p2 i ->%Hidle _ ?.
  - done.
  - intros x. unfold in_flight, in_slots. cbn [procs g_slots ring_init].
    by rewrite !bind_replicate_nil.
  - split_and!; cbn; done.
Qed.

Lemma reach_inv n r : star step (ring_init n) r -> inv r.
Proof.
  intros Hs. eapply star_invariant; [|exact Hs|apply ring_init_inv].
  intros s s' Hi [a Ha]. by eapply act_inv.
Qed.

(** What the writer has passed to the sinks: the drained lines and the one
    being written. *)
Definition written (r : ring) : list line :=
  drained r ++ match wr r with W_store _ l => [l] | _ => [] end.

(** C5. The telemetry ring neither invents, duplicates nor silently loses a
    line, for any number of threads and any interleaving of their atomic
    accesses, also when producers overrun the writer: no access leaves a buffer
    in any reachable state; the lines reserved are, as a multiset, exactly those
    drained, those dropped, those of producers still inside the call and those
    waiting in slots; every line given to the sinks is one of these; and every
    drop is counted once, in a reported notice or in the pending counter. *)
Theorem tlm_ring_conserves n r :
  star step (ring_init n) r ->
  (forall a, act a r <> Fault) /\
  Permutation (reserved r) (drained r ++ lost r ++ in_flight r ++ in_slots r) /\
  (forall l, l ∈ written r -> l ∈ reserved r) /\
  (zlen (lost r) < 18446744073709551616 ->
   foldr Z.add 0 (reported r) + g_dropped r = zlen (lost r)).
Proof.
  intros Hs%reach_inv. assert (Hp : Permutation (reserved r)
    (drained r ++ lost r ++ in_flight r ++ in_slots r)).
  { apply (Permutation_count_occ (decide_rel (=))). intros x.
    pose proof (inv_lines _ Hs x) as Hx. unfold cnt in Hx. rewrite !count_occ_app. lia. }
  split_and!; [by intros a; apply act_no_fault|done| |apply (inv_count _ Hs)].
  intros l Hl. rewrite Hp. unfold written in Hl. apply elem_of_app in Hl as [Hl|Hl]; [set_solver|].
  pose proof (inv_writer _ Hs) as Hw. unfold writer_ok in Hw.
  destruct (wr r) as [| |h l'| |]; try (by apply not_elem_of_nil in Hl).
  apply list_elem_of_singleton in Hl as ->. destruct Hw as (s & Hg & Hst & Ht).
  assert (l' ∈ in_slots r); [|set_solver]. unfold in_slots. apply list_elem_of_bind.
  exists s. split; [unfold slot_line; rewrite decide_True by done; set_solver|].
  pose proof (zget_lt _ _ _ Hg). rewrite zget_to_nat in Hg by lia.
  by eapply list_elem_of_lookup_2.
Qed.

Lemma run_star acts : forall r r', run acts r = Next r' -> star step r r'.
Proof.
  induction acts as [|a acts IH]; intros r r' H; cbn [run] in H.
  - injection H as <-. apply star_refl.
  - destruct (act a r) as [| |r1] eqn:Ha; try done.
    eapply star_step; [by exists a|by apply IH].
Qed.

(** Two producers, interleaved, and the writer. *)
Definition demo_acts : list action :=
  [A_reserve 0 [1; 10]; A_reserve 1 [2; 10]; A_load 1; A_claim 1; A_load 0; A_copy 1; A_claim 0;
   A_head; A_scan; A_report; A_fill 1; A_copy 0; A_fill 0; A_head; A_scan; A_free; A_scan].

Definition next_or (o : outcome) (r0 : ring) : ring :=
  match o with Next r => r | _ => r0 end.

Definition is_next (o : outcome) : bool := match o with Next _ => true | _ => false end.

Lemma is_next_or o r0 : is_next o = true -> o = Next (next_or o r0).
Proof. by destruct o. Qed.

Definition demo_end : ring := next_or (run demo_acts (ring_init 2)) (ring_init 0).

Lemma demo_runs : run demo_acts (ring_init 2) = Next demo_end.
Proof. apply is_next_or. vm_compute. reflexivity. Qed.

Lemma tlm_ring_conserves_witness :
  written demo_end = [[1; 10]; [2; 10]] /\
  Permutation (reserved demo_end)
    (drained demo_end ++ lost demo_end ++ in_flight demo_end ++ in_slots demo_end).
Proof.
  split; [vm_compute; reflexivity|].
  apply (tlm_ring_conserves 2 demo_end). apply (run_star demo_acts). exact demo_runs.
Defined.

End Ring.
