(* ===== verification/TlmFifo.v ===== *)
(** * The telemetry ring without overrun is a queue

    While at most a ring's worth of lines is reserved and not drained, the
    protocol of [TlmRing] drops nothing and drains in reservation order. The
    invariant places every undrained reservation: with the producer that made
    it, or in the slot of its position. *)

From S2P Require Import Prelude Telemetry TlmRing.
Import Tlm Ring.

#[local] Open Scope Z_scope.

Module Fifo.

Abbreviation N := TLM_RING_SLOTS (only parsing).

(** Position, slot and line of a reservation in progress, and the state its
    slot must be in. *)
Definition p_at (p : producer) : option (Z * Z * list Z * slot_state) :=
  match p with
  | P_reserved l i pos | P_checked l i pos => Some (pos, i, l, TLM_SLOT_EMPTY)
  | P_claimed l i pos | P_copied l i pos => Some (pos, i, l, TLM_SLOT_CLAIMED)
  | P_idle | P_dropping _ => None
  end.

Definition stage (ss : list tlm_slot) (ps : list producer) (res : list (list Z)) (pos : Z) : Prop :=
  exists s, zget ss (pos mod N) = Some s /\
    ((state s = TLM_SLOT_FILLED /\ zget res pos = Some (slot_text s)) \/
     (exists k p l, ps !! k = Some p /\ p_at p = Some (pos, pos mod N, l, state s) /\
        zget res pos = Some l)).

Record window_ok (ss : list tlm_slot) (ps : list producer) (tp : Z) (res : list (list Z)) : Prop := {
  win_bound : 0 <= tp <= zlen res /\ zlen res - tp <= N;
  win_stage : forall pos, tp <= pos < zlen res -> stage ss ps res pos;
  win_proc : forall k p pos i l st, ps !! k = Some p -> p_at p = Some (pos, i, l, st) ->
    tp <= pos < zlen res /\ i = pos mod N /\ zget res pos = Some l /\
    exists s, zget ss i = Some s /\ state s = st;
  win_uniq : forall k1 k2 p1 p2 pos i1 i2 l1 l2 s1 s2, ps !! k1 = Some p1 -> ps !! k2 = Some p2 ->
    p_at p1 = Some (pos, i1, l1, s1) -> p_at p2 = Some (pos, i2, l2, s2) -> k1 = k2;
  win_empty : forall i s, zget ss i = Some s -> state s <> TLM_SLOT_EMPTY ->
    exists pos, tp <= pos < zlen res /\ i = pos mod N;
  win_nodrop : forall k l, ps !! k <> Some (P_dropping l);
}.

Definition writer_at (r : ring) : Prop :=
  match wr r with
  | W_inner h => exists hp, h = u32 hp /\ zlen (drained r) <= hp <= zlen (reserved r)
  | W_store h _ => exists hp, h = u32 hp /\ zlen (drained r) < hp <= zlen (reserved r)
  | _ => True
  end.

Record fifo (r : ring) : Prop := {
  fifo_lost : lost r = [];
  fifo_head : g_head r = u32 (zlen (reserved r));
  fifo_tail : g_tail r = u32 (zlen (drained r));
  fifo_drained : drained r = take (length (drained r)) (reserved r);
  fifo_win : window_ok (g_slots r) (procs r) (zlen (drained r)) (reserved r);
  fifo_writer : writer_at r;
}.

Lemma u32_mod_N x : u32 x mod N = x mod N.
Proof.
  unfold u32, TLM_RING_SLOTS. apply Z.mod_mod_divide. by exists 262144.
Qed.

(** Positions of one window have slots of their own. *)
Lemma mod_window a b lo : lo <= a < lo + N -> lo <= b < lo + N -> a mod N = b mod N -> a = b.
Proof.
  unfold TLM_RING_SLOTS. intros Ha Hb Hm.
  pose proof (Z.div_mod a 16384 ltac:(lia)). pose proof (Z.div_mod b 16384 ltac:(lia)).
  pose proof (Z.mod_pos_bound a 16384 ltac:(lia)). assert (a / 16384 = b / 16384) by lia. lia.
Qed.

Lemma zget_snoc_old {A} (l : list A) x i y : zget l i = Some y -> zget (l ++ [x]) i = Some y.
Proof. intros H. pose proof (zget_lt _ _ _ H). by rewrite zget_app_l by lia. Qed.

(** ** One producer advances at its position *)

Lemma window_advance ss ss' ps tp res k p p' pos i l st s' :
  window_ok ss ps tp res -> ps !! k = Some p -> p_at p = Some (pos, i, l, st) ->
  zset ss i s' = Some ss' ->
  (p_at p' = Some (pos, i, l, state s') \/
   p_at p' = None /\ state s' = TLM_SLOT_FILLED /\ slot_text s' = l) ->
  (forall l', p' <> P_dropping l') ->
  window_ok ss' (<[k := p']> ps) tp res.
Proof.
  intros [Hb Hst Hp Hu He Hn] Hk Hat Hz Hp' Hnd.
  destruct (Hp _ _ _ _ _ _ Hk Hat) as (Hpos & Hi & Hl & s & Hg & Hs).
  apply zset_inv in Hz as (_ & _ & Hget).
  assert (Hother : forall q, tp <= q < zlen res -> q <> pos -> zget ss' (q mod N) = zget ss (q mod N)).
  { intros q Hq Hne. rewrite Hget, decide_False; [done|]. intros Heq. apply Hne.
    apply (mod_window q pos tp); [lia|lia|congruence]. }
  assert (Hhere : zget ss' (pos mod N) = Some s') by (rewrite Hget, decide_True; done).
  split.
  - done.
  - intros q Hq. destruct (decide (q = pos)) as [->|Hne].
    + exists s'. split; [done|]. destruct Hp' as [Ha|(Ha & Hf & Ht)]; [right|left; by rewrite Ht].
      exists k, p', l. rewrite list_lookup_insert_eq by (by eapply lookup_lt_Some). subst i. done.
    + destruct (Hst q Hq) as (s0 & Hg0 & Hd). exists s0. rewrite Hother by done. split; [done|].
      destruct Hd as [?|(k' & q' & l' & Hk' & Ha' & Hl')]; [by left|right].
      exists k', q', l'. rewrite list_lookup_insert_ne; [done|]. intros <-. rewrite Hk in Hk'.
      injection Hk' as <-. rewrite Hat in Ha'. congruence.
  - intros k' q qpos j lq sq [[-> [<- _]]|[Hne Hq]]%list_lookup_insert_Some Ha.
    + destruct Hp' as [Hp'|(Hp' & _)]; rewrite Hp' in Ha; [|done]. injection Ha as <- <- <- <-.
      split_and!; [lia..|done|done|]. exists s'. by rewrite Hi.
    + destruct (Hp _ _ _ _ _ _ Hq Ha) as (Hq1 & -> & Hq2 & sq' & Hq3 & Hq4).
      split_and!; [lia..|done|done|]. exists sq'. split; [|done]. rewrite Hother; [done|done|].
      intros ->. apply Hne. by eapply Hu.
  - intros k1 k2 p1 p2 q i1 i2 l1 l2 s1 s2
      [[-> [<- _]]|[Hn1 H1]]%list_lookup_insert_Some
      [[-> [<- _]]|[Hn2 H2]]%list_lookup_insert_Some Ha1 Ha2; [done| | |by eapply Hu].
    + destruct Hp' as [Hp'|(Hp' & _)]; rewrite Hp' in Ha1; [|done]. injection Ha1 as <- _ _ _.
      by eapply Hu.
    + destruct Hp' as [Hp'|(Hp' & _)]; rewrite Hp' in Ha2; [|done]. injection Ha2 as <- _ _ _.
      by eapply Hu.
  - intros j sj Hj Hne. rewrite Hget in Hj. case_decide as Hji.
    + exists pos. split; [done|congruence].
    + by eapply He.
  - intros k' l' [[-> [Hd _]]|[_ Hd]]%list_lookup_insert_Some; [by eapply Hnd|by eapply Hn].
Qed.

(** ** A reservation extends the window, a drain shortens it *)

Lemma window_reserve ss ps tp res k l :
  zlen ss = N -> window_ok ss ps tp res -> ps !! k = Some P_idle -> zlen res + 1 - tp <= N ->
  window_ok ss (<[k := P_reserved l (zlen res mod N) (zlen res)]> ps) tp (res ++ [l]).
Proof.
  intros Hlen [Hb Hst Hp Hu He Hn] Hk Hlap.
  assert (Hz1 : zlen (res ++ [l]) = zlen res + 1) by (rewrite zlen_app; done).
  assert (Hnew : zget (res ++ [l]) (zlen res) = Some l) by (rewrite zget_here; done).
  pose proof (Z.mod_pos_bound (zlen res) N ltac:(reflexivity)) as Hm.
  destruct (zget_is_Some ss (zlen res mod N)) as [s Hs]; [lia|].
  assert (Hempty : state s = TLM_SLOT_EMPTY).
  { destruct (decide (state s = TLM_SLOT_EMPTY)) as [|Hne]; [done|exfalso].
    destruct (He _ _ Hs Hne) as (q & Hq & Heq).
    pose proof (mod_window (zlen res) q tp ltac:(lia) ltac:(lia) Heq). lia. }
  split.
  - lia.
  - intros q Hq. destruct (decide (q = zlen res)) as [->|Hne].
    + exists s. split; [done|]. right. exists k, (P_reserved l (zlen res mod N) (zlen res)), l.
      rewrite list_lookup_insert_eq by (by eapply lookup_lt_Some).
      split_and!; [done|cbn; by rewrite Hempty|done].
    + destruct (Hst q ltac:(lia)) as (s0 & Hg0 & Hd). exists s0. split; [done|].
      destruct Hd as [[? ?]|(k' & q' & l' & Hk' & Ha' & Hl')];
        [left; split; [done|by apply zget_snoc_old]|right].
      exists k', q', l'. rewrite list_lookup_insert_ne; [split_and!; [done..|by apply zget_snoc_old]|].
      intros <-. rewrite Hk in Hk'. by injection Hk' as <-.
  - intros k' q qpos j lq sq [[-> [<- _]]|[Hne Hq]]%list_lookup_insert_Some Ha.
    + cbn in Ha. injection Ha as <- <- <- <-. split_and!; [lia..|done|done|by eexists].
    + destruct (Hp _ _ _ _ _ _ Hq Ha) as (? & -> & ? & ?).
      split_and!; [lia..|done|by apply zget_snoc_old|done].
  - intros k1 k2 p1 p2 q i1 i2 l1 l2 s1 s2
      [[-> [<- _]]|[Hn1 H1]]%list_lookup_insert_Some
      [[-> [<- _]]|[Hn2 H2]]%list_lookup_insert_Some Ha1 Ha2; [done| | |by eapply Hu];
      exfalso; cbn in *.
    + injection Ha1 as <- _ _ _. apply (Hp _ _ _ _ _ _ H2) in Ha2. lia.
    + injection Ha2 as <- _ _ _. apply (Hp _ _ _ _ _ _ H1) in Ha1. lia.
  - intros j sj Hj Hne. destruct (He _ _ Hj Hne) as (q & Hq & ->). exists q. split; [lia|done].
  - intros k' l' [[_ [Hd _]]|[_ Hd]]%list_lookup_insert_Some; [done|by eapply Hn].
Qed.

(** A position whose slot is FILLED has no producer left. *)
Lemma filled_free ss ps tp res pos s : window_ok ss ps tp res -> tp <= pos < zlen res ->
  zget ss (pos mod N) = Some s -> state s = TLM_SLOT_FILLED ->
  zget res pos = Some (slot_text s) /\
  forall k p i l st, ps !! k = Some p -> p_at p <> Some (pos, i, l, st).
Proof.
  intros [Hb Hst Hp Hu He Hn] Hpos Hg Hf.
  assert (Hno : forall k p i l st, ps !! k = Some p -> p_at p <> Some (pos, i, l, st)).
  { intros k p i l st Hk Ha. destruct (Hp _ _ _ _ _ _ Hk Ha) as (_ & -> & _ & s' & Hg' & Hs').
    rewrite Hg in Hg'. injection Hg' as <-. destruct p; cbn in Ha; congruence. }
  split; [|done]. destruct (Hst pos Hpos) as (s0 & Hg0 & [[_ Hl]|(k & p & l & Hk & Ha & _)]).
  - congruence.
  - exfalso. by apply (Hno _ _ _ _ _ Hk Ha).
Qed.

Lemma window_free ss ss' ps tp res s s' :
  window_ok ss ps tp res -> tp < zlen res ->
  zget ss (tp mod N) = Some s -> state s = TLM_SLOT_FILLED ->
  zset ss (tp mod N) s' = Some ss' -> state s' = TLM_SLOT_EMPTY ->
  window_ok ss' ps (tp + 1) res.
Proof.
  intros Hwin Htp Hg Hf Hz He'. destruct (filled_free _ _ _ _ tp s Hwin ltac:(lia) Hg Hf) as [_ Hno].
  destruct Hwin as [Hb Hst Hp Hu He Hn]. apply zset_inv in Hz as (_ & _ & Hget).
  assert (Hother : forall q, tp + 1 <= q < zlen res -> zget ss' (q mod N) = zget ss (q mod N)).
  { intros q Hq. rewrite Hget, decide_False; [done|]. intros Heq.
    pose proof (mod_window q tp tp ltac:(lia) ltac:(lia) Heq). lia. }
  split; [lia| | |done| |done].
  - intros q Hq. destruct (Hst q ltac:(lia)) as (s0 & Hg0 & Hd). exists s0. by rewrite Hother by done.
  - intros k p pos i l st Hk Ha. destruct (Hp _ _ _ _ _ _ Hk Ha) as (Hpos & -> & Hl & sp & Hsp & Hst').
    assert (pos <> tp) by (intros ->; by apply (Hno _ _ _ _ _ Hk Ha)).
    split_and!; [lia..|done|done|]. exists sp. by rewrite Hother by lia.
  - intros j sj Hj Hne. rewrite Hget in Hj. case_decide as Hji; [congruence|].
    destruct (He _ _ Hj Hne) as (q & Hq & ->). exists q. split; [|done].
    assert (q <> tp) by (by intros ->). lia.
Qed.

(** ** Every action keeps the queue *)

Ltac fifo_split H := destruct H as [Hlost Hhead Htail Hdr Hwin Hwr].

Lemma fifo_reserve r k l r' : inv r -> fifo r -> reserve r k l = Next r' ->
  zlen (reserved r') - zlen (drained r') <= N -> fifo r'.
Proof.
  intros Hi Hf H Hlap. fifo_split Hf. unfold reserve in H.
  destruct (procs r !! k) as [[]|] eqn:Hk; try done. case_decide; [|done]. injection H as <-.
  cbn in Hlap. rewrite zlen_app in Hlap. change (zlen [l]) with 1 in Hlap.
  split; cbn; [done| |done| | |].
  - rewrite zlen_app, Hhead. change (zlen [l]) with 1. wrap_lia.
  - rewrite take_app_le; [done|].
    pose proof (win_bound _ _ _ _ Hwin). unfold zlen in *. lia.
  - rewrite Hhead, u32_mod_N. apply window_reserve; [apply (inv_slots _ Hi)|done|done|lia].
  - unfold writer_at in *. cbn. destruct (wr r); try done; destruct Hwr as (hp & ? & ?);
      exists hp; rewrite zlen_app; change (zlen [l]) with 1; (split; [done|lia]).
Qed.

Lemma fifo_advance r k p p' pos i l st s' ss :
  fifo r -> procs r !! k = Some p -> p_at p = Some (pos, i, l, st) ->
  zset (g_slots r) i s' = Some ss ->
  (p_at p' = Some (pos, i, l, state s') \/
   p_at p' = None /\ state s' = TLM_SLOT_FILLED /\ slot_text s' = l) ->
  (forall l', p' <> P_dropping l') ->
  fifo (r <| g_slots := ss |> <| procs := <[k := p']> (procs r) |>).
Proof.
  intros Hf Hk Ha Hz Hp' Hnd. fifo_split Hf. split; try done. cbn.
  by eapply window_advance.
Qed.

Lemma zset_same {A} (l : list A) i x : zget l i = Some x -> zset l i x = Some l.
Proof.
  intros H. pose proof (zget_lt _ _ _ H). rewrite zset_ok by done. f_equal.
  apply list_insert_id. by rewrite <- zget_to_nat by lia.
Qed.

(** The slot of a producer, as its position requires. *)
Lemma producer_slot r k p pos i l st : fifo r -> procs r !! k = Some p ->
  p_at p = Some (pos, i, l, st) -> exists s, zget (g_slots r) i = Some s /\ state s = st.
Proof. intros Hf Hk Ha. fifo_split Hf. by apply (win_proc _ _ _ _ Hwin _ _ _ _ _ _ Hk Ha). Qed.

Lemma fifo_load r k r' : fifo r -> load r k = Next r' -> fifo r'.
Proof.
  intros Hf H. unfold load in H. destruct (procs r !! k) as [[|l i pos| | | |]|] eqn:Hk; try done.
  destruct (producer_slot _ _ _ _ _ _ _ Hf Hk eq_refl) as (s & Hg & Hs).
  rewrite Hg in H. cbn [mem] in H. rewrite decide_False in H by (intros Hne; by apply Hne).
  injection H as <-.
  exact (fifo_advance r k _ (P_checked l i pos) _ _ _ _ s _ Hf Hk eq_refl (zset_same _ _ _ Hg)
           (or_introl (f_equal (fun x => Some (pos, i, l, x)) (eq_sym Hs))) ltac:(done)).
Qed.

Lemma fifo_claim r k r' : fifo r -> claim r k = Next r' -> fifo r'.
Proof.
  intros Hf H. unfold claim in H. destruct (procs r !! k) as [[| |l i pos| | |]|] eqn:Hk; try done.
  destruct (producer_slot _ _ _ _ _ _ _ Hf Hk eq_refl) as (s & Hg & Hs).
  rewrite Hg in H. cbn [mem] in H. rewrite decide_True in H by done.
  apply mem_next in H as (ss & Hz & H). injection H as <-.
  eapply fifo_advance; [done|done|done|done|by left|done].
Qed.

Lemma fifo_copy r k r' : fifo r -> copy r k = Next r' -> fifo r'.
Proof.
  intros Hf H. unfold copy in H. destruct (procs r !! k) as [[| | |l i pos| |]|] eqn:Hk; try done.
  destruct (producer_slot _ _ _ _ _ _ _ Hf Hk eq_refl) as (s & Hg & Hs).
  rewrite Hg in H. cbn [mem] in H. apply mem_next in H as (b & Hb & H).
  apply mem_next in H as (ss & Hz & H). injection H as <-.
  eapply fifo_advance; [done|done|done|done| |done]. left. cbn. by rewrite Hs.
Qed.

Lemma fifo_fill r k r' : inv r -> fifo r -> fill r k = Next r' -> fifo r'.
Proof.
  intros Hi Hf H. unfold fill in H. destruct (procs r !! k) as [[| | | |l i pos|]|] eqn:Hk; try done.
  destruct (proj1 (inv_procs _ Hi) _ _ Hk) as (_ & s & Hg & _ & Ht).
  rewrite Hg in H. cbn [mem] in H. apply mem_next in H as (ss & Hz & H). injection H as <-.
  eapply fifo_advance; [done|done|done|done| |done]. by right.
Qed.

Lemma fifo_nodrop r k r' : fifo r -> drop_line r k <> Next r'.
Proof.
  intros Hf H. fifo_split Hf. unfold drop_line in H.
  destruct (procs r !! k) as [[]|] eqn:Hk; try done. by apply (win_nodrop _ _ _ _ Hwin) in Hk.
Qed.

(** The oldest undrained line is the one the writer takes. *)
Lemma fifo_free r r' : inv r -> fifo r -> free_slot r = Next r' -> fifo r'.
Proof.
  intros Hi Hf H. fifo_split Hf. unfold free_slot in H.
  pose proof (inv_writer _ Hi) as Hw. unfold writer_ok, writer_at in *.
  destruct (wr r) as [| |h l| |] eqn:Ew; try done.
  destruct Hw as (s & Hg & Hs & Ht), Hwr as (hp & Hh & Hhp).
  rewrite Hg in H. cbn [mem] in H. apply mem_next in H as (ss & Hz & H). injection H as <-.
  assert (Htm : g_tail r mod N = zlen (drained r) mod N) by (by rewrite Htail, u32_mod_N).
  rewrite Htm in Hg, Hz. pose proof (zlen_nonneg (drained r)).
  destruct (filled_free _ _ _ _ (zlen (drained r)) s Hwin ltac:(lia) Hg Hs) as [Hl _].
  assert (Hz1 : zlen (drained r ++ [l]) = zlen (drained r) + 1) by (rewrite zlen_app; done).
  split; unfold writer_at; cbn; rewrite ?Hz1; try done.
  - rewrite Htail. wrap_lia.
  - rewrite length_app, Nat.add_1_r. unfold zlen in Hl. rewrite zget_nat in Hl.
    erewrite take_S_r by (rewrite Hl, Ht; done). by rewrite <- Hdr.
  - eapply window_free; [done|lia|done|done|done|done].
  - exists hp. split; [done|lia].
Qed.

Lemma fifo_scan r r' : fifo r -> scan r = Next r' -> fifo r'.
Proof.
  intros Hf H. fifo_split Hf. unfold scan in H. unfold writer_at in Hwr.
  destruct (wr r) as [|h| | |]; try done.
  destruct (decide _) as [|Hne]; [by injection H as <-|]. apply mem_next in H as (s & Hg & H).
  destruct (decide _); [by injection H as <-|]. apply mem_next in H as (l & Hs & H). injection H as <-.
  destruct Hwr as (hp & -> & Hhp). split; try done. exists hp. split; [done|].
  assert (hp <> zlen (drained r)); [|cbn; lia]. intros ->. by rewrite Htail in Hne.
Qed.

Lemma act_fifo a r r' : inv r -> fifo r -> act a r = Next r' ->
  zlen (reserved r') - zlen (drained r') <= N -> fifo r'.
Proof.
  intros Hi Hf H Hlap. destruct a; cbn [act] in H.
  - exact (fifo_reserve _ _ _ _ Hi Hf H Hlap).
  - exact (fifo_load _ _ _ Hf H).
  - by apply fifo_nodrop in H.
  - exact (fifo_claim _ _ _ Hf H).
  - exact (fifo_copy _ _ _ Hf H).
  - exact (fifo_fill _ _ _ Hi Hf H).
  - fifo_split Hf. unfold take_head in H. destruct (wr r); try done. injection H as <-.
    split; try done. exists (zlen (reserved r)). split; [done|]. cbn.
    pose proof (win_bound _ _ _ _ Hwin). lia.
  - exact (fifo_scan _ _ Hf H).
  - exact (fifo_free _ _ Hi Hf H).
  - fifo_split Hf. unfold report in H. destruct (wr r); try done. injection H as <-.
    split; try done. unfold writer_at. cbn. by case_decide.
  - fifo_split Hf. unfold swap in H. destruct (wr r); try done. injection H as <-.
    by case_decide; split.
Qed.

Lemma fifo_init n : fifo (ring_init n).
Proof.
  assert (Hidle : forall k p, replicate n P_idle !! k = Some p -> p = P_idle)
    by (intros k p [? _]%lookup_replicate; done).
  split; unfold writer_at; cbn [g_slots procs wr g_head g_tail lost reserved drained ring_init]; try done.
  split.
  - change (zlen []) with 0. unfold TLM_RING_SLOTS. lia.
  - intros pos Hp. change (zlen []) with 0 in Hp. lia.
  - by intros k p pos i l st ->%Hidle.
  - by intros k1 k2 p1 p2 pos i1 i2 l1 l2 s1 s2 ->%Hidle _ ?.
  - intros i s Hg Hne. exfalso. apply Hne. unfold zget in Hg. case_decide; [|done].
    by apply lookup_replicate in Hg as [-> _].
  - by intros k l ?%Hidle.
Qed.

Lemma nolap_reach n r : star step_nolap (ring_init n) r -> inv r /\ fifo r.
Proof.
  intros Hs. apply (star_invariant step_nolap (fun r => inv r /\ fifo r) _ _) in Hs; [done| |].
  - intros s s' [Hi Hf] [[a Ha] Hl]. split; [by eapply act_inv|by eapply act_fifo].
  - split; [apply ring_init_inv|apply fifo_init].
Qed.

(** ** The writer catches up *)

Definition all_idle (r : ring) : Prop := forall k p, procs r !! k = Some p -> p = P_idle.

(** How far the writer is from having drained everything. *)
Definition rank (r : ring) : Z :=
  match wr r with
  | W_store _ _ => 0
  | W_inner h => if decide (g_tail r = h) then 5 else 1
  | W_outer => 2
  | W_swap _ => 3
  | W_report => 4
  end.

Definition todo (r : ring) : Z := 8 * (zlen (reserved r) - zlen (drained r)) + rank r.

(** What a writer step keeps. *)
Definition writer_step (r r' : ring) : Prop :=
  step r r' /\ reserved r' = reserved r /\ procs r' = procs r /\ todo r' < todo r /\
  zlen (drained r) <= zlen (drained r').

Lemma tail_head r : fifo r -> zlen (drained r) < zlen (reserved r) -> g_tail r <> g_head r.
Proof.
  intros Hf Hlt. fifo_split Hf. rewrite Htail, Hhead. pose proof (win_bound _ _ _ _ Hwin) as [Hb Hn].
  unfold u32, TLM_RING_SLOTS in *. intros Heq.
  assert (zlen (reserved r) - zlen (drained r) = 0); [|lia].
  Z.div_mod_to_equations. lia.
Qed.

Lemma tail_filled r : inv r -> fifo r -> all_idle r -> zlen (drained r) < zlen (reserved r) ->
  exists s, zget (g_slots r) (g_tail r mod N) = Some s /\ state s = TLM_SLOT_FILLED.
Proof.
  intros Hi Hf Hid Hlt. fifo_split Hf. rewrite Htail, u32_mod_N.
  pose proof (zlen_nonneg (drained r)).
  destruct (win_stage _ _ _ _ Hwin (zlen (drained r)) ltac:(lia))
    as (s & Hg & [[Hs _]|(k & p & l & Hk & Ha & _)]); [by exists s|].
  apply Hid in Hk as ->. done.
Qed.

Lemma drain_step r : inv r -> fifo r -> all_idle r -> zlen (drained r) < zlen (reserved r) ->
  exists r', writer_step r r'.
Proof.
  intros Hi Hf Hid Hlt. pose proof (tail_head r Hf Hlt) as Hth.
  destruct (tail_filled r Hi Hf Hid Hlt) as (s & Hg & Hs).
  destruct (wr r) as [|h|h l| |d] eqn:Ew.
  - exists (r <| wr := W_inner (g_head r) |>). split; [exists A_head; cbn; unfold take_head; by rewrite Ew|].
    unfold todo, rank. cbn. rewrite Ew, decide_False by done. split_and!; (done || lia).
  - destruct (decide (g_tail r = h)) as [E|E].
    + exists (r <| wr := W_report |>). split; [exists A_scan; cbn; unfold scan; by rewrite Ew, decide_True|].
      unfold todo, rank. cbn. rewrite Ew, decide_True by done. split_and!; (done || lia).
    + destruct (slots_ok_zget _ _ _ (inv_slots _ Hi) Hg) as [Hb Hl].
      exists (r <| wr := W_store h (take (Z.to_nat (len s)) (buf s)) |>). split.
      { exists A_scan. cbn. unfold scan. rewrite Ew, decide_False by done. rewrite Hg. cbn [mem].
        rewrite decide_False by (rewrite Hs; intros Hne; by apply Hne).
        rewrite slice_take by lia. done. }
      unfold todo, rank. cbn. rewrite Ew, decide_False by done. split_and!; (done || lia).
  - destruct (zset_is_Some _ _ _ (s <| state := TLM_SLOT_EMPTY |>) Hg) as [ss Hz].
    exists (r <| g_slots := ss |> <| g_tail := u32 (g_tail r + 1) |>
              <| drained := drained r ++ [l] |> <| wr := W_inner h |>). split.
    { exists A_free. cbn. unfold free_slot. rewrite Ew, Hg. cbn [mem]. by rewrite Hz. }
    unfold todo, rank. cbn. rewrite Ew, zlen_app. change (zlen [l]) with 1.
    split_and!; try done; try lia. case_decide; lia.
  - exists (r <| wr := if decide (g_dropped r > 0) then W_swap (g_dropped r) else W_outer |>).
    split; [exists A_report; cbn; unfold report; by rewrite Ew|].
    unfold todo, rank. cbn. rewrite Ew. split_and!; try done; try lia. case_decide; lia.
  - eexists. split; [exists A_swap; cbn; unfold swap; by rewrite Ew|].
    unfold todo, rank. rewrite Ew. case_decide; cbn; split_and!; (done || lia).
Qed.

Lemma drain_all n : forall r, inv r -> fifo r -> all_idle r -> todo r < Z.of_nat n ->
  exists r', star step_nolap r r' /\ drained r' = reserved r.
Proof.
  induction n as [|n IH]; intros r Hi Hf Hid Hn.
  { exfalso. fifo_split Hf. pose proof (win_bound _ _ _ _ Hwin). unfold todo, rank in Hn.
    destruct (wr r); try lia. case_decide; lia. }
  pose proof (win_bound _ _ _ _ (fifo_win _ Hf)) as [Hb1 Hb2].
  destruct (decide (zlen (drained r) < zlen (reserved r))) as [Hlt|Hge].
  - destruct (drain_step r Hi Hf Hid Hlt) as (r1 & [a Ha] & Hres & Hps & Htodo & Hdr).
    assert (Hlap : zlen (reserved r1) - zlen (drained r1) <= N) by (rewrite Hres; lia).
    destruct (IH r1) as (r' & Hstar & Hd).
    + by eapply act_inv.
    + by eapply act_fifo.
    + unfold all_idle. by rewrite Hps.
    + lia.
    + exists r'. rewrite Hres in Hd. split; [|done]. eapply star_step; [|done]. split; [by exists a|done].
  - exists r. split; [apply star_refl|]. rewrite (fifo_drained _ Hf).
    apply take_ge. unfold zlen in *. lia.
Qed.

(** C31. Without overrun the ring is a reliable queue: as long as no step leaves
    more than 16384 lines reserved and not drained, nothing is dropped, the
    drained lines are at every moment a prefix of the reserved ones in
    reservation order, and so is what was given to the sinks; and once no
    producer is inside the call, the writer can go on to drain every line. *)
Theorem tlm_ring_fifo n r :
  star step_nolap (ring_init n) r ->
  lost r = [] /\ g_dropped r = 0 /\
  drained r = take (length (drained r)) (reserved r) /\
  written r = take (length (written r)) (reserved r) /\
  (all_idle r -> exists r', star step_nolap r r' /\ drained r' = reserved r).
Proof.
  intros [Hi Hf]%nolap_reach. pose proof Hf as Hf0. fifo_split Hf.
  split_and!; [done| |done| |].
  - destruct (inv_count _ Hi) as (Hd & Hr & Hc). rewrite Hlost in Hc. change (zlen []) with 0 in Hc. lia.
  - unfold written, writer_at in *. pose proof (inv_writer _ Hi) as Hw. unfold writer_ok in Hw.
    destruct (wr r) as [|h|h l| |]; rewrite ?app_nil_r; try done.
    destruct Hw as (s & Hg & Hs & Ht), Hwr as (hp & _ & Hhp). rewrite Htail, u32_mod_N in Hg.
    pose proof (zlen_nonneg (drained r)).
    destruct (filled_free _ _ _ _ (zlen (drained r)) s Hwin ltac:(lia) Hg Hs) as [Hl _].
    unfold zlen in Hl. rewrite zget_nat, Ht in Hl. rewrite length_app, Nat.add_1_r.
    erewrite take_S_r by done. by rewrite <- Hdr.
  - intros Hid. apply (drain_all (Z.to_nat (todo r + 1)) r Hi Hf0 Hid).
    assert (0 <= todo r); [|lia]. unfold todo, rank. pose proof (win_bound _ _ _ _ Hwin).
    destruct (wr r); try lia. case_decide; lia.
Qed.

(** An action reserves one line at most. *)
Lemma act_reserved a r r' : act a r = Next r' -> zlen (reserved r') <= zlen (reserved r) + 1.
Proof.
  intros H. destruct a; cbn [act] in H;
    unfold reserve, load, drop_line, claim, copy, fill, take_head, scan, free_slot, report, swap in H;
    next_inv H; cbn; rewrite ?zlen_app; try case_decide; cbn;
    change (zlen [_]) with 1; lia.
Qed.

Lemma run_nolap acts : forall r r', run acts r = Next r' ->
  zlen (reserved r) + Z.of_nat (length acts) <= N -> star step_nolap r r'.
Proof.
  induction acts as [|a acts IH]; intros r r' H Hl; cbn [run] in H.
  - injection H as <-. apply star_refl.
  - destruct (act a r) as [| |r1] eqn:Ha; try done. pose proof (act_reserved _ _ _ Ha).
    cbn [length] in Hl. pose proof (zlen_nonneg (drained r1)).
    eapply star_step; [split; [by exists a|lia]|]. apply IH; [done|lia].
Qed.

Lemma tlm_ring_fifo_witness :
  exists r', star step_nolap demo_end r' /\ drained r' = [[1; 10]; [2; 10]].
Proof.
  destruct (tlm_ring_fifo 2 demo_end) as (_ & _ & _ & _ & H).
  { apply (run_nolap demo_acts); [exact demo_runs|vm_compute; discriminate]. }
  destruct H as (r' & Hs & Hd).
  { intros k p. assert (E : procs demo_end = [P_idle; P_idle]) by (vm_compute; reflexivity).
    rewrite E. intros [-> | ->%list_elem_of_singleton]%list_elem_of_lookup_2%elem_of_cons; reflexivity. }
  exists r'. split; [exact Hs|]. rewrite Hd. vm_compute. reflexivity.
Defined.

End Fifo.
