(* ===== verification/TlmService.v ===== *)
(** * The telemetry service ([src/core/telemetry.c], [vmc_tlm_init] and friends)

    Destination parsing, start and stop. The environment variables, the file
    system, the resolver, the socket and the thread library are arguments. *)

From S2P Require Import Prelude Text Protocol Telemetry TlmRing TlmFifo.
From stdpp Require Import strings.
Import Text Proto Tlm Ring Fifo.

#[local] Open Scope Z_scope.

Module Service.

(** [strrchr]: the text before and after the last [c]. *)
Fixpoint strrchr (c : Z) (l : list Z) : option (list Z * list Z) :=
  match l with
  | [] => None
  | x :: l =>
    match strrchr c l with
    | Some (a, b) => Some (x :: a, b)
    | None => if decide (x = c) then Some ([], l) else None
    end
  end.

(** The host (at most 255 bytes) and port looked up; [resolve] is
    [getaddrinfo], [socket_ok] whether the socket opens. *)
Definition tlm_parse_udp_dst (spec : list Z) (resolve : list Z -> Z -> bool) (socket_ok : bool)
    : option (list Z * Z) :=
  let '(host, port) :=
    match strrchr 58 spec with
    | Some (h, p) => (take 255 h, atoi p)
    | None => (stored 256 spec, 9998)
    end in
  if decide (port <= 0 \/ port > 65535) then None else
  if negb (resolve host port) then None else
  if socket_ok then Some (host, port) else None.

Record tlm := mk_tlm {
  g_enabled : bool; g_sinks : tlm_sinks; g_udp_dst : option (list Z * Z);
  g_ident : tlm_ident; g_seq : Z; g_ring : ring;
}.

#[export] Instance eta_tlm : Eta tlm := fun t =>
  mk_tlm (g_enabled t) (g_sinks t) (g_udp_dst t) (g_ident t) (g_seq t) (g_ring t).

Definition empty_slots (ss : list tlm_slot) : list tlm_slot :=
  (fun s => s <| state := TLM_SLOT_EMPTY |>) <$> ss.

(** The ring once the writer thread has ended; producers are idle. The drop
    counter survives. *)
Definition ring_stop (r : ring) (n : nat) : ring :=
  mk_ring (empty_slots (g_slots r)) 0 0 (g_dropped r) (replicate n P_idle) W_outer [] [] [] [].

Definition vmc_tlm_shutdown (t : tlm) (n : nat) : tlm :=
  if negb (g_enabled t) then t else
  t <| g_sinks := (g_sinks t) <| g_file := None |> <| g_udp_fd := false |> |>
    <| g_enabled := false |> <| g_seq := 0 |> <| g_ring := ring_stop (g_ring t) n |>.

(** What the process finds in its environment: the two variables, whether the
    file opens, the socket of [tlm_parse_udp_dst], and whether the thread
    starts. *)
Record tlm_env := mk_tlm_env {
  var_file : option (list Z); var_udp : option (list Z); fopen_ok : bool;
  resolve : list Z -> Z -> bool; socket_ok : bool; thread_ok : bool;
}.

Definition is_set (v : option (list Z)) : bool :=
  match v with Some (_ :: _) => true | _ => false end.

Definition ident_of (role host build git : option (list Z)) : tlm_ident :=
  mk_ident (stored 16 (default (chars "client") role)) (stored 128 (default (chars "unknown") host))
    (stored 16 (default (chars "unknown") build)) (stored 32 (default (chars "unknown") git)).

(** [n] producer threads will emit. *)
Definition vmc_tlm_init (t : tlm) (role host build git : option (list Z)) (e : tlm_env) (n : nat)
    : bool * tlm :=
  let t := if g_enabled t then vmc_tlm_shutdown t n else t in
  let t := t <| g_ident := ident_of role host build git |> in
  if negb (is_set (var_file e)) && negb (is_set (var_udp e)) then (false, t) else
  let t := if is_set (var_file e)
           then t <| g_sinks := (g_sinks t) <| g_file := if fopen_ok e then Some [] else None |> |>
           else t in
  let t := if is_set (var_udp e)
           then match tlm_parse_udp_dst (default [] (var_udp e)) (resolve e) (socket_ok e) with
                | Some d => t <| g_udp_dst := Some d |> <| g_sinks := (g_sinks t) <| g_udp_fd := true |> |>
                | None => t
                end
           else t in
  let enabled := bool_decide (is_Some (g_file (g_sinks t))) || g_udp_fd (g_sinks t) in
  if negb enabled then (false, t <| g_enabled := false |>) else
  let t := t <| g_enabled := true |> <| g_seq := 0 |>
             <| g_ring := (ring_stop (g_ring t) n) <| g_dropped := 0 |> |> in
  if thread_ok e then (true, t) else
  (false, t <| g_sinks := (g_sinks t) <| g_file := None |> <| g_udp_fd := false |> |>
            <| g_enabled := false |>).

(** The service between calls: its sinks are closed unless it runs. *)
Definition service_ok (t : tlm) : Prop :=
  slots_ok (g_slots (g_ring t)) /\
  (g_enabled t = false -> g_file (g_sinks t) = None /\ g_udp_fd (g_sinks t) = false).

Lemma ring_stop_ok r n : slots_ok (g_slots r) ->
  let r' := (ring_stop r n) <| g_dropped := 0 |> in inv r' /\ fifo r'.
Proof.
  intros [Hl Hw] r'.
  assert (Hidle : forall k p, replicate n P_idle !! k = Some p -> p = P_idle)
    by (intros k p [? _]%lookup_replicate; done).
  assert (Hst : forall i s, zget (empty_slots (g_slots r)) i = Some s -> state s = TLM_SLOT_EMPTY).
  { intros i s Hg. unfold zget in Hg. case_decide; [|done].
    apply list_lookup_fmap_Some in Hg as (s0 & -> & _). done. }
  assert (Hbind : empty_slots (g_slots r) ≫= slot_line = []).
  { unfold empty_slots. clear. induction (g_slots r) as [|s ss IH]; [done|].
    cbn [fmap list_fmap]. by rewrite bind_cons, IH. }
  split; split; unfold writer_ok, writer_at, counted; cbn [r' ring_stop g_slots procs wr reported
    g_dropped lost reserved drained g_head g_tail upd_field]; try done.
  - split; [unfold empty_slots, zlen in *; by rewrite length_fmap|].
    apply Forall_fmap. eapply Forall_impl; [exact Hw|]. done.
  - split; [by intros k p ->%Hidle|]. by intros k1 k2 p1 p2 i ->%Hidle _ ?.
  - intros x. unfold in_flight, in_slots. cbn [g_slots procs ring_stop r' upd_field].
    by rewrite Hbind, bind_replicate_nil.
  - split; [change (zlen []) with 0; unfold TLM_RING_SLOTS; lia| | | | |].
    + intros pos Hp. change (zlen []) with 0 in Hp. lia.
    + by intros k p pos i l st ->%Hidle.
    + by intros k1 k2 p1 p2 pos i1 i2 l1 l2 s1 s2 ->%Hidle _ ?.
    + intros i s Hg Hne. by apply Hst in Hg.
    + by intros k l ?%Hidle.
Qed.

(** Which sinks [vmc_tlm_init] opens. *)
Definition opens_file (e : tlm_env) : bool := is_set (var_file e) && fopen_ok e.
Definition opens_udp (e : tlm_env) : bool :=
  is_set (var_udp e) &&
  bool_decide (is_Some (tlm_parse_udp_dst (default [] (var_udp e)) (resolve e) (socket_ok e))).

(** Starting telemetry: whatever state the service is in, also while it
    runs, [vmc_tlm_init] reports success exactly when a sink opens and the
    writer thread starts; the service is then enabled with exactly those
    sinks, sequence number 0 and an empty ring in which the invariants of the
    ring hold, whatever an earlier run left in it; on failure it is disabled with no
    sink open; and the service stays well-formed. *)
Theorem tlm_init_outcome t role host build git e n :
  service_ok t ->
  let '(ok, t') := vmc_tlm_init t role host build git e n in
  ok = (opens_file e || opens_udp e) && thread_ok e /\ g_enabled t' = ok /\ service_ok t' /\
  (ok = true ->
   bool_decide (is_Some (g_file (g_sinks t'))) = opens_file e /\
   g_udp_fd (g_sinks t') = opens_udp e /\ g_seq t' = 0 /\
   inv (g_ring t') /\ fifo (g_ring t') /\ reserved (g_ring t') = []).
Proof.
  intros [Hss Hcl]. unfold vmc_tlm_init.
  set (t1 := (if g_enabled t then vmc_tlm_shutdown t n else t) <| g_ident := _ |>).
  assert (Ht1 : slots_ok (g_slots (g_ring t1)) /\ g_enabled t1 = false /\
                g_file (g_sinks t1) = None /\ g_udp_fd (g_sinks t1) = false).
  { unfold t1, vmc_tlm_shutdown. destruct (g_enabled t) eqn:He; cbn [negb].
    - split_and!; try done. apply (ring_stop_ok (g_ring t) n Hss).
    - destruct (Hcl eq_refl). by split_and!. }
  clearbody t1. clear Hss Hcl. destruct Ht1 as (Hss & Hen & Hfi & Hud).
  destruct (ring_stop_ok (g_ring t1) n Hss) as [Hinv Hfifo].
  unfold opens_file, opens_udp.
  destruct (is_set (var_file e)), (is_set (var_udp e)); cbn [negb andb orb];
    try destruct (tlm_parse_udp_dst _ _ _) as [d|]; try destruct (fopen_ok e);
    cbn [upd_field g_sinks g_file g_udp_fd g_enabled is_Some];
    rewrite ?Hfi, ?Hud; cbn;
    try (destruct (thread_ok e)); cbn; unfold service_ok; cbn; rewrite ?Hfi, ?Hud;
    split_and!; try done; try (intros _; split_and!; done);
    try (apply (inv_slots _ Hinv)); try exact Hss.
Qed.

Lemma tlm_init_outcome_witness :
  let e := mk_tlm_env None (Some (chars "10.0.0.7:9999")) false (fun _ p => p =? 9999) true true in
  let t := mk_tlm false (mk_sinks None false [] []) None (mk_ident [] [] [] []) 5 (ring_init 1) in
  fst (vmc_tlm_init t (Some (chars "server")) None None None e 3) = true /\
  inv (g_ring (snd (vmc_tlm_init t (Some (chars "server")) None None None e 3))).
Proof.
  intros e t. pose proof (tlm_init_outcome t (Some (chars "server")) None None None e 3) as H.
  destruct (vmc_tlm_init t (Some (chars "server")) None None None e 3) as [ok t'] eqn:E.
  destruct H as (Hok & _ & _ & H); [split; [apply (inv_slots _ (ring_init_inv 1))|by split]|].
  assert (Ht : ok = true) by (rewrite Hok; vm_compute; reflexivity).
  split; [exact Ht|apply (H Ht)].
Defined.

End Service.
