(* ===== verification/Drm.v ===== *)
(** * DRM scanout ([src/video/drm_scanout.c])

    Mode selection, buffer setup, the round-robin hand-out of buffers, page
    flips and the completion handler with its FIFO of flip records. The kernel
    is an interface: what [drmModePageFlip] and one poll-and-handle of the
    event descriptor answer. *)

From S2P Require Import Prelude.

Module Drm.

Definition VMC_DRM_MAX_BUFS : Z := 8.
Definition VMC_DRM_FLIP_HISTORY : Z := 16.

(** [map] and [MAP_FAILED] are addresses; 0 is NULL. *)
Record vmc_drm_buffer := mk_buf {
  handle : Z; fb : Z; pitch : Z; size : Z; map : Z; prime_fd : Z; busy : bool;
  last_flip_ts : Z; submit_wall_us : Z;
}.

#[export] Instance eta_buf : Eta vmc_drm_buffer := fun b =>
  mk_buf (handle b) (fb b) (pitch b) (size b) (map b) (prime_fd b) (busy b)
    (last_flip_ts b) (submit_wall_us b).

Record vmc_drm_flip_rec := mk_rec { buf_idx : Z; submit_us : Z }.

(** The mode of [s->mode] is only copied; [mode_set] says it was allocated. *)
Record vmc_drm_scanout := mk_drm {
  fd : Z; crtc : Z; conn : Z; w : Z; h : Z; nbufs : Z; next : Z; last_presented : Z;
  flip_pending : Z; on_screen : Z; last_completed : Z; last_flip_ts_us : Z; flips_done : Z;
  vrefresh : Z; vblank_period_us : Z; bufs : list vmc_drm_buffer; crtc_set : bool;
  flip_history : list vmc_drm_flip_rec; flip_h_head : Z; flip_h_tail : Z; mode_set : bool;
}.

#[export] Instance eta_drm : Eta vmc_drm_scanout := fun s =>
  mk_drm (fd s) (crtc s) (conn s) (w s) (h s) (nbufs s) (next s) (last_presented s)
    (flip_pending s) (on_screen s) (last_completed s) (last_flip_ts_us s) (flips_done s)
    (vrefresh s) (vblank_period_us s) (bufs s) (crtc_set s) (flip_history s) (flip_h_head s)
    (flip_h_tail s) (mode_set s).

(** ** The flip handler *)

(** Releasing the buffer that leaves the screen. *)
Definition release_on_screen (s : vmc_drm_scanout) (ts : Z) : option vmc_drm_scanout :=
  if decide (on_screen s >= 0) then
    b ← zget (bufs s) (on_screen s);
    bs ← zset (bufs s) (on_screen s) (b <| busy := false |> <| last_flip_ts := ts |>);
    Some (s <| bufs := bs |>)
  else Some s.

Definition flip_handler (s : vmc_drm_scanout) (tv_sec tv_usec : Z) : option vmc_drm_scanout :=
  let ts := u64 (u64 (tv_sec * 1000000) + tv_usec) in
  s ← (if decide (flip_h_head s <> flip_h_tail s) then
         rec ← zget (flip_history s) (flip_h_tail s);
         let s := s <| flip_h_tail := Z.rem (flip_h_tail s + 1) VMC_DRM_FLIP_HISTORY |> in
         s ← release_on_screen s ts;
         Some (s <| on_screen := buf_idx rec |> <| last_completed := buf_idx rec |>
                 <| flip_pending := -1 |>)
       else if decide (flip_pending s >= 0) then
         s ← release_on_screen s ts;
         Some (s <| on_screen := flip_pending s |> <| last_completed := flip_pending s |>
                 <| flip_pending := -1 |>)
       else Some s);
  Some (s <| flips_done := u32 (flips_done s + 1) |> <| last_flip_ts_us := ts |>).

(** [drmHandleEvent] calls the handler for every queued event in order. *)
Fixpoint handle_events (s : vmc_drm_scanout) (evs : list (Z * Z)) : option vmc_drm_scanout :=
  match evs with
  | [] => Some s
  | (sec, usec) :: evs => s ← flip_handler s sec usec; handle_events s evs
  end.

(** ** The kernel *)

Inductive flip_result := FLIP_OK | FLIP_EBUSY | FLIP_ERROR.

(** [page_flip k fb] answers a flip request; [poll_events k ms] one [poll] of
    up to [ms] milliseconds: the events then read, or [None] at a timeout. *)
Class DrmKernel (K : Type) := {
  page_flip : K -> Z -> flip_result * K;
  poll_events : K -> Z -> option (list (Z * Z)) * K;
}.

Section WithKernel.
Context {K : Type} `{DrmKernel K}.

(** The loop of [drain_events] leaves after its first poll, whatever it
    returns. *)
Definition drain_events (s : vmc_drm_scanout) (k : K) (timeout_ms : Z)
    : option (Z * vmc_drm_scanout * K) :=
  match poll_events k (Z.max 0 timeout_ms) with
  | (None, k) => Some (0, s, k)
  | (Some evs, k) => s ← handle_events s evs; Some (1, s, k)
  end.

Definition vmc_drm_scanout_wait_flip (s : vmc_drm_scanout) (k : K) (timeout_ms : Z)
    : option (Z * vmc_drm_scanout * K) := drain_events s k timeout_ms.

Definition vmc_drm_scanout_drain (s : vmc_drm_scanout) (k : K)
    : option (Z * vmc_drm_scanout * K) := drain_events s k 0.

(** What [present] records once the kernel has accepted the flip; [now] is the
    clock. *)
Definition record_flip (s : vmc_drm_scanout) (idx now : Z) : option vmc_drm_scanout :=
  b ← zget (bufs s) idx;
  bs ← zset (bufs s) idx (b <| busy := true |> <| submit_wall_us := now |>);
  let s := s <| bufs := bs |> <| flip_pending := idx |> in
  let s := if decide (Z.rem (flip_h_head s + 1) VMC_DRM_FLIP_HISTORY = flip_h_tail s)
           then s <| flip_h_tail := Z.rem (flip_h_tail s + 1) VMC_DRM_FLIP_HISTORY |> else s in
  hist ← zset (flip_history s) (flip_h_head s) (mk_rec idx now);
  Some (s <| flip_history := hist |>
          <| flip_h_head := Z.rem (flip_h_head s + 1) VMC_DRM_FLIP_HISTORY |>).

(** [tries] iterations of the retry loop. *)
Fixpoint present_loop (tries : nat) (s : vmc_drm_scanout) (k : K) (idx now : Z)
    : option (vmc_status * vmc_drm_scanout * K) :=
  match tries with
  | O => Some (VMC_ERR_AGAIN, s, k)
  | S tries =>
    b ← zget (bufs s) idx;
    match page_flip k (fb b) with
    | (FLIP_OK, k) => s ← record_flip s idx now; Some (VMC_OK, s, k)
    | (FLIP_EBUSY, k) =>
      '(_, s, k) ← vmc_drm_scanout_wait_flip s k (i32 (u32 (vblank_period_us s + 999) / 1000));
      present_loop tries s k idx now
    | (FLIP_ERROR, k) => Some (VMC_ERR_IO, s, k)
    end
  end.

Definition vmc_drm_scanout_present (s : vmc_drm_scanout) (k : K) (idx now : Z)
    : option (vmc_status * vmc_drm_scanout * K) :=
  let idx := if decide (idx < 0) then i32 (last_presented s) else idx in
  if decide (idx < 0 \/ idx >= nbufs s) then Some (VMC_ERR_INVALID_ARG, s, k) else
  present_loop 3 s k idx now.

End WithKernel.

(** ** Handing out buffers *)

(** The search from offset [i], [n] candidates left; the buffer's mapping and
    index. *)
Fixpoint next_loop (s : vmc_drm_scanout) (n : nat) (i : Z)
    : option (option (Z * Z) * vmc_drm_scanout) :=
  match n with
  | O => Some (None, s)
  | S n =>
    let idx := Z.rem (next s + i) (nbufs s) in
    b ← zget (bufs s) idx;
    if negb (busy b) && bool_decide (idx <> on_screen s) && bool_decide (idx <> flip_pending s) then
      bs ← zset (bufs s) idx (b <| busy := true |>);
      Some (Some (map b, idx),
            s <| next := Z.rem (idx + 1) (nbufs s) |> <| last_presented := u32 idx |>
              <| bufs := bs |>)
    else next_loop s n (i + 1)
  end.

Definition vmc_drm_scanout_next_idx (s : vmc_drm_scanout)
    : option (option (Z * Z) * vmc_drm_scanout) :=
  next_loop s (Z.to_nat (nbufs s)) 0.

Definition vmc_drm_scanout_next (s : vmc_drm_scanout) : option (option Z * vmc_drm_scanout) :=
  match vmc_drm_scanout_next_idx s with
  | Some (r, s) => Some (option_map fst r, s)
  | None => None
  end.

(** ** Setup *)

Record drmModeModeInfo := mk_mode { hdisplay : Z; vdisplay : Z; mvrefresh : Z; preferred : bool }.

(** A connector as [drmModeGetConnector] returns it; [None] when it fails. *)
Record drmModeConnector := mk_conn {
  connector_id : Z; connected : bool; modes : list drmModeModeInfo;
}.

Definition area (m : drmModeModeInfo) : Z := u64 (hdisplay m * vdisplay m).

(** The loop over the modes, [b] being the best so far. *)
Fixpoint best_mode (b : drmModeModeInfo) (ms : list drmModeModeInfo) : drmModeModeInfo :=
  match ms with
  | [] => b
  | n :: ms =>
    best_mode (if preferred n && negb (preferred b) then n
               else if Bool.eqb (preferred n) (preferred b) && bool_decide (area n > area b) then n
               else b) ms
  end.

Fixpoint find_connected (cs : list (option drmModeConnector)) : option (Z * drmModeModeInfo) :=
  match cs with
  | [] => None
  | Some c :: cs =>
    match connected c, modes c with
    | true, m :: ms => Some (connector_id c, best_mode m ms)
    | _, _ => find_connected cs
    end
  | None :: cs => find_connected cs
  end.

(** What the kernel gives for one buffer: the dumb buffer ([None] if it is not
    created), its mapping ([None]: the ioctl fails; [mmap] may return
    [MAP_FAILED]), its framebuffer and dma-buf descriptor. *)
Record buf_env := mk_buf_env {
  dumb : option (Z * Z * Z); mapping : option Z; addfb : option Z; prime : option Z;
}.

Definition MAP_FAILED : Z := -1.

Definition buf_zero : vmc_drm_buffer := mk_buf 0 0 0 0 0 0 false 0 0.

Definition drm_zero : vmc_drm_scanout :=
  mk_drm 0 0 0 0 0 0 0 0 0 0 0 0 0 0 0 (replicate (Z.to_nat VMC_DRM_MAX_BUFS) buf_zero) false
    (replicate (Z.to_nat VMC_DRM_FLIP_HISTORY) (mk_rec 0 0)) 0 0 false.

(** The setup of buffer [i]; [inr] is the failure return. [None] is the write
    through an invalid mapping. *)
Definition init_buf (s : vmc_drm_scanout) (i : Z) (e : buf_env)
    : option (vmc_drm_scanout + vmc_drm_scanout) :=
  match dumb e with
  | None => Some (inr (s <| fd := -1 |>))
  | Some (hd, pt, sz) =>
    b ← zget (bufs s) i;
    if decide (hd = 0) then
      bs ← zset (bufs s) i (b <| pitch := pt |>); Some (inr (s <| bufs := bs |> <| fd := -1 |>))
    else
    let m := default 0 (mapping e) in
    let b := b <| pitch := pt |> <| handle := hd |> <| size := sz |> <| map := m |> in
    bs ← zset (bufs s) i b;
    if decide (m = 0) then Some (inr (s <| bufs := bs |> <| fd := -1 |>)) else
    if decide (m = MAP_FAILED) then None else
    match addfb e with
    | None => Some (inr (s <| bufs := bs |> <| fd := -1 |>))
    | Some f =>
      bs ← zset bs i (b <| fb := f |> <| prime_fd := default (-1) (prime e) |>);
      Some (inl (s <| bufs := bs |>))
    end
  end.

Fixpoint init_bufs (s : vmc_drm_scanout) (i : Z) (es : list buf_env)
    : option (vmc_drm_scanout + vmc_drm_scanout) :=
  match es with
  | [] => Some (inl s)
  | e :: es =>
    r ← init_buf s i e;
    match r with
    | inl s => init_bufs s (i + 1) es
    | inr s => Some (inr s)
    end
  end.

(** [dev_fd]: the result of [open]; [res]: the connectors and first CRTC of
    [drmModeGetResources]; one [buf_env] per buffer. *)
Definition vmc_drm_scanout_init (s : option vmc_drm_scanout) (n : Z) (dev_fd : Z)
    (res : option (list (option drmModeConnector) * Z)) (es : list buf_env)
    (alloc setcrtc_ok : bool) : option (vmc_status * option vmc_drm_scanout) :=
  match s with
  | None => Some (VMC_ERR_INVALID_ARG, None)
  | Some s0 =>
    if decide (n < 1 \/ n > VMC_DRM_MAX_BUFS) then Some (VMC_ERR_INVALID_ARG, Some s0) else
    let s := drm_zero <| nbufs := n |> <| fd := dev_fd |> in
    if decide (dev_fd < 0) then Some (VMC_ERR_IO, Some s) else
    match res with
    | None => Some (VMC_ERR_IO, Some (s <| fd := -1 |>))
    | Some (cs, crtc0) =>
      match find_connected cs with
      | None => Some (VMC_ERR_NOT_FOUND, Some (s <| fd := -1 |>))
      | Some (c, m) =>
        let s := s <| conn := c |> <| crtc := crtc0 |> <| w := hdisplay m |> <| h := vdisplay m |>
                   <| flip_pending := -1 |> <| on_screen := 0 |> <| vrefresh := mvrefresh m |>
                   <| vblank_period_us := if decide (mvrefresh m > 0) then 1000000 / mvrefresh m
                                          else 16667 |>
                   <| mode_set := alloc |> in
        r ← init_bufs s 0 (take (Z.to_nat n) es);
        match r with
        | inr s => Some (VMC_ERR_IO, Some s)
        | inl s =>
          if negb setcrtc_ok then Some (VMC_ERR_IO, Some (s <| fd := -1 |>)) else
          Some (VMC_OK, Some (s <| on_screen := 0 |> <| crtc_set := true |> <| next := 1 |>))
        end
      end
    end
  end.

(** What [vmc_drm_scanout_close] gives back: of each buffer its mapping,
    framebuffer, descriptor and dumb buffer, where it has them. *)
Record released := mk_released {
  r_map : option (Z * Z); r_fb : option Z; r_prime : option Z; r_handle : option Z;
}.

Definition release (b : vmc_drm_buffer) : released :=
  mk_released (if decide (map b <> 0) then Some (map b, size b) else None)
    (if decide (fb b <> 0) then Some (fb b) else None)
    (if decide (prime_fd b >= 0) then Some (prime_fd b) else None)
    (if decide (handle b <> 0) then Some (handle b) else None).

Definition vmc_drm_scanout_close (s : vmc_drm_scanout) : list released * vmc_drm_scanout :=
  if decide (fd s >= 0)
  then (release <$> take (Z.to_nat (nbufs s)) (bufs s), s <| fd := -1 |> <| mode_set := false |>)
  else ([], s <| mode_set := false |>).

(** ** The kernel as documented

    One flip may be outstanding per CRTC: a request meanwhile is refused with
    EBUSY, an accepted request takes effect at a vblank, and then one event is
    read. [k_script] decides what is left open: whether a call fails or times
    out ([None]), and the event's time. *)
Record kms := mk_kms { k_pending : option Z; k_scan : Z; k_script : list (option (Z * Z)) }.

#[export] Instance kms_kernel : DrmKernel kms := {
  page_flip k f :=
    match k_script k with
    | Some _ :: sc =>
      match k_pending k with
      | Some p => (FLIP_EBUSY, mk_kms (Some p) (k_scan k) sc)
      | None => (FLIP_OK, mk_kms (Some f) (k_scan k) sc)
      end
    | sc => (FLIP_ERROR, mk_kms (k_pending k) (k_scan k) (tail sc))
    end;
  poll_events k _ :=
    match k_script k, k_pending k with
    | Some ts :: sc, Some p => (Some [ts], mk_kms None p sc)
    | sc, p => (None, mk_kms p (k_scan k) (tail sc))
    end;
}.

(** The scanout, the kernel, and the buffers handed out to the writer and not
    yet presented. *)
Record sys := mk_sys { so : vmc_drm_scanout; kn : kms; handed : list Z }.

(** What the client does: take a buffer, present one it holds, wait. *)
Inductive sys_op := Take | Present (idx now : Z) | Wait (ms : Z).

(** [None]: an access outside an object, or a client error. *)
Definition sys_step (y : sys) (o : sys_op) : option sys :=
  match o with
  | Take =>
    '(r, s) ← vmc_drm_scanout_next_idx (so y);
    Some (mk_sys s (kn y) (match r with Some (_, idx) => idx :: handed y | None => handed y end))
  | Present idx now =>
    if decide (idx ∈ handed y) then
      '(st, s, k) ← vmc_drm_scanout_present (so y) (kn y) idx now;
      Some (mk_sys s k (if decide (st = VMC_OK) then filter (fun i => i <> idx) (handed y)
                        else handed y))
    else Some y
  | Wait ms =>
    '(_, s, k) ← vmc_drm_scanout_wait_flip (so y) (kn y) ms; Some (mk_sys s k (handed y))
  end.

Fixpoint sys_run (y : sys) (os : list sys_op) : option sys :=
  match os with [] => Some y | o :: os => y ← sys_step y o; sys_run y os end.

(** ** The invariant *)

Definition buf_at (s : vmc_drm_scanout) (i : Z) : option vmc_drm_buffer :=
  if decide (0 <= i < nbufs s) then zget (bufs s) i else None.

Record shape (s : vmc_drm_scanout) : Prop := {
  sh_nbufs : 1 <= nbufs s <= VMC_DRM_MAX_BUFS;
  sh_bufs : zlen (bufs s) = VMC_DRM_MAX_BUFS;
  sh_hist : zlen (flip_history s) = VMC_DRM_FLIP_HISTORY;
  sh_head : 0 <= flip_h_head s < VMC_DRM_FLIP_HISTORY;
  sh_tail : 0 <= flip_h_tail s < VMC_DRM_FLIP_HISTORY;
  sh_next : 0 <= next s <= VMC_DRM_MAX_BUFS;
}.

(** The framebuffers of the buffers in use differ. *)
Definition fb_distinct (s : vmc_drm_scanout) : Prop := forall i j a b,
  buf_at s i = Some a -> buf_at s j = Some b -> fb a = fb b -> i = j.

(** The flip in progress, as the FIFO, [flip_pending] and the kernel agree. *)
Definition flip_state (s : vmc_drm_scanout) (k : kms) (p : option Z) : Prop :=
  match p with
  | None => k_pending k = None /\ flip_pending s = -1 /\ flip_h_head s = flip_h_tail s
  | Some i => (exists b, buf_at s i = Some b /\ k_pending k = Some (fb b) /\ busy b = true) /\
              flip_pending s = i /\
              flip_h_head s = Z.rem (flip_h_tail s + 1) VMC_DRM_FLIP_HISTORY /\
              exists t, zget (flip_history s) (flip_h_tail s) = Some (mk_rec i t)
  end.

Section Invariant.

(** The number of buffers asked for. *)
Context (n : Z).

(** A buffer is with the writer, pending, on screen, or free; these exclude
    each other, and only a free one is not busy. *)
Record sys_inv (y : sys) (p : option Z) : Prop := {
  si_shape : shape (so y);
  si_count : nbufs (so y) = n;
  si_fb : fb_distinct (so y);
  si_flip : flip_state (so y) (kn y) p;
  si_screen : exists b, buf_at (so y) (on_screen (so y)) = Some b /\ k_scan (kn y) = fb b;
  si_front : p <> Some (on_screen (so y));
  si_nodup : NoDup (handed y);
  si_handed : forall i, i ∈ handed y -> (exists b, buf_at (so y) i = Some b /\ busy b = true) /\
                i <> on_screen (so y) /\ p <> Some i;
  si_busy : forall i b, buf_at (so y) i = Some b -> busy b = true ->
                i ∈ handed y \/ i = on_screen (so y) \/ p = Some i;
}.

Lemma buf_at_range s i b : buf_at s i = Some b -> 0 <= i < nbufs s /\ zget (bufs s) i = Some b.
Proof. unfold buf_at. case_decide; [done|discriminate]. Qed.

Lemma buf_at_Some s i : shape s -> 0 <= i < nbufs s -> is_Some (buf_at s i).
Proof.
  intros Hs Hi. unfold buf_at. rewrite decide_True by done. apply zget_is_Some.
  rewrite (sh_bufs _ Hs). pose proof (sh_nbufs _ Hs). lia.
Qed.

(** Replacing buffer [i] by one with the same framebuffer. *)
Lemma buf_at_set s s' i b0 b' bs : buf_at s i = Some b0 -> zset (bufs s) i b' = Some bs ->
  bufs s' = bs -> nbufs s' = nbufs s ->
  forall j, buf_at s' j = if decide (j = i) then Some b' else buf_at s j.
Proof.
  intros Hi Hz Hb Hn j. apply buf_at_range in Hi as [Hr _].
  apply zset_inv in Hz as (_ & _ & Hg). unfold buf_at. rewrite Hb, Hn, Hg.
  destruct (decide (j = i)) as [->|]; [by rewrite decide_True by done|done].
Qed.

Lemma fb_distinct_set s s' i b0 b' bs : fb_distinct s -> buf_at s i = Some b0 ->
  zset (bufs s) i b' = Some bs -> bufs s' = bs -> nbufs s' = nbufs s -> fb b' = fb b0 ->
  fb_distinct s'.
Proof.
  intros Hd Hi Hz Hb Hn Hf j k a b Ha Hk. pose proof (buf_at_set s s' i b0 b' bs Hi Hz Hb Hn) as Hg.
  rewrite Hg in Ha, Hk. intros E. apply (Hd j k (if decide (j = i) then b0 else a)
    (if decide (k = i) then b0 else b)); repeat case_decide; simplify_eq; congruence.
Qed.

(** *** Taking a buffer *)

(** Buffer [i] may be handed out. *)
Definition free (s : vmc_drm_scanout) (i : Z) : Prop :=
  exists b, buf_at s i = Some b /\ busy b = false /\ i <> on_screen s /\ i <> flip_pending s.

Definition take_result (s : vmc_drm_scanout) (r : option (Z * Z)) (s' : vmc_drm_scanout) : Prop :=
  match r with
  | None => s' = s
  | Some (m, idx) => exists b bs, buf_at s idx = Some b /\ busy b = false /\ m = map b /\
      idx <> on_screen s /\ idx <> flip_pending s /\
      zset (bufs s) idx (b <| busy := true |>) = Some bs /\
      s' = s <| next := Z.rem (idx + 1) (nbufs s) |> <| last_presented := u32 idx |> <| bufs := bs |>
  end.

Lemma next_loop_spec s cnt : forall i, shape s -> 0 <= i ->
  exists r s', next_loop s cnt i = Some (r, s') /\ take_result s r s' /\
    (r = None -> forall j, i <= j < i + Z.of_nat cnt -> ~ free s (Z.rem (next s + j) (nbufs s))).
Proof.
  induction cnt as [|cnt IH]; intros i Hs Hi; cbn [next_loop].
  { exists None, s. split_and!; [done|done|]. intros _ j Hj. lia. }
  pose proof (sh_nbufs _ Hs). pose proof (sh_next _ Hs).
  set (idx := Z.rem (next s + i) (nbufs s)).
  assert (Hidx : 0 <= idx < nbufs s) by (apply Z.rem_bound_pos; lia).
  destruct (buf_at_Some s idx Hs Hidx) as [b Hb]. pose proof (buf_at_range _ _ _ Hb) as [_ Hz].
  rewrite Hz. cbn [mbind option_bind].
  destruct (negb (busy b) && bool_decide (idx <> on_screen s) && bool_decide (idx <> flip_pending s))
    eqn:Hc.
  - apply andb_true_iff in Hc as [[Hc1%negb_true_iff Hc2%bool_decide_eq_true]%andb_true_iff
      Hc3%bool_decide_eq_true].
    pose proof (zget_lt _ _ _ Hz). destruct (zset (bufs s) idx (b <| busy := true |>)) as [bs|] eqn:Hzs;
      [|rewrite zset_ok in Hzs by done; done].
    cbn [mbind option_bind]. eexists _, _. split; [done|]. split; [|done]. by exists b, bs.
  - destruct (IH (i + 1) Hs ltac:(lia)) as (r & s' & -> & Hr & Hno). exists r, s'.
    split_and!; [done|done|]. intros -> j Hj. destruct (decide (j = i)) as [->|]; [|apply Hno; [done|lia]].
    intros (b' & Hb' & Hf & Ho & Hp). fold idx in Hb', Ho, Hp. rewrite Hb in Hb'. injection Hb' as <-.
    rewrite Hf, !bool_decide_eq_true_2 in Hc by done. done.
Qed.

Lemma next_idx_spec s : shape s ->
  exists r s', vmc_drm_scanout_next_idx s = Some (r, s') /\ take_result s r s' /\
    (r = None -> forall j, 0 <= j < nbufs s -> ~ free s j).
Proof.
  intros Hs. pose proof (sh_nbufs _ Hs). pose proof (sh_next _ Hs).
  destruct (next_loop_spec s (Z.to_nat (nbufs s)) 0 Hs ltac:(lia)) as (r & s' & He & Hr & Hno).
  exists r, s'. split_and!; [done|done|]. intros Hn j Hj Hf.
  apply (Hno Hn ((j - next s) mod nbufs s)).
  - pose proof (Z.mod_pos_bound (j - next s) (nbufs s)). lia.
  - replace (Z.rem (next s + (j - next s) mod nbufs s) (nbufs s)) with j; [done|].
    pose proof (Z.mod_pos_bound (j - next s) (nbufs s)).
    rewrite Z.rem_mod_nonneg by lia. rewrite Zplus_mod_idemp_r.
    replace (next s + (j - next s)) with j by lia. by rewrite Z.mod_small by lia.
Qed.

Lemma take_inv y p : sys_inv y p -> exists y', sys_step y Take = Some y' /\ sys_inv y' p.
Proof.
  intros [Hsh Hcn Hfb Hfl Hsc Hfr Hnd Hha Hbu]. cbn [sys_step].
  destruct (next_idx_spec (so y) Hsh) as (r & s' & -> & Hr & _). cbn [mbind option_bind].
  eexists. split; [done|]. destruct r as [[m idx]|]; cbn [take_result] in Hr; [|subst; by destruct y].
  destruct Hr as (b & bs & Hb & Hnb & _ & Hos & Hfp & Hz & ->). set (s' := _ <| bufs := bs |>).
  pose proof (buf_at_set (so y) s' idx b _ bs Hb Hz eq_refl eq_refl) as Hget.
  pose proof (buf_at_range _ _ _ Hb) as [Hrange _]. pose proof (sh_nbufs _ Hsh).
  assert (Hpi : p <> Some idx).
  { intros ->. destruct Hfl as (_ & Hfp' & _). congruence. }
  assert (Hidx : idx ∉ handed y) by (intros Hin; destruct (Hha _ Hin) as ((b' & Hb' & ?) & _); congruence).
  split; cbn [so kn handed]; try done.
  - destruct Hsh. split; try done.
    + cbn. apply zset_inv in Hz as (_ & -> & _). done.
    + cbn. pose proof (Z.rem_bound_pos (idx + 1) (nbufs (so y))). lia.
  - by eapply fb_distinct_set.
  - destruct p as [i|]; [|done]. destruct Hfl as ((b' & Hb' & Hk & Hbb) & Hrest).
    split; [|done]. exists b'. rewrite Hget, decide_False by congruence. done.
  - destruct Hsc as (b' & Hb' & Hk). exists (if decide (on_screen (so y) = idx)
      then b <| busy := true |> else b'). change (on_screen s') with (on_screen (so y)).
    rewrite Hget. rewrite !decide_False by congruence. done.
  - by constructor.
  - intros i [-> | Hi]%elem_of_cons.
    + split_and!; [|done|done]. exists (b <| busy := true |>). by rewrite Hget, decide_True.
    + destruct (Hha i Hi) as ((b' & Hb' & Hbb) & ? & ?). split_and!; [|done|done].
      exists b'. rewrite Hget, decide_False by (by intros ->). done.
  - intros i b' Hi Hbb. rewrite Hget in Hi. case_decide as Hii; [subst; left; by left|].
    destruct (Hbu i b' Hi Hbb) as [?|?]; [left; by right|by right].
Qed.

(** *** A flip completes *)

Lemma handler_inv s k hs i ts : sys_inv (mk_sys s k hs) (Some i) ->
  exists f s', k_pending k = Some f /\ flip_handler s (fst ts) (snd ts) = Some s' /\
    on_screen s' = i /\ forall sc, sys_inv (mk_sys s' (mk_kms None f sc) hs) None.
Proof.
  intros [Hsh Hcn Hfb Hfl Hsc Hfr Hnd Hha Hbu]. cbn [so kn handed] in *.
  destruct Hfl as ((bi & Hbi & Hk & Hbusy) & Hfp & Hhd & t & Ht), Hsc as (bo & Hbo & Hscan).
  exists (fb bi). unfold flip_handler. rewrite decide_True.
  2: { rewrite Hhd. destruct (sh_tail _ Hsh). unfold VMC_DRM_FLIP_HISTORY in *.
       intros E. destruct (decide (flip_h_tail s = 15)) as [E1|]; [by rewrite E1 in E|].
       rewrite Z.rem_small in E by lia. lia. }
  rewrite Ht. cbn [mbind option_bind buf_idx]. cbv zeta. set (ts64 := u64 _).
  unfold release_on_screen. cbn [on_screen upd_field bufs].
  pose proof (buf_at_range _ _ _ Hbo) as [Hor Hoz]. rewrite decide_True by lia.
  rewrite Hoz. cbn [mbind option_bind].
  destruct (zset (bufs s) (on_screen s) (bo <| busy := false |> <| last_flip_ts := ts64 |>)) as [bs|] eqn:Hz.
  2: { pose proof (zget_lt _ _ _ Hoz). by rewrite zset_ok in Hz by done. }
  cbn [mbind option_bind]. eexists. split; [done|]. split; [done|]. split; [done|]. intros sc.
  set (s' := _ <| last_flip_ts_us := ts64 |>).
  pose proof (buf_at_set s s' (on_screen s) bo _ bs Hbo Hz eq_refl eq_refl) as Hget.
  assert (Hne : i <> on_screen s) by (intros ->; by apply Hfr).
  split; cbn [so kn handed]; try done.
  - destruct Hsh. split; try done.
    + cbn. apply zset_inv in Hz as (_ & -> & _). done.
    + cbn. apply Z.rem_bound_pos; [lia|reflexivity].
  - by eapply fb_distinct_set.
  - exists bi. change (on_screen s') with i. by rewrite Hget, decide_False.
  - intros j Hj. destruct (Hha j Hj) as ((b & Hb & Hbb) & Hjo & Hji).
    split_and!; [|change (on_screen s') with i; congruence|done].
    exists b. by rewrite Hget, decide_False.
  - intros j b Hj Hbb. rewrite Hget in Hj. change (on_screen s') with i.
    case_decide as Hjo; [by injection Hj as <-|].
    destruct (Hbu j b Hj Hbb) as [?|[?|[= ->]]]; [by left|done|right; by left].
Qed.

Lemma wait_inv s k hs p ms : sys_inv (mk_sys s k hs) p ->
  exists d s' k' p', vmc_drm_scanout_wait_flip s k ms = Some (d, s', k') /\
    sys_inv (mk_sys s' k' hs) p'.
Proof.
  intros Hi. unfold vmc_drm_scanout_wait_flip, drain_events. cbn [poll_events kms_kernel].
  assert (Htime : forall sc, sys_inv (mk_sys s (mk_kms (k_pending k) (k_scan k) sc) hs) p).
  { intros sc. destruct Hi. by split. }
  destruct (k_script k) as [|[ts|] sc]; [by eexists _, _, _, p| |by eexists _, _, _, p].
  destruct (k_pending k) as [f|] eqn:Ek; [|by eexists _, _, _, p].
  destruct p as [i|]; [|by destruct (si_flip _ _ Hi) as (? & _); cbn in *; congruence].
  destruct (handler_inv s k hs i ts Hi) as (f' & s' & Hf & Hh & _ & Hinv).
  destruct ts as [sec usec]. cbn [handle_events fst snd] in *. rewrite Hh. cbn [mbind option_bind].
  assert (f' = f) as -> by congruence. eexists _, _, _, None. split; [done|apply Hinv].
Qed.

(** *** A flip is accepted *)

Lemma rem_succ_ne x : 0 <= x < VMC_DRM_FLIP_HISTORY ->
  0 <= Z.rem (x + 1) VMC_DRM_FLIP_HISTORY < VMC_DRM_FLIP_HISTORY /\
  Z.rem (x + 1) VMC_DRM_FLIP_HISTORY <> x.
Proof.
  unfold VMC_DRM_FLIP_HISTORY. intros Hx. rewrite Z.rem_mod_nonneg by lia.
  Z.div_mod_to_equations. lia.
Qed.

Lemma record_inv s k hs idx now sc : sys_inv (mk_sys s k hs) None -> idx ∈ hs ->
  exists b s', buf_at s idx = Some b /\ record_flip s idx now = Some s' /\
    sys_inv (mk_sys s' (mk_kms (Some (fb b)) (k_scan k) sc) (filter (fun i => i <> idx) hs)) (Some idx).
Proof.
  intros [Hsh Hcn Hfb Hfl Hsc Hfr Hnd Hha Hbu] Hidx. cbn [so kn handed] in *.
  destruct (Hha idx Hidx) as ((b & Hb & Hbb) & Hos & _).
  exists b. pose proof (buf_at_range _ _ _ Hb) as [Hr Hz]. destruct Hfl as (_ & _ & Hht).
  destruct (rem_succ_ne _ (sh_head _ Hsh)) as [Hrr Hne]. unfold record_flip. rewrite Hz. cbn [mbind option_bind].
  destruct (zset (bufs s) idx (b <| busy := true |> <| submit_wall_us := now |>)) as [bs|] eqn:Hzs;
    [|pose proof (zget_lt _ _ _ Hz); by rewrite zset_ok in Hzs by done].
  cbn [mbind option_bind flip_h_head flip_h_tail upd_field]. cbv zeta.
  rewrite decide_False by (rewrite <- Hht; done). cbn [flip_history flip_h_head upd_field].
  destruct (zset (flip_history s) (flip_h_head s) (mk_rec idx now)) as [hist|] eqn:Hzh.
  2: { rewrite zset_ok in Hzh; [done|]. rewrite (sh_hist _ Hsh). apply (sh_head _ Hsh). }
  cbn [mbind option_bind]. eexists. split; [done|]. split; [done|]. set (s' := _ <| flip_h_head := _ |>).
  pose proof (buf_at_set s s' idx b _ bs Hb Hzs eq_refl eq_refl) as Hget.
  apply zset_inv in Hzs as Hbs. destruct Hbs as (_ & Hbl & _).
  apply zset_inv in Hzh as (_ & Hhl & Hhg).
  assert (Hfilt : forall i, i ∈ filter (fun i => i <> idx) hs <-> i <> idx /\ i ∈ hs)
    by (intros i; rewrite list_elem_of_filter; tauto).
  split; cbn [so kn handed].
  - destruct Hsh. split; try done; cbn; lia.
  - done.
  - by eapply fb_distinct_set.
  - split; [|split; [done|split]].
    + exists (b <| busy := true |> <| submit_wall_us := now |>). by rewrite Hget, decide_True.
    + cbn. by rewrite <- Hht.
    + exists now. cbn. by rewrite Hhg, Hht, decide_True.
  - destruct Hsc as (bo & Hbo & Hk). exists bo. change (on_screen s') with (on_screen s).
    rewrite Hget, decide_False by done. done.
  - change (on_screen s') with (on_screen s). congruence.
  - by apply NoDup_filter.
  - intros i [Hi1 Hi2]%Hfilt. destruct (Hha i Hi2) as ((bi & Hbi & Hbbi) & ? & _).
    split_and!; [|done|congruence]. exists bi. by rewrite Hget, decide_False.
  - intros i bi Hi Hbbi. rewrite Hget in Hi. change (on_screen s') with (on_screen s).
    case_decide as Hii; [subst; right; by right|].
    destruct (Hbu i bi Hi Hbbi) as [?|[?|?]]; [left; by apply Hfilt|right; by left|done].
Qed.

Definition after (st : vmc_status) (idx : Z) (hs : list Z) : list Z :=
  if decide (st = VMC_OK) then filter (fun i => i <> idx) hs else hs.

Lemma present_loop_inv tries : forall s k hs p idx now, sys_inv (mk_sys s k hs) p -> idx ∈ hs ->
  exists st s' k' p', present_loop tries s k idx now = Some (st, s', k') /\
    sys_inv (mk_sys s' k' (after st idx hs)) p'.
Proof.
  induction tries as [|tries IH]; intros s k hs p idx now Hi Hidx; cbn [present_loop].
  { by exists VMC_ERR_AGAIN, s, k, p. }
  destruct (si_handed _ _ Hi idx Hidx) as ((b & Hb & _) & _). cbn [so] in Hb.
  pose proof (buf_at_range _ _ _ Hb) as [_ Hz]. rewrite Hz. cbn [mbind option_bind page_flip kms_kernel].
  assert (Hkeep : forall sc, sys_inv (mk_sys s (mk_kms (k_pending k) (k_scan k) sc) hs) p).
  { intros sc. destruct Hi. by split. }
  destruct (k_script k) as [|[ts|] sc]; [by eexists _, _, _, p| |by eexists _, _, _, p].
  destruct (k_pending k) as [f|] eqn:Ek.
  - destruct (wait_inv s (mk_kms (Some f) (k_scan k) sc) hs p
      (i32 (u32 (vblank_period_us s + 999) / 1000)) (Hkeep sc)) as (d & s1 & k1 & p1 & -> & Hi1).
    cbn [mbind option_bind]. by eapply IH.
  - destruct p as [i|]; [destruct (si_flip _ _ Hi) as ((? & _ & ? & _) & _); cbn in *; congruence|].
    destruct (record_inv s k hs idx now sc Hi Hidx) as (b' & s1 & Hb' & -> & Hi1).
    assert (b' = b) as -> by congruence. cbn [mbind option_bind]. by eexists _, _, _, (Some idx).
Qed.

Lemma sys_step_inv y p o : sys_inv y p -> exists y' p', sys_step y o = Some y' /\ sys_inv y' p'.
Proof.
  destruct y as [s k hs]. intros Hi. destruct o as [|idx now|ms].
  - destruct (take_inv _ _ Hi) as (y' & ? & ?). by exists y', p.
  - cbn [sys_step so kn handed]. destruct (decide (idx ∈ hs)) as [Hin|]; [|by eexists _, p].
    destruct (present_loop_inv 3 s k hs p idx now Hi Hin) as (st & s' & k' & p' & He & Hi').
    destruct (si_handed _ _ Hi idx Hin) as ((b & Hb & _) & _).
    apply buf_at_range in Hb as [Hr _]. cbn [so] in Hr.
    unfold vmc_drm_scanout_present. rewrite (decide_False (P := idx < 0)) by lia.
    rewrite decide_False by lia. rewrite He. cbn [mbind option_bind]. by eexists _, p'.
  - cbn [sys_step so kn handed].
    destruct (wait_inv s k hs p ms Hi) as (d & s' & k' & p' & -> & Hi'). by eexists _, p'.
Qed.

Lemma sys_run_inv os : forall y p, sys_inv y p -> exists y' p', sys_run y os = Some y' /\ sys_inv y' p'.
Proof.
  induction os as [|o os IH]; intros y p Hi; cbn [sys_run]; [by exists y, p|].
  destruct (sys_step_inv y p o Hi) as (y1 & p1 & -> & Hi1). cbn [mbind option_bind]. by eapply IH.
Qed.

End Invariant.

(** ** After a successful init *)

Definition fresh (s : vmc_drm_scanout) : Prop :=
  zlen (bufs s) = VMC_DRM_MAX_BUFS /\ (forall i b, zget (bufs s) i = Some b -> busy b = false).

(** What the loop over the buffers leaves alone. *)
Definition same_but_bufs (s s' : vmc_drm_scanout) : Prop := s' = s <| bufs := bufs s' |>.

Lemma fresh_set s i b bs : fresh s -> zset (bufs s) i b = Some bs -> busy b = false ->
  zlen bs = VMC_DRM_MAX_BUFS /\ (forall j c, zget bs j = Some c -> busy c = false).
Proof.
  intros [Hl Hb] Hz Hn. apply zset_inv in Hz as (_ & Hz & Hg). split; [lia|].
  intros j c. rewrite Hg. case_decide; [by intros [= <-]|apply Hb].
Qed.

Lemma init_buf_fresh s i e s' : fresh s -> init_buf s i e = Some (inl s') ->
  fresh s' /\ same_but_bufs s s'.
Proof.
  intros Hf. unfold init_buf. destruct (dumb e) as [[[hd pt] sz]|]; [|done].
  destruct (zget (bufs s) i) as [b|] eqn:Eb; cbn [mbind option_bind]; [|done].
  assert (Hnb : busy b = false) by (by apply (proj2 Hf i)).
  destruct (decide (hd = 0)); [by destruct (zset _ _ _)|].
  destruct (zset (bufs s) i _) as [bs|] eqn:Ez; cbn [mbind option_bind]; [|done].
  destruct (fresh_set _ _ _ _ Hf Ez Hnb) as [Hl1 Hb1].
  repeat case_decide; try done. destruct (addfb e) as [f|]; [|done].
  destruct (zset bs i _) as [bs'|] eqn:Ez'; cbn [mbind option_bind]; [|done]. intros [= <-].
  split; [|done]. by eapply (fresh_set (s <| bufs := bs |>)).
Qed.

Lemma init_bufs_fresh es : forall s i s', fresh s -> init_bufs s i es = Some (inl s') ->
  fresh s' /\ same_but_bufs s s'.
Proof.
  induction es as [|e es IH]; intros s i s' Hf; cbn [init_bufs].
  { intros [= <-]. split; [done|]. unfold same_but_bufs. by destruct s. }
  destruct (init_buf s i e) as [[s1|s1]|] eqn:E; cbn [mbind option_bind]; [|done|done].
  destruct (init_buf_fresh _ _ _ _ Hf E) as [Hf1 Hs1]. intros Hr.
  destruct (IH _ _ _ Hf1 Hr) as [Hf2 Hs2]. split; [done|].
  unfold same_but_bufs in *. rewrite Hs2 at 1. by rewrite Hs1.
Qed.

Lemma init_success s0 n dev_fd res es alloc ok s :
  vmc_drm_scanout_init s0 n dev_fd res es alloc ok = Some (VMC_OK, Some s) ->
  shape s /\ fresh s /\ nbufs s = n /\ on_screen s = 0 /\ flip_pending s = -1 /\
  flip_h_head s = flip_h_tail s.
Proof.
  unfold vmc_drm_scanout_init. destruct s0; [|done].
  destruct (decide (n < 1 \/ n > VMC_DRM_MAX_BUFS)); [done|].
  destruct (decide (dev_fd < 0)); [done|]. destruct res as [[cs crtc0]|]; [|done].
  destruct (find_connected cs) as [[c m]|]; [|done]. cbv zeta.
  match goal with |- context [init_bufs ?x 0 ?l] => set (s1 := x); destruct (init_bufs s1 0 l)
    as [[s2|s2]|] eqn:Eb; cbn [mbind option_bind]; try done end.
  assert (Hf : fresh s1).
  { split; [done|]. intros i b Hg. unfold zget in Hg. case_decide; [|done].
    by apply lookup_replicate in Hg as [-> _]. }
  destruct (init_bufs_fresh _ _ _ _ Hf Eb) as [[Hl Hb] Hs].
  destruct ok; cbn [negb]; [|done]. intros Heq%(inj Some)%(f_equal snd). cbn [snd] in Heq. apply (inj Some) in Heq as <-. rewrite Hs.
  split_and!; [|exact (conj Hl Hb)|reflexivity..].
  unfold VMC_DRM_MAX_BUFS in *.
  split; cbn [nbufs bufs flip_history flip_h_head flip_h_tail next s1 upd_field drm_zero];
    unfold VMC_DRM_MAX_BUFS, VMC_DRM_FLIP_HISTORY; [lia|exact Hl|reflexivity|lia..].
Qed.

(** A successful init establishes the invariant. *)
Lemma drm_init_inv s0 n dev_fd res es alloc ok s sc b0 :
  vmc_drm_scanout_init s0 n dev_fd res es alloc ok = Some (VMC_OK, Some s) ->
  fb_distinct s -> buf_at s 0 = Some b0 -> sys_inv n (mk_sys s (mk_kms None (fb b0) sc) []) None.
Proof.
  intros Hin Hfb Hb0. destruct (init_success _ _ _ _ _ _ _ _ Hin) as (Hsh & Hfr & Hn & Hos & Hfp & Hht).
  split; cbn [so kn handed]; try done.
  - rewrite Hos. by exists b0.
  - constructor.
  - by intros i ?%not_elem_of_nil.
  - intros i b [_ Hz]%buf_at_range Hb. destruct Hfr as [_ Hfr]. by rewrite (Hfr i b Hz) in Hb.
Qed.

(** C7. Hand-out, flips and completions never tear or leak a buffer. After a
    successful init with distinct framebuffers, on a kernel that keeps one flip
    outstanding, under any sequence of taking a buffer, presenting a held one
    and waiting, whatever calls fail or time out: no access leaves a buffer; a
    buffer the writer holds is neither on screen nor about to be, and is held
    once; and taking a buffer fails only when every buffer is held, on screen
    or pending, so none is ever lost. *)
Theorem drm_no_tearing s0 n dev_fd res es alloc s sc b0 os :
  vmc_drm_scanout_init s0 n dev_fd res es alloc true = Some (VMC_OK, Some s) ->
  fb_distinct s -> buf_at s 0 = Some b0 ->
  exists y, sys_run (mk_sys s (mk_kms None (fb b0) sc) []) os = Some y /\ NoDup (handed y) /\
    (forall i b, i ∈ handed y -> buf_at (so y) i = Some b ->
       fb b <> k_scan (kn y) /\ k_pending (kn y) <> Some (fb b)) /\
    (forall s', vmc_drm_scanout_next_idx (so y) = Some (None, s') ->
       forall i, 0 <= i < n -> i ∈ handed y \/ i = on_screen (so y) \/ i = flip_pending (so y)).
Proof.
  intros Hin Hfb Hb0. pose proof (drm_init_inv _ _ _ _ _ _ _ _ sc _ Hin Hfb Hb0) as Hi.
  destruct (sys_run_inv n os _ _ Hi) as (y & p & Hy & Hiy). exists y.
  split_and!; [done|apply (si_nodup _ _ _ Hiy)| |].
  - intros i b Hh Hb. destruct (si_handed _ _ _ Hiy i Hh) as (_ & Hio & Hip).
    destruct (si_screen _ _ _ Hiy) as (bo & Hbo & ->). pose proof (si_fb _ _ _ Hiy) as Hd. split.
    + intros E. apply Hio. by eapply Hd.
    + pose proof (si_flip _ _ _ Hiy) as Hfl. destruct p as [j|]; [|by destruct Hfl as (-> & _)].
      destruct Hfl as ((bj & Hbj & -> & _) & _). intros [= E]. apply Hip. f_equal. by eapply Hd.
  - intros s' Hnext i Hrange. pose proof (si_shape _ _ _ Hiy) as Hs.
    destruct (next_idx_spec (so y) Hs) as (r & s'' & He & _ & Hno). rewrite He in Hnext.
    injection Hnext as -> _. specialize (Hno eq_refl i). rewrite (si_count _ _ _ Hiy) in Hno.
    destruct (buf_at_Some (so y) i Hs) as [b Hb]; [by rewrite (si_count _ _ _ Hiy)|].
    destruct (busy b) eqn:Ebusy.
    + destruct (si_busy _ _ _ Hiy i b Hb Ebusy) as [?|[?| ->]]; [tauto|tauto|].
      right; right. by destruct (si_flip _ _ _ Hiy) as (_ & -> & _).
    + destruct (decide (i = on_screen (so y))); [tauto|].
      destruct (decide (i = flip_pending (so y))); [tauto|]. exfalso. apply Hno; [done|]. by exists b.
Qed.

Definition demo_env (i : Z) : buf_env := mk_buf_env (Some (i, 64, 640)) (Some (4096 * i)) (Some (100 + i)) None.
Definition demo_res : list (option drmModeConnector) * Z :=
  ([None; Some (mk_conn 7 true [mk_mode 4 3 60 false; mk_mode 2 2 60 true; mk_mode 3 2 50 true])], 9).

Definition demo_drm : vmc_drm_scanout :=
  match vmc_drm_scanout_init (Some drm_zero) 3 5 (Some demo_res) [demo_env 1; demo_env 2; demo_env 3]
          true true with
  | Some (_, Some s) => s
  | _ => drm_zero
  end.

Lemma demo_distinct : fb_distinct demo_drm.
Proof.
  intros i j a b Ha Hb E. apply buf_at_range in Ha as [Hi Ha], Hb as [Hj Hb].
  change (nbufs demo_drm) with 3 in Hi, Hj.
  assert (i = 0 \/ i = 1 \/ i = 2) as Hci by lia. assert (j = 0 \/ j = 1 \/ j = 2) as Hcj by lia.
  destruct Hci as [-> | [-> | ->]], Hcj as [-> | [-> | ->]]; vm_compute in Ha, Hb;
    injection Ha as <-; injection Hb as <-; vm_compute in E; congruence.
Qed.

Lemma drm_no_tearing_witness :
  exists y, sys_run (mk_sys demo_drm (mk_kms None 101 (replicate 20 (Some (1, 0)))) [])
      [Take; Present 1 5; Take; Present 2 6; Take] = Some y /\ NoDup (handed y) /\ handed y = [0].
Proof.
  destruct (drm_no_tearing (Some drm_zero) 3 5 (Some demo_res) [demo_env 1; demo_env 2; demo_env 3]
    true demo_drm (replicate 20 (Some (1, 0))) (mk_buf 1 101 64 640 4096 (-1) false 0 0)
    [Take; Present 1 5; Take; Present 2 6; Take]) as (y & Hy & Hnd & _).
  - vm_compute. reflexivity.
  - exact demo_distinct.
  - vm_compute. reflexivity.
  - exists y. split; [exact Hy|]. split; [exact Hnd|]. vm_compute in Hy. by injection Hy as <-.
Defined.

(** ** The mode *)

Definition mode_le (a b : drmModeModeInfo) : Prop :=
  (preferred a = true -> preferred b = true) /\ (preferred a = preferred b -> area a <= area b).

Lemma mode_le_trans a b c : mode_le a b -> mode_le b c -> mode_le a c.
Proof.
  unfold mode_le. intros [H1 H2] [H3 H4]. destruct (preferred a), (preferred b), (preferred c);
    naive_solver lia.
Qed.

Lemma best_mode_max ms : forall b, best_mode b ms ∈ b :: ms /\
  forall m, m ∈ b :: ms -> mode_le m (best_mode b ms).
Proof.
  induction ms as [|x ms IH]; intros b; cbn [best_mode].
  { split; [by left|]. intros m ->%list_elem_of_singleton. by split. }
  match goal with |- context [best_mode ?t ms] => set (b' := t) end. destruct (IH b') as [Hin Hmax].
  assert (Hb : (b' = b \/ b' = x) /\ mode_le b b' /\ mode_le x b').
  { unfold b', mode_le. destruct (preferred x) eqn:Ex, (preferred b) eqn:Eb; cbn [andb negb Bool.eqb];
      try case_bool_decide; rewrite ?Ex, ?Eb; split_and!; try tauto; try lia; try done; by auto. }
  destruct Hb as (Hb & Hlb & Hlx). split.
  - apply elem_of_cons in Hin as [->|Hin]; [|by right; right].
    destruct Hb as [-> | ->]; [by left|by right; left].
  - intros m [-> | [-> | Hm]%elem_of_cons]%elem_of_cons.
    + eapply mode_le_trans; [exact Hlb|]. apply Hmax. by left.
    + eapply mode_le_trans; [exact Hlx|]. apply Hmax. by left.
    + apply Hmax. by right.
Qed.

Definition usable (c : option drmModeConnector) : bool :=
  match c with
  | Some c => connected c && negb (bool_decide (modes c = []))
  | None => false
  end.

(** The display mode: the first connector that is connected and has modes
    is chosen (and none exactly if there is no such connector), with one of its
    own modes: a preferred one if it has any, and of the largest area among the
    modes as preferred as it. *)
Theorem drm_mode_choice cs :
  match find_connected cs with
  | None => Forall (fun c => usable c = false) cs
  | Some (id, m) => exists pre c post, cs = pre ++ Some c :: post /\ usable (Some c) = true /\
      Forall (fun c => usable c = false) pre /\ id = connector_id c /\ m ∈ modes c /\
      forall m', m' ∈ modes c -> (preferred m' = true -> preferred m = true) /\
                                (preferred m' = preferred m -> area m' <= area m)
  end.
Proof.
  induction cs as [|c cs IH]; cbn [find_connected]; [constructor|].
  destruct (usable c) eqn:Eu.
  - destruct c as [c|]; [|done]. cbn [usable] in Eu. apply andb_true_iff in Eu as [Ec Em].
    rewrite Ec. destruct (modes c) as [|m ms] eqn:Ems; [done|].
    exists [], c, cs. cbn [usable]. rewrite Ec, Ems. split_and!; try done.
    + apply best_mode_max.
    + intros m' Hm'. by apply best_mode_max.
  - assert (find_connected (c :: cs) = find_connected cs) as Heq.
    { cbn [find_connected]. destruct c as [c|]; [|done]. cbn [usable] in Eu.
      destruct (connected c); [|done]. by destruct (modes c). }
    cbn [find_connected] in Heq. rewrite Heq. clear Heq.
    destruct (find_connected cs) as [[id m]|]; [|by constructor].
    destruct IH as (pre & c' & post & -> & ? & ? & ?). exists (c :: pre), c', post.
    split_and!; try tauto. by constructor.
Qed.

End Drm.
