(* ===== verification/FbDisplay.v ===== *)
(** * Framebuffer display ([src/video/fb_display.c])

    The mapped framebuffer is a byte list; presenting a frame copies its rows
    into it. The ioctls, [open] and [mmap] are arguments. *)

From S2P Require Import Prelude.

Module Fb.

(** [vmc_pixel_format] and the frame of [include/vmc/video/decoder.h];
    [planes] are the bytes the plane pointers designate. *)
Inductive vmc_pixel_format :=
  VMC_PIXFMT_NV12 | VMC_PIXFMT_NV21 | VMC_PIXFMT_YUV420P | VMC_PIXFMT_RGB32.

#[export] Instance pixfmt_eq_dec : EqDecision vmc_pixel_format.
Proof. solve_decision. Defined.

Record vmc_video_frame := mk_frame {
  width : Z; height : Z; pixfmt : vmc_pixel_format; stride0 : Z; stride1 : Z; ts_us : Z;
  device_mem : bool; plane0 : list Z; plane1 : list Z;
}.

Record vmc_fb_display := mk_fb {
  d_width : Z; d_height : Z; opened : bool; fd : Z; map : option (list Z); map_size : Z;
  line_len : Z; xres : Z; yres : Z; bpp : Z;
}.

#[export] Instance eta_fb : Eta vmc_fb_display := fun f =>
  mk_fb (d_width f) (d_height f) (opened f) (fd f) (map f) (map_size f) (line_len f) (xres f)
    (yres f) (bpp f).

(** The screen information the driver reports. *)
Record fb_info := mk_info {
  v_xres : Z; v_yres : Z; v_yres_virtual : Z; bits_per_pixel : Z; line_length : Z;
}.

(** [info]: [None] when an ioctl fails; [mem]: the mapped memory ([None] when
    [mmap] fails), of the size asked for. *)
Definition fb_open (f : vmc_fb_display) (info : option fb_info) (mem : option (list Z))
    : vmc_status * vmc_fb_display :=
  match info with
  | None => (VMC_ERR_IO, f)
  | Some i =>
    let ll := u32 (line_length i) in
    let f := f <| xres := u16 (v_xres i) |> <| yres := u16 (v_yres i) |>
               <| bpp := u16 (bits_per_pixel i) |> <| line_len := ll |>
               <| map_size := u64 (ll * (if decide (v_yres_virtual i > 0) then v_yres_virtual i
                                         else v_yres i)) |> in
    match mem with
    | None => (VMC_ERR_IO, f <| map := None |>)
    | Some m => (VMC_OK, f <| map := Some m |> <| d_width := xres f |> <| d_height := yres f |>
                           <| opened := true |>)
    end
  end.

Definition fb_close (f : vmc_fb_display) : vmc_fb_display :=
  f <| map := None |> <| fd := if decide (fd f >= 0) then -1 else fd f |> <| opened := false |>.

(** [n] iterations of the row loop from row [y]. *)
Fixpoint copy_rows (m src : list Z) (ll stride w : Z) (n : nat) (y : Z) : option (list Z) :=
  match n with
  | O => Some m
  | S n =>
    row ← slice src (y * stride) (w * 4);
    m ← blit m (y * ll) row;
    copy_rows m src ll stride w n (y + 1)
  end.

Definition fb_present (f : vmc_fb_display) (frame : option vmc_video_frame)
    : option (vmc_status * vmc_fb_display) :=
  match map f, frame with
  | Some m, Some fr =>
    if decide (pixfmt fr <> VMC_PIXFMT_RGB32) then Some (VMC_ERR_NOSYS, f) else
    let w := if decide (width fr < xres f) then width fr else xres f in
    let h := if decide (height fr < yres f) then height fr else yres f in
    m ← copy_rows m (plane0 fr) (line_len f) (stride0 fr) w (Z.to_nat h) 0;
    Some (VMC_OK, f <| map := Some m |>)
  | _, _ => Some (VMC_ERR_INVALID_ARG, f)
  end.

(** [dev_fd]: the result of [open]. *)
Definition vmc_fb_display_init (f : option vmc_fb_display) (dev_fd : Z)
    : vmc_status * option vmc_fb_display :=
  match f with
  | None => (VMC_ERR_INVALID_ARG, None)
  | Some _ =>
    let f := mk_fb 0 0 false dev_fd None 0 0 0 0 0 in
    if decide (dev_fd < 0) then (VMC_ERR_IO, Some f) else (VMC_OK, Some f)
  end.

(** ** Rows *)

Lemma copy_rows_spec src ll stride w n : forall m y,
  0 <= w -> w * 4 <= ll -> 0 <= y -> 0 <= stride ->
  (y + Z.of_nat n - 1) * ll + w * 4 <= zlen m \/ n = O ->
  (y + Z.of_nat n - 1) * stride + w * 4 <= zlen src \/ n = O ->
  exists m', copy_rows m src ll stride w n y = Some m' /\ zlen m' = zlen m /\
    (forall r c, y <= r < y + Z.of_nat n -> 0 <= c < w * 4 ->
       zget m' (r * ll + c) = zget src (r * stride + c)) /\
    (forall r c, 0 <= c < ll -> (r < y \/ y + Z.of_nat n <= r \/ w * 4 <= c) ->
       zget m' (r * ll + c) = zget m (r * ll + c)).
Proof.
  induction n as [|n IH]; intros m y Hw Hll Hy Hst Hm Hs; cbn [copy_rows].
  { exists m. split_and!; [done|done| |done]. intros r c Hr. lia. }
  destruct Hm as [Hm|]; [|done]. destruct Hs as [Hs|]; [|done].
  rewrite slice_ok by nia. cbn [mbind option_bind].
  set (row := take _ _).
  assert (Hrow : slice src (y * stride) (w * 4) = Some row) by (apply slice_ok; nia).
  apply slice_inv in Hrow as (_ & _ & _ & Hrz & Hrg).
  destruct (blit_ok m row (y * ll)) as [m1 Hb]; [nia|nia|]. rewrite Hb. cbn [mbind option_bind].
  apply blit_inv in Hb as (_ & _ & Hz1 & Hg1).
  destruct (IH m1 (y + 1)) as (m' & He & Hz & Hin & Hout); [lia|lia|lia|lia| | |].
  - destruct n; [by right|left]. rewrite Hz1. nia.
  - destruct n; [by right|left]. nia.
  - exists m'. split_and!; [done|lia| |].
    + intros r c Hr Hc. destruct (decide (r = y)) as [->|].
      * rewrite Hout by lia. rewrite Hg1, decide_True by lia. rewrite Hrg by lia. f_equal. lia.
      * apply Hin; lia.
    + intros r c Hc Hr. rewrite Hout by lia. rewrite Hg1, decide_False; [done|].
      rewrite Hrz. assert (r < y \/ r = y \/ y + 1 <= r) as [H1|[->|H1]] by lia; [| lia |].
      * pose proof (Z.mul_le_mono_nonneg_r (r + 1) y ll ltac:(lia) ltac:(lia)). lia.
      * pose proof (Z.mul_le_mono_nonneg_r (y + 1) r ll ltac:(lia) ltac:(lia)). lia.
Qed.

(** Presenting an RGB32 frame on an opened framebuffer whose lines hold
    its visible pixels at 32 bits: no access leaves the mapping or the frame;
    the top-left rectangle common to both shows exactly the frame's pixels,
    byte for byte with each side's own stride; every other byte of the mapping,
    padding and rows below included, keeps its value; and frames in another
    pixel format are refused without touching the screen. *)
Theorem fb_present_blits f fr m :
  map f = Some m -> 0 <= xres f -> 4 * xres f <= line_len f -> 0 <= yres f ->
  line_len f * yres f <= zlen m ->
  0 <= width fr -> 0 <= height fr -> 4 * width fr <= stride0 fr ->
  stride0 fr * height fr <= zlen (plane0 fr) ->
  let w := Z.min (width fr) (xres f) in
  let h := Z.min (height fr) (yres f) in
  exists m', fb_present f (Some fr) =
      Some (if decide (pixfmt fr = VMC_PIXFMT_RGB32) then VMC_OK else VMC_ERR_NOSYS,
            f <| map := Some m' |>) /\
    zlen m' = zlen m /\
    forall r c, 0 <= r -> 0 <= c < line_len f ->
      zget m' (r * line_len f + c) =
      if decide (pixfmt fr = VMC_PIXFMT_RGB32 /\ r < h /\ c < 4 * w)
      then zget (plane0 fr) (r * stride0 fr + c) else zget m (r * line_len f + c).
Proof.
  intros Hm Hx Hll Hy Hsz Hw Hh Hst Hps w h. unfold fb_present. rewrite Hm.
  destruct (decide (pixfmt fr = VMC_PIXFMT_RGB32)) as [Hp|Hp].
  2: { rewrite decide_True by done. exists m. split_and!; [|done|].
       - destruct f; cbn in Hm |- *. by rewrite Hm.
       - intros r c _ _. rewrite decide_False; [done|]. tauto. }
  rewrite decide_False by (by intros ?). cbv zeta.
  replace (if decide (width fr < xres f) then width fr else xres f) with w
    by (unfold w; case_decide; lia).
  replace (if decide (height fr < yres f) then height fr else yres f) with h
    by (unfold h; case_decide; lia).
  destruct (copy_rows_spec (plane0 fr) (line_len f) (stride0 fr) w (Z.to_nat h) m 0)
    as (m' & -> & Hz & Hin & Hout); [lia|lia|lia|lia| | |].
  - destruct (decide (h = 0)); [right; lia|left]. nia.
  - destruct (decide (h = 0)); [right; lia|left]. nia.
  - exists m'. split_and!; [done|done|]. intros r c Hr Hc. case_decide as Hd.
    + apply Hin; lia.
    + apply Hout; [lia|]. destruct (decide (r < h)), (decide (c < 4 * w)); [tauto|lia..].
Qed.

Definition demo_fb : vmc_fb_display := mk_fb 2 2 true 3 (Some (replicate 24 9)) 24 12 2 2 32.
Definition demo_frame : vmc_video_frame :=
  mk_frame 1 3 VMC_PIXFMT_RGB32 4 0 0 false [1; 2; 3; 4; 5; 6; 7; 8; 10; 11; 12; 13] [].

Lemma fb_present_blits_witness :
  exists m', fb_present demo_fb (Some demo_frame) = Some (VMC_OK, demo_fb <| map := Some m' |>) /\
    zget m' 12 = Some 5 /\ zget m' 4 = Some 9.
Proof.
  destruct (fb_present_blits demo_fb demo_frame (replicate 24 9)) as (m' & He & _ & Hg);
    [reflexivity|vm_compute; discriminate..|].
  exists m'. split; [exact He|]. split.
  - exact (Hg 1 0 ltac:(lia) ltac:(vm_compute; split; [discriminate|reflexivity])).
  - exact (Hg 0 4 ltac:(lia) ltac:(vm_compute; split; [discriminate|reflexivity])).
Defined.

End Fb.
