(* ===== verification/Decoder.v ===== *)
(** * H.264 decoder backend ([src/video/ffmpeg_decoder.c])

    Codec selection with the software fallback, the allocations of a decoder
    and their release, and the decode call: packet staging, timestamps,
    conversion. libavcodec, libswscale and the CUDA converter are arguments. *)

From S2P Require Import Prelude Text Fragment FbDisplay.
From stdpp Require Import strings.
Import Text Frag.

#[local] Open Scope Z_scope.

Module Dec.

Definition DECODER_ALIGNMENT : Z := 64.

Inductive vmc_video_codec := VMC_VIDEO_CODEC_H264 | VMC_VIDEO_CODEC_H265 | VMC_VIDEO_CODEC_AV1.

Definition k_hw_decoders : list (list Z) :=
  [chars "h264_cuvid"; chars "h264_v4l2m2m"; chars "h264_vaapi"].

Definition sw_name : list Z := chars "h264 (software)".

(** What the decoder holds: library objects and memory. The CUDA device
    context belongs to the codec context. *)
Inductive resource := R_ctx | R_cx | R_frame | R_pkt | R_rgb | R_in_buf | R_lib | R_sws.

#[export] Instance resource_eq_dec : EqDecision resource.
Proof. solve_decision. Defined.

Definition heap : Type := list resource.
Definition free (r : resource) (h : heap) : heap := filter (fun x => x <> r) h.

(** [sws]: the source size the scaler was created for. *)
Record avcodec_cx := mk_cx { sws : option (Z * Z) }.

Record vmc_ffmpeg_decoder := mk_dec {
  codec_ctx : option avcodec_cx; in_buf : option (list Z); rgb : option (list Z);
  next_pts : Z; last_send_pts : Z; last_frame_pts : Z; cuda_lib : bool; cuda_conv : bool;
  cuda_ctx : bool; output_cuda : bool; rgb_cap : Z; out_w : Z; out_h : Z; opened : bool;
}.

#[export] Instance eta_dec : Eta vmc_ffmpeg_decoder := fun d =>
  mk_dec (codec_ctx d) (in_buf d) (rgb d) (next_pts d) (last_send_pts d) (last_frame_pts d)
    (cuda_lib d) (cuda_conv d) (cuda_ctx d) (output_cuda d) (rgb_cap d) (out_w d) (out_h d)
    (opened d).

Definition vmc_ffmpeg_decoder_init (d : option vmc_ffmpeg_decoder) (w h : Z)
    : vmc_status * option vmc_ffmpeg_decoder :=
  match d with
  | None => (VMC_ERR_INVALID_ARG, None)
  | Some _ => (VMC_OK, Some (mk_dec None None None 0 0 0 false false false false 0 w h false))
  end.

(** ** Open and close *)

(** The answers of the environment and the libraries during one open:
    [VMC_FORCE_DECODER], the codecs found, and whether each call succeeds. *)
Record open_env := mk_open_env {
  forced : option (list Z); by_name : list Z -> bool; h264_found : bool;
  alloc1 : bool; hwdev_ok : bool; open1 : bool; alloc2 : bool; open2 : bool;
  cx_ok : bool; frame_ok : bool; pkt_ok : bool; rgb_ok : bool; in_buf_ok : bool;
  lib_ok : bool; sym_ok : bool;
}.

(** The codec tried first, by name. *)
Definition choose_codec (e : open_env) : option (list Z) :=
  let first := match forced e with
               | Some (c :: n) => if by_name e (c :: n) then Some (c :: n) else None
               | _ => None
               end in
  match first with
  | Some n => Some n
  | None =>
    match find (by_name e) k_hw_decoders with
    | Some n => Some n
    | None => if h264_found e then Some sw_name else None
    end
  end.

(** Allocating and opening the codec context, with the software retry; the
    codec in use, if one opened. *)
Definition open_codec (cuda : bool) (e : open_env) (used : list Z) (h : heap)
    : vmc_status * option (list Z) * heap :=
  if negb (alloc1 e) then (VMC_ERR_NOMEM, None, h) else
  let h := R_ctx :: h in
  if cuda && negb (hwdev_ok e) then (VMC_ERR_IO, None, free R_ctx h) else
  if open1 e then (VMC_OK, Some used, h) else
  let h := free R_ctx h in
  if bool_decide (zget used 0 = Some 104) && negb (bool_decide (take 16 used = sw_name)) then
    if negb (alloc2 e) then (VMC_ERR_NOMEM, None, h) else
    if open2 e then (VMC_OK, Some sw_name, R_ctx :: h) else (VMC_ERR_IO, None, h)
  else (VMC_ERR_IO, None, h).

(** The buffers of a decoder whose codec is open. *)
Definition alloc_buffers (d : vmc_ffmpeg_decoder) (e : open_env) (AU_PAD : Z) (h : heap)
    : vmc_status * vmc_ffmpeg_decoder * heap :=
  if negb (cx_ok e) then (VMC_ERR_NOMEM, d, free R_ctx h) else
  let h := R_cx :: h in
  let h := if frame_ok e then R_frame :: h else h in
  let h := if pkt_ok e then R_pkt :: h else h in
  if negb (frame_ok e && pkt_ok e)
  then (VMC_ERR_NOMEM, d, free R_ctx (free R_cx (free R_pkt (free R_frame h)))) else
  let d := d <| codec_ctx := Some (mk_cx None) |> in
  let d := if decide (out_w d = 0 \/ out_h d = 0) then d <| out_w := 1920 |> <| out_h := 1080 |> else d in
  let cap := u32 (u32 (out_w d * out_h d) * 4) in
  let d := d <| rgb_cap := cap |> in
  let h := if rgb_ok e then R_rgb :: h else h in
  let h := if in_buf_ok e then R_in_buf :: h else h in
  if negb (rgb_ok e && in_buf_ok e)
  then (VMC_ERR_NOMEM, d <| codec_ctx := None |> <| in_buf := None |> <| rgb := None |>,
        free R_rgb (free R_in_buf (free R_ctx (free R_cx (free R_pkt (free R_frame h)))))) else
  let d := d <| rgb := Some (replicate (Z.to_nat (u32 (cap + DECODER_ALIGNMENT))) 0) |>
             <| in_buf := Some (replicate (Z.to_nat (VMC_VIDEO_AU_MAX + AU_PAD)) 0) |>
             <| opened := true |> in
  let h := if lib_ok e then (if sym_ok e then R_lib :: h else h) else h in
  (VMC_OK, d <| cuda_lib := lib_ok e && sym_ok e |>
             <| cuda_conv := if lib_ok e then sym_ok e else cuda_conv d |>, h).

(** [AU_PAD] is libavcodec's [AV_INPUT_BUFFER_PADDING_SIZE]. The name of the
    codec in use is returned too. *)
Definition ffmpeg_open (d : vmc_ffmpeg_decoder) (codec : vmc_video_codec) (e : open_env) (AU_PAD : Z)
    (h : heap) : vmc_status * option (list Z) * vmc_ffmpeg_decoder * heap :=
  match codec with
  | VMC_VIDEO_CODEC_H264 =>
    match choose_codec e with
    | None => (VMC_ERR_NOSYS, None, d, h)
    | Some used =>
      let d1 := if output_cuda d && alloc1 e && hwdev_ok e then d <| cuda_ctx := true |> else d in
      match open_codec (output_cuda d) e used h with
      | (_, Some used, h) =>
        let '(st, d, h) := alloc_buffers d1 e AU_PAD h in
        (st, if decide (st = VMC_OK) then Some used else None, d, h)
      | (st, None, h) => (st, None, d1, h)
      end
    end
  | _ => (VMC_ERR_NOSYS, None, d, h)
  end.

Definition ffmpeg_close (d : vmc_ffmpeg_decoder) (h : heap) : vmc_ffmpeg_decoder * heap :=
  let h := if cuda_lib d then free R_lib h else h in
  let d := if cuda_lib d then d <| cuda_lib := false |> <| cuda_conv := false |> else d in
  let h := match codec_ctx d with
           | Some _ => free R_cx (free R_ctx (free R_pkt (free R_frame (free R_sws h))))
           | None => h
           end in
  (d <| codec_ctx := None |> <| in_buf := None |> <| rgb := None |> <| opened := false |>,
   free R_rgb (free R_in_buf h)).

(** ** Decode *)

(** A decoded frame as libavcodec returns it. *)
Record av_frame := mk_av {
  av_w : Z; av_h : Z; linesize0 : Z; linesize1 : Z; av_pts : Z; data0 : list Z; data1 : list Z;
}.

Inductive received := RX_AGAIN | RX_ERROR | RX_FRAME (f : av_frame).

(** libavcodec: [send_packet l data pts] returns its code; [receive_frame] the
    frame, "again" (also at the end of the stream) or an error. The scaler and
    the CUDA converter give the bytes they write, [None] when they fail. *)
Class Codec (L : Type) := {
  send_packet : L -> list Z -> Z -> Z * L;
  receive_frame : L -> received * L;
  new_packet : L -> Z -> bool;
  sws_create : av_frame -> bool;
  sws_scale : Z * Z -> av_frame -> Z -> Z -> list Z;
  cuda_convert : av_frame -> Z -> Z -> option (list Z);
}.

Section WithCodec.
Context {L : Type} `{Codec L} (AU_PAD : Z).

(** Converting a frame into [rgb]: the status and the decoder. *)
Definition convert (d : vmc_ffmpeg_decoder) (cx : avcodec_cx) (f : av_frame)
    : option (vmc_status * vmc_ffmpeg_decoder) :=
  buf ← rgb d;
  if cuda_conv d then
    match cuda_convert f (out_w d) (out_h d) with
    | None => Some (VMC_ERR_IO, d)
    | Some px => buf ← blit buf 0 px; Some (VMC_OK, d <| rgb := Some buf |>)
    end
  else
    let created := match sws cx with
                   | Some s => Some s
                   | None => if sws_create f then Some (av_w f, av_h f) else None
                   end in
    match created with
    | None => Some (VMC_ERR_NOSYS, d)
    | Some s =>
      buf ← blit buf 0 (sws_scale s f (out_w d) (out_h d));
      Some (VMC_OK, d <| codec_ctx := Some (mk_cx (Some s)) |> <| rgb := Some buf |>)
    end.

(** The frame [ffmpeg_decode] delivers from the device or from [rgb]; its plane
    pointer is [rgb] itself, so it is valid until the next call. *)
Definition device_frame (f : av_frame) : Fb.vmc_video_frame :=
  Fb.mk_frame (u16 (av_w f)) (u16 (av_h f)) Fb.VMC_PIXFMT_NV12 (u32 (linesize0 f)) (u32 (linesize1 f))
    0 true (data0 f) (data1 f).

Definition rgb_frame (d : vmc_ffmpeg_decoder) : Fb.vmc_video_frame :=
  Fb.mk_frame (out_w d) (out_h d) Fb.VMC_PIXFMT_RGB32 (u32 (out_w d * 4)) 0 0 false
    (default [] (rgb d)) [].

(** What follows a received frame. *)
Definition deliver (d : vmc_ffmpeg_decoder) (cx : avcodec_cx) (f : av_frame)
    : option (vmc_status * option Fb.vmc_video_frame * vmc_ffmpeg_decoder) :=
  let d := d <| last_frame_pts := av_pts f |> in
  if output_cuda d then Some (VMC_OK, Some (device_frame f), d) else
  '(st, d) ← convert d cx f;
  Some (st, if decide (st = VMC_OK) then Some (rgb_frame d) else None, d).

(** The status, the frame, the decoder, the library and the packet sent. [out]:
    the frame pointer is not NULL. *)
Definition ffmpeg_decode (d : vmc_ffmpeg_decoder) (l : L) (data : option (list Z)) (len : Z) (out : bool)
    : option (vmc_status * option Fb.vmc_video_frame * vmc_ffmpeg_decoder * L * option (list Z * Z)) :=
  match codec_ctx d, data with
  | Some cx, Some p =>
    if negb (opened d) || bool_decide (len = 0) || negb out
    then Some (VMC_ERR_INVALID_ARG, None, d, l, None) else
    if decide (len > VMC_VIDEO_AU_MAX) then Some (VMC_ERR_OVERRUN, None, d, l, None) else
    au ← slice p 0 len;
    b ← in_buf d;
    b ← blit b 0 au;
    b ← blit b len (replicate (Z.to_nat AU_PAD) 0);
    let d := d <| in_buf := Some b |> in
    if negb (new_packet l len) then Some (VMC_ERR_NOMEM, None, d, l, None) else
    pkt ← slice b 0 len;
    let pts := next_pts d in
    let d := d <| last_send_pts := pts |> <| next_pts := pts + 1 |> in
    let '(rc, l) := send_packet l pkt pts in
    if decide (rc < 0) then Some (VMC_ERR_PROTO, None, d, l, Some (pkt, pts)) else
    match receive_frame l with
    | (RX_AGAIN, l) => Some (VMC_ERR_AGAIN, None, d, l, Some (pkt, pts))
    | (RX_ERROR, l) => Some (VMC_ERR_PROTO, None, d, l, Some (pkt, pts))
    | (RX_FRAME f, l) =>
      '(st, fr, d) ← deliver d cx f;
      Some (st, fr, d, l, Some (pkt, pts))
    end
  | _, _ => Some (VMC_ERR_INVALID_ARG, None, d, l, None)
  end.

End WithCodec.

(** ** Opening takes everything or nothing *)

Lemma open_codec_spec cuda e used :
  let '(st, u, h) := open_codec cuda e used [] in
  (u = None <-> st <> VMC_OK) /\
  h = (if decide (st = VMC_OK) then [R_ctx] else []) /\
  (st = VMC_OK -> u = Some (if open1 e then used else sw_name)).
Proof.
  unfold open_codec. destruct (alloc1 e); cbn [negb]; [|by split_and!].
  destruct (cuda && negb (hwdev_ok e)); [by split_and!|].
  destruct (open1 e); [by split_and!|].
  destruct (bool_decide _ && _); [|by split_and!].
  destruct (alloc2 e); cbn [negb]; [|by split_and!]. destruct (open2 e); by split_and!.
Qed.

Definition held (d : vmc_ffmpeg_decoder) : heap :=
  (if cuda_lib d then [R_lib] else []) ++ [R_in_buf; R_rgb; R_pkt; R_frame; R_cx; R_ctx].

(** The output buffer holds a whole picture where the 32-bit size does not
    wrap. *)
Definition out_dims (d : vmc_ffmpeg_decoder) : Z * Z :=
  if decide (out_w d = 0 \/ out_h d = 0) then (1920, 1080) else (out_w d, out_h d).

Definition opened_ok (AU_PAD : Z) (d : vmc_ffmpeg_decoder) : Prop :=
  opened d = true /\ (exists cx, codec_ctx d = Some cx) /\
  (exists b, in_buf d = Some b /\ zlen b = VMC_VIDEO_AU_MAX + AU_PAD) /\
  exists r, rgb d = Some r /\ zlen r = u32 (u32 (u32 (out_w d * out_h d) * 4) + 64).

Lemma alloc_buffers_spec d e AU_PAD : 0 <= AU_PAD -> codec_ctx d = None -> opened d = false ->
  let '(st, d', h) := alloc_buffers d e AU_PAD [R_ctx] in
  (st = VMC_OK -> opened_ok AU_PAD d' /\ h = held d' /\ (out_w d', out_h d') = out_dims d /\
                  next_pts d' = next_pts d) /\
  (st <> VMC_OK -> h = [] /\ codec_ctx d' = None /\ opened d' = false).
Proof.
  intros Hpad Hc Ho. unfold alloc_buffers.
  destruct (cx_ok e), (frame_ok e), (pkt_ok e); cbn [negb andb]; try (split; [done|by intros _]).
  cbv zeta. set (d1 := if decide _ then _ else _).
  assert (Hd1 : (out_w d1, out_h d1) = out_dims d /\ next_pts d1 = next_pts d /\
                opened d1 = false /\ exists cx, codec_ctx d1 = Some cx).
  { unfold d1, out_dims. cbn [out_w out_h upd_field]. case_decide; cbn; eauto. }
  clearbody d1. destruct Hd1 as (Hdims & Hnp & Hop & Hcx). cbn [out_w out_h upd_field].
  destruct (rgb_ok e), (in_buf_ok e); cbn [negb andb]; try (split; [done|by intros _]).
  split; [|done]. intros _. split_and!; try done.
  - split_and!; [done|done| |]; eexists; (split; [done|]); rewrite zlen_replicate.
    + rewrite Z2Nat.id; [done|]. unfold VMC_VIDEO_AU_MAX. lia.
    + rewrite Z2Nat.id; [done|]. apply u32_range.
  - unfold held. cbn [cuda_lib upd_field]. by destruct (lib_ok e), (sym_ok e).
Qed.

(** C32. Opening the decoder is all or nothing. For every combination of codecs
    found and calls that fail: if it succeeds, the codec in use is the one
    preferred (the forced one, else the first hardware decoder found, else
    software), or the software one after the preferred failed to open; the
    decoder is opened with a staging buffer for the largest access unit plus
    padding, and holds exactly its context, frame, packet, two buffers and
    perhaps the converter, all of which closing gives back; if it fails,
    nothing allocated is kept and the decoder stays closed. *)
Theorem decoder_open_all_or_nothing d e AU_PAD :
  0 <= AU_PAD -> codec_ctx d = None -> opened d = false ->
  let '(st, used, d', h) := ffmpeg_open d VMC_VIDEO_CODEC_H264 e AU_PAD [] in
  (st = VMC_OK ->
     (exists name, choose_codec e = Some name /\ used = Some (if open1 e then name else sw_name)) /\
     opened_ok AU_PAD d' /\ (out_w d', out_h d') = out_dims d /\ h = held d' /\
     snd (ffmpeg_close d' h) = []) /\
  (st <> VMC_OK -> h = [] /\ codec_ctx d' = None /\ opened d' = false).
Proof.
  intros Hpad Hc Ho. unfold ffmpeg_open. destruct (choose_codec e) as [name|] eqn:En.
  2: { split; [done|]. by intros _. }
  set (d1 := if output_cuda d && alloc1 e && hwdev_ok e then _ else d).
  assert (Hd1 : codec_ctx d1 = None /\ opened d1 = false /\ out_dims d1 = out_dims d)
    by (unfold d1; by destruct (output_cuda d && alloc1 e && hwdev_ok e)).
  clearbody d1. destruct Hd1 as (Hc1 & Ho1 & Hdm).
  pose proof (open_codec_spec (output_cuda d) e name) as Hop.
  destruct (open_codec (output_cuda d) e name []) as [[st u] h]. destruct Hop as (Hu & -> & Hname).
  destruct u as [u|].
  - assert (Hst : st = VMC_OK) by (destruct (decide (st = VMC_OK)); [done|by apply Hu in n]).
    rewrite decide_True by done.
    pose proof (alloc_buffers_spec d1 e AU_PAD Hpad Hc1 Ho1) as Ha.
    destruct (alloc_buffers d1 e AU_PAD [R_ctx]) as [[st' d'] h']. destruct Ha as [Hok Hfail].
    split; [|done]. intros Hst'. destruct (Hok Hst') as (Hopd & Hh & Hdims & _).
    rewrite decide_True by done. split_and!; try done.
    + exists name. split; [done|]. by apply Hname.
    + congruence.
    + rewrite Hh. destruct Hopd as (_ & (cx & Hcx) & _). unfold ffmpeg_close, held.
      destruct (cuda_lib d'); cbn [codec_ctx upd_field]; rewrite Hcx; reflexivity.
  - assert (Hst : st <> VMC_OK) by (apply Hu; done). rewrite decide_False by done.
    split; [done|]. by intros _.
Qed.

(** The hardware decoder is found but does not open; software is used. *)
Definition demo_open : open_env :=
  mk_open_env None (fun n => bool_decide (n = chars "h264_vaapi")) true true true false true true
    true true true true true false true.

Lemma decoder_open_all_or_nothing_witness :
  let '(st, used, d', h) :=
    ffmpeg_open (mk_dec None None None 0 0 0 false false false false 0 0 0 false)
      VMC_VIDEO_CODEC_H264 demo_open 64 [] in
  st = VMC_OK /\ used = Some sw_name /\ h = held d' /\ snd (ffmpeg_close d' h) = [].
Proof.
  pose proof (decoder_open_all_or_nothing
    (mk_dec None None None 0 0 0 false false false false 0 0 0 false) demo_open 64
    ltac:(lia) eq_refl eq_refl) as H.
  destruct (ffmpeg_open (mk_dec None None None 0 0 0 false false false false 0 0 0 false)
    VMC_VIDEO_CODEC_H264 demo_open 64 []) as [[[st used] d'] h] eqn:E.
  assert (Hst : st = VMC_OK) by (transitivity (fst (fst (fst (st, used, d', h))));
    [reflexivity|rewrite <- E; reflexivity]).
  destruct H as [H _]. destruct (H Hst) as ((n & Hn & Hu) & _ & _ & Hh & Hc).
  split_and!; [exact Hst|rewrite Hu; reflexivity|exact Hh|exact Hc].
Defined.

(** ** Feeding access units *)

Section Feeding.
Context {L : Type} `{Codec L} (AU_PAD : Z).
Hypothesis pad_nonneg : 0 <= AU_PAD.

(** The converters write at most the picture they are asked for. *)
Hypothesis sws_fits : forall s f w h, 0 <= w * h -> zlen (sws_scale s f w h) <= 4 * (w * h).
Hypothesis cuda_fits : forall f w h px, 0 <= w * h -> cuda_convert f w h = Some px -> zlen px <= 4 * (w * h).

Definition ready (d : vmc_ffmpeg_decoder) : Prop :=
  opened_ok AU_PAD d /\ 0 <= out_w d * out_h d < 1073741808.

Lemma ready_rgb d b : ready d -> rgb d = Some b -> zlen b = 4 * (out_w d * out_h d) + 64.
Proof.
  intros [(_ & _ & _ & r & Hr & Hz) Hd] Hb. assert (r = b) as -> by congruence. rewrite Hz.
  rewrite (u32_small (out_w d * out_h d)) by lia. rewrite (u32_small (_ * 4)) by lia.
  rewrite u32_small by lia. lia.
Qed.

Lemma convert_ready d cx f : ready d -> codec_ctx d = Some cx ->
  exists st d', convert d cx f = Some (st, d') /\ ready d' /\ next_pts d' = next_pts d /\
    (st = VMC_OK \/ st = VMC_ERR_IO \/ st = VMC_ERR_NOSYS).
Proof.
  intros Hr Hcx. pose proof Hr as [(Ho & _ & Hin & r & Hrgb & Hz) Hd].
  pose proof (ready_rgb d r Hr Hrgb) as Hrz. unfold convert. rewrite Hrgb. cbn [mbind option_bind].
  assert (Hwrite : forall px, zlen px <= 4 * (out_w d * out_h d) ->
            exists r', blit r 0 px = Some r' /\ zlen r' = zlen r).
  { intros px Hpx. destruct (blit_ok r px 0) as [r' E]; [lia|lia|]. exists r'. split; [done|].
    by apply blit_inv in E as (_ & _ & ? & _). }
  destruct (cuda_conv d).
  - destruct (cuda_convert f (out_w d) (out_h d)) as [px|] eqn:Ec.
    + destruct (Hwrite px (cuda_fits _ _ _ _ (proj1 Hd) Ec)) as (r' & -> & Hr'). cbn [mbind option_bind].
      eexists _, _. split; [done|]. split; [|tauto]. split; [|done]. split_and!; [done|by eexists|done|].
      exists r'. split; [done|]. by rewrite Hr'.
    + eexists _, _. split; [done|]. tauto.
  - cbv zeta. destruct (match sws cx with Some _ => _ | None => _ end) as [s|].
    + destruct (Hwrite _ (sws_fits s f (out_w d) (out_h d) (proj1 Hd))) as (r' & -> & Hr'). cbn [mbind option_bind].
      eexists _, _. split; [done|]. split; [|tauto]. split; [|done]. split_and!; [done|by eexists|done|].
      exists r'. split; [done|]. by rewrite Hr'.
    + eexists _, _. split; [done|]. tauto.
Qed.

Lemma deliver_ready d cx f : ready d -> codec_ctx d = Some cx ->
  exists st fr d', deliver d cx f = Some (st, fr, d') /\ ready d' /\ next_pts d' = next_pts d /\
    (st = VMC_OK \/ st = VMC_ERR_IO \/ st = VMC_ERR_NOSYS) /\ (is_Some fr <-> st = VMC_OK).
Proof.
  intros Hr Hcx. unfold deliver. cbv zeta. set (d1 := d <| last_frame_pts := av_pts f |>).
  assert (Hr1 : ready d1) by done. destruct (output_cuda d1).
  - eexists _, _, _. split; [done|]. split_and!; [done|done|tauto|]. split; [done|by eexists].
  - destruct (convert_ready d1 cx f Hr1 Hcx) as (st & d' & -> & Hr' & Hn & Hst).
    cbn [mbind option_bind]. eexists _, _, _. split; [done|]. split_and!; [done|done|done|].
    case_decide; split; try done; by intros [? ?].
Qed.

(** Statuses that mean no packet was sent. *)
Definition refused (st : vmc_status) : bool :=
  bool_decide (st = VMC_ERR_INVALID_ARG \/ st = VMC_ERR_OVERRUN \/ st = VMC_ERR_NOMEM).

Lemma stage_au d p b : in_buf d = Some b -> zlen b = VMC_VIDEO_AU_MAX + AU_PAD ->
  0 < zlen p <= VMC_VIDEO_AU_MAX ->
  exists b1 b2, blit b 0 p = Some b1 /\ blit b1 (zlen p) (replicate (Z.to_nat AU_PAD) 0) = Some b2 /\
    zlen b2 = zlen b /\ slice b2 0 (zlen p) = Some p.
Proof.
  intros Hb Hz Hp. destruct (blit_ok b p 0) as [b1 H1]; [lia|lia|].
  pose proof (blit_inv _ _ _ _ H1) as (_ & _ & Hz1 & Hg1).
  destruct (blit_ok b1 (replicate (Z.to_nat AU_PAD) 0) (zlen p)) as [b2 H2].
  { lia. } { rewrite zlen_replicate, Z2Nat.id by done. lia. }
  pose proof (blit_inv _ _ _ _ H2) as (_ & _ & Hz2 & Hg2).
  exists b1, b2. split_and!; [done|done|lia|]. rewrite slice_take by lia. f_equal.
  apply zget_ext. intros i Hi. destruct (decide (i < zlen p)).
  - rewrite zget_take by lia. rewrite Hg2, decide_False by lia. rewrite Hg1, decide_True by lia.
    f_equal. lia.
  - rewrite !zget_ge; [done|lia|]. rewrite zlen_take by lia. lia.
Qed.

#[local] Ltac outcome :=
  split_and!; try done; try (by intros [? ?]); try (unfold VMC_VIDEO_AU_MAX in *; lia).

Lemma decode_ready d l p : ready d ->
  exists st fr d' l' pk, ffmpeg_decode AU_PAD d l (Some p) (zlen p) true = Some (st, fr, d', l', pk) /\
    ready d' /\ (is_Some fr <-> st = VMC_OK) /\
    (zlen p = 0 -> st = VMC_ERR_INVALID_ARG) /\ (zlen p > VMC_VIDEO_AU_MAX -> st = VMC_ERR_OVERRUN) /\
    pk = (if refused st then None else Some (p, next_pts d)) /\
    next_pts d' = (if refused st then next_pts d else next_pts d + 1).
Proof.
  intros Hr. pose proof Hr as [(Ho & (cx & Hcx) & (b & Hb & Hbz) & Hrgb) Hd].
  pose proof (zlen_nonneg p). unfold ffmpeg_decode. rewrite Hcx, Ho. cbn [negb orb].
  rewrite orb_false_r. destruct (bool_decide (zlen p = 0)) eqn:E0.
  { apply bool_decide_eq_true in E0. eexists _, _, _, _, _. split; [done|].
    outcome. }
  apply bool_decide_eq_false in E0. destruct (decide (zlen p > VMC_VIDEO_AU_MAX)) as [Hgt|Hle].
  { eexists _, _, _, _, _. split; [done|]. outcome. }
  destruct (stage_au d p b Hb Hbz ltac:(lia)) as (b1 & b2 & H1 & H2 & Hz2 & Hpk).
  rewrite slice_take by lia. rewrite (take_ge p) by (unfold zlen; lia). rewrite Hb.
  cbn [mbind option_bind]. rewrite H1. cbn [mbind option_bind]. rewrite H2. cbn [mbind option_bind].
  assert (Hr2 : forall s n, ready (d <| in_buf := Some b2 |> <| last_send_pts := s |> <| next_pts := n |>)).
  { intros s n. split; [|done]. split_and!; [done|by eexists| |done]. exists b2. split; [done|]. congruence. }
  destruct (new_packet l (zlen p)); cbn [negb].
  2: { eexists _, _, _, _, _. split; [done|]. outcome.
       exact (Hr2 (last_send_pts d) (next_pts d)). }
  rewrite Hpk. cbn [mbind option_bind]. cbn [next_pts upd_field]. specialize (Hr2 (next_pts d) (next_pts d + 1)).
  set (d2 := _ <| next_pts := next_pts d + 1 |>) in *. destruct (send_packet l p (next_pts d)) as [rc l1].
  destruct (decide (rc < 0)).
  { eexists _, _, _, _, _. split; [done|]. outcome. }
  destruct (receive_frame l1) as [[| |f] l2].
  1-2: eexists _, _, _, _, _; (split; [done|]); outcome.
  destruct (deliver_ready d2 cx f Hr2 Hcx) as (st & fr & d3 & -> & Hr3 & Hn3 & Hst & Hfr).
  cbn [mbind option_bind]. eexists _, _, _, _, _. split; [done|].
  destruct Hst as [-> | [-> | ->]]; outcome; apply Hfr.
Qed.

(** A call depends on the [len] bytes of the unit only. *)
Lemma decode_prefix d l buf len : 0 <= len <= zlen buf ->
  ffmpeg_decode AU_PAD d l (Some buf) len true
  = ffmpeg_decode AU_PAD d l (Some (take (Z.to_nat len) buf)) len true.
Proof.
  intros Hl. unfold ffmpeg_decode. destruct (codec_ctx d); [|done].
  rewrite !slice_take by (rewrite ?zlen_take; lia). by rewrite take_take, Nat.min_id.
Qed.

(** What a call leaves alone, and the picture it delivers from memory. *)
Definition same_output (d d' : vmc_ffmpeg_decoder) : Prop :=
  out_w d' = out_w d /\ out_h d' = out_h d /\ output_cuda d' = output_cuda d.

Lemma convert_output d cx f st d' : convert d cx f = Some (st, d') ->
  same_output d d' /\ last_send_pts d' = last_send_pts d.
Proof.
  unfold convert. intros (b & _ & E)%bind_Some. revert E. destruct (cuda_conv d).
  - destruct (cuda_convert f _ _) as [px|]; [|by intros [= <- <-]]. by intros (b1 & _ & [= <- <-])%bind_Some.
  - cbv zeta. destruct (match sws cx with Some _ => _ | None => _ end) as [s|]; [|by intros [= <- <-]].
    by intros (b1 & _ & [= <- <-])%bind_Some.
Qed.

Lemma deliver_output d cx f st fr d' : deliver d cx f = Some (st, fr, d') ->
  same_output d d' /\ last_send_pts d' = last_send_pts d /\
  (forall g, fr = Some g -> output_cuda d = false -> g = rgb_frame d').
Proof.
  unfold deliver. cbv zeta. set (d0 := d <| last_frame_pts := av_pts f |>).
  change (output_cuda d0) with (output_cuda d). destruct (output_cuda d) eqn:Eo.
  { intros [= <- <- <-]. by split_and!. }
  intros ([st1 d1] & H1 & H2)%bind_Some. injection H2 as <- <- <-.
  apply convert_output in H1 as [Hs Hl]. split_and!; [exact Hs|exact Hl|].
  intros g. by case_decide; [intros [= <-]|].
Qed.

Lemma decode_output d l p len st fr d' l' pk :
  ffmpeg_decode AU_PAD d l p len true = Some (st, fr, d', l', pk) ->
  same_output d d' /\
  (forall g, fr = Some g -> last_send_pts d' = next_pts d /\ (output_cuda d = false -> g = rgb_frame d')).
Proof.
  unfold ffmpeg_decode. destruct (codec_ctx d) as [cx|], p as [p|]; try by intros [= <- <- <- <- <-].
  destruct (negb (opened d) || _ || _); [by intros [= <- <- <- <- <-]|].
  case_decide; [by intros [= <- <- <- <- <-]|].
  intros (au & _ & (b & _ & (b1 & _ & (b2 & _ & E)%bind_Some)%bind_Some)%bind_Some)%bind_Some. revert E.
  destruct (new_packet l len); cbn [negb]; [|by intros [= <- <- <- <- <-]].
  intros (pkt & _ & E)%bind_Some. revert E. destruct (send_packet l pkt _) as [rc l1].
  case_decide; [by intros [= <- <- <- <- <-]|].
  destruct (receive_frame l1) as [[| |f] l2]; [by intros [= <- <- <- <- <-]..|].
  intros ([[st1 fr1] d1] & E1 & E2)%bind_Some. injection E2 as <- <- <- <- <-.
  apply deliver_output in E1 as (Hs & Hl & Hf). split; [exact Hs|]. intros g Hg. split; [exact Hl|].
  intros Ho. by apply Hf.
Qed.

(** A run of decode calls: the statuses and the packets sent. *)
Fixpoint feed (d : vmc_ffmpeg_decoder) (l : L) (aus : list (list Z))
    : option (list vmc_status * list (list Z * Z) * vmc_ffmpeg_decoder * L) :=
  match aus with
  | [] => Some ([], [], d, l)
  | p :: aus =>
    '(st, _, d, l, pk) ← ffmpeg_decode AU_PAD d l (Some p) (zlen p) true;
    '(sts, pks, d, l) ← feed d l aus;
    Some (st :: sts, match pk with Some x => x :: pks | None => pks end, d, l)
  end.

(** The access units whose call was not refused. *)
Fixpoint accepted (aus : list (list Z)) (sts : list vmc_status) : list (list Z) :=
  match aus, sts with
  | p :: aus, st :: sts => if refused st then accepted aus sts else p :: accepted aus sts
  | _, _ => []
  end.

(** Feeding the decoder: on an open decoder, for any codec library, any
    sequence of access units and any errors on the way, no access leaves a
    buffer; one status per unit is returned, "invalid" for an empty unit and
    "overrun" for one above 512 KiB; and the packets the library receives are
    exactly the units not refused, byte for byte and in order, with consecutive
    timestamps from the decoder's counter on. *)
Theorem decoder_feeds_in_order d l aus :
  ready d ->
  exists sts pks d' l', feed d l aus = Some (sts, pks, d', l') /\ ready d' /\
    length sts = length aus /\ map fst pks = accepted aus sts /\
    map snd pks = seqZ (next_pts d) (zlen pks) /\
    Forall2 (fun p st => (zlen p = 0 -> st = VMC_ERR_INVALID_ARG) /\
                         (zlen p > VMC_VIDEO_AU_MAX -> st = VMC_ERR_OVERRUN)) aus sts.
Proof.
  revert d l. induction aus as [|p aus IH]; intros d l Hr; cbn [feed].
  { exists [], [], d, l. by split_and!. }
  destruct (decode_ready d l p Hr) as (st & fr & d1 & l1 & pk & -> & Hr1 & _ & Hi & Hov & Hpk & Hn).
  cbn [mbind option_bind]. destruct (IH d1 l1 Hr1) as (sts & pks & d2 & l2 & -> & Hr2 & Hl & Hf & Hs & Ha).
  cbn [mbind option_bind]. eexists _, _, _, _. split; [done|].
  split_and!; [done|cbn; congruence| | |by constructor]; subst pk; cbn [accepted]; destruct (refused st).
  - done.
  - cbn [map fst]. by rewrite Hf.
  - by rewrite Hs, Hn.
  - cbn [map snd]. rewrite Hs, Hn, zlen_cons. rewrite (seqZ_cons (next_pts d)) by (pose proof (zlen_nonneg pks); lia).
    f_equal. f_equal; lia.
Qed.

End Feeding.

(** A library that returns each packet's frame at once, in grey. *)
#[export] Instance demo_codec : Codec Z := {
  send_packet l _ _ := (0, l + 1);
  receive_frame l := (RX_FRAME (mk_av 4 4 4 4 (l - 1) [] []), l);
  new_packet _ _ := true;
  sws_create _ := true;
  sws_scale _ _ w h := replicate (Z.to_nat (4 * (w * h))) 128;
  cuda_convert _ _ _ := None;
}.

Lemma demo_codec_fits s f w h : 0 <= w * h -> zlen (sws_scale (L := Z) s f w h) <= 4 * (w * h).
Proof.
  intros Hwh. change (zlen (replicate (Z.to_nat (4 * (w * h))) 128) <= 4 * (w * h)).
  rewrite zlen_replicate. lia.
Qed.

Definition demo_dec : vmc_ffmpeg_decoder :=
  mk_dec (Some (mk_cx None)) (Some (replicate (Z.to_nat (VMC_VIDEO_AU_MAX + 64)) 0))
    (Some (replicate 80 0)) 7 0 0 false false false false 16 2 2 true.

Lemma decoder_feeds_in_order_witness :
  exists sts pks d' l', feed 64 demo_dec 0 [[1; 2]; []; [3]] = Some (sts, pks, d', l') /\
    length sts = 3%nat /\ map fst pks = accepted [[1; 2]; []; [3]] sts /\
    map snd pks = seqZ 7 (zlen pks).
Proof.
  destruct (decoder_feeds_in_order 64 ltac:(lia)
    demo_codec_fits ltac:(intros f w h px Hwh Hpx; discriminate Hpx) demo_dec 0 [[1; 2]; []; [3]])
    as (sts & pks & d' & l' & Hf & _ & Hl & Hp & Hs & _).
  - split; [|vm_compute; split; [discriminate|reflexivity]].
    split; [reflexivity|]. split; [eexists; reflexivity|]. split; [|eexists; split; reflexivity].
    eexists. split; [reflexivity|]. rewrite zlen_replicate. apply Z2Nat.id. vm_compute. discriminate.
  - exists sts, pks, d', l'. split_and!; [exact Hf|exact Hl|exact Hp|exact Hs].
Defined.

End Dec.
