(* ===== verification/HttpClient.v ===== *)
(** * The HTTP client of the thin client ([apps/thinclient/main.c], [http_get])

    The fetch of a manifest or a segment: URL, connection, request, reception
    and body. The resolver, the sockets, the clock and the allocator are
    arguments: each wait of the code is a list of events, what the loop observes
    in each round. The time limit handed to [poll] only decides when the next
    event comes and is not represented. *)

From S2P Require Import Prelude Text.
From stdpp Require Import strings.
Import Text.

#[local] Open Scope Z_scope.

Module Http.

Record http_fetch_stats := mk_stats {
  ttfb_us : Z; total_us : Z; rtt_us : Z; bytes_rx : Z;
}.

#[export] Instance eta_stats : Eta http_fetch_stats := fun s =>
  mk_stats (ttfb_us s) (total_us s) (rtt_us s) (bytes_rx s).

Definition http_stats_init : http_fetch_stats := mk_stats 0 0 0 0.

(** ** URL *)

(** Host, port and path. *)
Definition parse_url (url : list Z) : option (list Z * Z * list Z) :=
  match strstr (chars "://") url with
  | None => None
  | Some p =>
    let p := drop 3 p in
    let '(host_port, path) :=
      match strchr 47 p with
      | Some (a, slash) => (take 255 a, slash)
      | None => (stored 256 p, chars "/")
      end in
    match strchr 58 host_port with
    | Some (h, colon) => Some (h, atoi (drop 1 colon), path)
    | None => Some (host_port, 80, path)
    end
  end.

(** ** Waiting for the socket *)

Definition timeout_us (timeout_ms : Z) : Z := u64 (u64 timeout_ms * 1000).

(** A round of a waiting loop: [g_run] and the clock when the round starts, and
    what [poll], and the call made when the socket is ready, answer. *)
Inductive connect_answer :=
| Conn_poll_failed (eintr : bool)
| Conn_nothing
| Conn_error                          (* getsockopt fails or reports an error *)
| Conn_ready (run : bool) (now : Z).  (* and [g_run], the clock after the loop *)

(** The loop leaves when [g_run] is false or the deadline has passed, and the
    test after it fails then. [None]: still waiting. *)
Fixpoint connect_wait (deadline : Z) (evs : list (bool * Z * connect_answer)) : option bool :=
  match evs with
  | [] => None
  | (run, now, a) :: evs =>
    if negb (run && bool_decide (now < deadline)) then Some false else
    match a with
    | Conn_poll_failed eintr => if eintr then connect_wait deadline evs else Some false
    | Conn_nothing => connect_wait deadline evs
    | Conn_error => Some false
    | Conn_ready run now => Some (run && bool_decide (now < deadline))
    end
  end.

Inductive send_answer :=
| Send_poll_failed (eintr : bool)
| Send_nothing
| Send_again
| Send_error
| Send_sent (n : nat) (now : Z).

Definition http_request (path host : list Z) : list Z :=
  chars "GET " ++ path ++ chars " HTTP/1.1" ++ [13; 10] ++ chars "Host: " ++ host ++ [13; 10]
  ++ chars "Connection: close" ++ [13; 10; 13; 10].

(** The bytes handed to the network, in order, and whether all were. *)
Fixpoint send_request (timeout deadline : Z) (rem : list Z) (evs : list (bool * Z * send_answer))
    : option (list Z * bool) :=
  match rem with
  | [] => Some ([], true)
  | _ =>
    match evs with
    | [] => None
    | (run, now, a) :: evs =>
      if negb run then Some ([], false) else
      if decide (now >= deadline) then Some ([], false) else
      match a with
      | Send_poll_failed eintr =>
        if eintr then send_request timeout deadline rem evs else Some ([], false)
      | Send_nothing | Send_again => send_request timeout deadline rem evs
      | Send_error => Some ([], false)
      | Send_sent n now =>
        match send_request timeout (u64 (now + timeout)) (drop n rem) evs with
        | Some (out, ok) => Some (take n rem ++ out, ok)
        | None => None
        end
      end
    end
  end.

(** ** Growing a buffer

    [while (new_cap < need) new_cap *= 2] in 64 bits; the fuel is the number of
    doublings, [None] that it was not enough. *)
Fixpoint double_until (fuel : nat) (new_cap need : Z) : option Z :=
  if decide (new_cap < need) then
    match fuel with
    | O => None
    | S fuel => double_until fuel (u64 (new_cap * 2)) need
    end
  else Some new_cap.

(** A capacity that is reached is reached within 64 doublings
    ([http_growth_terminates]). *)
Definition grow (cap need : Z) : option Z :=
  double_until 64 (if decide (cap = 0) then 262144 else u64 (cap * 2)) need.

Section Alloc.
(** Whether [malloc] or [realloc] of so many bytes succeeds. *)
Context (alloc : Z -> bool).

(** ** Reception *)

Inductive recv_answer :=
| Recv_poll_failed (eintr : bool)
| Recv_nothing
| Recv_again
| Recv_error
| Recv_eof
| Recv_data (d : list Z) (now : Z).

(** How reception ends: abandoned, over with what was received, or in the
    loop that grows the buffer. *)
Inductive recv_end :=
| Rx_abandoned
| Rx_over (raw : list Z) (ttfb : Z)
| Rx_hang.

Fixpoint recv_loop (timeout t_start deadline : Z) (raw : list Z) (raw_cap ttfb : Z)
    (evs : list (bool * Z * recv_answer)) : option recv_end :=
  match evs with
  | [] => None
  | (run, now, a) :: evs =>
    if negb run then Some Rx_abandoned else
    if decide (now >= deadline) then Some (Rx_over raw ttfb) else
    match a with
    | Recv_poll_failed eintr =>
      if eintr then recv_loop timeout t_start deadline raw raw_cap ttfb evs
      else Some (Rx_over raw ttfb)
    | Recv_nothing | Recv_again => recv_loop timeout t_start deadline raw raw_cap ttfb evs
    | Recv_error | Recv_eof => Some (Rx_over raw ttfb)
    | Recv_data d now =>
      let ttfb := if decide (ttfb = 0) then u64 (now - t_start) else ttfb in
      let need := u64 (zlen raw + zlen d) in
      let next cap := recv_loop timeout t_start (u64 (now + timeout)) (raw ++ d) cap ttfb evs in
      if decide (need > raw_cap) then
        match grow raw_cap need with
        | None => Some Rx_hang
        | Some cap => if alloc cap then next cap else Some Rx_abandoned
        end
      else next raw_cap
    end
  end.

(** ** Status line and headers *)

Definition http_status (raw junk : list Z) : Z :=
  match strip (chars "HTTP/1.1 ") raw, strip (chars "HTTP/1.0 ") raw with
  | None, None => 0
  | _, _ => atoi (drop 9 (raw ++ junk))
  end.

(** The header block, its empty line included, and the body. *)
Fixpoint hdr_split (raw : list Z) : option (list Z * list Z) :=
  match strip [13; 10; 13; 10] raw with
  | Some r => Some ([13; 10; 13; 10], r)
  | None =>
    match raw with
    | [] => None
    | c :: raw =>
      match hdr_split raw with Some (h, b) => Some (c :: h, b) | None => None end
    end
  end.

Definition tolower (c : Z) : Z := if decide (65 <= c <= 90) then c + 32 else c.

(** [strncasecmp(l, pat, strlen(pat)) == 0], and what follows the match. *)
Fixpoint ci_strip (pat l : list Z) : option (list Z) :=
  match pat, l with
  | [], _ => Some l
  | p :: pat, c :: l => if decide (tolower p = tolower c) then ci_strip pat l else None
  | _, [] => None
  end.

(** [*val == ' ' || *val == '\t' || *val == ':'], up to the end of the header. *)
Fixpoint skip_sep (h : list Z) : list Z :=
  match h with
  | [] => []
  | c :: k => if decide (c = 32 \/ c = 9 \/ c = 58) then skip_sep k else h
  end.

Record http_headers_seen := mk_seen { chunked : bool; content_length : Z }.

(** The two tests made at a position: [h] is the header from there on, [after]
    what lies in memory behind the header. *)
Definition header_at (h after : list Z) (s : http_headers_seen) : http_headers_seen :=
  let s :=
    match ci_strip (chars "Transfer-Encoding:") h with
    | Some v =>
      match ci_strip (chars "chunked") (skip_sep v ++ after) with
      | Some _ => mk_seen true (content_length s)
      | None => s
      end
    | None => s
    end in
  match ci_strip (chars "Content-Length:") h with
  | Some v => mk_seen (chunked s) (strtol (skip_sep v ++ after))
  | None => s
  end.

Fixpoint scan_headers (h after : list Z) (s : http_headers_seen) : http_headers_seen :=
  match h with
  | [] => s
  | _ :: k => if decide (18 < zlen h) then scan_headers k after (header_at h after s) else s
  end.

(** ** Body *)

Inductive http_result :=
| HR_ok (body : list Z)     (* 0, with the body stored *)
| HR_err                    (* -1, no body *)
| HR_hang.                  (* the buffer growth never ends *)

Definition plain_body (content_length : Z) (body : list Z) : http_result :=
  let body_len := if decide (content_length >= 0 /\ content_length < zlen body)
                  then content_length else zlen body in
  if decide (body_len > 0) then
    if alloc body_len then HR_ok (take (Z.to_nat body_len) body) else HR_err
  else HR_ok [].

Fixpoint skip_crlf (l : list Z) : list Z :=
  match l with
  | [] => []
  | c :: k => if decide (c = 13 \/ c = 10) then skip_crlf k else l
  end.

Definition is_hex (c : Z) : bool :=
  match digit_val c with Some _ => true | None => false end.

(** The rest of the size line, its end included. *)
Fixpoint skip_line (l : list Z) : list Z :=
  match l with [] => [] | c :: k => if decide (c = 10) then k else skip_line k end.

Definition skip_char (ch : Z) (l : list Z) : list Z :=
  match l with c :: k => if decide (c = ch) then k else l | [] => [] end.

(** [strtol(sz_hex, NULL, 16)] of at most 31 hexadecimal digits. *)
Definition chunk_size (hex : list Z) : Z :=
  Z.min (fst (num_scan 16 0 hex)) 9223372036854775807.

(** Storing a chunk of [sz] bytes and continuing with [next]. *)
Definition store_chunk (next : list Z -> list Z -> Z -> option http_result)
    (sz : Z) (rest buf : list Z) (cap : Z) : option http_result :=
  let need := u64 (zlen buf + sz) in
  let copy cap :=
    if decide (sz > zlen rest) then Some HR_err else
    next (skip_char 10 (skip_char 13 (drop (Z.to_nat sz) rest)))
      (buf ++ take (Z.to_nat sz) rest) cap in
  if decide (need > cap) then
    match grow cap need with
    | None => Some HR_hang
    | Some cap => if alloc cap then copy cap else Some HR_err
    end
  else copy cap.

(** The decoding loop on what is left of the response; [None]: out of fuel. *)
Fixpoint dechunk (fuel : nat) (rest buf : list Z) (cap : Z) : option http_result :=
  match fuel with
  | O => None
  | S fuel =>
    let rest := skip_crlf rest in
    match rest with
    | [] => Some HR_err
    | _ =>
      let '(sz_hex, rest) := span is_hex 31 rest in
      let rest := skip_line rest in
      let sz := chunk_size sz_hex in
      if decide (sz = 0) then Some (HR_ok buf) else
      if decide (sz < 0) then Some HR_err else
      store_chunk (dechunk fuel) sz rest buf cap
    end
  end.

(** Each chunk takes at least one byte ([dechunk_total]). *)
Definition chunked_body (rest : list Z) : http_result :=
  default HR_hang (dechunk (S (length rest)) rest [] 0).

(** What is made of the bytes received: the status stored, the result and
    whether the statistics are stored. [junk] is the uninitialised memory that
    follows the bytes in their buffer. *)
Definition http_response (raw junk : list Z) : Z * http_result * bool :=
  if decide (zlen raw < 12) then (0, HR_err, true) else
  let status := http_status raw junk in
  if decide (status <> 200) then (status, HR_err, true) else
  match hdr_split raw with
  | None => (status, HR_err, false)
  | Some (hdr, body) =>
    let seen := scan_headers hdr (body ++ junk) (mk_seen false (-1)) in
    if chunked seen then
      let r := chunked_body body in
      (status, r, match r with HR_ok _ => true | _ => false end)
    else (status, plain_body (content_length seen) body, true)
  end.

End Alloc.

(** ** The fetch *)

Inductive connect_rc := Connect_now | Connect_in_progress | Connect_failed.

(** What one call meets; the times are those of its clock readings. *)
Record http_env := mk_env {
  getaddrinfo : list Z -> Z -> bool; socket_ok : bool; connect : connect_rc;
  connect_evs : list (bool * Z * connect_answer);
  send_evs : list (bool * Z * send_answer);
  recv_evs : list (bool * Z * recv_answer);
  tcp_rtt : option Z; alloc : Z -> bool; after_raw : list Z;
  t_start : Z; t_connect : Z; t_send : Z; t_recv : Z; t_end : Z;
}.

(** The bytes sent, the status stored, the result, the statistics stored. *)
Record http_done := mk_done {
  sent : list Z; out_status : Z; result : http_result; out_stats : option http_fetch_stats;
}.

Definition http_failed (sent : list Z) : http_done := mk_done sent 0 HR_err None.

Definition body_bytes (r : http_result) : Z := match r with HR_ok b => zlen b | _ => 0 end.

Definition http_get (e : http_env) (url : list Z) (timeout_ms : Z) : option http_done :=
  let timeout := timeout_us timeout_ms in
  match parse_url url with
  | None => Some (http_failed [])
  | Some (host, port, path) =>
    if negb (getaddrinfo e host port) then Some (http_failed []) else
    if negb (socket_ok e) then Some (http_failed []) else
    let connected :=
      match connect e with
      | Connect_now => Some true
      | Connect_failed => Some false
      | Connect_in_progress => connect_wait (u64 (t_connect e + timeout)) (connect_evs e)
      end in
    match connected with
    | None => None
    | Some false => Some (http_failed [])
    | Some true =>
      let req := http_request path host in
      if decide (zlen req >= 2048) then Some (http_failed []) else
      match send_request timeout (u64 (t_send e + timeout)) req (send_evs e) with
      | None => None
      | Some (out, false) => Some (http_failed out)
      | Some (out, true) =>
        match recv_loop (alloc e) timeout (t_start e) (u64 (t_recv e + timeout)) [] 0 0
                (recv_evs e) with
        | None => None
        | Some Rx_hang => Some (mk_done out 0 HR_hang None)
        | Some Rx_abandoned => Some (http_failed out)
        | Some (Rx_over raw ttfb) =>
          let '(status, r, st) := http_response (alloc e) raw (after_raw e) in
          let stats := mk_stats ttfb (u64 (t_end e - t_start e)) (default 0 (tcp_rtt e))
                         (body_bytes r) in
          Some (mk_done out status r (if st then Some stats else None))
        end
      end
    end
  end.

(** ** Growing a buffer *)

(** The capacities that occur: none yet, or a power of two from 256 KiB on. *)
Definition cap_ok (cap : Z) : Prop := cap = 0 \/ exists k, 18 <= k <= 63 /\ cap = 2 ^ k.

Lemma double_zero fuel need : 0 < need -> double_until fuel 0 need = None.
Proof. intros Hn. induction fuel; cbn; by rewrite decide_True by lia. Qed.

Lemma double_never fuel k need :
  0 <= k <= 63 -> 2 ^ 63 < need -> double_until fuel (2 ^ k) need = None.
Proof.
  revert k. induction fuel as [|fuel IH]; intros k Hk Hn.
  - cbn. rewrite decide_True; [done|]. pose proof (Z.pow_le_mono_r 2 k 63). lia.
  - cbn [double_until]. pose proof (Z.pow_le_mono_r 2 k 63).
    rewrite decide_True by lia. rewrite Z.mul_comm, <- Z.pow_succ_r by lia.
    destruct (decide (k = 63)) as [->|].
    + apply double_zero. lia.
    + rewrite u64_small; [apply IH; lia|].
      pose proof (Z.pow_le_mono_r 2 (Z.succ k) 63). pose proof (Z.pow_pos_nonneg 2 (Z.succ k)). lia.
Qed.

Lemma double_enough fuel k need :
  0 <= k -> need <= 2 ^ 63 -> k + Z.of_nat fuel >= 63 -> k <= 63 ->
  exists j, k <= j <= 63 /\ double_until fuel (2 ^ k) need = Some (2 ^ j) /\
    need <= 2 ^ j /\ (j = k \/ 2 ^ j < 2 * need).
Proof.
  revert k. induction fuel as [|fuel IH]; intros k Hk Hn Hf Hk'.
  - assert (k = 63) as -> by lia. exists 63. cbn [double_until].
    rewrite decide_False by lia. split_and!; try lia; done.
  - cbn [double_until]. case_decide as Hlt.
    + assert (k <> 63) by (intros ->; lia).
      rewrite Z.mul_comm, <- Z.pow_succ_r by lia.
      pose proof (Z.pow_le_mono_r 2 (Z.succ k) 63). pose proof (Z.pow_pos_nonneg 2 (Z.succ k)).
      rewrite u64_small by lia.
      destruct (IH (Z.succ k)) as (j & ? & E & ? & Hj); [lia..|].
      exists j. split_and!; try lia; [done|]. right. destruct Hj as [->|]; [|done].
      rewrite Z.pow_succ_r by lia. lia.
    + exists k. split_and!; try lia; done.
Qed.

(** The capacity the loop starts from. *)
Lemma grow_start cap :
  cap_ok cap -> exists k, 18 <= k <= 63 /\ (cap < 2 ^ 63 ->
    (if decide (cap = 0) then 262144 else u64 (cap * 2)) = 2 ^ k /\ (k = 18 \/ 2 ^ k = 2 * cap)).
Proof.
  intros [->|(k & Hk & ->)].
  - exists 18. split; [lia|]. intros _. split; [done|lia].
  - pose proof (Z.pow_pos_nonneg 2 k). rewrite decide_False by lia.
    destruct (decide (k = 63)) as [->|]; [exists 18; split; [lia|]; intros; lia|].
    exists (Z.succ k). split; [lia|]. intros _.
    pose proof (Z.pow_le_mono_r 2 (Z.succ k) 63). pose proof (Z.pow_pos_nonneg 2 (Z.succ k)).
    rewrite Z.mul_comm, <- Z.pow_succ_r by lia. rewrite u64_small by lia.
    split; [done|]. rewrite Z.pow_succ_r by lia. lia.
Qed.

Lemma grow_ok cap need :
  cap_ok cap -> cap < need <= 2 ^ 63 ->
  exists c, grow cap need = Some c /\ cap_ok c /\ need <= c /\ c <= Z.max 262144 (2 * need).
Proof.
  intros Hc Hn. destruct (grow_start cap Hc) as (k & Hk & Hs).
  destruct Hs as [E Hk2]; [lia|]. unfold grow. rewrite E.
  destruct (double_enough 64 k need) as (j & Hj & E' & Hle & Hjk); [lia..|].
  exists (2 ^ j). split_and!; [done|right; exists j; split; [lia|done]|done|].
  destruct Hjk as [->|]; [|lia]. destruct Hk2 as [->|]; lia.
Qed.

(** The growth of the receive buffer: from a capacity that occurs, the
    doubling loop ends exactly when the bytes needed are at most 2^63, and then
    within 64 doublings at a capacity that holds them and is less than twice
    what is needed (or the first 256 KiB). Beyond 2^63 the capacity wraps to
    zero and no number of rounds ends the loop. *)
Theorem http_growth_terminates cap need :
  cap_ok cap -> cap < need < 18446744073709551616 ->
  let start := if decide (cap = 0) then 262144 else u64 (cap * 2) in
  ((exists fuel c, double_until fuel start need = Some c) <-> need <= 2 ^ 63) /\
  (need <= 2 ^ 63 ->
   exists c, grow cap need = Some c /\ cap_ok c /\ need <= c /\ c <= Z.max 262144 (2 * need)).
Proof.
  intros Hc Hn start. split; [split|].
  - intros (fuel & c & E). destruct (decide (need <= 2 ^ 63)) as [|Hbig]; [done|exfalso].
    assert (E' : double_until fuel start need = None); [|by rewrite E in E'].
    destruct (decide (cap = 2 ^ 63)) as [Hcap|Hcap].
    + unfold start. rewrite Hcap. apply double_zero. lia.
    + destruct (grow_start cap Hc) as (k & Hk & Hs).
      destruct Hs as [Es _].
      { destruct Hc as [->|(j & Hj & ->)]; [lia|]. destruct (decide (j = 63)) as [->|]; [done|].
        apply Z.pow_lt_mono_r; lia. }
      unfold start. rewrite Es. apply double_never; lia.
  - intros Hle. destruct (grow_ok cap need Hc ltac:(lia)) as (c & E & _).
    unfold grow in E. by exists 64%nat, c.
  - intros Hle. apply grow_ok; [done|lia].
Qed.

Lemma http_growth_terminates_witness :
  let start := if decide (262144 = 0) then 262144 else u64 (262144 * 2) in
  ((exists fuel c, double_until fuel start 1000000 = Some c) <-> 1000000 <= 2 ^ 63) /\
  (1000000 <= 2 ^ 63 ->
   exists c, grow 262144 1000000 = Some c /\ cap_ok c /\ 1000000 <= c /\
             c <= Z.max 262144 (2 * 1000000)).
Proof.
  apply (http_growth_terminates 262144 1000000); [|lia].
  right. exists 18. split; [lia|done].
Defined.

(** A chunk of two bytes followed by the size line [7fffffffffffffff] is enough
    for the loop never to end. *)
Example chunk_size_hang :
  chunked_body (fun _ => true)
    (chars "2" ++ [13; 10] ++ chars "ab" ++ [13; 10] ++ chars "7fffffffffffffff" ++ [13; 10])
  = HR_hang.
Proof. vm_compute. reflexivity. Qed.

(** ** The encoding of a chunk, and what the decoder makes of it *)

Definition chunk (d : list Z) : list Z := num_print 16 (zlen d) ++ [13; 10] ++ d ++ [13; 10].

Definition last_chunk : list Z := chars "0" ++ [13; 10; 13; 10].

Lemma is_hex_digit c : is_hex c = true <-> exists d, 0 <= d < 16 /\ base_digit 16 c = Some d.
Proof.
  unfold is_hex, base_digit, digit_val. split.
  - repeat case_decide; try done; try lia; intros _; (eexists; split; [|done]); lia.
  - intros (d & Hd & E). by repeat case_decide.
Qed.

(** More digits make a value no smaller, a first digit other than 0 a positive one. *)
Lemma num_scan_mono l k : forall acc, 0 <= acc -> forallb is_hex (l ++ k) = true ->
  acc <= fst (num_scan 16 acc l) <= fst (num_scan 16 acc (l ++ k)).
Proof.
  assert (Hge : forall l acc, 0 <= acc -> acc <= fst (num_scan 16 acc l)).
  { clear. induction l as [|c l IH]; intros acc Ha; cbn [num_scan]; [cbn; lia|].
    destruct (base_digit 16 c) as [d|] eqn:E; [|cbn; lia].
    assert (0 <= d) by (unfold base_digit, digit_val in E; repeat case_decide; simplify_eq; lia).
    pose proof (IH (16 * acc + d)). lia. }
  induction l as [|c l IH]; intros acc Ha Hl; cbn [app num_scan].
  - split; [cbn; lia|]. by apply Hge.
  - cbn in Hl. apply andb_true_iff in Hl as [(d & Hd & E)%is_hex_digit Hl]. rewrite E.
    destruct (IH (16 * acc + d)); [lia|done|]. lia.
Qed.

Lemma hex_print n : 0 <= n -> forallb is_hex (num_print 16 n) = true.
Proof.
  intros Hn. apply forallb_forall. intros c Hc.
  assert (HF : Forall (fun c => is_hex c = true) (num_print 16 n)).
  { apply num_print_chars; [lia|]. intros d Hd. apply is_hex_digit. exists d.
    split; [done|]. by apply digit_char_val. }
  rewrite List.Forall_forall in HF. by apply HF.
Qed.

(** A prefix of a printed size is a positive number no larger. *)
Lemma chunk_size_prefix n j :
  0 < n < 9223372036854775808 -> (0 < j)%nat ->
  take j (num_print 16 n) <> [] /\ (length (take j (num_print 16 n)) <= 31)%nat /\
  forallb is_hex (take j (num_print 16 n)) = true /\
  0 < chunk_size (take j (num_print 16 n)) <= n /\
  chunk_size (num_print 16 n) = n.
Proof.
  intros Hn Hj. pose proof (hex_print n ltac:(lia)) as Hh.
  pose proof (num_print_scan 16 n [] ltac:(lia) ltac:(lia) I) as Hs. rewrite app_nil_r in Hs.
  destruct (num_print_pos 16 n) as (d & l & E & Hd); [lia|lia|].
  assert (Hlen : (length (num_print 16 n) <= 31)%nat).
  { apply num_print_digits; [lia|lia|]. split; [lia|]. etransitivity; [apply Hn|done]. }
  rewrite <- (take_drop j (num_print 16 n)) in Hh, Hs.
  destruct (num_scan_mono (take j (num_print 16 n)) (drop j (num_print 16 n)) 0) as [_ Hm];
    [lia|done|]. rewrite Hs in Hm. cbn [fst] in Hm.
  assert (Hpos : 0 < fst (num_scan 16 0 (take j (num_print 16 n)))).
  { rewrite E. destruct j as [|j]; [lia|]. cbn [take num_scan]. rewrite digit_char_val by lia.
    destruct (num_scan_mono (take j l) (drop j l) (16 * 0 + d)) as [Hge _]; [lia| |lia].
    rewrite take_drop. pose proof (hex_print n ltac:(lia)) as Hh'. rewrite E in Hh'.
    by apply andb_true_iff in Hh' as [_ ?]. }
  rewrite take_drop in Hs. unfold chunk_size. rewrite Hs. cbn [fst].
  rewrite forallb_app in Hh. apply andb_true_iff in Hh as [Hh _].
  split_and!; try lia; [|rewrite length_take; lia|done].
  rewrite E. by destruct j; [lia|].
Qed.

Lemma skip_crlf_hex c l : is_hex c = true -> skip_crlf (c :: l) = c :: l.
Proof.
  intros Hc. cbn. rewrite decide_False; [done|]. intros [-> | ->]; done.
Qed.

(** A size line read. *)
Lemma dechunk_line alloc fuel hex tail buf cap :
  hex <> [] -> (length hex <= 31)%nat -> forallb is_hex hex = true ->
  (match tail with [] => True | c :: _ => is_hex c = false end) ->
  0 < chunk_size hex ->
  dechunk alloc (S fuel) (hex ++ tail) buf cap
  = store_chunk alloc (dechunk alloc fuel) (chunk_size hex) (skip_line tail) buf cap.
Proof.
  intros Hne Hlen Hhex Ht Hsz. cbn [dechunk].
  assert (skip_crlf (hex ++ tail) = hex ++ tail) as ->.
  { destruct hex as [|c hex]; [done|]. apply skip_crlf_hex. cbn in Hhex.
    by apply andb_true_iff in Hhex as [? _]. }
  rewrite span_app by done. destruct (hex ++ tail) eqn:E; [by destruct hex|].
  by rewrite !decide_False by lia.
Qed.

Section Store.
Context (alloc : Z -> bool) (next : list Z -> list Z -> Z -> option http_result).

Lemma store_chunk_short sz rest buf cap :
  0 < sz -> zlen buf + sz <= 2 ^ 63 -> cap_ok cap -> zlen rest < sz ->
  store_chunk alloc next sz rest buf cap = Some HR_err.
Proof.
  intros Hsz Hn Hc Hr. pose proof (zlen_nonneg buf). unfold store_chunk. cbv zeta.
  rewrite u64_small by lia. case_decide.
  - destruct (grow_ok cap (zlen buf + sz) Hc) as (c & -> & _); [lia|].
    destruct (alloc c); [|done]. by rewrite decide_True by lia.
  - by rewrite decide_True by lia.
Qed.

(** The decoder either reports failure (no memory) or stores the chunk. *)
Lemma store_chunk_fit d rest buf cap :
  0 < zlen d -> zlen buf + zlen d <= 2 ^ 63 -> cap_ok cap ->
  exists cap', cap_ok cap' /\
    let r := store_chunk alloc next (zlen d) (d ++ rest) buf cap in
    let k := next (skip_char 10 (skip_char 13 rest)) (buf ++ d) cap' in
    (r = Some HR_err \/ r = k) /\
    ((forall x, x <= Z.max 262144 (2 * (zlen buf + zlen d)) -> alloc x = true) -> r = k).
Proof.
  intros Hd Hn Hc. pose proof (zlen_nonneg buf). pose proof (zlen_nonneg rest).
  assert (Hcopy : drop (Z.to_nat (zlen d)) (d ++ rest) = rest /\
                  take (Z.to_nat (zlen d)) (d ++ rest) = d).
  { unfold zlen. rewrite Nat2Z.id. split; [apply drop_app_length|apply take_app_length]. }
  destruct Hcopy as [Hdrop Htake]. unfold store_chunk. cbv zeta. rewrite u64_small by lia.
  rewrite Hdrop, Htake, zlen_app. case_decide.
  - destruct (grow_ok cap (zlen buf + zlen d) Hc) as (c & -> & Hc' & _ & Hle); [lia|].
    exists c. split; [done|]. rewrite decide_False by lia. destruct (alloc c) eqn:Ea.
    + split; [by right|done].
    + split; [by left|]. intros Ha. rewrite Ha in Ea by done. done.
  - exists cap. split; [done|]. rewrite decide_False by lia. split; [by right|done].
Qed.
End Store.

Lemma dechunk_nil alloc fuel buf cap : (0 < fuel)%nat -> dechunk alloc fuel [] buf cap = Some HR_err.
Proof. by destruct fuel; [lia|]. Qed.

Lemma chunk_size_zlen (d : list Z) :
  0 < zlen d < 2 ^ 63 ->
  num_print 16 (zlen d) <> [] /\ (length (num_print 16 (zlen d)) <= 31)%nat /\
  forallb is_hex (num_print 16 (zlen d)) = true /\ chunk_size (num_print 16 (zlen d)) = zlen d.
Proof.
  intros Hd.
  destruct (chunk_size_prefix (zlen d) (S (length (num_print 16 (zlen d))))) as (?&?&?&?&?); [lia|lia|].
  by rewrite take_ge in * by lia.
Qed.

(** A whole chunk is stored, and decoding goes on behind it. *)
Lemma dechunk_chunk alloc fuel d rest buf cap :
  0 < zlen d -> zlen buf + zlen d < 2 ^ 63 -> cap_ok cap ->
  exists cap', cap_ok cap' /\
    let r := dechunk alloc (S fuel) (chunk d ++ rest) buf cap in
    let k := dechunk alloc fuel rest (buf ++ d) cap' in
    (r = Some HR_err \/ r = k) /\
    ((forall x, x <= Z.max 262144 (2 * (zlen buf + zlen d)) -> alloc x = true) -> r = k).
Proof.
  intros Hd Hn Hc. pose proof (zlen_nonneg buf).
  destruct (chunk_size_zlen d) as (Hne & Hlen & Hhex & Hsz); [lia|].
  destruct (store_chunk_fit alloc (dechunk alloc fuel) d ([13; 10] ++ rest) buf cap)
    as (c & Hc' & Hr); [lia|lia|done|].
  exists c. split; [done|]. unfold chunk. rewrite <- app_assoc.
  rewrite dechunk_line by (done || lia). rewrite Hsz.
  cbn [app skip_line]. rewrite decide_False, decide_True by done. rewrite <- app_assoc.
  exact Hr.
Qed.

(** Nothing is made of a response that ends inside a chunk. *)
Lemma dechunk_cut alloc fuel d n buf cap :
  0 < zlen d -> zlen buf + zlen d < 2 ^ 63 -> cap_ok cap ->
  (n < length (chunk d))%nat -> (n < fuel)%nat ->
  dechunk alloc fuel (take n (chunk d)) buf cap = Some HR_err.
Proof.
  intros Hd Hb Hc Hn Hf. pose proof (zlen_nonneg buf).
  destruct fuel as [|fuel]; [lia|]. destruct (decide (n = O)) as [->|Hn0]; [done|].
  unfold chunk in Hn |- *.
  destruct (chunk_size_prefix (zlen d) n) as (Hne & Hlen & Hhex & Hsz & _); [lia|lia|].
  set (hex := num_print 16 (zlen d)) in *.
  destruct (decide (n <= length hex)%nat) as [Hle|Hgt].
  { rewrite take_app_le by done. rewrite <- (app_nil_r (take n hex)).
    rewrite dechunk_line by (done || lia). apply store_chunk_short; [lia|lia|done|change (zlen (skip_line _)) with 0; lia]. }
  rewrite take_app_ge by lia.
  destruct (chunk_size_zlen d) as (Hne' & Hlen' & Hhex' & Hsz'); [lia|]. fold hex in Hne', Hlen', Hhex', Hsz'.
  rewrite !length_app in Hn. cbn [length] in Hn.
  destruct (n - length hex)%nat as [|[|m]] eqn:Em; [lia| |]; cbn [app take].
  { rewrite dechunk_line by (done || lia). rewrite Hsz'.
    apply store_chunk_short; [lia|lia|done|change (zlen (skip_line _)) with 0; lia]. }
  rewrite dechunk_line by (done || lia). rewrite Hsz'. cbn [skip_line].
  rewrite decide_False, decide_True by done.
  destruct (decide (m < length d)%nat) as [Hm|Hm].
  - rewrite take_app_le by lia. apply store_chunk_short; try done; try lia.
    unfold zlen. rewrite length_take. lia.
  - rewrite take_app_ge by lia.
    destruct (store_chunk_fit alloc (dechunk alloc fuel) d (take (m - length d) [13; 10]) buf cap)
      as (c & _ & [E|E] & _); [lia|lia|done|done|].
    rewrite E. destruct (m - length d)%nat as [|[|k]] eqn:Ek; [| |lia]; apply dechunk_nil; lia.
Qed.

Definition chunks_text (ds : list (list Z)) : list Z := concat (chunk <$> ds) ++ last_chunk.

Lemma dechunk_last alloc fuel n buf cap :
  (n < fuel)%nat ->
  let r := dechunk alloc fuel (take n last_chunk) buf cap in
  (r = Some HR_err \/ r = Some (HR_ok buf)) /\ ((0 < n)%nat -> r = Some (HR_ok buf)).
Proof.
  intros Hf. destruct fuel as [|fuel]; [lia|].
  destruct n as [|[|[|[|[|n]]]]]; (split; [by (left + right)|intros; try lia; done]).
Qed.

(** Every prefix of an encoded body is refused or decoded to the whole body. *)
Lemma dechunk_prefix alloc ds : forall fuel n buf cap,
  Forall (fun d => 0 < zlen d) ds -> zlen buf + zlen (concat ds) < 2 ^ 63 -> cap_ok cap ->
  (n < fuel)%nat ->
  let r := dechunk alloc fuel (take n (chunks_text ds)) buf cap in
  (r = Some HR_err \/ r = Some (HR_ok (buf ++ concat ds))) /\
  ((forall x, x <= Z.max 262144 (2 * (zlen buf + zlen (concat ds))) -> alloc x = true) ->
   (length (chunks_text ds) <= n)%nat -> r = Some (HR_ok (buf ++ concat ds))).
Proof.
  unfold chunks_text.
  induction ds as [|d ds IH]; intros fuel n buf cap Hds Hb Hc Hf.
  - cbn [fmap list_fmap concat app]. rewrite app_nil_r.
    destruct (dechunk_last alloc fuel n buf cap Hf) as [H1 H2]. split; [done|].
    intros _ Hn. apply H2. cbn in Hn. lia.
  - apply Forall_cons in Hds as [Hd Hds]. cbn [fmap list_fmap concat] in Hb |- *.
    rewrite zlen_app in Hb |- *. pose proof (zlen_nonneg buf). pose proof (zlen_nonneg (concat ds)).
    rewrite <- app_assoc.
    destruct (decide (n < length (chunk d))%nat) as [Hlt|Hge].
    + rewrite take_app_le by lia. rewrite dechunk_cut by (done || lia). split; [by left|].
      intros _ Hn. rewrite length_app in Hn. lia.
    + rewrite take_app_ge by lia. destruct fuel as [|fuel]; [lia|].
      destruct (dechunk_chunk alloc fuel d
        (take (n - length (chunk d)) (concat (chunk <$> ds) ++ last_chunk)) buf cap)
        as (c & Hc' & Hr); [lia|lia|done|].
      assert (0 < length (chunk d))%nat by (unfold chunk; rewrite !length_app; cbn; lia).
      destruct (IH fuel (n - length (chunk d))%nat (buf ++ d) c) as [Hp1 Hp2];
        [done|rewrite zlen_app; lia|done|lia|].
      cbv zeta in Hr, Hp1, Hp2 |- *. rewrite <- !app_assoc in Hp1. rewrite zlen_app, <- !app_assoc in Hp2.
      destruct Hr as [Hr Hra]. split.
      * destruct Hr as [->| ->]; [by left|exact Hp1].
      * intros Ha Hn. rewrite length_app in Hn. rewrite Hra by (intros; apply Ha; lia).
        apply Hp2; [intros; apply Ha; lia|lia].
Qed.

(** ** Reading a header block *)

(** The pattern cannot match at [s], whatever follows [s]. *)
Fixpoint clash (f : Z -> Z) (pat s : list Z) : bool :=
  match pat, s with
  | p :: pat, c :: s => if decide (f p = f c) then clash f pat s else true
  | _, _ => false
  end.

(** No pattern matches at any position of [a], whatever follows [a]. *)
Fixpoint clean (f : Z -> Z) (pats : list (list Z)) (a : list Z) : bool :=
  match a with
  | [] => true
  | _ :: k => forallb (fun pat => clash f pat a) pats && clean f pats k
  end.

Lemma strip_clash pat s r : clash id pat s = true -> strip pat (s ++ r) = None.
Proof.
  revert s. induction pat as [|p pat IH]; intros [|c s]; cbn; try done.
  unfold id. case_decide; [apply IH|done].
Qed.

Lemma ci_strip_clash pat s r : clash tolower pat s = true -> ci_strip pat (s ++ r) = None.
Proof.
  revert s. induction pat as [|p pat IH]; intros [|c s]; cbn; try done.
  case_decide; [apply IH|done].
Qed.

Definition header_names : list (list Z) := [chars "Transfer-Encoding:"; chars "Content-Length:"].

Lemma header_at_clash a r after s :
  forallb (fun pat => clash tolower pat a) header_names = true -> header_at (a ++ r) after s = s.
Proof.
  unfold header_names. cbn [forallb]. intros H. apply andb_true_iff in H as [H1 H].
  apply andb_true_iff in H as [H2 _].
  unfold header_at. by rewrite (ci_strip_clash _ _ _ H1), (ci_strip_clash _ _ _ H2).
Qed.

Lemma scan_headers_clean a r after s :
  clean tolower header_names a = true -> scan_headers (a ++ r) after s = scan_headers r after s.
Proof.
  intros H. induction a as [|c a IH]; [done|].
  cbn [clean] in H. apply andb_true_iff in H as [Hc H]. specialize (IH H).
  assert (Hs : scan_headers ((c :: a) ++ r) after s
    = if decide (18 < zlen ((c :: a) ++ r))
      then scan_headers (a ++ r) after (header_at ((c :: a) ++ r) after s) else s) by done.
  rewrite Hs, header_at_clash by done. case_decide as Hl; [done|].
  rewrite <- IH. destruct (a ++ r) as [|x k] eqn:E; [done|].
  cbn [scan_headers]. rewrite decide_False; [done|].
  cbn [app] in Hl. rewrite E in Hl. rewrite zlen_cons in Hl. lia.
Qed.

Definition crlf2 : list Z := [13; 10; 13; 10].

Lemma hdr_split_clean a r :
  clean id [crlf2] a = true ->
  hdr_split (a ++ r) = match hdr_split r with Some (h, b) => Some (a ++ h, b) | None => None end.
Proof.
  intros H. induction a as [|c a IH]; [cbn; by destruct (hdr_split r) as [[]|]|].
  cbn [clean forallb] in H. apply andb_true_iff in H as [Hc H].
  apply andb_true_iff in Hc as [Hc _].
  assert (Hs : strip [13; 10; 13; 10] ((c :: a) ++ r) = None) by by apply (strip_clash crlf2).
  cbn [app hdr_split]. cbn [app] in Hs. rewrite Hs, IH by done.
  by destruct (hdr_split r) as [[]|].
Qed.

Lemma strip_take pat n l r : strip pat (take n l) = Some r -> exists r', strip pat l = Some r'.
Proof.
  intros H%strip_inv. rewrite <- (take_drop n l), H, <- app_assoc, strip_app. eauto.
Qed.

Lemma hdr_split_inv l h b : hdr_split l = Some (h, b) -> l = h ++ b /\ (4 <= length h)%nat.
Proof.
  revert h. induction l as [|c l IH]; intros h; [done|].
  cbn [hdr_split]. destruct (strip [13; 10; 13; 10] (c :: l)) as [r|] eqn:E.
  - intros [= <- <-]. apply strip_inv in E. by split; [|cbn; lia].
  - destruct (hdr_split l) as [[h' b']|]; [|done]. intros [= <- <-].
    destruct (IH h' eq_refl) as [-> ?]. split; [done|cbn; lia].
Qed.

(** A header block that is cut short is not recognised. *)
Lemma hdr_split_cut l h b n :
  hdr_split l = Some (h, b) -> (n < length h)%nat -> hdr_split (take n l) = None.
Proof.
  revert h n. induction l as [|c l IH]; intros h n; [done|].
  cbn [hdr_split]. destruct (strip [13; 10; 13; 10] (c :: l)) as [r|] eqn:E.
  - intros [= <- <-] Hn. apply strip_inv in E. rewrite E.
    cbn in Hn. by destruct n as [|[|[|[|n]]]]; [..|lia].
  - destruct (hdr_split l) as [[h' b']|]; [|done]. intros [= <- <-] Hn.
    destruct n as [|n]; [done|]. cbn [take hdr_split].
    destruct (strip _ (c :: take n l)) as [r|] eqn:E'.
    + apply (strip_take _ (S n) (c :: l)) in E' as [r' E']. by rewrite E' in E.
    + cbn in Hn. by rewrite (IH h' n eq_refl) by lia.
Qed.

(** Nothing is made of a response whose header is cut short. *)
Lemma http_response_cut alloc raw junk h b n :
  hdr_split raw = Some (h, b) -> (n < length h)%nat ->
  snd (fst (http_response alloc (take n raw) junk)) = HR_err.
Proof.
  intros Hs Hn. unfold http_response. case_decide; [done|]. cbv zeta. case_decide; [done|].
  by rewrite (hdr_split_cut raw h b).
Qed.

End Http.
