(* ===== verification/DashServe.v ===== *)
(** * The segment server ([tools/vmc-dash-sim/main.c]) and the client against it

    [http_headers], [serve_full], [serve_progressive] and [conn_handler] of the
    DASH server, over snapshots of the files the encoder writes. A connection
    takes a number of bytes before its peer is gone: a [write] stores what
    still fits and the ones after it fail. *)

From S2P Require Import Prelude Text HttpClient.
From stdpp Require Import strings.
Import Text Http.

#[local] Open Scope Z_scope.

Module Serve.

(** ** The connection *)

Record conn := mk_conn { out : list Z; left : nat }.

(** The connection after the call, and whether it took all of [d]. *)
Definition write (s : conn) (d : list Z) : conn * bool :=
  (mk_conn (out s ++ take (left s) d) (left s - length d), bool_decide (length d <= left s)%nat).

Definition write_ (s : conn) (d : list Z) : conn := fst (write s d).

Definition crlf : list Z := [13; 10].

(** The bytes [http_headers] writes: [n] bytes of its 320-byte buffer, which
    [None] says do not all lie in it. *)
Definition headers_text (code : Z) (ct lenhdr : list Z) : list Z :=
  chars "HTTP/1.1 " ++ num_print 10 code ++ chars " OK" ++ crlf
  ++ chars "Content-Type: " ++ ct ++ crlf
  ++ lenhdr
  ++ chars "Cache-Control: no-cache" ++ crlf
  ++ chars "Connection: close" ++ crlf
  ++ chars "Access-Control-Allow-Origin: *" ++ crlf
  ++ crlf.

Definition lenhdr (len : Z) (chunked : bool) : list Z :=
  if chunked then stored 32 (chars "Transfer-Encoding: chunked" ++ crlf)
  else if decide (len >= 0) then stored 32 (chars "Content-Length: " ++ num_print 10 len ++ crlf)
  else [].

Definition http_headers (s : conn) (code : Z) (ct : list Z) (len : Z) (chunked : bool)
    : option conn :=
  let text := headers_text code ct (lenhdr len chunked) in
  match slice (stored 320 text ++ [0]) 0 (zlen text) with
  | Some b => Some (write_ s b)
  | None => None
  end.

(** [file_exists]: the answer of [stat] in the file system of the moment. *)
Definition file_exists (stat : list Z -> bool) (path : list Z) : bool := stat path.

Definition not_found (s : conn) : option conn :=
  match http_headers s 404 (chars "text/plain") (-1) false with
  | Some s => Some (write_ s (chars "Not Found" ++ [10]))
  | None => None
  end.

(** The copy loop of [serve_full] over the results of its reads, which end with
    the end of the file or an error. *)
Fixpoint copy_reads (s : conn) (reads : list (list Z)) : conn :=
  match reads with
  | [] => s
  | [] :: _ => s
  | d :: reads => let '(s, ok) := write s d in if ok then copy_reads s reads else s
  end.

(** [file]: the size [fstat] reports and the reads, [None] when [open] fails. *)
Definition serve_full (s : conn) (file : option (Z * list (list Z))) (ct : list Z) : option conn :=
  match file with
  | None => not_found s
  | Some (st_size, reads) =>
    match http_headers s 200 ct st_size false with
    | Some s => Some (copy_reads s reads)
    | None => None
    end
  end.

(** [pread(f, buf, n, off)] of a file's content. *)
Definition pread (content : list Z) (n : nat) (off : nat) : list Z := take n (drop off content).

(** [sizeof(buf)], the most one read takes. *)
Definition READ_MAX : nat := Z.to_nat 65536.

(** One chunk: its size line, its data and, if they were all taken, the line
    end; the number of bytes sent and whether to go on. *)
Definition send_chunk (s : conn) (d : list Z) : conn * bool :=
  let s := write_ s (num_print 16 (zlen d) ++ crlf) in
  let '(s, ok) := write s d in
  if ok then (write_ s crlf, true) else (s, false).

Definition send_term (s : conn) : conn := write_ s (chars "0" ++ crlf ++ crlf).

(** The final file sent outright, 64 KiB at a time; the fuel bounds the reads,
    each of which takes at least a byte ([send_file_total]). *)
Fixpoint send_file (fuel : nat) (s : conn) (content : list Z) (off : nat) : option conn :=
  match fuel with
  | O => None
  | S fuel =>
    if decide (off < length content)%nat then
      match pread content READ_MAX off with
      | [] => Some s
      | d => let '(s, ok) := send_chunk s d in
             if ok then send_file fuel s content (off + length d) else Some s
      end
    else Some s
  end.

(** One round of the polling loop: what [fstat] reports, the content [pread]
    reads from ([None]: an error), and after it whether the temporary file is
    still there and [g_run]. *)
Record poll := mk_poll {
  st_size : option nat; content : option (list Z); tmp_there : bool; run : bool;
}.

(** The offset reached when the loop is left; [None]: still polling. *)
Fixpoint poll_tmp (s : conn) (off : nat) (ps : list poll) : option (conn * nat) :=
  match ps with
  | [] => None
  | p :: ps =>
    let next s off :=
      if negb (tmp_there p) || negb (run p) then Some (s, off) else poll_tmp s off ps in
    match st_size p with
    | None => next s off
    | Some size =>
      if decide (off < size)%nat then
        match content p with
        | None => next s off
        | Some c =>
          match pread c READ_MAX off with
          | [] => next s off
          | d => let '(s, ok) := send_chunk s d in
                 if ok then next s (off + length d)%nat else Some (s, off)
          end
        end
      else next s off
    end
  end.

(** The remainder of the final file, if it can be stored and read. *)
Definition send_tail (s : conn) (off : nat) (malloc_ok : bool) (final : option (list Z)) : conn :=
  match final with
  | None => s
  | Some c =>
    if decide (off < length c)%nat then
      if malloc_ok then
        match pread c (length c - off) off with
        | [] => s
        | d => fst (send_chunk s d)
        end
      else s
    else s
  end.

(** [tmp]: the rounds of the polling loop, [None] when the temporary file is
    gone; [final]: the content of the finished segment when it is looked at. *)
Definition serve_progressive (s : conn) (tmp : option (list poll)) (malloc_ok : bool)
    (final : option (list Z)) (ct : list Z) : option conn :=
  match http_headers s 200 ct (-1) true with
  | None => None
  | Some s =>
    match tmp with
    | None =>
      match final with
      | None => Some (send_term s)
      | Some c => send_term <$> send_file (S (length c)) s c 0
      end
    | Some ps =>
      match poll_tmp s 0 ps with
      | None => None
      | Some (s, off) => Some (send_term (send_tail s off malloc_ok final))
      end
    end
  end.

(** ** Requests *)

Definition not_space (c : Z) : bool := negb (is_space c).

(** [%<n>s]: white space skipped, then at most [n] other characters. *)
Definition scan_word (n : nat) (l : list Z) : option (list Z * list Z) :=
  match span not_space n (skip_space l) with
  | ([], _) => None
  | r => Some r
  end.

Definition MPD_CT : list Z := chars "application/dash+xml".
Definition SEG_CT : list Z := chars "video/iso.segment".

(** The answer chosen for a request. *)
Inductive answer :=
| A_none                              (* the connection is closed *)
| A_full (path ct : list Z)
| A_progressive (tmp_path path ct : list Z)
| A_404.

(** The text before the first line end. *)
Definition first_line (l : list Z) : option (list Z) :=
  match strstr crlf l with
  | Some r => Some (take (length l - length r) l)
  | None => None
  end.

(** The method and path of what one [recv] stored. *)
Definition request_line (received : list Z) : option (list Z * list Z) :=
  match first_line (c_string received) with
  | None => None
  | Some line =>
    match scan_word 7 line with
    | None => None
    | Some (m, r) => match scan_word 511 r with Some (p, _) => Some (m, p) | None => None end
    end
  end.

(** [%d] printed. *)
Definition int_print (n : Z) : list Z := if decide (n < 0) then 45 :: num_print 10 (- n) else num_print 10 n.

(** The names in a directory, [None] when it cannot be opened. *)
Definition newest_seg (names : option (list (list Z))) (stream : Z) : Z :=
  let prefix := stored 64 (chars "chunk-stream" ++ int_print stream ++ chars "-") in
  match names with
  | None => -1
  | Some es =>
    fold_left (fun best e => match strip prefix e with
                             | Some r => if decide (atoi r > best) then atoi r else best
                             | None => best
                             end) es (-1)
  end.

(** What the tests for the finished and for the temporary file find. *)
Record look := mk_look { stat_fp : list Z -> bool; stat_tp : list Z -> bool }.

(** The loop that holds a request for a segment still to come: [i] rounds are
    left, each with [g_run] and, after its sleep, the file system. *)
Fixpoint hold (i : nat) (rounds : list (bool * look)) (fp tp ct : list Z) : option (list answer) :=
  match i with
  | O => Some []
  | S i =>
    match rounds with
    | [] => None
    | (run, l) :: rounds =>
      if negb run then Some [] else
      if file_exists (stat_fp l) fp then Some [A_full fp ct] else
      if file_exists (stat_tp l) tp then Some [A_progressive tp fp ct] else
      hold i rounds fp tp ct
    end
  end.

(** The segment and stream a path asks for. *)
Definition requested_seg (path : list Z) : option (Z * Z) :=
  match strip (chars "/chunk-stream") path with
  | None => None
  | Some r =>
    match scan_int r with
    | None => None
    | Some (stream, r) =>
      match strip (chars "-") r with
      | None => None
      | Some r => match scan_int r with Some (num, _) => Some (stream, num) | None => None end
      end
    end
  end.

Definition starts_with (pre l : list Z) : bool :=
  match strip pre l with Some _ => true | None => false end.

Definition contains (pat l : list Z) : bool :=
  match strstr pat l with Some _ => true | None => false end.

(** The answers to one request, in order. *)
Definition conn_handler (outdir received : list Z) (now : look) (names : option (list (list Z)))
    (rounds : list (bool * look)) (run_end : bool) (at_end : look) : option (list answer) :=
  match request_line received with
  | None => Some []
  | Some (method, path) =>
    if decide (method <> chars "GET") then Some [] else
    if decide (path = chars "/live.mpd") then
      Some [A_full (stored 512 (outdir ++ chars "/live.mpd")) MPD_CT]
    else if starts_with (chars "/") path then
      let fp := stored 1024 (outdir ++ path) in
      let tp := stored 1032 (fp ++ chars ".tmp") in
      let ct := if contains (chars ".mpd") path then MPD_CT else SEG_CT in
      if file_exists (stat_fp now) fp then Some [A_full fp ct]
      else if file_exists (stat_tp now) tp then Some [A_progressive tp fp ct]
      else
        let refused :=
          match requested_seg path with
          | Some (stream, num) =>
            let newest := newest_seg names stream in
            bool_decide (newest >= 0) && bool_decide (num > i32 (newest + 30))
          | None => false
          end in
        if refused then Some [A_404] else
        match hold 500 rounds fp tp ct with
        | None => None
        | Some served =>
          if run_end && negb (file_exists (stat_fp at_end) fp)
             && negb (file_exists (stat_tp at_end) tp)
          then Some (served ++ [A_404]) else Some served
        end
    else Some [A_404]
  end.

(** ** What reaches the peer *)

Lemma conn_eta s : mk_conn (out s) (left s) = s. Proof. by destruct s. Qed.

Lemma write_nil s : write_ s [] = s.
Proof. unfold write_, write. cbn. rewrite take_nil, app_nil_r, Nat.sub_0_r. apply conn_eta. Qed.

(** Successive writes are one write of everything. *)
Lemma write_write s a b : write_ (write_ s a) b = write_ s (a ++ b).
Proof.
  unfold write_, write. cbn. rewrite <- app_assoc. f_equal.
  - f_equal. by rewrite take_app.
  - rewrite length_app. lia.
Qed.

(** Nothing reaches a peer that is gone. *)
Lemma write_gone s d : left s = O -> write_ s d = s.
Proof.
  destruct s as [o n]. cbn. intros ->. unfold write_, write. cbn. by rewrite app_nil_r.
Qed.

Lemma send_chunk_spec s d :
  fst (send_chunk s d) = write_ s (chunk d) /\
  (snd (send_chunk s d) = false -> left (write_ s (chunk d)) = O).
Proof.
  unfold send_chunk. destruct (write (write_ s _) d) as [s1 ok] eqn:E.
  assert (Hs1 : s1 = write_ s (num_print 16 (zlen d) ++ crlf ++ d)).
  { rewrite app_assoc, <- write_write. unfold write_ at 1. by rewrite E. }
  assert (Hc : chunk d = (num_print 16 (zlen d) ++ crlf ++ d) ++ crlf).
  { unfold chunk. by rewrite <- !app_assoc. }
  rewrite Hc, <- write_write, <- Hs1. destruct ok; [done|].
  assert (Hl : left s1 = O).
  { unfold write in E. injection E as <- E. apply bool_decide_eq_false in E. cbn in *. lia. }
  cbn [fst snd]. rewrite write_gone by done. done.
Qed.

Lemma http_headers_ok s code ct len chunked :
  zlen (headers_text code ct (lenhdr len chunked)) < 320 ->
  http_headers s code ct len chunked
  = Some (write_ s (headers_text code ct (lenhdr len chunked))).
Proof.
  intros H. unfold http_headers. cbv zeta. set (t := headers_text _ _ _) in *.
  unfold stored. rewrite take_ge by (unfold zlen in H; lia).
  by rewrite slice_prefix.
Qed.

Definition nonempty (d : list Z) : Prop := 0 < zlen d.

Lemma nonempty_cons c k : nonempty (c :: k).
Proof. unfold nonempty. rewrite zlen_cons. pose proof (zlen_nonneg k). lia. Qed.

(** [chunks s s' ds]: what was sent between [s] and [s'] is the chunks [ds]. *)
Definition chunks (s s' : conn) (ds : list (list Z)) : Prop :=
  Forall nonempty ds /\ s' = write_ s (concat (chunk <$> ds)).

Lemma chunks_nil s : chunks s s [].
Proof. split; [done|]. symmetry. apply write_nil. Qed.

Lemma chunks_cons s s' d ds : nonempty d ->
  chunks (fst (send_chunk s d)) s' ds -> chunks s s' (d :: ds).
Proof.
  intros Hd [Hds ->]. split; [by constructor|].
  destruct (send_chunk_spec s d) as [-> _]. apply write_write.
Qed.

Lemma chunks_gone s d : nonempty d -> snd (send_chunk s d) = false ->
  chunks s (fst (send_chunk s d)) [d] /\ left (fst (send_chunk s d)) = O.
Proof.
  intros Hd Hf. destruct (send_chunk_spec s d) as [E Hl]. split.
  - apply chunks_cons; [done|]. apply chunks_nil.
  - rewrite E. by apply Hl.
Qed.

(** A read at [off] of a file that has grown to a prefix of [final]. *)
Lemma pread_prefix c final n off :
  c `prefix_of` final -> pread c n off `prefix_of` drop off final.
Proof.
  intros [k ->]. unfold pread. destruct (decide (off <= length c)%nat).
  - rewrite drop_app_le by done. apply prefix_app_r, prefix_take.
  - rewrite (drop_ge c) by lia. rewrite take_nil. apply prefix_nil.
Qed.

(** What the polling loop sends is the file from [off] to the offset it leaves
    with, unless the peer is gone. *)
Definition sent_from (final : list Z) (s : conn) (off : nat) (s' : conn) (off' : nat) : Prop :=
  exists ds, chunks s s' ds /\ concat ds `prefix_of` drop off final /\
    (left s' = O \/ off' = (off + length (concat ds))%nat).

Lemma sent_from_refl final s off : sent_from final s off s off.
Proof.
  exists []. split_and!; [apply chunks_nil|apply prefix_nil|right; cbn; lia].
Qed.

Lemma sent_from_chunk final s off d s' off' :
  nonempty d -> d `prefix_of` drop off final ->
  sent_from final (fst (send_chunk s d)) (off + length d) s' off' ->
  sent_from final s off s' off'.
Proof.
  intros Hd [k Hk] (ds & Hc & Hp & Ho). exists (d :: ds).
  split; [by apply chunks_cons|]. cbn [concat]. split.
  - rewrite <- drop_drop, Hk in Hp. rewrite drop_app_length in Hp. rewrite Hk.
    by apply prefix_app.
  - destruct Ho as [Ho|Ho]; [by left|right]. rewrite length_app. lia.
Qed.

Definition poll_ok (final : list Z) (p : poll) : Prop :=
  match content p with Some c => c `prefix_of` final | None => True end.

Lemma poll_tmp_spec final ps : forall s off s' off',
  Forall (poll_ok final) ps -> poll_tmp s off ps = Some (s', off') ->
  sent_from final s off s' off'.
Proof.
  induction ps as [|p ps IH]; intros s off s' off' Hps; [done|].
  apply Forall_cons in Hps as [Hp Hps]. cbn [poll_tmp]. cbv zeta.
  assert (Hnext : forall s1 o1, (if negb (tmp_there p) || negb (run p) then Some (s1, o1)
    else poll_tmp s1 o1 ps) = Some (s', off') -> sent_from final s1 o1 s' off').
  { intros s1 o1. case_match; [intros [= -> ->]; apply sent_from_refl|]. by apply IH. }
  destruct (st_size p) as [size|]; [|apply Hnext]. case_decide; [|apply Hnext].
  unfold poll_ok in Hp. destruct (content p) as [c|]; [|apply Hnext].
  pose proof (pread_prefix c final READ_MAX off Hp) as Hd.
  destruct (pread c READ_MAX off) as [|x k] eqn:E; [apply Hnext|].
  destruct (send_chunk s (x :: k)) as [s1 ok] eqn:Es. destruct ok.
  - intros Hn%Hnext. eapply sent_from_chunk; [apply nonempty_cons|exact Hd|]. by rewrite Es.
  - intros [= <- <-].
    destruct (chunks_gone s (x :: k)) as [Hc Hl]; [apply nonempty_cons|by rewrite Es|].
    rewrite Es in Hc, Hl. exists [x :: k]. cbn [concat]. rewrite app_nil_r.
    split_and!; [exact Hc|exact Hd|by left].
Qed.

Lemma send_file_spec c fuel : forall s off,
  (length c - off < fuel)%nat ->
  exists s', send_file fuel s c off = Some s' /\
    exists ds, chunks s s' ds /\ concat ds `prefix_of` drop off c /\
      (left s' = O \/ concat ds = drop off c).
Proof.
  induction fuel as [|fuel IH]; intros s off Hf; [lia|]. cbn [send_file].
  assert (Hend : drop off c = [] -> exists s', Some s = Some s' /\
    exists ds, chunks s s' ds /\ concat ds `prefix_of` drop off c /\
      (left s' = O \/ concat ds = drop off c)).
  { intros ->. exists s. split; [done|]. exists []. split_and!; [apply chunks_nil|done|by right]. }
  case_decide as Hlt; [|apply Hend, drop_ge; lia].
  pose proof (pread_prefix c c READ_MAX off ltac:(done)) as Hd.
  assert (Hlen : (0 < length (pread c READ_MAX off))%nat).
  { unfold pread. rewrite length_take, length_drop. unfold READ_MAX. lia. }
  destruct (pread c READ_MAX off) as [|x k] eqn:E; [cbn in Hlen; lia|].
  destruct (send_chunk s (x :: k)) as [s1 ok] eqn:Es. destruct ok.
  - destruct (IH s1 (off + length (x :: k))%nat) as (s' & E' & ds & Hc & Hp & Ho); [lia|].
    exists s'. split; [done|]. exists ((x :: k) :: ds). destruct Hd as [r Hr].
    rewrite <- drop_drop, Hr, drop_app_length in Hp, Ho. rewrite Hr. cbn [concat].
    split_and!; [apply chunks_cons; [apply nonempty_cons|by rewrite Es]|by apply prefix_app|].
    destruct Ho as [Ho|Ho]; [by left|right; by rewrite Ho].
  - exists s1. split; [done|].
    destruct (chunks_gone s (x :: k)) as [Hc Hl]; [apply nonempty_cons|by rewrite Es|].
    rewrite Es in Hc, Hl. exists [x :: k]. cbn [concat]. rewrite app_nil_r.
    split_and!; [exact Hc|exact Hd|by left].
Qed.

(** A transfer the peer left is the beginning of a whole one. *)
Lemma chunks_complete s s1 ds final :
  chunks s s1 ds -> concat ds `prefix_of` final ->
  (left s1 = O \/ concat ds = final) ->
  exists ds', Forall nonempty ds' /\ concat ds' = final /\
    send_term s1 = write_ s (chunks_text ds').
Proof.
  intros [Hds Hs1] [k ->] Hl. unfold send_term, chunks_text.
  destruct k as [|x k].
  - rewrite app_nil_r in Hl |- *. exists ds. split_and!; [done|done|].
    subst s1. apply write_write.
  - destruct Hl as [Hl|Hl].
    2:{ exfalso. apply (f_equal length) in Hl. rewrite length_app in Hl. cbn in Hl. lia. }
    exists (ds ++ [x :: k]). split_and!.
    + apply Forall_app. split; [done|]. by apply Forall_singleton, nonempty_cons.
    + rewrite concat_app. cbn. by rewrite app_nil_r.
    + assert (Hw : forall x, write_ s (concat (chunk <$> ds) ++ x) = s1)
        by (intros y; rewrite <- write_write, <- Hs1; by apply write_gone).
      rewrite fmap_app, concat_app, <- app_assoc, Hw. by apply write_gone.
Qed.

Lemma send_tail_gone s off m f : left s = O -> send_tail s off m f = s.
Proof.
  intros Hl. unfold send_tail. destruct f as [c|]; [|done]. case_decide; [|done].
  destruct m; [|done]. destruct (pread c (length c - off) off) as [|x k]; [done|].
  destruct (send_chunk_spec s (x :: k)) as [-> _]. by apply write_gone.
Qed.

(** Whatever the rounds of the polling loop saw, the body sent is the chunk
    encoding of the finished file, as far as the peer takes it. *)
Lemma serve_progressive_spec s tmp final ct s' :
  (forall ps, tmp = Some ps -> Forall (poll_ok final) ps) ->
  zlen (headers_text 200 ct (lenhdr (-1) true)) < 320 ->
  serve_progressive s tmp true (Some final) ct = Some s' ->
  exists ds, Forall nonempty ds /\ concat ds = final /\
    s' = write_ (write_ s (headers_text 200 ct (lenhdr (-1) true))) (chunks_text ds).
Proof.
  intros Hps Hh. unfold serve_progressive. rewrite http_headers_ok by done.
  set (s0 := write_ s _). destruct tmp as [ps|].
  - destruct (poll_tmp s0 0 ps) as [[s1 off]|] eqn:E; [|done].
    intros <-%(inj Some).
    apply (poll_tmp_spec final) in E as (ds & Hc & Hp & Ho); [|by apply Hps].
    rewrite drop_0 in Hp. destruct (decide (left s1 = O)) as [Hl|Hl].
    + rewrite send_tail_gone by done.
      destruct (chunks_complete s0 s1 ds final) as (ds' & ? & ? & ?); [done|done|by left|].
      by exists ds'.
    + destruct Ho as [|Ho]; [done|]. cbn in Ho. destruct Hp as [k ->].
      unfold send_tail. rewrite length_app. case_decide as Hk.
      2:{ destruct k; [|cbn in Hk; lia]. rewrite app_nil_r.
          destruct (chunks_complete s0 s1 ds (concat ds)) as (ds' & ? & ? & ?); [done|done|by right|].
          by exists ds'. }
      unfold pread. rewrite Ho, drop_app_length, take_ge by lia.
      destruct k as [|x k]; [cbn in Hk; lia|]. destruct Hc as [Hds ->].
      destruct (send_chunk_spec (write_ s0 (concat (chunk <$> ds))) (x :: k)) as [-> _].
      exists (ds ++ [x :: k]). split_and!.
      * apply Forall_app. split; [done|]. by apply Forall_singleton, nonempty_cons.
      * rewrite concat_app. cbn. by rewrite app_nil_r.
      * unfold send_term, chunks_text. rewrite fmap_app, concat_app, !write_write.
        cbn [fmap list_fmap concat]. by rewrite app_nil_r, <- !app_assoc.
  - destruct (send_file_spec final (S (length final)) s0 0) as (s1 & -> & ds & Hc & Hp & Ho); [lia|].
    cbn [fmap option_fmap option_map]. intros <-%(inj Some).
    by apply (chunks_complete s0 s1 ds final).
Qed.

(** The same, whether or not the finished file is found and its tail can be stored:
    the body is a beginning of the finished file, all of it unless the file was
    missing or the tail had no memory. *)
Lemma serve_progressive_body s tmp malloc_ok found final ct s' :
  (forall ps, tmp = Some ps -> Forall (poll_ok final) ps) -> (found = None \/ found = Some final) ->
  zlen (headers_text 200 ct (lenhdr (-1) true)) < 320 ->
  serve_progressive s tmp malloc_ok found ct = Some s' ->
  exists ds, Forall nonempty ds /\ concat ds `prefix_of` final /\
    (found = Some final -> tmp = None \/ malloc_ok = true -> concat ds = final) /\
    s' = write_ (write_ s (headers_text 200 ct (lenhdr (-1) true))) (chunks_text ds).
Proof.
  intros Hps Hfound Hh. destruct (decide (found = Some final /\ (tmp = None \/ malloc_ok = true))) as [[-> Hm]|Hn].
  { intros Hs. assert (Ht : serve_progressive s tmp true (Some final) ct = Some s') by (by destruct Hm as [-> | ->]).
    destruct (serve_progressive_spec _ _ _ _ _ Hps Hh Ht) as (ds & Hds & Hc & ->). exists ds. by rewrite Hc. }
  unfold serve_progressive. rewrite http_headers_ok by done. set (s0 := write_ s _). destruct tmp as [ps|].
  - destruct (poll_tmp s0 0 ps) as [[s1 off]|] eqn:E; [|done].
    apply (poll_tmp_spec final) in E as (ds & Hc & Hp & _); [|by apply Hps]. rewrite drop_0 in Hp.
    assert (send_tail s1 off malloc_ok found = s1) as ->.
    { unfold send_tail. destruct Hfound as [-> | ->]; [done|]. case_decide; [|done]. destruct malloc_ok; [|done].
      exfalso. apply Hn. split; [done|by right]. }
    intros <-%(inj Some). destruct (chunks_complete s0 s1 ds (concat ds)) as (ds' & H1 & H2 & ->); [done|done|by right|].
    exists ds'. rewrite H2. split_and!; try done. intros H3 H4. exfalso. by apply Hn.
  - destruct Hfound as [-> | ->]; [|exfalso; apply Hn; split; [done|by left]]. intros <-%(inj Some).
    exists []. split_and!; try done. apply prefix_nil.
Qed.

(** ** The client on what the server sends *)

Definition chunked_head (ct : list Z) : list Z := headers_text 200 ct (lenhdr (-1) true).

Definition served_ct (ct : list Z) : Prop := ct = MPD_CT \/ ct = SEG_CT.

Lemma chunked_head_split ct body :
  served_ct ct -> hdr_split (chunked_head ct ++ body) = Some (chunked_head ct, body).
Proof. intros [-> | ->]; vm_compute; reflexivity. Qed.

Lemma chunked_head_parsed alloc ct body junk :
  served_ct ct ->
  exists st, http_response alloc (chunked_head ct ++ body) junk = (200, chunked_body alloc body, st).
Proof.
  intros Hct. unfold http_response.
  assert (12 <= zlen (chunked_head ct)) by (destruct Hct as [-> | ->]; vm_compute; discriminate).
  pose proof (zlen_nonneg body). rewrite zlen_app. rewrite decide_False by lia.
  assert (http_status (chunked_head ct ++ body) junk = 200) as ->
    by (destruct Hct as [-> | ->]; vm_compute; reflexivity).
  cbv zeta. rewrite decide_False by (intros H'; by apply H').
  rewrite chunked_head_split by done.
  assert (scan_headers (chunked_head ct) (body ++ junk) (mk_seen false (-1)) = mk_seen true (-1)) as ->
    by (destruct Hct as [-> | ->]; vm_compute; reflexivity).
  by eexists.
Qed.

(** Growth never runs away on a response that fits the address space. *)
Lemma chunked_body_prefix alloc ds n :
  Forall nonempty ds -> zlen (concat ds) < 2 ^ 63 ->
  let r := chunked_body alloc (take n (chunks_text ds)) in
  (r = HR_err \/ r = HR_ok (concat ds)) /\
  ((forall x, x <= Z.max 262144 (2 * zlen (concat ds)) -> alloc x = true) ->
   (length (chunks_text ds) <= n)%nat -> r = HR_ok (concat ds)).
Proof.
  intros Hds Hb r. unfold chunked_body in r. subst r.
  destruct (decide (n <= length (chunks_text ds))%nat) as [Hn|Hn].
  - rewrite length_take_le by done.
    destruct (dechunk_prefix alloc ds (S n) n [] 0) as [Ha Hok]; [done|by cbn|by left|lia|].
    cbv zeta in Ha, Hok. cbn [app] in Ha, Hok. split.
    + destruct Ha as [-> | ->]; [by left|by right].
    + intros Hal Hle. by rewrite Hok.
  - rewrite take_ge by lia.
    destruct (dechunk_prefix alloc ds (S (length (chunks_text ds))) (length (chunks_text ds)) [] 0)
      as [Ha Hok]; [done|by cbn|by left|lia|].
    cbv zeta in Ha, Hok. rewrite take_ge in Ha, Hok by lia. cbn [app] in Ha, Hok. split.
    + destruct Ha as [-> | ->]; [by left|by right].
    + intros Hal Hle. by rewrite Hok.
Qed.

(** C25. A segment served while it is being written: whatever the polling rounds
    of the server saw of the growing file, and wherever the connection breaks
    off, there is one beginning of the finished segment that the client obtains,
    and obtains when nothing was cut and the client's memory lasts, or it fails.
    It is the finished segment itself when the server finds it at the end and has
    memory for its tail. (When the encoder is replaced or the server stopped in
    between, the file is not there, and the client takes the truncated segment
    for a whole one.) *)
Theorem progressive_segment_exact ct tmp malloc_ok found final budget alloc junk s' :
  served_ct ct -> zlen final < 2 ^ 63 -> found = None \/ found = Some final ->
  (forall ps, tmp = Some ps -> Forall (poll_ok final) ps) ->
  serve_progressive (mk_conn [] budget) tmp malloc_ok found ct = Some s' ->
  let '(status, r, _) := http_response alloc (out s') junk in
  exists body, body `prefix_of` final /\
    (found = Some final -> tmp = None \/ malloc_ok = true -> body = final) /\
    (r = HR_err \/ (status = 200 /\ r = HR_ok body)) /\
    ((0 < left s')%nat ->
     (forall x, x <= Z.max 262144 (2 * zlen final) -> alloc x = true) -> r = HR_ok body).
Proof.
  intros Hct Hf Hfound Hps Hs.
  assert (Hh : zlen (chunked_head ct) < 320) by (by destruct Hct as [-> | ->]).
  destruct (serve_progressive_body _ _ _ _ _ _ _ Hps Hfound Hh Hs) as (ds & Hds & Hpre & Hfull & ->).
  assert (Hle : zlen (concat ds) <= zlen final) by (destruct Hpre as [k ->]; rewrite zlen_app; pose proof (zlen_nonneg k); lia).
  rewrite write_write. fold (chunked_head ct). unfold write_, write. cbn [fst out left app].
  destruct (decide (budget < length (chunked_head ct))%nat) as [Hcut|Hcut].
  - destruct (http_response alloc _ junk) as [[status r] st] eqn:E.
    pose proof (http_response_cut alloc _ junk _ _ budget
      (chunked_head_split ct (chunks_text ds) Hct) Hcut) as Hr.
    rewrite E in Hr. cbn in Hr. subst r. exists (concat ds). split_and!; [done|done|by left|].
    rewrite length_app. lia.
  - rewrite take_app_ge by lia.
    destruct (chunked_head_parsed alloc ct
      (take (budget - length (chunked_head ct)) (chunks_text ds)) junk Hct) as [st ->].
    destruct (chunked_body_prefix alloc ds (budget - length (chunked_head ct)) Hds ltac:(lia)) as [Ha Hok].
    exists (concat ds). split_and!; [done|done| |].
    + destruct Ha as [-> | ->]; [by left|by right].
    + rewrite length_app. intros Hl Hal. apply Hok; [intros x Hx; apply Hal; lia|lia].
Qed.

(** A segment of seven bytes seen when it held three, over a connection
    that takes everything. *)
Lemma progressive_segment_exact_witness :
  let tmp := Some [mk_poll (Some 3%nat) (Some [1; 2; 3]) true true;
                   mk_poll (Some 3%nat) None false true] in
  let final := [1; 2; 3; 4; 5; 6; 7] in
  exists s', serve_progressive (mk_conn [] 400) tmp true (Some final) SEG_CT = Some s' /\
    let '(_, r, _) := http_response (fun _ => true) (out s') [] in r = HR_ok final.
Proof.
  intros tmp final. eexists. split; [vm_compute; reflexivity|].
  match goal with |- context [out ?s] =>
    pose proof (progressive_segment_exact SEG_CT tmp true (Some final) final 400 (fun _ => true) [] s
      ltac:(by right) eq_refl ltac:(by right) ltac:(intros ps [= <-]; repeat constructor; by exists [4; 5; 6; 7])
      ltac:(vm_compute; reflexivity)) as H end.
  destruct (http_response _ _ _) as [[st r] x]. destruct H as (body & _ & Hfull & _ & Hall).
  specialize (Hfull eq_refl (or_intror eq_refl)). subst body. apply Hall; [apply Nat.ltb_lt; reflexivity|done].
Defined.

(** The encoder is replaced while the segment is served: its file is gone, and the
    client has a segment of three bytes. *)
Example replaced_encoder_truncates :
  let tmp := Some [mk_poll (Some 3%nat) (Some [1; 2; 3]) true true; mk_poll (Some 3%nat) None false true] in
  exists s', serve_progressive (mk_conn [] 400) tmp true None SEG_CT = Some s' /\
    (http_response (fun _ => true) (out s') []).1 = (200, HR_ok [1; 2; 3]).
Proof. eexists. split; [vm_compute; reflexivity|]. vm_compute. reflexivity. Qed.

(** ** Files served with their length *)

Definition full_head_1 (ct : list Z) : list Z :=
  chars "HTTP/1.1 200 OK" ++ crlf ++ chars "Content-Type: " ++ ct ++ crlf.

Definition full_head_2 : list Z :=
  crlf ++ chars "Cache-Control: no-cache" ++ crlf ++ chars "Connection: close" ++ crlf
  ++ chars "Access-Control-Allow-Origin: *".

Lemma full_head_text ct len :
  0 <= len < 10 ^ 13 ->
  headers_text 200 ct (lenhdr len false)
  = full_head_1 ct ++ chars "Content-Length: " ++ num_print 10 len ++ full_head_2 ++ crlf2.
Proof.
  intros Hl. assert (Hd : (length (num_print 10 len) <= 13)%nat) by (by apply num_print_digits; lia).
  unfold lenhdr. rewrite decide_True by lia. unfold stored.
  rewrite take_ge by (rewrite !length_app; change (Z.to_nat (32 - 1)) with 31%nat;
    change (length (chars _)) with 16%nat; change (length crlf) with 2%nat; lia).
  unfold headers_text, full_head_1, full_head_2. rewrite <- !app_assoc. reflexivity.
Qed.

Lemma digits_clean f pats n :
  0 <= n -> forallb (fun pat => match pat with
                                | p :: _ => forallb (fun c => negb (bool_decide (f p = f c)))
                                              (chars "0123456789")
                                | [] => false
                                end) pats = true ->
  clean f pats (num_print 10 n) = true.
Proof.
  intros Hn Hp.
  assert (HF : Forall (fun c => In c (chars "0123456789")) (num_print 10 n)).
  { apply num_print_chars; [lia|]. intros d Hd.
    assert (Hc : d = 0 \/ d = 1 \/ d = 2 \/ d = 3 \/ d = 4 \/ d = 5 \/ d = 6 \/ d = 7 \/ d = 8 \/ d = 9)
      by lia.
    repeat (destruct Hc as [-> | Hc]; [cbn; tauto|]). subst. cbn. tauto. }
  induction HF as [|c l Hc _ IH]; [done|]. cbn [clean]. rewrite IH, andb_true_r.
  apply forallb_forall. intros pat Hin. rewrite forallb_forall in Hp. specialize (Hp pat Hin).
  destruct pat as [|p pat]; [done|]. rewrite forallb_forall in Hp. specialize (Hp c Hc).
  cbn [clash]. apply negb_true_iff, bool_decide_eq_false in Hp. by rewrite decide_False.
Qed.

Section FullHead.
Context (ct : list Z) (len : Z) (Hct : served_ct ct) (Hlen : 0 <= len < 10 ^ 13).
Let head := headers_text 200 ct (lenhdr len false).

Lemma full_head_split body : hdr_split (head ++ body) = Some (head, body).
Proof.
  unfold head. rewrite full_head_text by done. rewrite <- !app_assoc, (app_assoc (full_head_1 ct)).
  rewrite hdr_split_clean by (destruct Hct as [-> | ->]; vm_compute; reflexivity).
  rewrite hdr_split_clean by (apply digits_clean; [lia|vm_compute; reflexivity]).
  rewrite hdr_split_clean by (vm_compute; reflexivity).
  change (hdr_split (crlf2 ++ body)) with (Some (crlf2, body)). cbv iota beta.
  by rewrite <- !app_assoc.
Qed.

Let rest := full_head_2 ++ crlf2.

Lemma content_length_value after :
  strtol (skip_sep (32 :: num_print 10 len ++ rest) ++ after) = len.
Proof.
  destruct (num_print_head 10 len) as (d & l & E & Hd); [lia|lia|].
  assert (Hs : skip_sep (32 :: num_print 10 len ++ rest) = num_print 10 len ++ rest).
  { cbn [skip_sep]. rewrite decide_True by lia. rewrite E. cbn [app skip_sep].
    unfold digit_char. rewrite (decide_True (P := d < 10)) by lia. by rewrite decide_False by lia. }
  unfold strtol. rewrite Hs, <- app_assoc, scan_long_print; [done|lia|done].
Qed.

Lemma full_head_scan after :
  scan_headers head after (mk_seen false (-1)) = mk_seen false len.
Proof.
  unfold head. rewrite full_head_text by done.
  rewrite scan_headers_clean by (destruct Hct as [-> | ->]; vm_compute; reflexivity).
  change (chars "Content-Length: " ++ ?x) with (67 :: (chars "ontent-Length: " ++ x)).
  fold rest. cbn [scan_headers]. rewrite decide_True.
  2:{ rewrite zlen_cons, !zlen_app. unfold rest. rewrite zlen_app.
      pose proof (zlen_nonneg (num_print 10 len)).
      assert (zlen full_head_2 > 18) by done. assert (zlen crlf2 > 0) by done.
      pose proof (zlen_nonneg (chars "ontent-Length: ")). lia. }
  unfold header_at.
  change (67 :: chars "ontent-Length: " ++ ?x) with (chars "Content-Length: " ++ x).
  rewrite (ci_strip_clash (chars "Transfer-Encoding:") (chars "Content-Length: ")) by done.
  change (ci_strip (chars "Content-Length:") (chars "Content-Length: " ++ ?x)) with (Some (32 :: x)).
  cbv iota beta. rewrite content_length_value.
  rewrite scan_headers_clean by (vm_compute; reflexivity).
  rewrite scan_headers_clean by (apply digits_clean; [lia|vm_compute; reflexivity]).
  unfold rest. rewrite scan_headers_clean by (vm_compute; reflexivity). reflexivity.
Qed.

Lemma full_head_status body junk : http_status (head ++ body) junk = 200 /\ 12 <= zlen head < 320.
Proof.
  assert (Hd : (length (num_print 10 len) <= 13)%nat) by (by apply num_print_digits; lia).
  unfold head. rewrite full_head_text by done. split.
  - destruct Hct as [-> | ->]; vm_compute; reflexivity.
  - rewrite !zlen_app. pose proof (zlen_nonneg (num_print 10 len)).
    assert (zlen (num_print 10 len) <= 13) by (unfold zlen; lia).
    change (zlen (chars "Content-Length: ")) with 16. change (zlen crlf2) with 4.
    change (zlen full_head_2) with 76.
    assert (12 <= zlen (full_head_1 ct) < 100) by (by destruct Hct as [-> | ->]). lia.
Qed.

Lemma full_head_parsed alloc body junk :
  http_response alloc (head ++ body) junk = (200, plain_body alloc len body, true).
Proof.
  unfold http_response. destruct (full_head_status body junk) as [-> Hz].
  pose proof (zlen_nonneg body). rewrite zlen_app, decide_False by lia.
  cbv zeta. rewrite decide_False by (intros H'; by apply H').
  rewrite full_head_split. by rewrite full_head_scan.
Qed.
End FullHead.

Lemma copy_reads_spec reads : forall s,
  Forall nonempty reads -> copy_reads s reads = write_ s (concat reads).
Proof.
  induction reads as [|d reads IH]; intros s H; cbn [copy_reads concat].
  - by rewrite write_nil.
  - apply Forall_cons in H as [Hd H]. destruct d as [|x d]; [done|].
    rewrite <- write_write. unfold write_ at 2. destruct (write s (x :: d)) as [s1 ok] eqn:E.
    cbn [fst]. destruct ok; [by apply IH|].
    symmetry. apply write_gone. unfold write in E. injection E as <- E.
    apply bool_decide_eq_false in E. cbn in *. lia.
Qed.

(** A file served with its length, in whatever pieces it is read: once the
    header has arrived the client obtains exactly the bytes that followed, in
    order - the whole file when the connection lasted, and, as nothing compares
    what arrived with the length announced, the beginning of the file as a
    success when it broke off. *)
Theorem full_file_exact ct reads budget alloc junk s' :
  served_ct ct -> zlen (concat reads) < 10 ^ 13 -> Forall nonempty reads ->
  (forall x, x <= zlen (concat reads) -> alloc x = true) ->
  serve_full (mk_conn [] budget) (Some (zlen (concat reads), reads)) ct = Some s' ->
  let head := length (headers_text 200 ct (lenhdr (zlen (concat reads)) false)) in
  let '(status, r, _) := http_response alloc (out s') junk in
  if decide (budget < head)%nat then r = HR_err
  else status = 200 /\ r = HR_ok (take (budget - head) (concat reads)).
Proof.
  intros Hct Hl Hr Hal. set (file := concat reads) in *.
  pose proof (zlen_nonneg file) as H0. destruct (full_head_status ct (zlen file) Hct) with
    (body := @nil Z) (junk := @nil Z) as [_ Hz]; [lia|].
  unfold serve_full. rewrite http_headers_ok by lia. intros <-%(inj Some).
  rewrite copy_reads_spec by done. fold file. rewrite write_write.
  unfold write_, write. cbn [fst out left app].
  set (head := length (headers_text _ _ _)).
  destruct (decide (budget < head)%nat) as [Hcut|Hcut].
  - pose proof (http_response_cut alloc _ junk _ _ budget
      (full_head_split ct (zlen file) Hct ltac:(lia) file) Hcut) as Hh.
    destruct (http_response alloc _ junk) as [[status r] st] eqn:E. exact Hh.
  - rewrite take_app_ge by (unfold head in Hcut; lia).
    rewrite full_head_parsed by (done || lia). split; [done|]. fold head.
    unfold plain_body. set (b := take (budget - head) file).
    assert (Hb : zlen b <= zlen file) by (unfold b, zlen; rewrite length_take; lia).
    rewrite !(decide_False (P := zlen file >= 0 /\ zlen file < zlen b)) by lia.
    rewrite Hal by done. case_decide as Hp.
    + f_equal. unfold zlen. by rewrite Nat2Z.id, take_ge.
    + destruct b as [|x b']; [done|]. pose proof (nonempty_cons x b'). unfold nonempty in *. lia.
Qed.

Lemma full_file_exact_witness :
  exists s', serve_full (mk_conn [] 1000) (Some (5, [[1; 2; 3]; [4; 5]])) MPD_CT = Some s' /\
  let head := length (headers_text 200 MPD_CT (lenhdr 5 false)) in
  let '(status, r, _) := http_response (fun _ => true) (out s') [] in
  if decide (1000 < head)%nat then r = HR_err
  else status = 200 /\ r = HR_ok (take (1000 - head) [1; 2; 3; 4; 5]).
Proof.
  eexists. split; [vm_compute; reflexivity|].
  apply (full_file_exact MPD_CT [[1; 2; 3]; [4; 5]] 1000 (fun _ => true) []);
    [by left|done| |done|vm_compute; reflexivity].
  repeat constructor.
Defined.

(** ** The client's request at the server *)

Lemma strstr_clean pat a r :
  clean id [pat] a = true -> strstr pat (a ++ pat ++ r) = Some (pat ++ r).
Proof.
  intros H. induction a as [|c a IH]; [exact (strstr_here pat r)|].
  cbn [clean forallb] in H. apply andb_true_iff in H as [Hc H].
  apply andb_true_iff in Hc as [Hc _].
  assert (Hs : strip pat ((c :: a) ++ pat ++ r) = None) by by apply strip_clash.
  cbn [app strstr]. cbn [app] in Hs. rewrite Hs. by apply IH.
Qed.

Lemma clean_app f pats a b : clean f pats a = true -> clean f pats b = true ->
  clean f pats (a ++ b) = true.
Proof.
  intros Ha Hb. induction a as [|c a IH]; [done|]. cbn [app clean] in *.
  apply andb_true_iff in Ha as [Hc Ha]. rewrite IH, andb_true_r by done.
  rewrite forallb_forall in Hc |- *. intros pat Hin. specialize (Hc pat Hin). revert Hc.
  change (c :: a ++ b) with ((c :: a) ++ b). generalize (c :: a) as s. clear.
  induction pat as [|p pat IH]; intros [|x s]; cbn; try done. case_decide; [apply IH|done].
Qed.

(** A word of a request: printable and free of white space. *)
Definition is_word (l : list Z) : Prop := Forall (fun c => c <> 0 /\ is_space c = false) l.

Lemma is_word_facts l : is_word l ->
  clean id [crlf] l = true /\ forallb not_space l = true /\ Forall (fun c => c <> 0) l.
Proof.
  induction 1 as [|c l [Hc Hs] _ (IH1 & IH2 & IH3)]; [done|]. split_and!.
  - cbn [clean forallb clash crlf]. rewrite IH1, decide_False; [done|]. unfold id. intros <-. done.
  - cbn. rewrite IH2. unfold not_space. by rewrite Hs.
  - by constructor.
Qed.

Lemma scan_word_head n c w r :
  is_word (c :: w) -> (length (c :: w) <= n)%nat ->
  scan_word n ((c :: w) ++ 32 :: r) = Some (c :: w, 32 :: r).
Proof.
  intros Hw Hn. destruct (is_word_facts _ Hw) as (_ & Hs & _).
  apply Forall_cons in Hw as [[_ Hc] _]. unfold scan_word.
  assert (Hk : skip_space ((c :: w) ++ 32 :: r) = (c :: w) ++ 32 :: r)
    by (cbn [app skip_space]; by rewrite Hc).
  by rewrite Hk, span_app.
Qed.

(** The server's reading of the client's request line, in a prefix of the
    request that holds the line. *)
Lemma request_line_read p host k :
  is_word (47 :: p) -> (length p <= 510)%nat -> Forall (fun c => c <> 0) host ->
  (length p + 16 <= k)%nat ->
  request_line (take k (http_request (47 :: p) host)) = Some (chars "GET", 47 :: p).
Proof.
  intros Hp Hl Hh Hk. destruct (is_word_facts _ Hp) as (Hclean & _ & Hnz).
  set (line := chars "GET " ++ (47 :: p) ++ chars " HTTP/1.1").
  set (rest := chars "Host: " ++ host ++ [13; 10] ++ chars "Connection: close" ++ [13; 10; 13; 10]).
  assert (Hreq : http_request (47 :: p) host = (line ++ crlf) ++ rest).
  { unfold http_request, line, rest. by rewrite <- !app_assoc. }
  assert (Hll : length (line ++ crlf) = (length p + 16)%nat).
  { unfold line. rewrite !length_app. cbn [length].
    change (length (chars "GET ")) with 4%nat. change (length (chars " HTTP/1.1")) with 9%nat.
    change (length crlf) with 2%nat. lia. }
  rewrite Hreq, take_app_ge by lia. set (tl := take _ rest).
  assert (Hnz' : Forall (fun c => c <> 0) ((line ++ crlf) ++ tl)).
  { assert (Hc : forall s, forallb (fun c => negb (bool_decide (c = 0))) s = true ->
                 Forall (fun c : Z => c <> 0) s).
    { intros s Hs. apply List.Forall_forall. intros x Hx. rewrite forallb_forall in Hs.
      specialize (Hs x Hx). by apply negb_true_iff, bool_decide_eq_false in Hs. }
    unfold line, tl, rest. rewrite !Forall_app. split_and!; try (by apply Hc); [done|].
    apply Forall_take. rewrite !Forall_app. split_and!; (done || by apply Hc). }
  unfold request_line. rewrite c_string_id by done. unfold first_line.
  rewrite <- app_assoc, strstr_clean.
  2:{ unfold line. apply clean_app; [done|]. by apply clean_app. }
  rewrite (length_app line), Nat.add_sub, take_app_length. cbv iota.
  unfold line. change (chars "GET " ++ ?x) with ((71 :: [69; 84]) ++ 32 :: x).
  rewrite (scan_word_head 7 71 [69; 84]); [|by repeat constructor|cbn; lia].
  change (chars " HTTP/1.1") with (32 :: chars "HTTP/1.1"). cbv iota beta.
  assert (Hw : forall l, scan_word 511 (32 :: l) = scan_word 511 l) by done.
  change (32 :: (47 :: p) ++ ?x) with (32 :: 47 :: (p ++ x)). rewrite Hw.
  change (47 :: p ++ ?x) with ((47 :: p) ++ x).
  rewrite (scan_word_head 511 47 p); [done|done|cbn [length]; lia].
Qed.

Definition seg_path (outdir path : list Z) : list Z := stored 1024 (outdir ++ path).
Definition seg_tmp (outdir path : list Z) : list Z := stored 1032 (seg_path outdir path ++ chars ".tmp").
Definition seg_type (path : list Z) : list Z :=
  if contains (chars ".mpd") path then MPD_CT else SEG_CT.

(** What the server makes of the client's request, from any part of it that
    holds its first line: the manifest for its path; for another path the file
    of that name below the output directory - the finished segment if there is
    one, else the one being written. Every word that starts with a slash is
    taken, the components of the path are not looked at. *)
Theorem request_routed outdir p host k now names rounds run_end at_end :
  is_word (47 :: p) -> (length p <= 510)%nat -> Forall (fun c => c <> 0) host ->
  (length p + 16 <= k)%nat ->
  let path := 47 :: p in
  let r := conn_handler outdir (take k (http_request path host)) now names rounds run_end at_end in
  (path = chars "/live.mpd" -> r = Some [A_full (stored 512 (outdir ++ path)) MPD_CT]) /\
  (path <> chars "/live.mpd" -> stat_fp now (seg_path outdir path) = true ->
   r = Some [A_full (seg_path outdir path) (seg_type path)]) /\
  (path <> chars "/live.mpd" -> stat_fp now (seg_path outdir path) = false ->
   stat_tp now (seg_tmp outdir path) = true ->
   r = Some [A_progressive (seg_tmp outdir path) (seg_path outdir path) (seg_type path)]).
Proof.
  intros Hp Hl Hh Hk path r.
  assert (Hr : request_line (take k (http_request path host)) = Some (chars "GET", path))
    by by apply request_line_read.
  unfold r, conn_handler. rewrite Hr. rewrite decide_False by (intros H'; by apply H').
  assert (Hs : starts_with (chars "/") path = true) by by unfold path.
  split_and!.
  - intros E. rewrite decide_True by done. by rewrite E.
  - intros E Hf. rewrite decide_False, Hs by done. cbv zeta. unfold file_exists.
    fold (seg_path outdir path). by rewrite Hf.
  - intros E Hf Ht. rewrite decide_False, Hs by done. cbv zeta. unfold file_exists.
    fold (seg_path outdir path). rewrite Hf. fold (seg_tmp outdir path). by rewrite Ht.
Qed.

(** A request that climbs out of the output directory. *)
Lemma request_routed_witness :
  let path := chars "/../etc/hostname" in
  let l := mk_look (fun _ => true) (fun _ => false) in
  let r := conn_handler (chars "/tmp/vmc-dash") (take 200 (http_request path (chars "mec"))) l None
             [] true l in
  (path = chars "/live.mpd" -> r = Some [A_full (stored 512 (chars "/tmp/vmc-dash" ++ path)) MPD_CT]) /\
  (path <> chars "/live.mpd" -> true = true ->
   r = Some [A_full (seg_path (chars "/tmp/vmc-dash") path) (seg_type path)]) /\
  (path <> chars "/live.mpd" -> true = false -> false = true ->
   r = Some [A_progressive (seg_tmp (chars "/tmp/vmc-dash") path) (seg_path (chars "/tmp/vmc-dash") path)
               (seg_type path)]).
Proof.
  apply (request_routed (chars "/tmp/vmc-dash") (chars "../etc/hostname") (chars "mec") 200
    (mk_look (fun _ => true) (fun _ => false)) None [] true (mk_look (fun _ => true) (fun _ => false)));
    [repeat constructor; done|cbn; lia|repeat constructor; done|cbn; lia].
Defined.

End Serve.
