(* ===== verification/FrameSlots.v ===== *)
(** * The frame slots of the thin client ([apps/thinclient/main.c])

    The pool of access units between the reader and the decode worker: taking,
    filling, publishing, choosing by deadline, releasing, and the shift of the
    deadlines by a resync. Each function runs under the lock [g_fmu]; the copy
    into a slot does not. The two threads are the transition system at the end. *)

From S2P Require Import Prelude.
From Stdlib Require Import Sorting.Sorted.

#[local] Open Scope Z_scope.

Module Slots.

Definition VMC_FRAME_SLOTS : nat := Z.to_nat 512.

Inductive slot_st := SLOT_FREE | SLOT_READY | SLOT_DECODING | SLOT_WRITING.

#[export] Instance slot_st_eq_dec : EqDecision slot_st.
Proof. solve_decision. Defined.

Record vmc_frame_slot := mk_slot {
  buf : list Z; len : Z; send_ts : Z; pub_us : Z; deadline_us : Z; fidx : Z;
  pts_us : Z; seg : Z; state : slot_st;
}.

#[export] Instance eta_slot : Eta vmc_frame_slot := fun s =>
  mk_slot (buf s) (len s) (send_ts s) (pub_us s) (deadline_us s) (fidx s) (pts_us s) (seg s) (state s).

Abbreviation frames := (list vmc_frame_slot) (only parsing).

(** ** The operations *)

(** The first free slot, marked as being written; [None]: the caller waits. *)
Fixpoint slot_take_write (fs : frames) : option (nat * frames) :=
  match fs with
  | [] => None
  | f :: fs =>
    if decide (state f = SLOT_FREE) then Some (O, f <| state := SLOT_WRITING |> :: fs)
    else match slot_take_write fs with
         | Some (i, fs) => Some (S i, f :: fs)
         | None => None
         end
  end.

Definition slot_publish (fs : frames) (idx : nat) (n ts now dl fi : Z) (pts sg : Z) : option frames :=
  match fs !! idx with
  | None => None
  | Some f => Some (<[idx := mk_slot (buf f) n ts now dl fi pts sg SLOT_READY]> fs)
  end.

Definition slot_release (fs : frames) (idx : nat) : option frames :=
  match fs !! idx with
  | None => None
  | Some f => Some (<[idx := f <| state := SLOT_FREE |>]> fs)
  end.

(** [memcpy] of an access unit into a slot. *)
Definition slot_copy (fs : frames) (idx : nat) (data : list Z) : option frames :=
  match fs !! idx with
  | None => None
  | Some f => match blit (buf f) 0 data with
              | Some b => Some (<[idx := f <| buf := b |>]> fs)
              | None => None
              end
  end.

(** [dash_publish_au] once [slot_take_write] has returned. [None] inside: an
    access out of bounds; outside: waiting. *)
Definition dash_publish_au (fs : frames) (data : list Z) (now dl fi pts sg : Z)
    : option (option frames) :=
  match slot_take_write fs with
  | None => None
  | Some (idx, fs) =>
    Some match fs !! idx with
         | None => None
         | Some f =>
           if decide (zlen data <= zlen (buf f)) then
             match slot_copy fs idx data with
             | Some fs => slot_publish fs idx (zlen data) 0 now dl fi pts sg
             | None => None
             end
           else slot_release fs idx
         end
  end.

Definition UINT64_MAX : Z := 18446744073709551615.

(** The search of the decode worker: [idx] is the slot of the [best] deadline
    so far. *)
Fixpoint pick (i : nat) (best : Z) (idx : option nat) (fs : frames) : option nat :=
  match fs with
  | [] => idx
  | f :: fs =>
    if decide (state f = SLOT_READY /\ deadline_us f < best)
    then pick (S i) (deadline_us f) (Some i) fs
    else pick (S i) best idx fs
  end.

(** The slot chosen, marked as being decoded; [None]: the worker waits. *)
Definition decode_take (fs : frames) : option (nat * frames) :=
  match pick 0 UINT64_MAX None fs with
  | None => None
  | Some i =>
    match fs !! i with
    | Some f => Some (i, <[i := f <| state := SLOT_DECODING |>]> fs)
    | None => None
    end
  end.

(** The deadlines moved by a resync. *)
Definition shift_deadline (delta : Z) (f : vmc_frame_slot) : vmc_frame_slot :=
  if decide (state f <> SLOT_FREE) then
    f <| deadline_us := u64 (Z.max 0 (i64 (i64 (deadline_us f) + delta))) |>
  else f.

Definition shift_deadlines (delta : Z) (fs : frames) : frames := shift_deadline delta <$> fs.

(** What the decoder is given of a slot, and the identity that goes with it. *)
Definition au_of (f : vmc_frame_slot) : list Z * Z * Z * Z :=
  (take (Z.to_nat (len f)) (buf f), fidx f, pts_us f, seg f).

(** ** The two threads

    [rd]: the slot the reader writes; [dc]: the slot the worker decodes;
    [published] and [decoded] are the access units so far. *)
Record sys := mk_sys {
  g_frames : frames; rd : option nat; dc : option nat;
  published : list (list Z * Z * Z * Z); decoded : list (list Z * Z * Z * Z);
}.

(** The deadline is that of no frame before, among those that wait. *)
Definition is_latest (fs : frames) (dl : Z) : Prop :=
  Forall (fun f => state f = SLOT_READY -> deadline_us f < dl) fs.

Inductive pstep : sys -> sys -> Prop :=
| S_take fs i fs' d p q :
    slot_take_write fs = Some (i, fs') ->
    pstep (mk_sys fs None d p q) (mk_sys fs' (Some i) d p q)
| S_copy fs i data fs' d p q :
    slot_copy fs i data = Some fs' ->
    pstep (mk_sys fs (Some i) d p q) (mk_sys fs' (Some i) d p q)
| S_publish fs i n ts now dl fi pts sg fs' f d p q :
    slot_publish fs i n ts now dl fi pts sg = Some fs' -> fs' !! i = Some f ->
    is_latest fs dl -> dl < UINT64_MAX ->
    pstep (mk_sys fs (Some i) d p q) (mk_sys fs' None d (p ++ [au_of f]) q)
| S_discard fs i fs' d p q :
    slot_release fs i = Some fs' ->
    pstep (mk_sys fs (Some i) d p q) (mk_sys fs' None d p q)
| S_pick fs r i fs' p q :
    decode_take fs = Some (i, fs') ->
    pstep (mk_sys fs r None p q) (mk_sys fs' r (Some i) p q)
| S_decoded fs r i f fs' p q :
    fs !! i = Some f -> slot_release fs i = Some fs' ->
    pstep (mk_sys fs r (Some i) p q) (mk_sys fs' r None p (q ++ [au_of f]))
| S_kept fs r i f p q :
    fs !! i = Some f ->
    pstep (mk_sys fs r (Some i) p q) (mk_sys fs r None p (q ++ [au_of f]))
| S_resync fs delta r d p q :
    Forall (fun f => state f <> SLOT_FREE ->
      0 <= deadline_us f < 2 ^ 63 /\ 0 <= deadline_us f + delta < 2 ^ 63) fs ->
    pstep (mk_sys fs r d p q) (mk_sys (shift_deadlines delta fs) r d p q).

(** Static storage: zeroed slots. *)
Definition sys_init (n cap : nat) : sys :=
  mk_sys (replicate n (mk_slot (replicate cap 0) 0 0 0 0 0 0 0 SLOT_FREE)) None None [] [].

(** ** Ready slots *)

Definition is_ready (f : vmc_frame_slot) : Prop := state f = SLOT_READY.
#[export] Instance is_ready_dec f : Decision (is_ready f).
Proof. unfold is_ready. apply _. Defined.

Definition ready (fs : frames) : frames := filter is_ready fs.

Definition when_ready (f : vmc_frame_slot) : frames := if decide (is_ready f) then [f] else [].

Lemma ready_cons f fs : ready (f :: fs) = when_ready f ++ ready fs.
Proof.
  unfold ready, when_ready. case_decide; [by rewrite filter_cons_True|by rewrite filter_cons_False].
Qed.

(** Replacing a slot replaces what it contributes. *)
Lemma ready_insert fs i f f' :
  fs !! i = Some f -> when_ready f' ++ ready fs ≡ₚ when_ready f ++ ready (<[i := f']> fs).
Proof.
  revert i. induction fs as [|g fs IH]; intros [|i] H; try done.
  - injection H as ->. change (<[O := f']> (f :: fs)) with (f' :: fs).
    rewrite !ready_cons, !app_assoc. apply Permutation_app_tail, Permutation_app_comm.
  - change (<[S i := f']> (g :: fs)) with (g :: <[i := f']> fs).
    rewrite !ready_cons, !app_assoc.
    rewrite (Permutation_app_comm (when_ready f')), (Permutation_app_comm (when_ready f)).
    rewrite <- !app_assoc. by apply Permutation_app_head, IH.
Qed.

Lemma ready_insert_idle fs i f f' :
  fs !! i = Some f -> ~ is_ready f -> ~ is_ready f' -> ready (<[i := f']> fs) ≡ₚ ready fs.
Proof.
  intros H Hf Hf'. pose proof (ready_insert fs i f f' H) as Hp. unfold when_ready in Hp.
  by rewrite !decide_False in Hp.
Qed.

Lemma slot_take_write_spec fs i fs' :
  slot_take_write fs = Some (i, fs') ->
  exists f, fs !! i = Some f /\ state f = SLOT_FREE /\ fs' = <[i := f <| state := SLOT_WRITING |>]> fs.
Proof.
  revert i fs'. induction fs as [|g fs IH]; intros i fs'; cbn; [done|]. case_decide.
  - intros [= <- <-]. by exists g.
  - destruct (slot_take_write fs) as [[j fs1]|]; [|done]. intros [= <- <-].
    destruct (IH j fs1 eq_refl) as (f & ? & ? & ->). by exists f.
Qed.

(** The search finds a slot of least deadline among the ready ones. *)
Lemma pick_spec fs : forall i best idx,
  match pick i best idx fs with
  | None => idx = None /\ Forall (fun f => is_ready f -> best <= deadline_us f) fs
  | Some k =>
    (idx = Some k /\ Forall (fun f => is_ready f -> best <= deadline_us f) fs) \/
    exists j f, k = (i + j)%nat /\ fs !! j = Some f /\ is_ready f /\ deadline_us f < best /\
      Forall (fun g => is_ready g -> deadline_us f <= deadline_us g) fs
  end.
Proof.
  induction fs as [|f fs IH]; intros i best idx; cbn [pick].
  - destruct idx; [left|]; done.
  - case_decide as Hc.
    + destruct Hc as [Hr Hlt]. specialize (IH (S i) (deadline_us f) (Some i)).
      destruct (pick (S i) (deadline_us f) (Some i) fs) as [k|]; [|by destruct IH].
      right. destruct IH as [[[= <-] Ha]|(j & g & -> & Hj & Hg & Hlt' & Ha)].
      * exists O, f. split_and!; [lia|done|done|done|]. by constructor.
      * exists (S j), g. split_and!; [lia|done|done|lia|]. constructor; [lia|done].
    + assert (Hb : is_ready f -> best <= deadline_us f).
      { intros Hr. destruct (decide (deadline_us f < best)); [|lia]. by destruct Hc. }
      specialize (IH (S i) best idx).
      destruct (pick (S i) best idx fs) as [k|].
      * destruct IH as [[-> Ha]|(j & g & -> & Hj & Hg & Hlt' & Ha)].
        -- left. by split; [|constructor].
        -- right. exists (S j), g. split_and!; [lia|done|done|done|]. constructor; [|done].
           intros Hr. specialize (Hb Hr). lia.
      * destruct IH as [-> Ha]. by split; [|constructor].
Qed.

Lemma decode_take_spec fs i fs' :
  decode_take fs = Some (i, fs') ->
  exists f, fs !! i = Some f /\ is_ready f /\ fs' = <[i := f <| state := SLOT_DECODING |>]> fs /\
    Forall (fun g => is_ready g -> deadline_us f <= deadline_us g) fs.
Proof.
  unfold decode_take. pose proof (pick_spec fs 0 UINT64_MAX None) as Hp.
  destruct (pick 0 UINT64_MAX None fs) as [k|]; [|done].
  destruct Hp as [[? _]|(j & f & -> & Hj & Hr & _ & Ha)]; [done|]. cbn.
  rewrite Hj. intros [= <- <-]. by exists f.
Qed.

Lemma shift_deadline_state delta f : state (shift_deadline delta f) = state f.
Proof. unfold shift_deadline. by case_decide. Qed.

Lemma au_of_shift delta f : au_of (shift_deadline delta f) = au_of f.
Proof. unfold shift_deadline. by case_decide. Qed.

Lemma ready_shift delta fs : ready (shift_deadlines delta fs) = shift_deadline delta <$> ready fs.
Proof.
  unfold shift_deadlines. induction fs as [|f fs IH]; [done|]. cbn [fmap list_fmap].
  rewrite !ready_cons, fmap_app. f_equal; [|done]. unfold when_ready.
  assert (Hs : is_ready (shift_deadline delta f) <-> is_ready f)
    by (unfold is_ready; by rewrite shift_deadline_state).
  destruct (decide (is_ready f)).
  - by rewrite !decide_True by tauto.
  - by rewrite !decide_False by tauto.
Qed.

(** ** The queue behind the slots *)

Definition before (f g : vmc_frame_slot) : Prop := deadline_us f < deadline_us g.

Definition in_state (fs : frames) (i : option nat) (st : slot_st) : Prop :=
  forall k, i = Some k -> exists f, fs !! k = Some f /\ state f = st.

(** The access unit being decoded. *)
Definition current (s : sys) : list (list Z * Z * Z * Z) :=
  match dc s with
  | Some i => match g_frames s !! i with Some f => [au_of f] | None => [] end
  | None => []
  end.

(** [rest]: the slots that wait, in the order they will be decoded. *)
Definition queued (s : sys) (rest : frames) : Prop :=
  rest ≡ₚ ready (g_frames s) /\ StronglySorted before rest /\
  published s = decoded s ++ current s ++ (au_of <$> rest) /\
  in_state (g_frames s) (rd s) SLOT_WRITING /\ in_state (g_frames s) (dc s) SLOT_DECODING.

Definition slots_inv (s : sys) : Prop := exists rest, queued s rest.

Lemma in_state_insert fs i f f' o st :
  fs !! i = Some f -> state f <> st -> in_state fs o st -> in_state (<[i := f']> fs) o st.
Proof.
  intros Hi Hne Ho k ->. destruct (Ho k eq_refl) as (g & Hk & Hg).
  exists g. split; [|done]. rewrite list_lookup_insert_ne; [done|].
  intros ->. rewrite Hi in Hk. injection Hk as ->. done.
Qed.

Lemma in_state_here fs i f st : (i < length fs)%nat -> state f = st ->
  in_state (<[i := f]> fs) (Some i) st.
Proof. intros Hl Hf k [= <-]. exists f. split; [|done]. by apply list_lookup_insert_eq. Qed.

Lemma current_insert fs i f f' r d p q :
  fs !! i = Some f -> state f <> SLOT_DECODING -> in_state fs d SLOT_DECODING ->
  current (mk_sys (<[i := f']> fs) r d p q) = current (mk_sys fs r d p q).
Proof.
  intros Hi Hne Hd. unfold current. cbn. destruct d as [j|]; [|done].
  destruct (Hd j eq_refl) as (g & Hj & Hg). rewrite list_lookup_insert_ne; [done|].
  intros ->. rewrite Hi in Hj. injection Hj as ->. done.
Qed.

Lemma sorted_last rest f :
  StronglySorted before rest -> Forall (fun g => before g f) rest ->
  StronglySorted before (rest ++ [f]).
Proof.
  induction 1 as [|g rest Hs IH Hg]; intros Ha; cbn; [by repeat constructor|].
  apply Forall_cons in Ha as [Hgf Ha]. constructor; [by apply IH|].
  apply List.Forall_app. split; [done|]. by repeat constructor.
Qed.

(** The earliest of a sorted list is its head. *)
Lemma sorted_min rest f :
  StronglySorted before rest -> f ∈ rest -> Forall (fun g => deadline_us f <= deadline_us g) rest ->
  exists rest', rest = f :: rest'.
Proof.
  intros Hs Hin Ha. destruct rest as [|g rest]; [by apply not_elem_of_nil in Hin|].
  apply StronglySorted_inv in Hs as [_ Hg]. apply Forall_cons in Ha as [Hgf _].
  apply elem_of_cons in Hin as [->|Hin]; [by exists rest|].
  rewrite List.Forall_forall in Hg. apply list_elem_of_In in Hin.
  specialize (Hg f Hin). unfold before in Hg. lia.
Qed.

Lemma sorted_map (g : vmc_frame_slot -> vmc_frame_slot) rest :
  (forall a b, a ∈ rest -> b ∈ rest -> before a b -> before (g a) (g b)) ->
  StronglySorted before rest -> StronglySorted before (g <$> rest).
Proof.
  intros Hg Hs. induction Hs as [|a rest Hs IH Ha]; cbn; constructor.
  - apply IH. intros x y Hx Hy. apply Hg; by right.
  - apply List.Forall_forall. intros y (b & <- & Hb)%in_map_iff.
    rewrite List.Forall_forall in Ha. apply Hg; [by left|right; by apply list_elem_of_In|by apply Ha].
Qed.

Lemma Forall_ready (P : vmc_frame_slot -> Prop) fs rest :
  rest ≡ₚ ready fs -> Forall (fun f => is_ready f -> P f) fs -> Forall P rest.
Proof.
  intros Hp Ha. rewrite Hp. unfold ready. apply Forall_forall. intros f [Hf Hin]%list_elem_of_filter.
  rewrite Forall_forall in Ha. by apply Ha.
Qed.

Lemma lookup_insert_inv (fs : frames) (i : nat) (f f' g : vmc_frame_slot) :
  fs !! i = Some f -> <[i := f']> fs !! i = Some g -> g = f'.
Proof.
  intros Hi. rewrite list_lookup_insert_eq by by eapply lookup_lt_Some. by intros [= ->].
Qed.

(** A change of a slot that neither waits before nor after. *)
Lemma queued_idle fs i f f' r r' d p q rest :
  fs !! i = Some f -> ~ is_ready f -> ~ is_ready f' -> state f <> SLOT_DECODING ->
  in_state (<[i := f']> fs) r' SLOT_WRITING ->
  queued (mk_sys fs r d p q) rest -> queued (mk_sys (<[i := f']> fs) r' d p q) rest.
Proof.
  intros Hi Hf Hf' Hne Hr (Hp & Hs & Hq & _ & Hd). cbn in *. split_and!; cbn.
  - by rewrite (ready_insert_idle fs i f f').
  - done.
  - by rewrite (current_insert fs i f f' r' d p q).
  - done.
  - by apply (in_state_insert fs i f).
Qed.

Ltac slot_states := unfold is_ready in *; cbn; congruence.

Lemma queued_publish fs i n ts now dl fi pts sg fs' f d p q rest :
  slot_publish fs i n ts now dl fi pts sg = Some fs' -> fs' !! i = Some f ->
  is_latest fs dl -> queued (mk_sys fs (Some i) d p q) rest ->
  queued (mk_sys fs' None d (p ++ [au_of f]) q) (rest ++ [f]).
Proof.
  unfold slot_publish. intros E Hf Hl (Hp & Hs & Hq & Hr & Hd). cbn in *.
  destruct (Hr i eq_refl) as (g & Hi & Hg). rewrite Hi in E. injection E as <-.
  apply (lookup_insert_inv fs i g) in Hf; [|done]. subst f.
  set (f := mk_slot _ _ _ _ _ _ _ _ _) in *.
  pose proof (ready_insert fs i g f Hi) as Hri. unfold when_ready in Hri.
  rewrite decide_True, decide_False in Hri by (done || slot_states).
  split_and!; cbn.
  - by rewrite <- Hri, Hp, Permutation_app_comm.
  - apply sorted_last; [done|]. by apply (Forall_ready _ fs).
  - rewrite (current_insert fs i g) by (done || congruence). rewrite Hq, fmap_app, <- !app_assoc.
    done.
  - done.
  - apply (in_state_insert fs i g); [done|congruence|done].
Qed.

Lemma queued_pick fs r i fs' p q rest :
  decode_take fs = Some (i, fs') -> queued (mk_sys fs r None p q) rest ->
  exists rest', queued (mk_sys fs' r (Some i) p q) rest'.
Proof.
  intros (f & Hi & Hf & -> & Ha)%decode_take_spec (Hp & Hs & Hq & Hr & Hd). cbn in *.
  assert (Hin : f ∈ rest).
  { rewrite Hp. apply list_elem_of_filter. split; [done|]. by eapply list_elem_of_lookup_2. }
  destruct (sorted_min rest f Hs Hin) as [rest' ->]; [by apply (Forall_ready _ fs)|].
  exists rest'. set (f' := f <| state := SLOT_DECODING |>).
  pose proof (ready_insert fs i f f' Hi) as Hri. unfold when_ready in Hri.
  rewrite decide_False, decide_True in Hri by (done || slot_states). cbn [app] in Hri.
  assert (Hlt : (i < length fs)%nat) by by eapply lookup_lt_Some.
  split_and!; cbn.
  - apply (Permutation_cons_inv (a := f)). by rewrite Hp, Hri.
  - by apply StronglySorted_inv in Hs as [? _].
  - unfold current. cbn. rewrite list_lookup_insert_eq by done. exact Hq.
  - apply (in_state_insert fs i f); [done|slot_states|done].
  - by apply in_state_here.
Qed.

Lemma queued_resync fs delta r d p q rest :
  Forall (fun f => state f <> SLOT_FREE ->
    0 <= deadline_us f < 2 ^ 63 /\ 0 <= deadline_us f + delta < 2 ^ 63) fs ->
  queued (mk_sys fs r d p q) rest ->
  queued (mk_sys (shift_deadlines delta fs) r d p q) (shift_deadline delta <$> rest).
Proof.
  intros Hd0 (Hp & Hs & Hq & Hr & Hd). cbn in *.
  assert (Hst : forall o st, in_state fs o st -> in_state (shift_deadlines delta fs) o st).
  { intros o st Ho k ->. destruct (Ho k eq_refl) as (f & Hk & Hf).
    exists (shift_deadline delta f). unfold shift_deadlines. rewrite list_lookup_fmap, Hk.
    by rewrite shift_deadline_state. }
  assert (Heq : Forall (fun f => deadline_us (shift_deadline delta f) = deadline_us f + delta) rest).
  { apply (Forall_ready _ fs); [done|].
    apply Forall_forall. intros f Hin Hf. rewrite Forall_forall in Hd0.
    destruct (Hd0 f Hin) as [H1 H2]; [slot_states|].
    unfold shift_deadline. rewrite decide_True by slot_states. cbn [deadline_us].
    cbn. rewrite (i64_small (deadline_us f)), i64_small, u64_small; unfold UINT64_MAX in *; lia. }
  split_and!; cbn.
  - by rewrite ready_shift, Hp.
  - apply sorted_map; [|done]. intros a b Ha Hb Hab. rewrite Forall_forall in Heq.
    unfold before. rewrite (Heq a Ha), (Heq b Hb). unfold before in Hab. lia.
  - assert (Hc : current (mk_sys (shift_deadlines delta fs) r d p q)
               = current (mk_sys fs r d p q)).
    { unfold current. cbn. destruct d as [j|]; [|done]. unfold shift_deadlines.
      rewrite list_lookup_fmap. destruct (fs !! j); [|done]. cbn. by rewrite au_of_shift. }
    rewrite Hc, Hq. do 2 f_equal. rewrite <- list_fmap_compose. apply list_fmap_ext.
    intros k f _. cbn. by rewrite au_of_shift.
  - by apply Hst.
  - by apply Hst.
Qed.

Lemma slots_inv_step s s' : slots_inv s -> pstep s s' -> slots_inv s'.
Proof.
  intros [rest Hq] Hstep. inversion Hstep; subst; clear Hstep.
  - apply slot_take_write_spec in H as (f & Hi & Hf & ->). exists rest.
    eapply queued_idle; [exact Hi|slot_states|slot_states|congruence| |exact Hq].
    apply in_state_here; [by eapply lookup_lt_Some|done].
  - unfold slot_copy in H. destruct (fs !! i) as [f|] eqn:Hi; [|done].
    destruct (blit (buf f) 0 data) as [b|]; [|done]. injection H as <-. exists rest.
    destruct Hq as (Hp & Hs & Hq & Hr & Hd). cbn in Hr.
    destruct (Hr i eq_refl) as (f' & Hi' & Hf). rewrite Hi in Hi'. injection Hi' as <-.
    eapply queued_idle; [exact Hi|slot_states|slot_states|congruence| |done].
    apply in_state_here; [by eapply lookup_lt_Some|done].
  - exists (rest ++ [f]). by eapply queued_publish.
  - unfold slot_release in H. destruct (fs !! i) as [f|] eqn:Hi; [|done]. injection H as <-.
    destruct Hq as (Hp & Hs & Hq & Hr & Hd). cbn in Hr.
    destruct (Hr i eq_refl) as (f' & Hi' & Hf). rewrite Hi in Hi'. injection Hi' as <-.
    exists rest. by eapply queued_idle; [exact Hi|slot_states|slot_states|congruence| |].
  - by eapply queued_pick.
  - unfold slot_release in H0. rewrite H in H0. injection H0 as <-.
    destruct Hq as (Hp & Hs & Hq & Hr & Hd). cbn in *.
    destruct (Hd i eq_refl) as (f' & Hi' & Hf). rewrite H in Hi'. injection Hi' as <-.
    exists rest. split_and!; cbn.
    + by rewrite (ready_insert_idle fs i f); [|done|slot_states|slot_states].
    + done.
    + unfold current in Hq. cbn in Hq. rewrite H in Hq. by rewrite <- app_assoc.
    + by apply (in_state_insert fs i f); [|congruence|].
    + done.
  - destruct Hq as (Hp & Hs & Hq & Hr & Hd). cbn in *. exists rest. split_and!; cbn; try done.
    unfold current in Hq. cbn in Hq. rewrite H in Hq. by rewrite <- app_assoc.
  - exists (shift_deadline delta <$> rest). by apply queued_resync.
Qed.

Lemma slots_inv_init n cap : slots_inv (sys_init n cap).
Proof.
  exists []. split_and!; try done; [|constructor]. cbn.
  assert (Hr : forall f, ~ is_ready f -> ready (replicate n f) = []).
  { intros f Hf. induction n as [|m IH]; [done|]. cbn [replicate]. rewrite ready_cons, IH.
    unfold when_ready. by rewrite decide_False. }
  by rewrite Hr.
Qed.

(** C6. The slots and the two threads implement a queue: over every
    interleaving of the reader and the decode worker, resyncs included, in which
    each access unit is published with a later deadline than those still
    waiting and no resync moves a deadline below 0, the units decoded, the one being decoded and those that wait are
    together the units published, in the order they were published - none is
    lost, duplicated, reordered or changed while its slot waits. *)
Theorem slots_decode_in_order n cap s :
  star pstep (sys_init n cap) s ->
  exists rest, published s = decoded s ++ current s ++ (au_of <$> rest) /\
    rest ≡ₚ ready (g_frames s) /\
    StronglySorted (fun f g => deadline_us f < deadline_us g) rest.
Proof.
  intros Hs. destruct (star_invariant pstep slots_inv _ _ slots_inv_step Hs) as [rest Hq].
  { apply slots_inv_init. }
  destruct Hq as (Hp & Hsr & Hq & _). by exists rest.
Qed.

(** One unit published into two slots of four bytes and taken for decoding. *)
Lemma slots_decode_in_order_witness :
  let s := mk_sys [mk_slot [7; 8; 0; 0] 2 0 100 900 5 0 1 SLOT_DECODING;
                   mk_slot [0; 0; 0; 0] 0 0 0 0 0 0 0 SLOT_FREE] None (Some O) [([7; 8], 5, 0, 1)] [] in
  current s = [([7; 8], 5, 0, 1)] /\
  exists rest, published s = decoded s ++ current s ++ (au_of <$> rest) /\
    rest ≡ₚ ready (g_frames s) /\
    StronglySorted (fun f g => deadline_us f < deadline_us g) rest.
Proof.
  intros s. split; [reflexivity|]. apply (slots_decode_in_order 2 4).
  unfold sys_init. cbn [replicate].
  eapply star_step; [eapply S_take; reflexivity|].
  eapply star_step; [eapply (S_copy _ _ [7; 8]); reflexivity|].
  eapply star_step.
  { eapply (S_publish _ _ 2 0 100 900 5 0 1); [reflexivity|reflexivity| |reflexivity].
    repeat constructor; cbn; discriminate. }
  eapply star_step; [eapply S_pick; vm_compute; reflexivity|].
  apply star_refl.
Defined.

(** Two units of one frame share a deadline: the worker takes the one in the
    lower slot, here the later one, first. *)
Example equal_deadlines_reordered :
  let first := mk_slot [1] 1 0 0 900 5 0 1 SLOT_READY in
  let second := mk_slot [2] 1 0 0 900 5 0 1 SLOT_READY in
  pick 0 UINT64_MAX None [second; first] = Some O.
Proof. reflexivity. Qed.

End Slots.
