(* ===== verification/Present.v ===== *)
(** * The presentation path of the thin client ([apps/thinclient/main.c])

    The queue between the decode worker and the present worker, and the
    pipeline of the decode worker in DRM mode, which converts one frame while
    the previous one is copied to its buffer and queued. *)

From S2P Require Import Prelude FrameSlots.

#[local] Open Scope Z_scope.

Module Present.

(** ** The queue ([present_push], [present_pop], under [g_present_qmu]) *)

Definition VMC_PRESENT_QUEUE_SIZE : Z := 128.

Record present_entry := mk_entry { buf_idx : Z; deadline_us : Z; pts_us : Z }.

Record present_queue := mk_queue {
  queue : list present_entry; qhead : Z; qtail : Z; qcount : Z;
}.

#[export] Instance eta_queue : Eta present_queue := fun q =>
  mk_queue (queue q) (qhead q) (qtail q) (qcount q).

Definition queue_init : present_queue :=
  mk_queue (replicate (Z.to_nat VMC_PRESENT_QUEUE_SIZE) (mk_entry 0 0 0)) 0 0 0.

(** What a call under the lock comes to. *)
Inductive blocking (A : Type) := Waits | Does (x : A) | Faults.
Arguments Waits {A}.
Arguments Does {A} x.
Arguments Faults {A}.

(** [run] is [g_run]: a full queue blocks the caller only while it is set. *)
Definition present_push (q : present_queue) (run : bool) (e : present_entry)
    : blocking present_queue :=
  if decide (qcount q >= VMC_PRESENT_QUEUE_SIZE /\ run = true) then Waits else
  match zset (queue q) (qtail q) e with
  | None => Faults
  | Some es => Does (mk_queue es (qhead q) ((qtail q + 1) mod VMC_PRESENT_QUEUE_SIZE) (qcount q + 1))
  end.

(** [None]: the queue is empty and the program ends. *)
Definition present_pop (q : present_queue) (run : bool)
    : blocking (option (present_entry * present_queue)) :=
  if decide (qcount q = 0) then (if run then Waits else Does None) else
  match zget (queue q) (qhead q) with
  | None => Faults
  | Some e => Does (Some (e, mk_queue (queue q) ((qhead q + 1) mod VMC_PRESENT_QUEUE_SIZE) (qtail q)
                               (qcount q - 1)))
  end.

(** The deadlines moved by [dash_resync]; [0] marks an entry never used. *)
Definition shift_entry (delta : Z) (e : present_entry) : present_entry :=
  if decide (deadline_us e <> 0) then
    mk_entry (buf_idx e) (u64 (Z.max 0 (i64 (i64 (deadline_us e) + delta)))) (pts_us e)
  else e.

Definition shift_queue (delta : Z) (q : present_queue) : present_queue :=
  q <| queue := shift_entry delta <$> queue q |>.

(** The [n] entries from position [h] on, and the entries queued, oldest first. *)
Fixpoint entries_from (es : list present_entry) (h : Z) (n : nat) : list present_entry :=
  match n with
  | O => []
  | S n => option_list (zget es (h mod VMC_PRESENT_QUEUE_SIZE)) ++ entries_from es (h + 1) n
  end.

Definition entries (q : present_queue) : list present_entry :=
  entries_from (queue q) (qhead q) (Z.to_nat (qcount q)).

Definition queue_ok (q : present_queue) : Prop :=
  zlen (queue q) = VMC_PRESENT_QUEUE_SIZE /\ 0 <= qhead q < VMC_PRESENT_QUEUE_SIZE /\
  0 <= qcount q <= VMC_PRESENT_QUEUE_SIZE /\
  qtail q = (qhead q + qcount q) mod VMC_PRESENT_QUEUE_SIZE.

(** The calls of the two workers while the program runs, and what the present
    worker obtains; a call that waits is repeated later. *)
Inductive queue_op := Op_push (e : present_entry) | Op_pop | Op_resync (delta : Z).

Definition queue_step (q : present_queue) (o : queue_op)
    : option (present_queue * list present_entry * list present_entry) :=
  match o with
  | Op_push e => match present_push q true e with
                 | Waits => Some (q, [], [])
                 | Does q => Some (q, [e], [])
                 | Faults => None
                 end
  | Op_pop => match present_pop q true with
              | Waits | Does None => Some (q, [], [])
              | Does (Some (e, q)) => Some (q, [], [e])
              | Faults => None
              end
  | Op_resync delta => Some (shift_queue delta q, [], [])
  end.

(** The queue, the entries pushed and the entries popped. *)
Fixpoint queue_run (q : present_queue) (os : list queue_op)
    : option (present_queue * list present_entry * list present_entry) :=
  match os with
  | [] => Some (q, [], [])
  | o :: os =>
    match queue_step q o with
    | None => None
    | Some (q, i, r) =>
      match queue_run q os with
      | None => None
      | Some (q, pushed, popped) => Some (q, i ++ pushed, r ++ popped)
      end
    end
  end.

(** ** The decode worker in DRM mode *)

(** The access unit in a slot, decoded. *)
Record decoded_au := mk_au {
  slot : nat; fidx : Z; seg : Z; au_pts : Z; au_deadline : Z; decode_us : Z;
}.

(** What the worker obtains for it: a scanout buffer, if one becomes free within
    the retries; the event of its conversion, if it yields one; whether the wait
    for the previous conversion succeeds, and how long it takes. *)
Record conv_env := mk_conv { buffer : option Z; event : option Z; wait_ok : bool; conv_us : Z }.

Record vmc_vmeta := mk_vmeta {
  m_fidx : Z; m_seg : Z; m_pts : Z; m_deadline : Z; m_decode : Z; m_conv : Z;
}.

(** The conversion in flight and the identity kept for it ([g_pending_*],
    [g_prev_stage], [g_stage_idx]). *)
Record pending := mk_pending {
  p_ev : option Z; p_prev_stage : Z; p_stage_idx : Z; p_buf : Z; p_deadline : Z;
  p_fidx : Z; p_seg : Z; p_pts : Z; p_decode : Z;
}.

Definition pending_init : pending := mk_pending None 0 0 (-1) 0 0 0 0 0.

(** What leaves the worker, in order: the start of a conversion into a stage, with
    its event; the wait for an event, and whether it succeeds; the end of an
    event; the copy of a stage to a scanout buffer, the entry of [g_vmeta] for a
    buffer, the release of a frame slot, the entry queued. *)
Inductive effect :=
| E_convert (au : decoded_au) (stage buf : Z) (ev : option Z)
| E_wait (ev : Z) (ok : bool)
| E_free (ev : Z)
| E_copy (stage buf : Z)
| E_meta (buf : Z) (m : vmc_vmeta)
| E_release (slot : nat)
| E_push (e : present_entry).

(** The previous frame, if its conversion is in flight: its stage is copied once
    the wait is over, also when the wait failed; the identity of the frame at hand
    is stored before the previous one is queued. *)
Definition flush_pending (p : pending) (au : decoded_au) (wait_ok : bool) (conv : Z) : pending * list effect :=
  match p_ev p with
  | None => (p, [])
  | Some ev =>
  let meta := if decide (0 <= p_buf p < 8)
              then [E_meta (p_buf p) (mk_vmeta (p_fidx p) (p_seg p) (p_pts p) (p_deadline p)
                                        (p_decode p) conv)] else [] in
  let p' := mk_pending (p_ev p) (p_prev_stage p) (p_stage_idx p) (p_buf p) (p_deadline p)
              (fidx au) (seg au) (au_pts au) (decode_us au) in
  (p', [E_wait ev wait_ok; E_free ev] ++ [E_copy (p_prev_stage p) (p_buf p)] ++ meta ++ [E_release (slot au)]
       ++ [E_push (mk_entry (p_buf p') (p_deadline p') (p_pts p'))])
  end.

(** One successfully decoded frame. *)
Definition decode_drm (p : pending) (au : decoded_au) (c : conv_env) : pending * list effect :=
  match buffer c with
  | None => (p, [E_release (slot au)])
  | Some b =>
    let stage := p_stage_idx p mod 3 in
    let '(p', out) := flush_pending p au (wait_ok c) (conv_us c) in
    (mk_pending (event c) stage (p_stage_idx p + 1) b (au_deadline au)
       (p_fidx p') (p_seg p') (p_pts p') (p_decode p'),
     E_convert au stage b (event c) :: out)
  end.

Fixpoint decode_run (p : pending) (ins : list (decoded_au * conv_env)) : pending * list effect :=
  match ins with
  | [] => (p, [])
  | (au, c) :: ins =>
    let '(p, o) := decode_drm p au c in
    let '(p, os) := decode_run p ins in (p, o ++ os)
  end.

(** ** The queue is a queue *)

#[local] Abbreviation SIZE := VMC_PRESENT_QUEUE_SIZE (only parsing).

Lemma entries_from_mod es h n : entries_from es (h mod SIZE) n = entries_from es h n.
Proof.
  revert h. induction n as [|n IH]; intros h; cbn [entries_from]; [done|].
  rewrite Z.mod_mod by done. f_equal.
  rewrite <- (IH (h mod SIZE + 1)), <- (IH (h + 1)). f_equal.
  by rewrite Zplus_mod_idemp_l.
Qed.

Lemma entries_from_snoc es h n :
  entries_from es h (S n) = entries_from es h n ++ option_list (zget es ((h + Z.of_nat n) mod SIZE)).
Proof.
  revert h. induction n as [|n IH]; intros h.
  - cbn [entries_from]. by rewrite Z.add_0_r, app_nil_r.
  - change (entries_from es h (S (S n)))
      with (option_list (zget es (h mod SIZE)) ++ entries_from es (h + 1) (S n)).
    rewrite IH. cbn [entries_from]. rewrite <- app_assoc.
    by replace (h + 1 + Z.of_nat n) with (h + Z.of_nat (S n)) by lia.
Qed.

Lemma entries_from_set es es' t e h n :
  zset es t e = Some es' -> t < SIZE -> 0 <= t ->
  (forall k, 0 <= k < Z.of_nat n -> (h + k) mod SIZE <> t) ->
  entries_from es' h n = entries_from es h n.
Proof.
  intros Hs Ht Ht0. revert h. induction n as [|n IH]; intros h Hk; cbn [entries_from]; [done|].
  rewrite IH by (intros k Hlt; replace (h + 1 + k) with (h + (1 + k)) by lia; apply Hk; lia).
  f_equal. apply zset_inv in Hs as (_ & _ & Hg). rewrite Hg, decide_False; [done|].
  specialize (Hk 0 ltac:(lia)). by rewrite Z.add_0_r in Hk.
Qed.

Lemma entries_from_map (f : present_entry -> present_entry) es h n :
  entries_from (f <$> es) h n = f <$> entries_from es h n.
Proof.
  revert h. induction n as [|n IH]; intros h; cbn [entries_from]; [done|].
  rewrite IH, fmap_app. f_equal. unfold zget. case_decide; [|done].
  rewrite list_lookup_fmap. by destruct (es !! _).
Qed.

(** A push with room appends; a pop removes the oldest; neither leaves the array. *)
Lemma present_push_ok q run e :
  queue_ok q -> qcount q < SIZE ->
  exists q', present_push q run e = Does q' /\ queue_ok q' /\ entries q' = entries q ++ [e].
Proof.
  intros (Hl & Hh & Hc & Ht) Hroom. unfold present_push. rewrite decide_False by lia.
  assert (Htr : 0 <= qtail q < SIZE) by (rewrite Ht; apply Z.mod_pos_bound; done).
  rewrite zset_ok by lia. set (es := <[_ := e]> (queue q)).
  assert (Hs : zset (queue q) (qtail q) e = Some es) by by (apply zset_ok; lia).
  eexists. split; [done|]. pose proof (zset_inv _ _ _ _ Hs) as (_ & Hle & Hg).
  assert (Hmod : forall k, 0 <= k < qcount q -> (qhead q + k) mod SIZE <> qtail q).
  { intros k Hk. rewrite Ht. unfold SIZE in *. Z.div_mod_to_equations. lia. }
  split.
  - split_and!; cbn; try lia. rewrite Ht, Zplus_mod_idemp_l. f_equal. lia.
  - unfold entries. cbn [queue qhead qcount].
    replace (Z.to_nat (qcount q + 1)) with (S (Z.to_nat (qcount q))) by lia.
    rewrite entries_from_snoc, Z2Nat.id, <- Ht, Hg, decide_True by lia.
    f_equal. apply (entries_from_set _ _ (qtail q) e); [done|lia|lia|].
    intros k Hk. apply Hmod. lia.
Qed.

Lemma present_pop_ok q run :
  queue_ok q -> 0 < qcount q ->
  exists e q', present_pop q run = Does (Some (e, q')) /\ queue_ok q' /\ entries q = e :: entries q'.
Proof.
  intros (Hl & Hh & Hc & Ht) Hpos. unfold present_pop. rewrite decide_False by lia.
  destruct (zget_is_Some (queue q) (qhead q)) as [e He]; [lia|]. rewrite He.
  eexists e, _. split; [done|]. split.
  - split_and!; cbn; try lia; [apply Z.mod_pos_bound; done|apply Z.mod_pos_bound; done|].
    rewrite Ht, Zplus_mod_idemp_l. f_equal. lia.
  - unfold entries. cbn [queue qhead qcount]. rewrite entries_from_mod.
    replace (Z.to_nat (qcount q)) with (S (Z.to_nat (qcount q - 1))) by lia.
    cbn [entries_from]. by rewrite Z.mod_small, He by lia.
Qed.

Lemma shift_queue_ok delta q :
  queue_ok q -> queue_ok (shift_queue delta q) /\
  entries (shift_queue delta q) = shift_entry delta <$> entries q.
Proof.
  intros (Hl & Hh & Hc & Ht). split.
  - split_and!; cbn; try lia. unfold zlen in *. by rewrite length_fmap.
  - unfold entries, shift_queue. cbn. apply entries_from_map.
Qed.

(** The identity of an entry, which no resync changes. *)
Definition frame_of (e : present_entry) : Z * Z := (buf_idx e, pts_us e).

Lemma frame_of_shift delta (es : list present_entry) : frame_of <$> (shift_entry delta <$> es) = frame_of <$> es.
Proof.
  rewrite <- list_fmap_compose. apply list_fmap_ext. intros _ e _. cbn.
  unfold shift_entry. by case_decide.
Qed.

Lemma queue_step_ok q o :
  queue_ok q ->
  exists q' i r, queue_step q o = Some (q', i, r) /\ queue_ok q' /\
    frame_of <$> (entries q ++ i) = frame_of <$> (r ++ entries q').
Proof.
  intros Hq. destruct o as [e| |delta]; cbn [queue_step].
  - destruct (decide (qcount q < SIZE)) as [Hroom|Hfull].
    + destruct (present_push_ok q true e Hq Hroom) as (q' & -> & Hq' & He).
      exists q', [e], []. by rewrite He.
    + exists q, [], []. unfold present_push. rewrite decide_True by (split; [lia|done]).
      by rewrite app_nil_r.
  - destruct (decide (qcount q = 0)) as [H0|Hpos].
    + exists q, [], []. unfold present_pop. rewrite decide_True by done. by rewrite app_nil_r.
    + destruct (present_pop_ok q true Hq) as (e & q' & -> & Hq' & He).
      { destruct Hq as (_ & _ & Hc & _). lia. }
      exists q', [], [e]. by rewrite He, app_nil_r.
  - exists (shift_queue delta q), [], []. destruct (shift_queue_ok delta q Hq) as [Hq' He].
    split; [done|]. split; [done|]. cbn [app]. by rewrite He, frame_of_shift, app_nil_r.
Qed.

(** The present queue: over every sequence of pushes, pops and resyncs while
    the program runs, no access leaves the ring, and the entries popped followed
    by those still queued are the entries pushed, in order - a full queue makes
    the producer wait and an empty one the consumer, nothing is overwritten. *)
Theorem present_queue_fifo os :
  exists q pushed popped, queue_run queue_init os = Some (q, pushed, popped) /\
    frame_of <$> pushed = frame_of <$> (popped ++ entries q) /\ zlen (entries q) <= SIZE.
Proof.
  assert (Hgen : forall q, queue_ok q -> exists q' pushed popped,
    queue_run q os = Some (q', pushed, popped) /\ queue_ok q' /\
    frame_of <$> (entries q ++ pushed) = frame_of <$> (popped ++ entries q')).
  { induction os as [|o os IH]; intros q Hq.
    - exists q, [], []. by rewrite app_nil_r.
    - destruct (queue_step_ok q o Hq) as (q1 & i & r & E & Hq1 & H1).
      destruct (IH q1 Hq1) as (q2 & i2 & r2 & E2 & Hq2 & H2).
      exists q2, (i ++ i2), (r ++ r2). cbn [queue_run]. rewrite E, E2.
      split; [done|]. split; [done|].
      rewrite app_assoc, fmap_app, H1, <- fmap_app, <- app_assoc, fmap_app, H2.
      by rewrite <- fmap_app, app_assoc. }
  destruct (Hgen queue_init) as (q & pushed & popped & E & Hq & H).
  { split_and!; vm_compute; by try split. }
  exists q, pushed, popped. split; [done|]. split; [done|].
  assert (Hlen : forall es h n, (length (entries_from es h n) <= n)%nat).
  { intros es h n. revert h. induction n as [|n IH]; intros h; cbn [entries_from]; [done|].
    rewrite length_app. specialize (IH (h + 1)). destruct (zget es _); cbn; lia. }
  destruct Hq as (_ & _ & Hc & _). unfold entries, zlen.
  specialize (Hlen (queue q) (qhead q) (Z.to_nat (qcount q))). lia.
Qed.

(** ** The pipeline of the decode worker *)

Definition pushes (os : list effect) : list present_entry :=
  omap (fun o => match o with E_push e => Some e | _ => None end) os.
Definition releases (os : list effect) : list nat :=
  omap (fun o => match o with E_release i => Some i | _ => None end) os.
Definition copies (os : list effect) : list (Z * Z) :=
  omap (fun o => match o with E_copy s b => Some (s, b) | _ => None end) os.
Definition converts (os : list effect) : list (Z * Z) :=
  omap (fun o => match o with E_convert _ s b _ => Some (s, b) | _ => None end) os.
Definition metas (os : list effect) : list (Z * vmc_vmeta) :=
  omap (fun o => match o with E_meta b m => Some (b, m) | _ => None end) os.

(** A frame that found a scanout buffer and whose conversion started; the wait for
    the one before it succeeds. *)
Record good_frame := mk_good { g_au : decoded_au; g_buf : Z; g_ev : Z; g_conv : Z }.

Definition good_in (f : good_frame) : decoded_au * conv_env :=
  (g_au f, mk_conv (Some (g_buf f)) (Some (g_ev f)) true (g_conv f)).

Definition entry_of (f g : good_frame) : present_entry :=
  mk_entry (g_buf f) (au_deadline (g_au f)) (au_pts (g_au g)).

Definition meta_of (f g : good_frame) : Z * vmc_vmeta :=
  (g_buf f, mk_vmeta (fidx (g_au f)) (seg (g_au f)) (au_pts (g_au f)) (au_deadline (g_au f))
              (decode_us (g_au f)) (g_conv g)).

(** The frame [f] is in flight in stage [k mod 3]. *)
Definition in_flight (p : pending) (f : good_frame) (k : Z) : Prop :=
  p_ev p = Some (g_ev f) /\ p_buf p = g_buf f /\ p_deadline p = au_deadline (g_au f) /\
  p_prev_stage p = k mod 3 /\ p_stage_idx p = k + 1 /\ 0 <= g_buf f < 8.

Definition identified (p : pending) (f : good_frame) : Prop :=
  p_fidx p = fidx (g_au f) /\ p_seg p = seg (g_au f) /\ p_pts p = au_pts (g_au f) /\
  p_decode p = decode_us (g_au f).

Lemma decode_drm_step p f g k :
  in_flight p f k -> 0 <= g_buf g < 8 ->
  exists p', decode_drm p (g_au g) (snd (good_in g))
    = (p', [E_convert (g_au g) ((k + 1) mod 3) (g_buf g) (Some (g_ev g)); E_wait (g_ev f) true; E_free (g_ev f); E_copy (k mod 3) (g_buf f);
            E_meta (g_buf f) (mk_vmeta (p_fidx p) (p_seg p) (p_pts p) (au_deadline (g_au f))
                                (p_decode p) (g_conv g));
            E_release (slot (g_au g)); E_push (entry_of f g)]) /\
    in_flight p' g (k + 1) /\ identified p' g.
Proof.
  intros (He & Hb & Hd & Hs & Hi & Hr) Hg. unfold decode_drm, flush_pending. cbn [good_in snd buffer].
  rewrite He. rewrite decide_True by lia. rewrite Hb, Hd, Hs, Hi.
  eexists. split; [reflexivity|].
  split; unfold in_flight, identified; cbn; split_and!; (reflexivity || lia).
Qed.

(** What a run makes of the frames behind one in flight. *)
Definition pipelined (f : good_frame) (k : Z) (fs : list good_frame) (out : list effect) : Prop :=
  pushes out = zip_with entry_of (f :: fs) fs /\
  releases out = (fun g => slot (g_au g)) <$> fs /\
  converts out = imap (fun i g => ((k + 1 + Z.of_nat i) mod 3, g_buf g)) fs /\
  copies out = take (length fs) ((k mod 3, g_buf f) :: converts out).

Lemma run_in_flight fs : forall p f k,
  in_flight p f k -> identified p f -> Forall (fun g => 0 <= g_buf g < 8) fs ->
  let out := snd (decode_run p (good_in <$> fs)) in
  pipelined f k fs out /\ metas out = zip_with meta_of (f :: fs) fs.
Proof.
  induction fs as [|g fs IH]; intros p f k Hf Hid Hfs; [done|].
  apply Forall_cons in Hfs as [Hg Hfs].
  destruct (decode_drm_step p f g k Hf Hg) as (p' & E & Hf' & Hid').
  change (good_in <$> g :: fs) with ((g_au g, snd (good_in g)) :: (good_in <$> fs)).
  cbn [decode_run]. rewrite E. clear E.
  specialize (IH p' g (k + 1) Hf' Hid' Hfs).
  destruct (decode_run p' (good_in <$> fs)) as [p2 out]. cbn [snd] in IH |- *.
  destruct IH as [(Hp & Hr & Hc & Hcp) Hm]. destruct Hid as (Hfi & Hse & Hpt & Hde).
  split; [split_and!|].
  - cbn. f_equal. exact Hp.
  - cbn. f_equal. exact Hr.
  - cbn. f_equal; [f_equal; f_equal; lia|]. unfold converts in Hc. rewrite Hc.
    apply imap_ext. intros i x _. cbn. do 2 f_equal. lia.
  - cbn. f_equal. exact Hcp.
  - cbn. unfold meta_of at 1. rewrite Hfi, Hse, Hpt, Hde. f_equal. exact Hm.
Qed.

(** The decode worker in DRM mode, on frames that find a buffer and whose
    conversions start: the conversions use the three stages in turn, and each
    frame is copied from its own stage to its own buffer while the next one is
    converted into another stage; the buffers are queued in order, with their
    own deadlines. But the time stamp queued with a frame is that of the next
    one; the slot of the first frame is never released; the last frame stays in
    flight; and the first frame carries the identity 0 in the telemetry. *)
Theorem drm_pipeline_delivers f fs :
  0 <= g_buf f < 8 -> Forall (fun g => 0 <= g_buf g < 8) fs ->
  let out := snd (decode_run pending_init (good_in <$> (f :: fs))) in
  pushes out = zip_with (fun a b => mk_entry (g_buf a) (au_deadline (g_au a)) (au_pts (g_au b)))
                 (f :: fs) fs /\
  converts out = imap (fun i g => (Z.of_nat i mod 3, g_buf g)) (f :: fs) /\
  copies out = take (length fs) (converts out) /\
  releases out = (fun g => slot (g_au g)) <$> fs /\
  tail (metas out) = tail (zip_with meta_of (f :: fs) fs).
Proof.
  intros Hf Hfs. cbn [fmap list_fmap good_in decode_run].
  destruct (decode_drm pending_init (g_au f) _) as [p out0] eqn:E. cbn in E.
  injection E as <- <-. set (p := mk_pending _ _ _ _ _ _ _ _ _).
  assert (Hfl : in_flight p f 0)
    by (unfold in_flight; cbn; split_and!; (reflexivity || lia)).
  destruct fs as [|g fs]; [done|]. apply Forall_cons in Hfs as [Hg Hfs].
  destruct (decode_drm_step p f g 0 Hfl Hg) as (p' & E & Hf' & Hid').
  change (good_in <$> g :: fs) with ((g_au g, snd (good_in g)) :: (good_in <$> fs)).
  cbn [decode_run]. rewrite E. clear E.
  pose proof (run_in_flight fs p' g (0 + 1) Hf' Hid' Hfs) as IH.
  destruct (decode_run p' (good_in <$> fs)) as [p2 out]. cbv zeta in IH. cbn [snd] in IH |- *.
  destruct IH as [(Hp & Hr & Hc & Hcp) Hm]. split_and!.
  - cbn. f_equal. exact Hp.
  - cbn. do 2 f_equal. unfold converts in Hc. rewrite Hc.
    apply imap_ext. intros i x _. cbn. do 2 f_equal. lia.
  - cbn. f_equal. exact Hcp.
  - cbn. f_equal. exact Hr.
  - exact Hm.
Qed.

Lemma drm_pipeline_delivers_witness :
  let fr i := mk_good (mk_au i (Z.of_nat i) 1 (Z.of_nat i * 16667) (900000 + Z.of_nat i * 16667) 2000)
                (Z.of_nat i) (Z.of_nat i) 500 in
  let f := fr 0%nat in let fs := [fr 1%nat; fr 2%nat] in
  let out := snd (decode_run pending_init (good_in <$> (f :: fs))) in
  pushes out = zip_with (fun a b => mk_entry (g_buf a) (au_deadline (g_au a)) (au_pts (g_au b)))
                 (f :: fs) fs /\
  converts out = imap (fun i g => (Z.of_nat i mod 3, g_buf g)) (f :: fs) /\
  copies out = take (length fs) (converts out) /\
  releases out = (fun g => slot (g_au g)) <$> fs /\
  tail (metas out) = tail (zip_with meta_of (f :: fs) fs).
Proof.
  intros fr f fs. apply (drm_pipeline_delivers f fs); [by split|].
  repeat constructor; by vm_compute.
Defined.

End Present.
