(* ===== verification/AvSync.v ===== *)
(** * Clocks, deadlines and latency of the thin client ([apps/thinclient/main.c])

    The presentation clock and the audio content clock, the deadlines of access
    units and their shift by a resync, the live buffers, and the end-to-end
    latency measurement. Clock readings are arguments. Signed 64-bit arithmetic
    is that of [Z]: its overflow is undefined behaviour and outside the model. *)

From S2P Require Import Prelude FrameSlots Present.
From Stdlib Require Import Sorting.Sorted.

#[local] Open Scope Z_scope.

Module AvSync.

Definition VMC_TARGET_US : Z := 2000000.
Definition VMC_MAX_US : Z := 3000000.
Definition VMC_PREFETCH_US : Z := 1000000.
Definition VMC_AUDIO_PREFILL_US : Z := VMC_PREFETCH_US.

(** The globals of the timeline. *)
Record timeline := mk_timeline {
  g_stream_fps : Z; g_seg_duration_us : Z; g_anchor_wall_us : Z; g_anchor_seg : Z;
  g_timeline_adj_us : Z; g_playout_latency_us : Z; g_cadence_shift_us : Z;
  g_seg_interval_ewma : Z; g_last_seg_arrival_wall : Z;
  g_audio_pos_us : Z; g_audio_active : bool; g_audio_start_wall_us : Z; g_audio_delay_us : Z;
  g_audio_last_advance_wall : Z;
}.

#[export] Instance eta_timeline : Eta timeline := fun t =>
  mk_timeline (g_stream_fps t) (g_seg_duration_us t) (g_anchor_wall_us t) (g_anchor_seg t)
    (g_timeline_adj_us t) (g_playout_latency_us t) (g_cadence_shift_us t)
    (g_seg_interval_ewma t) (g_last_seg_arrival_wall t)
    (g_audio_pos_us t) (g_audio_active t) (g_audio_start_wall_us t) (g_audio_delay_us t)
    (g_audio_last_advance_wall t).

(** ** Clocks *)

Definition tlm_audio_content_at_wall (t : timeline) (wall_us : Z) : Z :=
  if decide (g_anchor_wall_us t = 0) then -1 else
  if decide (g_audio_start_wall_us t = 0 \/ g_audio_delay_us t = 0) then
    Z.max 0 (i64 wall_us - i64 (g_anchor_wall_us t) - i64 (g_playout_latency_us t)
             - g_timeline_adj_us t)
  else
    Z.max 0 (i64 wall_us - i64 (g_audio_start_wall_us t) - i64 (g_audio_delay_us t)
             - g_timeline_adj_us t).

(** [wall1], [wall2], [wall3]: the readings of the wall clock, in order. *)
Definition dash_pres_clock (t : timeline) (wall1 wall2 wall3 : Z) : Z :=
  if g_audio_active t && bool_decide (g_audio_pos_us t <> 0)
     && bool_decide (u64 (wall1 - g_audio_last_advance_wall t) <= 1000000)
     && bool_decide (g_audio_pos_us t <= u64 (u64 wall2 + 200000))
  then g_audio_pos_us t else u64 wall3.

(** ** Deadlines *)

Definition frame_period_us (fps : Z) : Z := if decide (fps > 0) then 1000000 / fps else 1000000 / 24.

Definition dash_au_deadline (t : timeline) (seg_num k : Z) : Z :=
  let seg_off := Z.max 0 ((seg_num - g_anchor_seg t) * i64 (g_seg_duration_us t)) in
  let start := i64 (g_audio_start_wall_us t) in
  let d := if decide (start = 0) then i64 (g_anchor_wall_us t) + i64 (g_playout_latency_us t)
           else start + i64 (g_audio_delay_us t) - i64 (g_playout_latency_us t) in
  let d := d + (seg_off + k * frame_period_us (g_stream_fps t) + g_timeline_adj_us t) in
  u64 (Z.max 0 d).

(** The content time stamp [dash_demux_segment] gives a frame of a segment. *)
Definition frame_pts (t : timeline) (seg_num frame_idx : Z) : Z :=
  let fp := if decide (g_stream_fps t > 0) then 1000000 / g_stream_fps t else 16667 in
  (seg_num - 1) * i64 (g_seg_duration_us t) + frame_idx * fp.

(** The new anchor of a resync. *)
Definition resync_anchor (t : timeline) (wall_now : Z) : Z :=
  if decide (g_audio_start_wall_us t <> 0) then
    let delay := if decide (g_audio_delay_us t <> 0) then g_audio_delay_us t
                 else VMC_AUDIO_PREFILL_US in
    u64 (g_audio_start_wall_us t + delay - g_playout_latency_us t)
  else u64 (wall_now + VMC_AUDIO_PREFILL_US - g_playout_latency_us t).

(** The timeline, the frame slots and the present queue after a resync. *)
Definition dash_resync (t : timeline) (fs : list Slots.vmc_frame_slot) (q : Present.present_queue)
    (next_seg wall_now : Z)
    : timeline * list Slots.vmc_frame_slot * Present.present_queue :=
  let t' := t <| g_anchor_wall_us := resync_anchor t wall_now |> <| g_anchor_seg := next_seg |>
              <| g_timeline_adj_us := 0 |> <| g_seg_interval_ewma := 0 |>
              <| g_last_seg_arrival_wall := 0 |> in
  if decide (g_anchor_wall_us t <> 0 /\ g_anchor_seg t = next_seg) then
    let delta := i64 (g_anchor_wall_us t') - i64 (g_anchor_wall_us t) in
    if decide (delta <> 0) then
      (t' <| g_cadence_shift_us := 1 |>, Slots.shift_deadlines delta fs, Present.shift_queue delta q)
    else (t', fs, q)
  else (t', fs, q).

(** ** Live buffers *)

Definition dash_buffer_grow (base mx prefetch fetch_ewma seg_duration_us : Z) : Z :=
  let s := u64 seg_duration_us in
  let d := base in
  let d := if decide (fetch_ewma > s / 2) then u64 (d + 1000000) else d in
  let d := if decide (fetch_ewma > s) then u64 (d + 2000000) else d in
  let d := if decide (fetch_ewma > u64 (s * 2)) then u64 (d + 3000000) else d in
  let d := if decide (fetch_ewma > u64 (s * 4)) then u64 (d + 5000000) else d in
  let d := if decide (d > mx) then mx else d in
  if decide (d < prefetch) then prefetch else d.

Record live_buffers := mk_live {
  g_seg_fetch_ewma_us : Z; g_video_live_buffer_us : Z; g_audio_live_buffer_us : Z;
}.

Definition dash_update_live_buffer (b : live_buffers) (fetch_us seg_duration_us : Z) : live_buffers :=
  let ewma := if decide (g_seg_fetch_ewma_us b = 0) then fetch_us
              else u64 (u64 (15 * g_seg_fetch_ewma_us b) + fetch_us) / 16 in
  let v := g_video_live_buffer_us b in
  let vdesired := dash_buffer_grow VMC_TARGET_US VMC_MAX_US VMC_PREFETCH_US ewma seg_duration_us in
  let vdesired :=
    if decide (ewma < u64 seg_duration_us / 4 /\ v > VMC_TARGET_US) then
      if decide (v > VMC_TARGET_US + 1000000) then v - 1000000 else VMC_TARGET_US
    else vdesired in
  mk_live ewma vdesired
    (dash_buffer_grow VMC_TARGET_US VMC_MAX_US VMC_PREFETCH_US ewma seg_duration_us).

(** ** The segments to fetch in a round of the reader *)

(** The fields of [dash_manifest] that the window depends on. *)
Record dash_manifest := mk_manifest {
  start_number : Z; seg_duration : Z; avail_start_us : Z; duration_us : Z; static_mpd : bool;
}.

Record window := mk_window {
  live_edge : Z; video_target : Z; vfetch_hi : Z; audio_target : Z; audio_oldest : Z;
}.

Definition total_segments (m : dash_manifest) : Z :=
  if static_mpd m && bool_decide (duration_us m > 0) && bool_decide (seg_duration m > 0)
  then Z.quot (duration_us m + seg_duration m - 1) (seg_duration m) else 0.

(** [int] conversions of 64-bit values keep their low 32 bits. *)
Definition reader_window (m : dash_manifest) (b : live_buffers) (now : Z) : window :=
  let total := total_segments m in
  let elapsed := now - avail_start_us m in
  let edge := i32 (if decide (elapsed > 0) then Z.quot elapsed (seg_duration m) else 0) in
  let edge := if decide (edge < start_number m) then start_number m else edge in
  let edge := if decide (total > 0 /\ edge > i32 total) then i32 total else edge in
  let segments buf := i32 (u64 (buf + u64 (seg_duration m) - 1) / u64 (seg_duration m)) in
  let vt := edge - 1 - segments (g_video_live_buffer_us b) in
  let vt := if decide (vt < start_number m) then start_number m else vt in
  let at_ := if decide (edge < start_number m) then start_number m else edge in
  let ao := edge - 1 - segments (g_audio_live_buffer_us b) in
  let ao := if decide (ao < start_number m) then start_number m else ao in
  let hi := edge + 1 in
  let hi := if decide (hi < vt) then vt else hi in
  let hi := if decide (total > 0 /\ hi > i32 total) then i32 total else hi in
  mk_window edge vt hi at_ ao.

(** No part of the window starts before the first segment. *)
Lemma window_floor m b now : let w := reader_window m b now in
  start_number m <= video_target w /\ start_number m <= audio_target w /\ start_number m <= audio_oldest w.
Proof.
  assert (H : forall x y : Z, y <= (if decide (x < y) then y else x)) by (intros; case_decide; lia).
  unfold reader_window. cbn [video_target audio_target audio_oldest]. split_and!; apply H.
Qed.

(** The window when nothing bounds it from above: [e] is the edge before it is
    clipped, [nv] and [na] are the buffers in segments. *)
Definition window_at (start e nv na : Z) : window :=
  let e := Z.max e start in
  mk_window e (Z.max (e - 1 - nv) start) (Z.max (e + 1) (Z.max (e - 1 - nv) start)) e (Z.max (e - 1 - na) start).

Definition buffer_segments (m : dash_manifest) (buf : Z) : Z :=
  i32 (u64 (buf + u64 (seg_duration m) - 1) / u64 (seg_duration m)).

Lemma window_live_form m b now : static_mpd m = false ->
  reader_window m b now =
  window_at (start_number m)
    (i32 (if decide (now - avail_start_us m > 0) then Z.quot (now - avail_start_us m) (seg_duration m) else 0))
    (buffer_segments m (g_video_live_buffer_us b)) (buffer_segments m (g_audio_live_buffer_us b)).
Proof.
  intros Hst. assert (Htot : total_segments m = 0) by (unfold total_segments; by rewrite Hst).
  unfold reader_window, window_at, buffer_segments. rewrite Htot. cbv zeta.
  generalize (i32 (if decide (now - avail_start_us m > 0) then Z.quot (now - avail_start_us m) (seg_duration m) else 0)).
  generalize (i32 (u64 (g_video_live_buffer_us b + u64 (seg_duration m) - 1) / u64 (seg_duration m))).
  generalize (i32 (u64 (g_audio_live_buffer_us b + u64 (seg_duration m) - 1) / u64 (seg_duration m))).
  generalize (start_number m). intros st na nv e. clear.
  rewrite !(decide_False (P := 0 > 0 /\ _)) by lia.
  replace (if decide (e < st) then st else e) with (Z.max e st) by (case_decide; lia).
  f_equal; repeat case_decide; lia.
Qed.

(** ** Deadlines *)

(** The deadline of frame 0 of the anchor segment. *)
Definition deadline_base (t : timeline) : Z :=
  (if decide (i64 (g_audio_start_wall_us t) = 0)
   then i64 (g_anchor_wall_us t) + i64 (g_playout_latency_us t)
   else i64 (g_audio_start_wall_us t) + i64 (g_audio_delay_us t) - i64 (g_playout_latency_us t))
  + g_timeline_adj_us t.

Lemma dash_au_deadline_eq t s k :
  g_anchor_seg t <= s -> 0 <= i64 (g_seg_duration_us t) ->
  let d := deadline_base t + (s - g_anchor_seg t) * i64 (g_seg_duration_us t)
           + k * frame_period_us (g_stream_fps t) in
  0 <= d < 2 ^ 63 -> dash_au_deadline t s k = d.
Proof.
  intros Hs Hd d Hr. unfold dash_au_deadline. cbv zeta.
  rewrite (Z.max_r 0 ((s - _) * _)) by nia.
  replace (_ + (_ + k * _ + _)) with d by (unfold d, deadline_base; lia).
  rewrite Z.max_r, u64_small by lia. done.
Qed.

Lemma frame_period_pos fps : 0 < fps <= 1000000 -> 0 < frame_period_us fps.
Proof.
  intros Hf. unfold frame_period_us. rewrite decide_True by lia.
  apply Z.div_str_pos. lia.
Qed.

(** Frame [(s1, k1)] precedes [(s2, k2)] in the content. *)
Definition frame_before (t : timeline) (s1 k1 s2 k2 : Z) : Prop :=
  (s1 = s2 /\ k1 < k2) \/
  (s1 < s2 /\ k1 * frame_period_us (g_stream_fps t) < i64 (g_seg_duration_us t) /\ 0 <= k2).

(** Deadlines follow the content: as long as the timeline is not moved, a
    later frame of a segment, and every frame of a later segment whose
    predecessors fit into their segment, has a strictly later deadline - from
    the anchor segment on and for deadlines that are not clamped at 0. *)
Theorem dash_deadlines_increase t s1 k1 s2 k2 :
  0 < g_stream_fps t <= 1000000 -> 0 < i64 (g_seg_duration_us t) ->
  g_anchor_seg t <= s1 -> 0 <= k1 -> frame_before t s1 k1 s2 k2 ->
  0 <= deadline_base t ->
  deadline_base t + (s2 - g_anchor_seg t) * i64 (g_seg_duration_us t)
    + k2 * frame_period_us (g_stream_fps t) < 2 ^ 63 ->
  dash_au_deadline t s1 k1 < dash_au_deadline t s2 k2.
Proof.
  intros Hfps Hdur Hs1 Hk1 Hb Hbase Hmax. pose proof (frame_period_pos _ Hfps) as Hfp.
  assert (Hlt : (s1 - g_anchor_seg t) * i64 (g_seg_duration_us t)
                + k1 * frame_period_us (g_stream_fps t)
                < (s2 - g_anchor_seg t) * i64 (g_seg_duration_us t)
                + k2 * frame_period_us (g_stream_fps t)).
  { destruct Hb as [[<- Hk]|(Hs & Hk & Hk2)]; nia. }
  assert (g_anchor_seg t <= s2) by (destruct Hb as [[<- _]|[? _]]; lia).
  rewrite !dash_au_deadline_eq; [lia|lia|lia| |lia|lia|]; nia.
Qed.

Definition sample_timeline : timeline :=
  mk_timeline 60 1000000 1700000000000000 1 0 85000 0 0 0 0 true 1700000000100000 240000 0.

Lemma dash_deadlines_increase_witness :
  dash_au_deadline sample_timeline 1 59 < dash_au_deadline sample_timeline 2 0.
Proof.
  apply dash_deadlines_increase; try (by vm_compute).
  right. by vm_compute.
Defined.

(** Lip sync: once audio plays, the audio content that reaches the listener
    one playout latency after the deadline of a frame is the content time of
    that frame less that of the start of the anchor segment. The presenter
    compares it with the time stamp of the frame itself, so the two agree when
    the timeline is anchored at segment 1 and are [anchor - 1] segments apart
    when playback joins the stream later. *)
Theorem deadline_lip_sync t s k :
  0 < g_stream_fps t <= 1000000 -> 0 <= i64 (g_seg_duration_us t) ->
  g_anchor_wall_us t <> 0 -> 0 < g_audio_start_wall_us t < 2 ^ 63 -> 0 < g_audio_delay_us t < 2 ^ 63 ->
  0 <= g_playout_latency_us t < 2 ^ 63 ->
  g_anchor_seg t <= s -> 0 <= k -> 0 <= deadline_base t ->
  deadline_base t + (s - g_anchor_seg t) * i64 (g_seg_duration_us t)
    + k * frame_period_us (g_stream_fps t) + g_playout_latency_us t < 2 ^ 63 ->
  tlm_audio_content_at_wall t (dash_au_deadline t s k + g_playout_latency_us t)
  = frame_pts t s k - (g_anchor_seg t - 1) * i64 (g_seg_duration_us t).
Proof.
  intros Hfps Hdur Ha Hst Hdl Hpl Hs Hk Hbase Hmax. pose proof (frame_period_pos _ Hfps) as Hfp.
  assert (0 <= (s - g_anchor_seg t) * i64 (g_seg_duration_us t)) by nia.
  assert (0 <= k * frame_period_us (g_stream_fps t)) by nia.
  rewrite dash_au_deadline_eq by lia. unfold tlm_audio_content_at_wall.
  rewrite decide_False by done. rewrite decide_False by lia.
  rewrite i64_small by lia. unfold deadline_base.
  rewrite (i64_small (g_audio_start_wall_us t)), (i64_small (g_audio_delay_us t)),
    (i64_small (g_playout_latency_us t)) by lia.
  rewrite decide_False by lia. unfold frame_pts, frame_period_us in *.
  rewrite !decide_True in * by lia. rewrite Z.max_r; lia.
Qed.

Lemma deadline_lip_sync_witness :
  tlm_audio_content_at_wall sample_timeline (dash_au_deadline sample_timeline 3 12 + 85000)
  = frame_pts sample_timeline 3 12 - (1 - 1) * i64 1000000.
Proof. apply (deadline_lip_sync sample_timeline 3 12); by vm_compute. Defined.

(** ** Live buffers and the window *)

Definition buffers_ok (b : live_buffers) : Prop :=
  VMC_PREFETCH_US <= g_video_live_buffer_us b <= VMC_MAX_US /\
  VMC_PREFETCH_US <= g_audio_live_buffer_us b <= VMC_MAX_US.

Lemma dash_buffer_grow_bounds base ewma sd :
  VMC_PREFETCH_US <= dash_buffer_grow base VMC_MAX_US VMC_PREFETCH_US ewma sd <= VMC_MAX_US.
Proof. unfold dash_buffer_grow, VMC_PREFETCH_US, VMC_MAX_US. cbv zeta. repeat case_decide; lia. Qed.

Lemma live_buffers_step b f d : buffers_ok b -> buffers_ok (dash_update_live_buffer b f d).
Proof.
  intros [Hv Ha]. unfold dash_update_live_buffer, buffers_ok. cbn.
  pose proof (dash_buffer_grow_bounds VMC_TARGET_US
    (if decide (g_seg_fetch_ewma_us b = 0) then f else u64 (u64 (15 * g_seg_fetch_ewma_us b) + f) / 16) d).
  set (ewma := if decide (_ = 0) then f else _) in *. clearbody ewma. split; [|lia].
  repeat case_decide; unfold VMC_TARGET_US, VMC_PREFETCH_US, VMC_MAX_US in *; lia.
Qed.

(** Whatever the fetches take, the buffers stay between prefetch and maximum. *)
Lemma live_buffers_bounded b fetches :
  buffers_ok b ->
  buffers_ok (fold_left (fun b f => dash_update_live_buffer b (fst f) (snd f)) fetches b).
Proof.
  revert b. induction fetches as [|[f d] fs IH]; intros b Hb; [done|]. cbn [fold_left]. by apply IH, live_buffers_step.
Qed.

(** The segments a buffer of [buf] microseconds takes. *)
Lemma segments_cover buf sd :
  0 <= buf <= VMC_MAX_US -> 0 < sd < 2 ^ 31 ->
  let n := i32 (u64 (buf + u64 sd - 1) / u64 sd) in
  buf <= n * sd < buf + sd /\ 0 <= n <= VMC_MAX_US.
Proof.
  unfold VMC_MAX_US. intros Hb Hs. rewrite (u64_small sd), u64_small by lia.
  pose proof (Z.div_mod (buf + sd - 1) sd ltac:(lia)). pose proof (Z.mod_pos_bound (buf + sd - 1) sd ltac:(lia)).
  assert (0 <= (buf + sd - 1) / sd <= 3000000).
  { split; [apply Z.div_pos; lia|]. apply Z.div_le_upper_bound; [lia|]. nia. }
  rewrite i32_small by lia. split; [nia|lia].
Qed.

(** The segments a round of the reader asks for, on a live manifest: the
    live edge is the newest segment that is complete by the clock, or the first
    of the manifest when none is; the window starts at or after the first
    segment on the server, and, when that leaves room, lies behind the edge by
    the live buffer - at least it, and by less than one segment more; it ends
    with the segment being written; audio and video windows start together when
    their buffers are equal. *)
Theorem reader_window_live m b now :
  static_mpd m = false -> 0 < seg_duration m < 2 ^ 31 -> 0 <= start_number m < 2 ^ 30 ->
  buffers_ok b -> avail_start_us m <= now -> now - avail_start_us m < 2 ^ 30 * seg_duration m ->
  let w := reader_window m b now in
  let done_ := avail_start_us m + live_edge w * seg_duration m in
  (live_edge w = start_number m /\ now < done_ + seg_duration m \/
   done_ <= now < done_ + seg_duration m) /\
  start_number m <= video_target w <= Z.max (start_number m) (live_edge w - 1) /\
  (start_number m < video_target w ->
   g_video_live_buffer_us b <= (live_edge w - 1 - video_target w) * seg_duration m
   < g_video_live_buffer_us b + seg_duration m) /\
  vfetch_hi w = live_edge w + 1 /\ audio_target w = live_edge w /\
  (g_audio_live_buffer_us b = g_video_live_buffer_us b -> audio_oldest w = video_target w).
Proof.
  intros Hst Hsd Hsn [Hv Ha] Hnow Hel w. unfold VMC_PREFETCH_US in Hv, Ha.
  assert (Hq : 0 <= (now - avail_start_us m) / seg_duration m < 2 ^ 30).
  { split; [apply Z.div_pos; lia|apply Z.div_lt_upper_bound; lia]. }
  pose proof (Z.div_mod (now - avail_start_us m) (seg_duration m) ltac:(lia)) as Hdm.
  pose proof (Z.mod_pos_bound (now - avail_start_us m) (seg_duration m) ltac:(lia)) as Hmb.
  assert (Hedge : i32 (if decide (now - avail_start_us m > 0) then Z.quot (now - avail_start_us m) (seg_duration m) else 0)
                  = (now - avail_start_us m) / seg_duration m).
  { destruct (decide (now - avail_start_us m > 0)) as [Hp|Hp].
    - rewrite Z.quot_div_nonneg, i32_small by lia. done.
    - replace (now - avail_start_us m) with 0 by lia. rewrite Z.div_0_l by lia. done. }
  destruct (segments_cover (g_video_live_buffer_us b) (seg_duration m) ltac:(lia) Hsd) as [Hcv Hnv].
  destruct (segments_cover (g_audio_live_buffer_us b) (seg_duration m) ltac:(lia) Hsd) as [Hca Hna].
  unfold w. rewrite window_live_form, Hedge by done. clear Hedge w.
  fold (buffer_segments m (g_video_live_buffer_us b)) in Hcv, Hnv.
  fold (buffer_segments m (g_audio_live_buffer_us b)) in Hca, Hna.
  assert (Hna_eq : g_audio_live_buffer_us b = g_video_live_buffer_us b ->
    buffer_segments m (g_audio_live_buffer_us b) = buffer_segments m (g_video_live_buffer_us b)) by (by intros ->).
  generalize dependent (buffer_segments m (g_video_live_buffer_us b)).
  generalize dependent (buffer_segments m (g_audio_live_buffer_us b)). intros na Hca Hna nv Hcv Hnv Hna_eq.
  set (q := (now - avail_start_us m) / seg_duration m) in *. clearbody q.
  cbn [window_at live_edge video_target vfetch_hi audio_target audio_oldest].
  split_and!; try lia.
  destruct (Z.max_spec q (start_number m)) as [[? ->]|[? ->]]; [left; split; [done|nia]|right; nia].
Qed.

Lemma reader_window_live_witness :
  let m := mk_manifest 3 1000000 1700000000000000 0 false in
  let b := mk_live 0 2000000 2000000 in
  let now := 1700000042500000 in
  let w := reader_window m b now in
  let done_ := avail_start_us m + live_edge w * seg_duration m in
  (live_edge w = start_number m /\ now < done_ + seg_duration m \/
   done_ <= now < done_ + seg_duration m) /\
  start_number m <= video_target w <= Z.max (start_number m) (live_edge w - 1) /\
  (start_number m < video_target w ->
   g_video_live_buffer_us b <= (live_edge w - 1 - video_target w) * seg_duration m
   < g_video_live_buffer_us b + seg_duration m) /\
  vfetch_hi w = live_edge w + 1 /\ audio_target w = live_edge w /\
  (g_audio_live_buffer_us b = g_video_live_buffer_us b -> audio_oldest w = video_target w).
Proof.
  intros m b now. apply (reader_window_live m b now); by vm_compute.
Defined.

End AvSync.
