(* ===== verification/Latency.v ===== *)
(** * End-to-end latency of the thin client ([apps/thinclient/main.c])

    The clock offset from a keepalive echo, the latency of a frame in wrapping
    32-bit microseconds, the accumulated figures and their report. *)

From S2P Require Import Prelude.

#[local] Open Scope Z_scope.

Module Latency.

(** ** Clock offset *)

Record clock_offset := mk_offset {
  g_have_offset : bool; g_offset_us : Z; g_rtt_us : Z; g_one_way_us : Z;
}.

(** [c1]: when the last keepalive was sent; [c2]: the clock now. *)
Definition latency_update_rtt (o : clock_offset) (c1 c2 sim_echo_ts : Z) : clock_offset :=
  if decide (c1 = 0) then o else
  let rtt := u64 (c2 - c1) in
  if decide (rtt >= 1000000) then o else
  let one_way := u32 (rtt / 2) in
  mk_offset true (u32 (u32 (u32 c1 + one_way) - sim_echo_ts)) (u32 rtt) one_way.

(** The latency of a frame the decode worker hands over ([i32]). *)
Definition frame_e2e (o : clock_offset) (t_handoff real_send_ts : Z) : Z :=
  i32 (u32 (u32 (u32 t_handoff - real_send_ts) - g_offset_us o)).

(** ** Figures *)

Definition HIST : nat := 128.

Record latency_stats := mk_stats {
  g_lat_min : Z; g_lat_max : Z; g_lat_sum : Z; g_lat_cnt : Z; g_lat_hist : list Z;
  g_decode_sum : Z; g_decode_cnt : Z; g_jitter_sum : Z; g_handoff_sum : Z; g_nframe_cnt : Z;
}.

Definition stats_init : latency_stats :=
  mk_stats 18446744073709551615 0 0 0 (replicate HIST 0) 0 0 0 0 0.

Definition bucket_of (e2e_us : Z) : Z :=
  let b := u32 (e2e_us / 1000) in if decide (b >= 128) then 127 else b.

Definition bump (h : list Z) (i : Z) : list Z :=
  alter (fun c => u64 (c + 1)) (Z.to_nat i) h.

Definition latency_record (o : clock_offset) (s : latency_stats)
    (e2e_us decode_us jitter_us handoff_us : Z) : latency_stats :=
  if negb (g_have_offset o) then s else
  mk_stats (if decide (e2e_us < g_lat_min s) then e2e_us else g_lat_min s)
    (if decide (e2e_us > g_lat_max s) then e2e_us else g_lat_max s)
    (u64 (g_lat_sum s + e2e_us)) (u64 (g_lat_cnt s + 1)) (bump (g_lat_hist s) (bucket_of e2e_us))
    (u64 (g_decode_sum s + decode_us)) (u64 (g_decode_cnt s + 1))
    (u64 (g_jitter_sum s + jitter_us)) (u64 (g_handoff_sum s + handoff_us))
    (u64 (g_nframe_cnt s + 1)).

(** The search for the percentile: [i] is the bucket at hand. *)
Fixpoint find_p95 (i acc target : Z) (h : list Z) : Z :=
  match h with
  | [] => 0
  | c :: h =>
    let acc := u64 (acc + c) in
    if decide (acc >= target) then u32 (i * 1000) else find_p95 (i + 1) acc target h
  end.

Record latency_figures := mk_figures {
  f_min : Z; f_avg : Z; f_p95 : Z; f_max : Z; f_queue : Z; f_decode : Z; f_handoff : Z;
}.

Definition average (sum cnt : Z) : Z := if decide (cnt = 0) then 0 else sum / cnt.

(** [None]: no frame was measured. *)
Definition latency_report (s : latency_stats) : option latency_figures :=
  if decide (g_lat_cnt s = 0) then None else
  let target := u64 (g_lat_cnt s * 95) / 100 in
  Some (mk_figures (g_lat_min s) (g_lat_sum s / g_lat_cnt s) (find_p95 0 0 target (g_lat_hist s))
          (g_lat_max s) (average (g_jitter_sum s) (g_nframe_cnt s))
          (average (g_decode_sum s) (g_decode_cnt s)) (average (g_handoff_sum s) (g_nframe_cnt s))).

(** The measured latency is the true one, whatever the two clocks: when the
    echo leaves the simulator half a round trip after the keepalive was sent and
    the frame is stamped with the simulator's clock - the client's shifted by
    [theta], modulo 2^32 - then a frame sent at [ts] and handed over at [th]
    measures exactly [th - ts], across wraps of all the 32-bit stamps. *)
Theorem e2e_is_true_latency o c1 half theta ts th :
  0 < c1 -> 0 <= half < 500000 -> c1 + 2 * half < 2 ^ 64 -> 0 <= ts -> 0 <= th - ts < 2 ^ 31 ->
  let o' := latency_update_rtt o c1 (c1 + 2 * half) (u32 (c1 + half + theta)) in
  g_have_offset o' = true /\ g_one_way_us o' = half /\
  frame_e2e o' th (u32 (ts + theta)) = th - ts.
Proof.
  intros Hc Hh Hm Hts Hth o'. unfold o', latency_update_rtt. cbv zeta.
  rewrite decide_False by lia. replace (c1 + 2 * half - c1) with (2 * half) by lia.
  rewrite (u64_small (2 * half)) by lia. rewrite decide_False by lia.
  replace (2 * half / 2) with half by (rewrite Z.mul_comm, Z.div_mul; lia).
  rewrite (u32_small half) by lia. cbn [g_have_offset g_one_way_us g_offset_us].
  split; [done|]. split; [done|]. unfold frame_e2e. cbn [g_offset_us].
  assert (Heq : u32 (u32 (u32 th - u32 (ts + theta)) - u32 (u32 (u32 c1 + half) - u32 (c1 + half + theta)))
                = u32 (th - ts)).
  { wrap_lia. }
  rewrite Heq, u32_small, i32_small by lia. done.
Qed.

Lemma e2e_is_true_latency_witness :
  let o' := latency_update_rtt (mk_offset false 0 0 0) 4294960000 (4294960000 + 2 * 3000)
              (u32 (4294960000 + 3000 + 123456789012)) in
  g_have_offset o' = true /\ g_one_way_us o' = 3000 /\
  frame_e2e o' 4295020000 (u32 (4294966000 + 123456789012)) = 4295020000 - 4294966000.
Proof.
  apply (e2e_is_true_latency (mk_offset false 0 0 0) 4294960000 3000 123456789012 4294966000 4295020000);
    lia.
Defined.

(** ** The figures against the samples *)

Definition sample := (Z * Z * Z * Z)%type.
Definition e2e_of (x : sample) : Z := let '(e, _, _, _) := x in e.

Definition record_all (o : clock_offset) (s : latency_stats) (l : list sample) : latency_stats :=
  fold_left (fun s x => let '(e, d, j, h) := x in latency_record o s e d j h) l s.

Definition cnt (P : Z -> Prop) `{forall x, Decision (P x)} (l : list Z) : Z := zlen (filter P l).

Lemma cnt_samples_app P `{forall x, Decision (P x)} l k : cnt P (l ++ k) = cnt P l + cnt P k.
Proof. unfold cnt. by rewrite filter_app, zlen_app. Qed.

Lemma cnt_le_all P `{forall x, Decision (P x)} l : 0 <= cnt P l <= zlen l.
Proof. unfold cnt, zlen. pose proof (length_filter P l). lia. Qed.

Definition cnt_eq (b : Z) (l : list Z) : Z := cnt (fun e => bucket_of e = b) l.
Definition cnt_upto (b : Z) (l : list Z) : Z := cnt (fun e => bucket_of e <= b) l.

Lemma bucket_range e : 0 <= e < 2 ^ 32 -> 0 <= bucket_of e < 128.
Proof.
  intros He. unfold bucket_of. pose proof (u32_range (e / 1000)). case_decide; lia.
Qed.

Lemma cnt_upto_step b l : cnt_upto b l = cnt_upto (b - 1) l + cnt_eq b l.
Proof.
  unfold cnt_upto, cnt_eq, cnt. induction l as [|e l IH]; [done|].
  rewrite !filter_cons. repeat case_decide; rewrite ?zlen_cons; try lia.
Qed.

Lemma cnt_upto_all l : Forall (fun e => 0 <= e < 2 ^ 32) l -> cnt_upto 127 l = zlen l.
Proof.
  unfold cnt_upto, cnt. induction 1 as [|e l He _ IH]; [done|].
  pose proof (bucket_range e He). rewrite filter_cons, decide_True, !zlen_cons by lia. lia.
Qed.

Lemma cnt_upto_none l : Forall (fun e => 0 <= e < 2 ^ 32) l -> cnt_upto (-1) l = 0.
Proof.
  unfold cnt_upto, cnt. induction 1 as [|e l He _ IH]; [done|].
  pose proof (bucket_range e He). rewrite filter_cons, decide_False by lia. done.
Qed.

(** The accumulated figures hold the samples [l]. *)
Definition stats_of (s : latency_stats) (l : list Z) : Prop :=
  g_lat_cnt s = zlen l /\ g_lat_sum s = foldr Z.add 0 l /\
  (l = [] -> g_lat_min s = 18446744073709551615 /\ g_lat_max s = 0) /\
  (l <> [] -> g_lat_min s ∈ l /\ g_lat_max s ∈ l) /\
  Forall (fun e => g_lat_min s <= e <= g_lat_max s) l /\
  zlen (g_lat_hist s) = 128 /\
  forall b, 0 <= b < 128 -> zget (g_lat_hist s) b = Some (cnt_eq b l).

Lemma sum_app l k : foldr Z.add 0 (l ++ k) = foldr Z.add 0 l + foldr Z.add 0 k.
Proof. induction l as [|a l IH]; cbn in *; lia. Qed.

Lemma sum_bound l : Forall (fun e => 0 <= e < 2 ^ 32) l -> 0 <= foldr Z.add 0 l <= zlen l * 2 ^ 32.
Proof. induction 1; cbn [foldr]; [done|]. rewrite zlen_cons. lia. Qed.

Lemma zget_bump h i j c :
  0 <= i -> 0 <= j -> zget h j = Some c ->
  zget (bump h i) j = Some (if decide (j = i) then u64 (c + 1) else c).
Proof.
  intros Hi Hj Hc. unfold bump. rewrite zget_to_nat in Hc |- * by done.
  destruct (decide (j = i)) as [->|].
  - by rewrite list_lookup_alter_eq, Hc.
  - by rewrite list_lookup_alter_ne by lia.
Qed.

Lemma stats_of_record o s l x :
  g_have_offset o = true -> stats_of s l -> 0 <= e2e_of x < 2 ^ 32 ->
  Forall (fun e => 0 <= e < 2 ^ 32) l -> zlen l < 2 ^ 31 ->
  stats_of (let '(e, d, j, h) := x in latency_record o s e d j h) (l ++ [e2e_of x]).
Proof.
  destruct x as [[[e d] j] h]. cbn [e2e_of].
  intros Ho (Hc & Hs & Hn & Hm & Hb & Hl & Hh) He Hall Hlen.
  pose proof (sum_bound l Hall). pose proof (zlen_nonneg l).
  unfold latency_record. rewrite Ho. cbn [negb]. split_and!; cbn -[u64].
  - rewrite Hc, zlen_app. rewrite u64_small; change (zlen [e]) with 1; lia.
  - rewrite Hs, sum_app. cbn [foldr]. rewrite u64_small; lia.
  - by destruct l.
  - intros _. rewrite !elem_of_app, !list_elem_of_singleton. destruct (decide (l = [])) as [->|Hne].
    + destruct (Hn eq_refl) as [-> ->]. rewrite decide_True by lia.
      split; [by right|right]. case_decide; lia.
    + destruct (Hm Hne). split; case_decide; auto.
  - apply Forall_app. split.
    + eapply Forall_impl; [exact Hb|]. intros a Ha. cbn in Ha. repeat case_decide; lia.
    + apply Forall_singleton. repeat case_decide; lia.
  - unfold bump, zlen in *. by rewrite length_alter.
  - intros b Hbr. pose proof (bucket_range e He).
    rewrite (zget_bump _ _ _ (cnt_eq b l)) by (lia || by apply Hh).
    unfold cnt_eq. rewrite cnt_samples_app. unfold cnt at 4. rewrite filter_cons, filter_nil.
    pose proof (cnt_le_all (fun e => bucket_of e = b) l).
    repeat case_decide; try congruence; change (zlen [e]) with 1; change (zlen (@nil Z)) with 0;
      f_equal; [|lia]. rewrite u64_small; lia.
Qed.

Lemma stats_of_init : stats_of stats_init [].
Proof.
  split_and!; try done.
  intros b Hb. cbn [stats_init g_lat_hist]. rewrite zget_to_nat by lia.
  by rewrite lookup_replicate_2 by (unfold HIST; lia).
Qed.

Lemma stats_of_all o l :
  g_have_offset o = true -> Forall (fun x => 0 <= e2e_of x < 2 ^ 32) l -> zlen l < 2 ^ 31 ->
  stats_of (record_all o stats_init l) (e2e_of <$> l).
Proof.
  intros Ho. induction l as [|x l IH] using rev_ind; intros Hl Hlen; [apply stats_of_init|].
  apply Forall_app in Hl as [Hl Hx%List.Forall_inv]. rewrite zlen_app in Hlen.
  change (zlen [x]) with 1 in Hlen. unfold record_all. rewrite fold_left_app. cbn [fold_left].
  rewrite fmap_app. apply stats_of_record; [done|apply IH; [done|lia]|done| |].
  - apply Forall_fmap. exact Hl.
  - unfold zlen in *. rewrite length_fmap. lia.
Qed.

(** The search stops at the first bucket up to which enough samples lie. *)
Lemma find_p95_spec l target h : forall i,
  Forall (fun e => 0 <= e < 2 ^ 32) l -> zlen l < 2 ^ 31 -> target <= zlen l ->
  0 <= i -> i + zlen h = 128 -> h <> [] ->
  (forall j, 0 <= j < zlen h -> zget h j = Some (cnt_eq (i + j) l)) ->
  exists k, i <= k < 128 /\ find_p95 i (cnt_upto (i - 1) l) target h = 1000 * k /\
    target <= cnt_upto k l /\ forall j, i <= j < k -> cnt_upto j l < target.
Proof.
  induction h as [|c h IH]; intros i Hl Hlen Ht Hi Hlh Hne Hg; [done|].
  assert (Hc : c = cnt_eq i l).
  { specialize (Hg 0). rewrite zlen_cons in Hg. pose proof (zlen_nonneg h).
    rewrite Z.add_0_r in Hg. specialize (Hg ltac:(lia)). by injection Hg as ->. }
  rewrite zlen_cons in Hlh. pose proof (zlen_nonneg h). cbn [find_p95]. cbv zeta.
  rewrite Hc, <- cnt_upto_step.
  pose proof (cnt_le_all (fun e => bucket_of e <= i) l) as Hcl. fold (cnt_upto i l) in Hcl.
  rewrite u64_small by lia. case_decide as Hge.
  - exists i. split_and!; [lia|lia|rewrite u32_small; lia|lia|intros; lia].
  - destruct h as [|c' h].
    + exfalso. assert (i = 127) as -> by (rewrite zlen_nil in Hlh; lia). rewrite cnt_upto_all in Hge by done. lia.
    + destruct (IH (i + 1)) as (k & Hk & Hf & Hle & Hlt); try done; try lia.
      { intros j Hj. specialize (Hg (1 + j)). rewrite zlen_cons in Hg.
        specialize (Hg ltac:(lia)). unfold zget in Hg |- *. rewrite !decide_True in * by lia.
        replace (Z.to_nat (1 + j)) with (S (Z.to_nat j)) in Hg by lia. cbn in Hg.
        by replace (i + 1 + j) with (i + (1 + j)) by lia. }
      replace (i + 1 - 1) with i in Hf by lia.
      exists k. split_and!; [lia|lia|done|done|].
      intros j Hj. destruct (decide (j = i)) as [->|]; [lia|]. apply Hlt. lia.
Qed.

(** The latency report against its samples: minimum and maximum are those of
    the samples, the average is their mean rounded down, and the percentile
    names the first millisecond bucket up to which 95 percent of the samples
    (rounded down) lie, the last bucket collecting everything from 127 ms on. *)
Theorem latency_report_correct o l :
  g_have_offset o = true -> l <> [] -> Forall (fun x => 0 <= e2e_of x < 2 ^ 32) l ->
  zlen l < 2 ^ 31 ->
  let es := e2e_of <$> l in
  exists f, latency_report (record_all o stats_init l) = Some f /\
    f_min f ∈ es /\ f_max f ∈ es /\ Forall (fun e => f_min f <= e <= f_max f) es /\
    f_avg f = foldr Z.add 0 es / zlen es /\
    exists k, 0 <= k < 128 /\ f_p95 f = 1000 * k /\
      zlen es * 95 / 100 <= cnt_upto k es /\
      forall j, 0 <= j < k -> cnt_upto j es < zlen es * 95 / 100.
Proof.
  intros Ho Hne Hl Hlen es. pose proof (stats_of_all o l Ho Hl Hlen) as Hst.
  destruct Hst as (Hc & Hs & _ & Hm & Hb & Hlh & Hh). fold es in Hc, Hs, Hm, Hb, Hh.
  assert (Hes : Forall (fun e => 0 <= e < 2 ^ 32) es) by by apply Forall_fmap.
  assert (Hze : zlen es = zlen l) by (unfold es, zlen; by rewrite length_fmap).
  assert (Hpos : 0 < zlen es).
  { rewrite Hze. destruct l; [done|]. rewrite zlen_cons. pose proof (zlen_nonneg l). lia. }
  assert (Hen : es <> []) by (intros E; by rewrite E in Hpos).
  destruct (Hm Hen) as [Hmin Hmax]. set (s := record_all o stats_init l) in *.
  unfold latency_report. rewrite Hc, decide_False by lia. cbv zeta.
  rewrite u64_small by lia. eexists. split; [reflexivity|]. cbn [f_min f_max f_avg f_p95].
  split; [done|]. split; [done|]. split; [done|]. split; [by rewrite Hs|].
  destruct (find_p95_spec es (zlen es * 95 / 100) (g_lat_hist s) 0) as (k & Hk & Hf & Hle & Hlt);
    try done; try lia.
  - apply Z.div_le_upper_bound; lia.
  - intros E. by rewrite E in Hlh.
  - intros j Hj. apply Hh. lia.
  - change (0 - 1) with (-1) in Hf. rewrite (cnt_upto_none es Hes) in Hf. by exists k.
Qed.

Lemma latency_report_correct_witness :
  let o := mk_offset true 0 0 0 in
  let l := [(1500, 0, 0, 0); (52000, 0, 0, 0); (900000, 0, 0, 0)] in
  let es := e2e_of <$> l in
  exists f, latency_report (record_all o stats_init l) = Some f /\
    f_min f ∈ es /\ f_max f ∈ es /\ Forall (fun e => f_min f <= e <= f_max f) es /\
    f_avg f = foldr Z.add 0 es / zlen es /\
    exists k, 0 <= k < 128 /\ f_p95 f = 1000 * k /\
      zlen es * 95 / 100 <= cnt_upto k es /\
      forall j, 0 <= j < k -> cnt_upto j es < zlen es * 95 / 100.
Proof.
  intros o l. apply (latency_report_correct o l); [done|done|by repeat constructor|done].
Defined.

(** A frame that seems to arrive before it was sent is recorded as an unsigned
    number: the maximum is lost. *)
Example negative_latency :
  g_lat_max (latency_record (mk_offset true 0 0 0) stats_init (u64 (frame_e2e (mk_offset true 0 0 0) 10 11)) 0 0 0)
  = 18446744073709551615.
Proof. reflexivity. Qed.

(** With one sample the percentile is always 0. *)
Example single_sample :
  option_map f_p95 (latency_report (record_all (mk_offset true 0 0 0) stats_init [(52000, 0, 0, 0)]))
  = Some 0.
Proof. vm_compute. reflexivity. Qed.

End Latency.
