(* ===== verification/DecodeWorker.v ===== *)
(** * The decode worker of the thin client in framebuffer mode
      ([apps/thinclient/main.c], [decode_worker])

    A round: the access unit with the earliest deadline is taken from the frame
    slots and decoded; the sender's time stamp of the picture that comes out is
    looked up; the picture is held until its cadence and its sound allow it
    (sleep, busy-wait, stall guard) and copied to the framebuffer; the slot is
    released. The clocks, the timeline at each poll and what the other threads
    do to the slots are inputs of a round. The DRM mode is in [Present]. *)

From S2P Require Import Prelude Fragment FrameSlots FbDisplay Decoder AvSync Latency.
From stdpp Require Import sorting.

#[local] Open Scope Z_scope.

Module Dw.
Import AvSync.
#[local] Existing Instances Slots.eta_slot Slots.slot_st_eq_dec Fb.eta_fb Dec.eta_dec Dec.demo_codec.

(** ** The time stamp of the picture *)

(** The statics [pts_seen] and [send_by_pts]. *)
Record send_map := mk_send_map { pts_seen : list Z; send_by_pts : list Z }.

Definition send_map_init : send_map := mk_send_map (replicate 128 0) (replicate 128 0).

(** [last_send]: the number of the packet just sent, with its stamp [ts];
    [last_frame]: the number of the picture. The stamp used for the picture. *)
Definition map_send_ts (m : send_map) (last_send last_frame ts : Z) : option (send_map * Z) :=
  seen ← zset (pts_seen m) (Z.rem last_send 128) last_send;
  by_pts ← zset (send_by_pts m) (Z.rem last_send 128) ts;
  real ← (if decide (last_frame >= 0) then
            s ← zget seen (Z.rem last_frame 128);
            if decide (s = last_frame) then zget by_pts (Z.rem last_frame 128) else Some ts
          else Some ts);
  Some (mk_send_map seen by_pts, real).

(** ** The wait before a picture is shown *)

Definition VMC_FB_PRESENT_SPIN_US : Z := 3500.
Definition VMC_FB_PRESENT_STALL_MS : Z := 120.

(** What a poll reads: the timeline, the wall clock at the test, the wall clock
    at the test for the end of the phase, [g_run_decode]. *)
Record poll := mk_poll { p_tl : timeline; p_wall : Z; p_wall2 : Z; p_run : bool }.

Definition gate_open (target pts : Z) (p : poll) : bool :=
  bool_decide (u64 (p_wall p) >= target) &&
  bool_decide (tlm_audio_content_at_wall (p_tl p) (u64 (p_wall p)) >= pts).

(** The floor of the cadence. *)
Definition fb_target (last period deadline : Z) : Z :=
  if decide (last <> 0) then
    let next := u64 (last + period) in if decide (next > deadline) then next else deadline
  else deadline.

(** [cnow]: the audio content at [now0]. *)
Definition fb_present_at (target now0 cnow pts : Z) : Z :=
  if decide (cnow >= 0 /\ pts - cnow > 0) then
    let crossing := u64 (now0 + u64 (pts - cnow)) in
    if decide (crossing > target) then crossing else target
  else target.

(** Phase 1: the instant to sleep until. *)
Definition fb_sleep (now0 present_at : Z) : option Z :=
  if decide (present_at > u64 (now0 + VMC_FB_PRESENT_SPIN_US))
  then Some (u64 (present_at - VMC_FB_PRESENT_SPIN_US)) else None.

(** Phase 2: the polls made; [None]: the fuel is used up. *)
Fixpoint fb_spin (fuel i : nat) (ps : nat -> poll) (target pts until : Z) : option nat :=
  match fuel with
  | O => None
  | S fuel =>
    if gate_open target pts (ps i) then Some (S i)
    else if negb (p_run (ps i)) then Some (S i)
    else if decide (u64 (p_wall2 (ps i)) < until) then fb_spin fuel (S i) ps target pts until
    else Some (S i)
  end.

(** Phase 3: the poll that ends the wait, [600] if none does. *)
Fixpoint fb_stall (tries i : nat) (ps : nat -> poll) (target pts until : Z) : nat :=
  match tries with
  | O => i
  | S tries =>
    if gate_open target pts (ps i) then i
    else if negb (p_run (ps i)) || bool_decide (u64 (p_wall2 (ps i)) >= until) then i
    else fb_stall tries (S i) ps target pts until
  end.

(** The readings of a wait: the clock and the timeline at its start; the clock
    and the polls of phase 2, which follow the sleep; the clock and the polls of
    phase 3, which follow the sleep and the number of polls of phase 2. *)
Record wait_env := mk_wait {
  now0 : Z; tl0 : timeline;
  spin_start : option Z -> Z; spin_polls : option Z -> nat -> poll;
  stall_start : option Z -> nat -> Z; stall_polls : option Z -> nat -> nat -> poll;
}.

(** How long phase 1 sleeps, if it does. *)
Definition fb_slept (last period deadline pts : Z) (e : wait_env) : option Z :=
  fb_sleep (u64 (now0 e))
    (fb_present_at (fb_target last period deadline) (u64 (now0 e))
       (tlm_audio_content_at_wall (tl0 e) (u64 (now0 e))) pts).

(** The sleep, the polls of phase 2, the last poll of phase 3. *)
Definition fb_wait (fuel : nat) (last period deadline pts : Z) (e : wait_env)
    : option (option Z * nat * nat) :=
  let target := fb_target last period deadline in
  let slept := fb_slept last period deadline pts e in
  spun ← fb_spin fuel 0 (spin_polls e slept) target pts
           (u64 (u64 (spin_start e slept) + VMC_FB_PRESENT_SPIN_US));
  Some (slept, spun,
        fb_stall 600 0 (stall_polls e slept spun) target pts
          (u64 (u64 (stall_start e slept spun) + VMC_FB_PRESENT_STALL_MS * 1000))).

(** ** A round *)

(** [tlm_vrender_emit] as this worker calls it. *)
Record vrender := mk_vrender {
  v_present : Z; v_deadline : Z; v_fidx : Z; v_seg : Z; v_pts : Z; v_decode : Z; v_apos : Z;
}.

(** The worker: its statics and what it shares with other threads. *)
Record worker (L : Type) := mk_worker {
  frames : list Slots.vmc_frame_slot; dec : Dec.vmc_ffmpeg_decoder; lib : L;
  disp : Fb.vmc_fb_display; smap : send_map; stats : Latency.latency_stats;
  s_last_present_wall_us : Z; g_decode_oks : Z; g_decode_fails : Z; g_presented : Z;
  g_first_video_ready : bool; g_av_armed : bool; g_last_video_deadline_us : Z;
}.
Arguments mk_worker {L}.
Arguments frames {L}.
Arguments dec {L}.
Arguments lib {L}.
Arguments disp {L}.
Arguments smap {L}.
Arguments stats {L}.
Arguments s_last_present_wall_us {L}.
Arguments g_decode_oks {L}.
Arguments g_decode_fails {L}.
Arguments g_presented {L}.
Arguments g_first_video_ready {L}.
Arguments g_av_armed {L}.
Arguments g_last_video_deadline_us {L}.

#[export] Instance eta_worker L : Eta (worker L) := fun w =>
  mk_worker (frames w) (dec w) (lib w) (disp w) (smap w) (stats w) (s_last_present_wall_us w)
    (g_decode_oks w) (g_decode_fails w) (g_presented w) (g_first_video_ready w) (g_av_armed w)
    (g_last_video_deadline_us w).

(** The inputs of a round: [e_fps] and [e_latency] are the globals when they are
    read, [e_tq], [e_t0], [e_t1], [e_t2] the clock at the measurement of the queueing
    time, before and after decoding and at the latency measurement, [e_shift] the value of [g_cadence_shift_us] that is
    exchanged for 0, [e_others] what other threads did to the slots since the
    slot was taken. *)
Record round_env := mk_round {
  e_fps : Z; e_tq : Z; e_t0 : Z; e_t1 : Z; e_t2 : Z; e_offset : Latency.clock_offset; e_shift : Z;
  e_wait : wait_env; e_present : Z; e_tlm : bool; e_apos_tl : timeline; e_apos_wall : Z;
  e_latency : Z; e_others : list Slots.vmc_frame_slot -> list Slots.vmc_frame_slot;
}.

(** What a round does: nothing (no slot is ready), a failed decode, or a picture
    with its stamp, its wait ([None]: shown at once) and its report. *)
Inductive outcome :=
| Idle
| Failed (st : vmc_status)
| Shown (send_ts : Z) (waited : option (option Z * nat * nat)) (r : option vrender).

#[export] Instance outcome_idle_dec (o : outcome) : Decision (o = Idle).
Proof. destruct o; (by left) || (by right). Defined.

Section Round.
Context {L : Type} `{Dec.Codec L} (AU_PAD : Z) (fuel : nat).

(** From the decoded picture [f] in slot [idx] to the release of the slot. *)
Definition fb_show (w : worker L) (idx : nat) (deadline send_ts decode_us queue_us : Z)
    (f : Fb.vmc_video_frame) (e : round_env) : option (worker L * outcome) :=
  '(m, real) ← map_send_ts (smap w) (Dec.last_send_pts (dec w)) (Dec.last_frame_pts (dec w)) send_ts;
  s ← frames w !! idx;
  let st := if Latency.g_have_offset (e_offset e)
            then Latency.latency_record (e_offset e) (stats w)
                   (u64 (Latency.frame_e2e (e_offset e) (e_t2 e) real)) decode_us queue_us
                   (u64 (e_t2 e - e_t1 e))
            else stats w in
  let last := if decide (e_shift e <> 0) then 0 else s_last_present_wall_us w in
  let period := frame_period_us (e_fps e) in
  waited ← (if decide (period > 0 /\ deadline <> 0)
            then r ← fb_wait fuel last period deadline (Slots.pts_us s) (e_wait e); Some (Some r)
            else Some None);
  let last := match waited with Some _ => deadline | None => last end in
  let r := if e_tlm e then
             Some (mk_vrender (e_present e) deadline (Slots.fidx s) (Slots.seg s) (Slots.pts_us s)
                     decode_us (u64 (tlm_audio_content_at_wall (e_apos_tl e) (e_apos_wall e))))
           else None in
  '(_, d) ← Fb.fb_present (disp w) (Some f);
  fs ← Slots.slot_release (frames w) idx;
  Some (w <| frames := fs |> <| disp := d |> <| smap := m |> <| stats := st |>
          <| s_last_present_wall_us := last |> <| g_decode_oks := g_decode_oks w + 1 |>
          <| g_presented := g_presented w + 1 |> <| g_first_video_ready := true |>
          <| g_av_armed := true |>
          <| g_last_video_deadline_us := u64 (deadline - e_latency e) |>,
        Shown real waited r).

(** [None]: an access outside an object, or the fuel is used up. *)
Definition fb_round (w : worker L) (e : round_env) : option (worker L * outcome) :=
  match Slots.decode_take (frames w) with
  | None => Some (w, Idle)
  | Some (idx, fs) =>
    s ← fs !! idx;
    '(st, fr, d, l, _) ← Dec.ffmpeg_decode AU_PAD (dec w) (lib w) (Some (Slots.buf s)) (Slots.len s) true;
    let w := w <| frames := e_others e fs |> <| dec := d |> <| lib := l |> in
    match (if decide (st = VMC_OK) then fr else None) with
    | Some f =>
      fb_show w idx (Slots.deadline_us s) (Slots.send_ts s) (u64 (e_t1 e - e_t0 e))
        (u64 (e_tq e - Slots.pub_us s)) f e
    | None =>
      fs ← Slots.slot_release (frames w) idx;
      Some (w <| frames := fs |> <| g_decode_fails := g_decode_fails w + 1 |>, Failed st)
    end
  end.

End Round.

(** ** A picture appears with its sound *)

(** When the content of the audio clock was 0. *)
Definition sound_origin (t : timeline) : Z :=
  (if decide (g_audio_start_wall_us t = 0 \/ g_audio_delay_us t = 0)
   then i64 (g_anchor_wall_us t) + i64 (g_playout_latency_us t)
   else i64 (g_audio_start_wall_us t) + i64 (g_audio_delay_us t)) + g_timeline_adj_us t.

Lemma content_at t w : g_anchor_wall_us t <> 0 -> 0 <= w < 2 ^ 63 ->
  tlm_audio_content_at_wall t w = Z.max 0 (w - sound_origin t).
Proof.
  intros Ha Hw. unfold tlm_audio_content_at_wall, sound_origin. rewrite decide_False, i64_small by lia.
  case_decide; f_equal; lia.
Qed.

Lemma gate_open_iff t target pts p :
  p_tl p = t -> g_anchor_wall_us t <> 0 -> 0 <= p_wall p < 2 ^ 63 -> sound_origin t <= p_wall p ->
  gate_open target pts p = bool_decide (Z.max target (sound_origin t + pts) <= p_wall p).
Proof.
  intros Ht Ha Hw Ho. unfold gate_open. rewrite Ht, u64_small, content_at by lia.
  rewrite <- bool_decide_and. apply bool_decide_ext. lia.
Qed.

(** Phase 2 ends once the clock has reached its limit, at the first poll that
    finds the gate open or the limit reached. *)
Lemma fb_spin_ends ps target pts until N : forall fuel i,
  (i <= N < fuel + i)%nat -> until <= u64 (p_wall2 (ps N)) ->
  exists n, fb_spin fuel i ps target pts until = Some (S n) /\ (i <= n <= N)%nat /\
    (forall j, (i <= j < n)%nat -> gate_open target pts (ps j) = false) /\
    (gate_open target pts (ps n) = true \/ p_run (ps n) = false \/ until <= u64 (p_wall2 (ps n))).
Proof.
  induction fuel as [|fuel IH]; intros i Hi HN; [lia|]. cbn [fb_spin].
  destruct (gate_open target pts (ps i)) eqn:Eg.
  { exists i. split_and!; [done|lia|lia|lia|by left]. }
  destruct (p_run (ps i)) eqn:Er; cbn [negb].
  2: { exists i. split_and!; [done|lia|lia|lia|by right; left]. }
  case_decide as Hd.
  2: { exists i. split_and!; [done|lia|lia|lia|right; right; lia]. }
  destruct (decide (i = N)) as [->|Hne]; [lia|].
  destruct (IH (S i)) as (n & -> & Hn & Hb & He); [lia|done|].
  exists n. split_and!; [done|lia|lia| |done].
  intros j Hj. destruct (decide (j = i)) as [->|]; [done|apply Hb; lia].
Qed.

(** A gate that is open ends phase 3 at once. *)
Lemma fb_stall_open tries i ps target pts until :
  gate_open target pts (ps i) = true -> fb_stall tries i ps target pts until = i.
Proof. intros Hg. destruct tries; [done|]. unfold fb_stall. by rewrite Hg. Qed.

(** The machine while a picture waits, after the sleep [sl]: the program runs and
    the timeline is [t]; the clock does not go back, the sleep is not cut short,
    each test reads the clock at most [h] after the one before it, and by poll
    [N] of phase 2 the clock has reached the end of that phase. *)
Record steady (t : timeline) (h : Z) (sl : option Z) (N : nat) (e : wait_env) : Prop := {
  st_now : 0 <= now0 e <= spin_start e sl /\ tl0 e = t;
  st_sleep : forall u, sl = Some u -> u <= spin_start e sl;
  st_spin0 : spin_start e sl <= p_wall (spin_polls e sl 0) <= spin_start e sl + h;
  st_spin : forall i, (i <= N)%nat ->
    p_tl (spin_polls e sl i) = t /\ p_run (spin_polls e sl i) = true /\
    p_wall (spin_polls e sl i) <= p_wall2 (spin_polls e sl i) < 2 ^ 61;
  st_next : forall i, (i < N)%nat ->
    p_wall (spin_polls e sl i) <= p_wall (spin_polls e sl (S i)) <= p_wall (spin_polls e sl i) + h;
  st_stall : forall n, (n <= N)%nat -> p_tl (stall_polls e sl (S n) 0) = t /\
    p_wall2 (spin_polls e sl n) <= p_wall (stall_polls e sl (S n) 0) <= p_wall (spin_polls e sl n) + h;
  st_end : spin_start e sl + VMC_FB_PRESENT_SPIN_US <= p_wall2 (spin_polls e sl N);
}.

Section OnTime.
Context (t : timeline) (h : Z) (N : nat) (e : wait_env) (last period deadline pts : Z).

#[local] Abbreviation target := (fb_target last period deadline) (only parsing).
#[local] Abbreviation sl := (fb_slept last period deadline pts e) (only parsing).

Context (Hst : steady t h sl N e) (Hh : 0 <= h < 2 ^ 60) (Ha : g_anchor_wall_us t <> 0).
Context (Ho : sound_origin t <= now0 e) (Hd : 0 < deadline < 2 ^ 62).

(** The instant at which the cadence and the sound allow the picture. *)
Definition due : Z := Z.max target (sound_origin t + pts).

Context (Hdue : due < 2 ^ 62).

Lemma spin_mono i : (i <= N)%nat -> spin_start e sl <= p_wall (spin_polls e sl i).
Proof.
  induction i as [|i IH]; intros Hi; [apply Hst|].
  pose proof (st_next _ _ _ _ _ Hst i ltac:(lia)). lia.
Qed.

Lemma spin_lt i : (i <= N)%nat -> 0 <= now0 e <= p_wall (spin_polls e sl i) /\
  p_wall (spin_polls e sl i) <= p_wall2 (spin_polls e sl i) < 2 ^ 61.
Proof.
  intros Hi. pose proof (spin_mono i Hi). pose proof (st_spin _ _ _ _ _ Hst i Hi) as (_ & _ & H1).
  pose proof (st_now _ _ _ _ _ Hst). lia.
Qed.

Lemma now0_lt : 0 <= now0 e <= spin_start e sl /\ spin_start e sl < 2 ^ 61 /\ u64 (now0 e) = now0 e.
Proof.
  pose proof (spin_lt 0 ltac:(lia)). pose proof (st_now _ _ _ _ _ Hst). pose proof (st_spin0 _ _ _ _ _ Hst).
  rewrite u64_small; lia.
Qed.

Lemma present_at_due p : 0 < target ->
  fb_present_at target (now0 e) (tlm_audio_content_at_wall t (now0 e)) pts = p ->
  0 < p <= due /\ (due <= p \/ due <= now0 e).
Proof.
  intros Ht <-. pose proof now0_lt as (? & ? & _). unfold fb_present_at, due in *.
  rewrite content_at, Z.max_r by lia.
  case_decide as H1; [|lia]. rewrite (u64_small (pts - _)), u64_small by lia.
  case_decide; lia.
Qed.

(** The sleep ends early enough for phase 2 to reach the instant. *)
Lemma sleep_leaves_spin : due <= spin_start e sl + VMC_FB_PRESENT_SPIN_US.
Proof.
  pose proof now0_lt as (Hn & Hn2 & Hu). assert (Htg : 0 < target).
  { unfold fb_target. repeat case_decide; lia. }
  pose proof (st_sleep _ _ _ _ _ Hst) as H2. destruct (st_now _ _ _ _ _ Hst) as [_ Ht].
  assert (Hn3 : now0 e < 2 ^ 61) by lia. clear Hn2.
  revert Hn H2. generalize (spin_start e sl). unfold fb_slept. rewrite Ht, Hu. intros start Hn.
  destruct (fb_present_at _ _ _ _) as [|p|p] eqn:E; apply present_at_due in E; try lia;
    destruct E as [Ep Ed]; unfold fb_sleep, VMC_FB_PRESENT_SPIN_US;
    rewrite (u64_small (now0 e + _)) by lia.
  case_decide as Hd'; intros H2; [|lia].
  rewrite u64_small in * by lia. specialize (H2 _ eq_refl). lia.
Qed.

Lemma opens p : p_tl p = t -> now0 e <= p_wall p < 2 ^ 62 ->
  gate_open target pts p = bool_decide (due <= p_wall p).
Proof. intros Ep Hp. pose proof now0_lt. apply gate_open_iff; [done|done|lia|lia]. Qed.

(** The wait ends at the first poll of phase 3, which finds the gate open at the
    instant or up to two polls later. *)
Lemma fb_wait_due fuel : (N < fuel)%nat ->
  exists n, fb_wait fuel last period deadline pts e = Some (sl, S n, O) /\ (n <= N)%nat /\
    due <= p_wall (stall_polls e sl (S n) 0) <= Z.max due (spin_start e sl) + 2 * h.
Proof.
  intros Hf. pose proof sleep_leaves_spin as Hsl. pose proof now0_lt as (Hs & Hs2 & _).
  pose proof (st_end _ _ _ _ _ Hst) as HN. pose proof (spin_lt N ltac:(done)) as Hlt. unfold fb_wait.
  unfold VMC_FB_PRESENT_SPIN_US in *. rewrite (u64_small (spin_start e sl)), u64_small by lia.
  destruct (fb_spin_ends (spin_polls e sl) target pts (spin_start e sl + 3500) N fuel 0)
    as (n & -> & Hn & Hb & He); [lia|rewrite u64_small by lia; lia|].
  cbn [mbind option_bind]. pose proof (st_stall _ _ _ _ _ Hst n ltac:(lia)) as [Htl Hr].
  pose proof (spin_lt n ltac:(lia)) as Hln. pose proof (st_spin _ _ _ _ _ Hst n ltac:(lia)) as (Htn & Hrn & _).
  assert (Hdn : due <= p_wall (stall_polls e sl (S n) 0)).
  { destruct He as [He|[He|He]].
    - rewrite opens, bool_decide_eq_true in He by (done || lia). lia.
    - congruence.
    - rewrite u64_small in He by lia. lia. }
  exists n. split_and!; [|lia|done|].
  { rewrite fb_stall_open; [done|]. rewrite opens, bool_decide_true by (done || lia). done. }
  destruct n as [|m]; [pose proof (st_spin0 _ _ _ _ _ Hst); lia|].
  specialize (Hb m ltac:(lia)). pose proof (spin_lt m ltac:(lia)).
  pose proof (st_spin _ _ _ _ _ Hst m ltac:(lia)) as (Htm & _). pose proof (st_next _ _ _ _ _ Hst m ltac:(lia)).
  rewrite opens, bool_decide_eq_false in Hb by (done || lia). lia.
Qed.

End OnTime.

(** C37. A picture of the stream appears with its sound. Once the audio plays and the
    timeline stands still, on a machine whose clock is read at most [h] apart,
    the wait for frame [k] of segment [s] ends within two readings of the later
    of its cadence floor and the moment its sound is heard, unless the sleep
    overran that - never before. But that moment is reckoned from segment 1: a
    client that joined at segment [n] holds every picture back by [n - 1]
    segments. (How much of it is one sleep: the Example below.) *)
Theorem fb_picture_on_time t h e fuel N last period s k :
  let d := dash_au_deadline t s k in
  let sl := fb_slept last period d (frame_pts t s k) e in
  steady t h sl N e -> 0 <= h < 2 ^ 60 -> sound_origin t <= now0 e ->
  0 < g_stream_fps t <= 1000000 -> 0 <= i64 (g_seg_duration_us t) ->
  g_anchor_wall_us t <> 0 -> 0 < g_audio_start_wall_us t < 2 ^ 63 -> 0 < g_audio_delay_us t < 2 ^ 63 ->
  0 <= g_playout_latency_us t < 2 ^ 63 -> 1 <= g_anchor_seg t <= s -> 0 <= k ->
  0 < deadline_base t ->
  let heard := deadline_base t + g_playout_latency_us t + (s - 1) * i64 (g_seg_duration_us t)
               + k * frame_period_us (g_stream_fps t) in
  heard < 2 ^ 62 -> fb_target last period d < 2 ^ 62 ->
  (N < fuel)%nat ->
  let due := Z.max (fb_target last period d) heard in
  heard = d + g_playout_latency_us t + (g_anchor_seg t - 1) * i64 (g_seg_duration_us t) /\
  exists n, fb_wait fuel last period d (frame_pts t s k) e = Some (sl, S n, O) /\
    due <= p_wall (stall_polls e sl (S n) 0) <= Z.max due (spin_start e sl) + 2 * h.
Proof.
  intros d sl Hst Hhr Ho Hfps Hdur Ha Hs Hdl Hpl Hseg Hk Hbase heard Hh Htg Hf due.
  pose proof (frame_period_pos _ Hfps) as Hfp.
  assert (H1 : 0 <= (s - g_anchor_seg t) * i64 (g_seg_duration_us t)) by nia.
  assert (H2 : 0 <= k * frame_period_us (g_stream_fps t)) by nia.
  assert (H3 : 0 <= (g_anchor_seg t - 1) * i64 (g_seg_duration_us t)) by nia.
  assert (Hd : d = deadline_base t + (s - g_anchor_seg t) * i64 (g_seg_duration_us t)
                   + k * frame_period_us (g_stream_fps t)).
  { apply dash_au_deadline_eq; [lia|done|]. unfold heard in Hh. lia. }
  assert (Hso : sound_origin t = deadline_base t + g_playout_latency_us t).
  { unfold sound_origin, deadline_base. rewrite (decide_False (P := _ \/ _)) by lia.
    rewrite (i64_small (g_audio_start_wall_us t)), (i64_small (g_playout_latency_us t)) by lia.
    rewrite decide_False by lia. lia. }
  assert (Hheard : heard = sound_origin t + frame_pts t s k).
  { rewrite Hso. unfold heard, frame_pts, frame_period_us. rewrite !decide_True by lia. lia. }
  split; [unfold heard in *; lia|].
  assert (Hdr : 0 < d < 2 ^ 62) by (unfold heard in *; lia). subst sl. clearbody d heard.
  assert (Hdue : Dw.due t last period d (frame_pts t s k) < 2 ^ 62) by (unfold Dw.due; lia).
  destruct (fb_wait_due t h N e last period d (frame_pts t s k) Hst Hhr Ha Ho Hdr Hdue fuel Hf)
    as (n & Hw & _ & Hb).
  exists n. split; [exact Hw|]. unfold Dw.due in Hb. rewrite <- Hheard in Hb. exact Hb.
Qed.

(** A client that joined at the first segment and one that joined at the 61st:
    the same machine, polling every 50 us. *)
Definition demo_tl (anchor : Z) : timeline := sample_timeline <| g_anchor_seg := anchor |>.

Definition demo_poll (tl : timeline) (w : Z) : poll := mk_poll tl w (w + 20) true.

Definition demo_wait (tl : timeline) : wait_env :=
  let start sl := match sl with Some u => u + 100 | None => 1700000000840010 end in
  mk_wait 1700000000840000 tl start (fun sl i => demo_poll tl (start sl + 5 + 50 * Z.of_nat i))
    (fun sl n => start sl + 50 * Z.of_nat n)
    (fun sl n i => demo_poll tl (start sl - 10 + 50 * Z.of_nat n + 200 * Z.of_nat i)).

Lemma demo_steady tl u : 1700000000840000 <= u <= 1700000100000000 ->
  steady tl 60 (Some u) 70 (demo_wait tl).
Proof.
  intros Hu. split; cbn -[Z.mul Z.of_nat]; unfold VMC_FB_PRESENT_SPIN_US;
    [split; [lia|done]|intros v [= <-]; lia|lia| |intros; lia| |lia].
  - intros i Hi. split_and!; [done|done|lia|lia].
  - intros n Hn. split_and!; [done|lia|lia].
Qed.

Lemma fb_picture_on_time_witness :
  let t := demo_tl 1 in let e := demo_wait t in
  let d := dash_au_deadline t 2 3 in
  d = 1700000001304998 /\ fb_slept 0 16666 d (frame_pts t 2 3) e = Some (d + 85000 - 3500) /\
  exists n, fb_wait 71 0 16666 d (frame_pts t 2 3) e = Some (Some (d + 85000 - 3500), S n, O) /\
    d + 85000 <= p_wall (stall_polls e (Some (d + 85000 - 3500)) (S n) 0) <= d + 85000 + 2 * 60.
Proof.
  intros t e d. split; [vm_compute; reflexivity|].
  assert (Hsl : fb_slept 0 16666 d (frame_pts t 2 3) e = Some (d + 85000 - 3500)) by (vm_compute; reflexivity).
  split; [exact Hsl|].
  destruct (fb_picture_on_time t 60 e 71 70 0 16666 2 3) as (_ & n & Hw & Hb).
  2-15: vm_compute; repeat split; try reflexivity; discriminate.
  - fold d. rewrite Hsl. apply demo_steady. vm_compute. split; discriminate.
  - fold d in Hw, Hb. rewrite Hsl in Hw, Hb. exists n. split; [exact Hw|].
    set (due := Z.max _ _) in Hb at 1 2.
    assert (Hdue : due = d + 85000) by (vm_compute; reflexivity).
    rewrite Hdue in Hb. exact Hb.
Defined.

(** The client that joined one minute later sleeps a minute before its first
    picture. *)
Example late_join_sleeps_a_minute :
  let t := demo_tl 61 in
  fb_slept 0 16666 (dash_au_deadline t 61 0) (frame_pts t 61 0) (demo_wait t)
  = Some (dash_au_deadline t 61 0 + 85000 + 60000000 - 3500).
Proof. vm_compute. reflexivity. Qed.

(** ** The worker never gives out *)

(** A run of rounds. *)
Fixpoint fb_run {L} `{Dec.Codec L} (AU_PAD : Z) (fuel : nat) (w : worker L) (es : list round_env)
    : option (worker L * list outcome) :=
  match es with
  | [] => Some (w, [])
  | e :: es =>
    '(w, o) ← fb_round AU_PAD fuel w e;
    '(w, os) ← fb_run AU_PAD fuel w es;
    Some (w, o :: os)
  end.

Definition decoding (f : Slots.vmc_frame_slot) : Prop := Slots.state f = Slots.SLOT_DECODING.

#[export] Instance decoding_dec f : Decision (decoding f).
Proof. unfold decoding. apply _. Defined.

(** The unit of a slot lies in its buffer. *)
Definition slot_ok (f : Slots.vmc_frame_slot) : Prop := 0 <= Slots.len f <= zlen (Slots.buf f).

(** What other threads may do: they keep the slots, never take one for decoding
    or out of the hands of the worker. *)
Definition others_ok (g : list Slots.vmc_frame_slot -> list Slots.vmc_frame_slot) : Prop :=
  forall fs, Forall slot_ok fs -> length (g fs) = length fs /\ Forall slot_ok (g fs) /\
    forall i f, g fs !! i = Some f -> decoding f -> exists f0, fs !! i = Some f0 /\ decoding f0.

(** The clock passes the end of phase 2 before the fuel is used up. *)
Definition clock_runs (fuel : nat) (e : wait_env) : Prop :=
  forall sl, exists N, (N < fuel)%nat /\
    u64 (u64 (spin_start e sl) + VMC_FB_PRESENT_SPIN_US) <= u64 (p_wall2 (spin_polls e sl N)).

Lemma fb_wait_ends fuel last period deadline pts e : clock_runs fuel e ->
  exists r, fb_wait fuel last period deadline pts e = Some r.
Proof.
  intros Hc. unfold fb_wait. cbv zeta. set (sl := fb_slept _ _ _ _ _). destruct (Hc sl) as (N & Hf & HN).
  destruct (fb_spin_ends (spin_polls e sl) (fb_target last period deadline) pts _ N fuel 0 ltac:(lia) HN)
    as (n & -> & _). cbn [mbind option_bind]. eexists. reflexivity.
Qed.

Definition smap_ok (m : send_map) : Prop := zlen (pts_seen m) = 128 /\ zlen (send_by_pts m) = 128.

Lemma map_send_ts_ok m k op ts : smap_ok m -> 0 <= k ->
  exists m' real, map_send_ts m k op ts = Some (m', real) /\ smap_ok m'.
Proof.
  intros [H1 H2] Hk. unfold map_send_ts.
  pose proof (Z.rem_bound_pos k 128 Hk ltac:(lia)).
  rewrite !zset_ok by lia. cbn [mbind option_bind].
  assert (Hlen : forall (l : list Z) i x, zlen (<[i:=x]> l) = zlen l)
    by (intros; unfold zlen; by rewrite length_insert).
  assert (Hok : forall s b, zlen s = 128 -> zlen b = 128 -> smap_ok (mk_send_map s b)) by done.
  case_decide as Hop; [|eexists _, _; split; [done|]; apply Hok; by rewrite Hlen].
  pose proof (Z.rem_bound_pos op 128 ltac:(lia) ltac:(lia)).
  destruct (zget_is_Some (<[Z.to_nat (Z.rem k 128):=k]> (pts_seen m)) (Z.rem op 128)) as [x ->];
    [rewrite Hlen; lia|]. cbn [mbind option_bind].
  destruct (zget_is_Some (<[Z.to_nat (Z.rem k 128):=ts]> (send_by_pts m)) (Z.rem op 128)) as [y Hy];
    [rewrite Hlen; lia|]. rewrite Hy.
  case_decide; (eexists _, _; split; [reflexivity|]; apply Hok; by rewrite Hlen).
Qed.

(** The display is open, and a line holds its pixels. *)
Definition disp_ok (d : Fb.vmc_fb_display) : Prop :=
  exists m, Fb.map d = Some m /\ 0 <= Fb.xres d /\ 4 * Fb.xres d <= Fb.line_len d /\
    0 <= Fb.yres d /\ Fb.line_len d * Fb.yres d <= zlen m.

Lemma fb_present_ok d f : disp_ok d -> 0 <= Fb.width f -> 0 <= Fb.height f ->
  4 * Fb.width f <= Fb.stride0 f -> Fb.stride0 f * Fb.height f <= zlen (Fb.plane0 f) ->
  exists st d', Fb.fb_present d (Some f) = Some (st, d') /\ disp_ok d'.
Proof.
  intros (m & Hm & Hd) Hw Hh Hs Hp.
  destruct (Fb.fb_present_blits d f m) as (m' & -> & Hz & _); [tauto..|].
  eexists _, _. split; [done|]. exists m'. split; [done|]. cbn. by rewrite Hz.
Qed.

Section Worker.
Context {L : Type} `{Dec.Codec L} (AU_PAD : Z) (fuel : nat).
Context (pad_nonneg : 0 <= AU_PAD).
Context (sws_fits : forall s f w h, 0 <= w * h -> zlen (Dec.sws_scale (L := L) s f w h) <= 4 * (w * h)).
Context (cuda_fits : forall f w h px, 0 <= w * h -> Dec.cuda_convert (L := L) f w h = Some px ->
  zlen px <= 4 * (w * h)).

Record worker_ok (w : worker L) : Prop := {
  wk_ready : Dec.ready AU_PAD (dec w);
  wk_cpu : Dec.output_cuda (dec w) = false;
  wk_dims : 0 < Dec.out_w (dec w) /\ 0 < Dec.out_h (dec w);
  wk_pts : 0 <= Dec.next_pts (dec w);
  wk_slots : Forall slot_ok (frames w);
  wk_idle : Forall (fun f => ~ decoding f) (frames w);
  wk_disp : disp_ok (disp w);
  wk_smap : smap_ok (smap w);
}.

Definition env_ok (e : round_env) : Prop := others_ok (e_others e) /\ clock_runs fuel (e_wait e).

(** The picture of the decoder fits the memory it designates. *)
Lemma rgb_frame_ok d : Dec.ready AU_PAD d -> 0 < Dec.out_w d /\ 0 < Dec.out_h d ->
  let f := Dec.rgb_frame d in
  0 <= Fb.width f /\ 0 <= Fb.height f /\ 4 * Fb.width f <= Fb.stride0 f /\
  Fb.stride0 f * Fb.height f <= zlen (Fb.plane0 f).
Proof.
  intros Hr Hd f. pose proof Hr as [(_ & _ & _ & r & Hrgb & _) Hb].
  pose proof (Dec.ready_rgb AU_PAD d r Hr Hrgb) as Hz. unfold f, Dec.rgb_frame. cbn. rewrite Hrgb. cbn [default].
  assert (Dec.out_w d <= Dec.out_w d * Dec.out_h d) by nia.
  change (id r) with r. rewrite u32_small by lia. split_and!; nia.
Qed.

(** The slots after the worker's one is given back. *)
Lemma release_idle fs i g : Forall slot_ok fs -> Forall (fun f => ~ decoding f) fs -> others_ok g ->
  forall f, fs !! i = Some f ->
  let fs1 := g (<[i := f <| Slots.state := Slots.SLOT_DECODING |>]> fs) in
  exists fs2, Slots.slot_release fs1 i = Some fs2 /\ is_Some (fs1 !! i) /\
    Forall slot_ok fs2 /\ Forall (fun f => ~ decoding f) fs2.
Proof.
  intros Hok Hid Hg f Hf fs1. set (f1 := f <| Slots.state := Slots.SLOT_DECODING |>) in *.
  assert (Hi : (i < length fs)%nat) by (by eapply lookup_lt_Some).
  assert (Hok1 : Forall slot_ok (<[i := f1]> fs)).
  { apply Forall_insert; [done|]. exact (Forall_lookup_1 _ _ _ _ Hok Hf). }
  destruct (Hg _ Hok1) as (Hl & Hs & Hdc). fold fs1 in Hl, Hs, Hdc. rewrite length_insert in Hl.
  destruct (lookup_lt_is_Some_2 fs1 i) as [h Hh]; [lia|]. unfold Slots.slot_release. rewrite Hh.
  eexists. split_and!; [done|by eexists| |].
  - apply Forall_insert; [done|]. exact (Forall_lookup_1 _ _ _ _ Hs Hh).
  - apply Forall_lookup_2. intros j x. destruct (decide (j = i)) as [->|Hne].
    + rewrite list_lookup_insert_eq by lia. by intros [= <-].
    + rewrite list_lookup_insert_ne by done. intros Hx Hdx.
      destruct (Hdc j x Hx Hdx) as (y & Hy & Hdy). rewrite list_lookup_insert_ne in Hy by done.
      exact (Forall_lookup_1 _ _ _ _ Hid Hy Hdy).
Qed.

Definition counted (w w' : worker L) (o : outcome) : Prop :=
  g_decode_oks w' = g_decode_oks w + (match o with Shown _ _ _ => 1 | _ => 0 end) /\
  g_decode_fails w' = g_decode_fails w + (match o with Failed _ => 1 | _ => 0 end).

Lemma fb_show_ok w idx s dl ts du qu f e :
  smap_ok (smap w) -> 0 <= Dec.last_send_pts (dec w) -> frames w !! idx = Some s ->
  disp_ok (disp w) -> 0 <= Fb.width f -> 0 <= Fb.height f -> 4 * Fb.width f <= Fb.stride0 f ->
  Fb.stride0 f * Fb.height f <= zlen (Fb.plane0 f) -> clock_runs fuel (e_wait e) ->
  exists w' real wt r fs, fb_show fuel w idx dl ts du qu f e = Some (w', Shown real wt r) /\
    Slots.slot_release (frames w) idx = Some fs /\ frames w' = fs /\ dec w' = dec w /\ lib w' = lib w /\
    disp_ok (disp w') /\ smap_ok (smap w') /\ counted w w' (Shown real wt r).
Proof.
  intros Hm Hl Hs Hdp Hw Hh Hst Hp Hc. unfold fb_show.
  destruct (map_send_ts_ok (smap w) (Dec.last_send_pts (dec w)) (Dec.last_frame_pts (dec w)) ts Hm Hl)
    as (m' & real & -> & Hm'). cbn [mbind option_bind]. rewrite Hs. cbn [mbind option_bind]. cbv zeta.
  set (g := if decide (frame_period_us _ > 0 /\ _) then _ else Some None).
  assert (Hg : exists wt, g = Some wt).
  { unfold g. case_decide; [|by eexists]. destruct (fb_wait_ends fuel
      (if decide (e_shift e <> 0) then 0 else s_last_present_wall_us w) (frame_period_us (e_fps e)) dl
      (Slots.pts_us s) (e_wait e) Hc) as (r & ->). by eexists. }
  clearbody g. destruct Hg as [wt ->]. cbn [mbind option_bind].
  destruct (fb_present_ok (disp w) f Hdp Hw Hh Hst Hp) as (st & d' & -> & Hd'). cbn [mbind option_bind].
  assert (Hr : exists fs, Slots.slot_release (frames w) idx = Some fs)
    by (unfold Slots.slot_release; rewrite Hs; by eexists).
  destruct Hr as [fs Hr]. rewrite Hr. cbn [mbind option_bind].
  eexists _, _, _, _, _. split; [done|]. split_and!; try done. split; cbn; lia.
Qed.

Lemma fb_round_ok w e : worker_ok w -> env_ok e ->
  exists w' o, fb_round AU_PAD fuel w e = Some (w', o) /\ worker_ok w' /\ counted w w' o /\
    (o = Idle <-> Slots.decode_take (frames w) = None).
Proof.
  intros Hw [Hg Hc]. unfold fb_round. destruct (Slots.decode_take (frames w)) as [[i fs]|] eqn:Et.
  2: { exists w, Idle. split_and!; [done|done| |done]. split; lia. }
  apply Slots.decode_take_spec in Et as (f & Hf & _ & -> & _).
  destruct (release_idle (frames w) i (e_others e) (wk_slots w Hw) (wk_idle w Hw) Hg f Hf)
    as (fs2 & Hrel & [s1 Hs1] & Hok2 & Hid2).
  rewrite list_lookup_insert_eq by (by eapply lookup_lt_Some). cbn [mbind option_bind].
  pose proof (Forall_lookup_1 _ _ _ _ (wk_slots w Hw) Hf) as Hlen.
  change (Slots.buf (f <| Slots.state := Slots.SLOT_DECODING |>)) with (Slots.buf f).
  change (Slots.len (f <| Slots.state := Slots.SLOT_DECODING |>)) with (Slots.len f).
  set (au := take (Z.to_nat (Slots.len f)) (Slots.buf f)).
  assert (Hau : zlen au = Slots.len f) by (unfold au; rewrite zlen_take; unfold slot_ok in Hlen; lia).
  rewrite (Dec.decode_prefix AU_PAD) by exact Hlen. fold au. rewrite <- Hau.
  destruct (Dec.decode_ready AU_PAD pad_nonneg sws_fits cuda_fits (dec w) (lib w) au (wk_ready w Hw))
    as (st & fr & d' & l' & pk & Ed & Hr' & Hfr & _ & _ & _ & Hn). rewrite Ed. cbn [mbind option_bind].
  destruct (Dec.decode_output AU_PAD _ _ _ _ _ _ _ _ _ Ed) as ((Ho1 & Ho2 & Ho3) & Hpic).
  destruct w as [fs0 dc lb dp sm sta la oks fails pres fv av lv].
  cbn [frames dec lib disp smap] in *. pose proof Hw as [_ Hcpu Hdm Hpts _ _ Hdisp Hsm].
  cbn [frames dec lib disp smap] in *.
  assert (Hn' : 0 <= Dec.next_pts d') by (rewrite Hn; destruct (Dec.refused st); lia).
  assert (Hd' : 0 < Dec.out_w d' /\ 0 < Dec.out_h d') by (rewrite Ho1, Ho2; lia).
  cbv zeta. destruct (decide (st = VMC_OK)) as [->|Hne].
  - destruct (proj2 Hfr eq_refl) as [g ->]. destruct (Hpic g eq_refl) as [Hls Hrgb].
    rewrite (Hrgb Hcpu). destruct (rgb_frame_ok d' Hr' Hd') as (H1 & H2 & H3 & H4).
    set (w1 := _ <| lib := l' |>).
    destruct (fb_show_ok w1 i s1 (Slots.deadline_us f) (Slots.send_ts f) (u64 (e_t1 e - e_t0 e))
      (u64 (e_tq e - Slots.pub_us f)) (Dec.rgb_frame d') e)
      as (w' & real & wt & r & fs3 & Hshow & Hrel' & Hf' & Hde & _ & Hdi & Hsm' & Hcnt);
      [exact Hsm|cbn; lia|exact Hs1|exact Hdisp|exact H1|exact H2|exact H3|exact H4|exact Hc|].
    exists w', (Shown real wt r). split; [exact Hshow|].
    change (frames w1) with (e_others e (<[i:=f <| Slots.state := Slots.SLOT_DECODING |>]> fs0)) in Hrel'.
    rewrite Hrel in Hrel'. injection Hrel' as <-. split_and!; [|exact Hcnt|done].
    split; rewrite ?Hf', ?Hde; try done. change (dec w1) with d'. by rewrite Ho3.
  - change (frames (_ <| lib := l' |>)) with (e_others e (<[i:=f <| Slots.state := Slots.SLOT_DECODING |>]> fs0)).
    rewrite Hrel. cbn [mbind option_bind]. eexists _, _. split; [done|]. split_and!; [|split; cbn; lia|done].
    split; try done. by rewrite <- Ho3 in Hcpu.
Qed.

(** C38. The worker never gives out. Whatever codec library is in use, whatever fails
    on the way and whatever the other threads do to the other slots: no access
    of a run of rounds leaves an object, every round ends, every unit taken is
    either shown or counted as a failed decode, and its slot is free again - no
    slot is left in the hands of the decoder. *)
Theorem fb_worker_never_stuck w es :
  worker_ok w -> Forall env_ok es ->
  exists w' os, fb_run AU_PAD fuel w es = Some (w', os) /\ worker_ok w' /\ length os = length es /\
    g_decode_oks w' + g_decode_fails w'
    = g_decode_oks w + g_decode_fails w + zlen (filter (fun o => o <> Idle) os).
Proof.
  intros Hw Hes. revert w Hw. induction Hes as [|e es He _ IH]; intros w Hw; cbn [fb_run].
  { exists w, []. split_and!; try done. symmetry. apply Z.add_0_r. }
  destruct (fb_round_ok w e Hw He) as (w1 & o & -> & Hw1 & Hcnt & _). cbn [mbind option_bind].
  destruct (IH w1 Hw1) as (w2 & os & -> & Hw2 & Hl & Hn). cbn [mbind option_bind].
  exists w2, (o :: os). split_and!; [done|done|cbn; congruence|].
  rewrite filter_cons, Hn. destruct Hcnt as [-> ->].
  destruct o; case_decide; rewrite ?zlen_cons; try done; lia.
Qed.

End Worker.

(** ** The latency is measured against the right stamp *)

(** The calls of [map_send_ts] for the pictures so far: the packet just sent, the
    picture it produced, the packet's stamp. *)
Fixpoint map_run (m : send_map) (calls : list (Z * Z * Z)) : option send_map :=
  match calls with
  | [] => Some m
  | (k, op, ts) :: calls => '(m, _) ← map_send_ts m k op ts; map_run m calls
  end.

(** The packets recorded: number and stamp. *)
Definition sent (calls : list (Z * Z * Z)) : list (Z * Z) := (fun c : Z * Z * Z => (c.1.1, c.2)) <$> calls.

(** An entry of the tables holds the latest packet recorded with its remainder,
    or the zeros it was born with. *)
Definition entry_ok (l : list (Z * Z)) (m : send_map) (r : Z) : Prop :=
  exists j tj, zget (pts_seen m) r = Some j /\ zget (send_by_pts m) r = Some tj /\
    (forall x, x ∈ l -> x.1 mod 128 = r -> x.1 <= j) /\
    ((j, tj) ∈ l /\ j mod 128 = r \/ (forall x, x ∈ l -> x.1 mod 128 <> r) /\ j = 0 /\ tj = 0).

Definition map_ok (l : list (Z * Z)) (m : send_map) : Prop :=
  smap_ok m /\ forall r, 0 <= r < 128 -> entry_ok l m r.

Lemma map_ok_init : map_ok [] send_map_init.
Proof.
  split; [done|]. intros r Hr. exists 0, 0.
  assert (Hz : zget (replicate 128 (0 : Z)) r = Some 0)
    by (rewrite zget_to_nat by lia; apply lookup_replicate_2; lia).
  split_and!; [exact Hz|exact Hz| |right; split; [|done]]; intros x Hx; by apply elem_of_nil in Hx.
Qed.

Lemma stamp_unique (l : list (Z * Z)) k a b : NoDup l.*1 -> (k, a) ∈ l -> (k, b) ∈ l -> a = b.
Proof.
  intros Hnd [i Hi]%list_elem_of_lookup_1 [j Hj]%list_elem_of_lookup_1.
  assert (i = j) as ->.
  { apply (NoDup_lookup _ _ _ k Hnd); rewrite list_lookup_fmap; [by rewrite Hi|by rewrite Hj]. }
  congruence.
Qed.

Lemma elem_snoc {A} (l : list A) x y : x ∈ l ++ [y] -> x ∈ l \/ x = y.
Proof. by rewrite elem_of_app, list_elem_of_singleton. Qed.

(** Storing a packet newer than all recorded. *)
Lemma map_ok_store l m k ts seen by_pts :
  map_ok l m -> 0 <= k -> (forall x, x ∈ l -> 0 <= x.1 < k) ->
  zset (pts_seen m) (k mod 128) k = Some seen -> zset (send_by_pts m) (k mod 128) ts = Some by_pts ->
  map_ok (l ++ [(k, ts)]) (mk_send_map seen by_pts).
Proof.
  intros [[H1 H2] He] Hk Hl (_ & Hs1 & Hs2)%zset_inv (_ & Hb1 & Hb2)%zset_inv.
  split; [split; cbn; lia|]. intros r Hrr. unfold entry_ok. cbn [pts_seen send_by_pts]. rewrite Hs2, Hb2.
  assert (Hin : forall x, x ∈ l -> x ∈ l ++ [(k, ts)]) by (intros; apply elem_of_app; by left).
  case_decide as Hd.
  - exists k, ts. split_and!; [done|done| |left].
    + intros x [Hx| ->]%elem_snoc _; [specialize (Hl x Hx); lia|cbn; lia].
    + split; [|done]. apply elem_of_app. right. by apply list_elem_of_singleton.
  - destruct (He r Hrr) as (j & tj & Hj & Htj & Hmax & Hc). exists j, tj. split_and!; [done|done| |].
    + intros x [Hx| ->]%elem_snoc; [by apply Hmax|]. cbn. lia.
    + destruct Hc as [[Hc1 Hc2]|(Hc1 & Hc2)]; [left; split; [by apply Hin|done]|right].
      split; [|done]. intros x [Hx| ->]%elem_snoc; [by apply Hc1|]. cbn. lia.
Qed.

(** What the tables say of a packet at most 127 older than the newest. *)
Lemma map_ok_find l m k op : map_ok l m -> (forall x, x ∈ l -> 0 <= x.1 <= k) -> NoDup l.*1 ->
  0 <= op <= k -> k < op + 128 ->
  exists j tj, zget (pts_seen m) (op mod 128) = Some j /\ zget (send_by_pts m) (op mod 128) = Some tj /\
    (forall t, (op, t) ∈ l -> j = op /\ tj = t) /\ (op ∉ l.*1 -> j = op -> op = 0 /\ tj = 0) /\
    (op ∉ l.*1 -> op = 0 -> j = op).
Proof.
  intros [_ Hen] Hl Hnd Hopk Hwin.
  destruct (Hen (op mod 128)) as (j & tj & Hj & Htj & Hmax & Hc); [apply Z.mod_pos_bound; lia|].
  exists j, tj. split; [done|]. split; [done|].
  assert (Hj2 : (j, tj) ∈ l -> 0 <= j <= k /\ j ∈ l.*1).
  { intros Hin. split; [exact (Hl _ Hin)|]. apply list_elem_of_fmap. by exists (j, tj). }
  split; [|split].
  - intros t Ht. assert (Hle : op <= j) by (apply (Hmax _ Ht); done).
    destruct Hc as [[Hin Hjr]|[Hno _]]; [|by destruct (Hno _ Ht)]. destruct (Hj2 Hin) as [Hjk _].
    assert (j = op) as -> by (Z.div_mod_to_equations; lia). split; [done|].
    exact (stamp_unique _ _ _ _ Hnd Hin Ht).
  - intros Hnin Heq. destruct Hc as [[Hin _]|(_ & -> & ->)]; [|done]. destruct (Hj2 Hin). by subst j.
  - intros Hnin ->. destruct Hc as [[Hin Hjr]|(_ & -> & _)]; [|done]. destruct (Hj2 Hin) as [Hjk Hjl].
    Z.div_mod_to_equations. lia.
Qed.

Lemma map_send_ts_spec l m k op ts :
  map_ok l m -> 0 <= k -> (forall x, x ∈ l -> 0 <= x.1 < k) ->
  exists m' real, map_send_ts m k op ts = Some (m', real) /\ map_ok (l ++ [(k, ts)]) m' /\
    (0 <= op <= k -> k < op + 128 -> NoDup (l ++ [(k, ts)]).*1 ->
     (forall t, (op, t) ∈ l ++ [(k, ts)] -> real = t) /\
     (op ∉ (l ++ [(k, ts)]).*1 -> real = if decide (op = 0) then 0 else ts)).
Proof.
  intros Hm Hk Hl. pose proof Hm as [[H1 H2] _]. unfold map_send_ts. rewrite (Z.rem_mod_nonneg k) by lia.
  pose proof (Z.mod_pos_bound k 128 ltac:(lia)) as Hr.
  destruct (zset (pts_seen m) (k mod 128) k) as [seen|] eqn:Es; [|rewrite zset_ok in Es by lia; done].
  destruct (zset (send_by_pts m) (k mod 128) ts) as [by_pts|] eqn:Eb; [|rewrite zset_ok in Eb by lia; done].
  cbn [mbind option_bind]. pose proof (map_ok_store l m k ts seen by_pts Hm Hk Hl Es Eb) as Hok.
  case_decide as Hop.
  2: { eexists _, ts. split; [done|]. split; [exact Hok|]. lia. }
  rewrite Z.rem_mod_nonneg by lia. pose proof Hok as [[Z1 Z2] _]. cbn [pts_seen send_by_pts] in Z1, Z2.
  pose proof (Z.mod_pos_bound op 128 ltac:(lia)) as Hro.
  destruct (zget_is_Some seen (op mod 128)) as [j Hj]; [lia|].
  destruct (zget_is_Some by_pts (op mod 128)) as [tj Htj]; [lia|].
  rewrite Hj, Htj. cbn [mbind option_bind].
  eexists _, (if decide (j = op) then tj else ts). split; [by case_decide|]. split; [done|].
  intros Hopk Hwin Hnd. destruct (map_ok_find _ _ k op Hok) as (j' & tj' & Ej & Et & F1 & F2 & F3); try done.
  { intros x [Hx| ->]%elem_snoc; [specialize (Hl x Hx); lia|cbn; lia]. }
  cbn [pts_seen send_by_pts] in Ej, Et. rewrite Ej in Hj. rewrite Et in Htj. injection Hj as ->. injection Htj as ->.
  split.
  - intros t Ht. destruct (F1 t Ht) as [-> ->]. by rewrite decide_True.
  - intros Hnin. specialize (F2 Hnin). specialize (F3 Hnin).
    destruct (decide (j = op)) as [->|Hne]; [destruct (F2 eq_refl); by rewrite decide_True|].
    rewrite decide_False; [done|]. intros H0. by apply Hne, F3.
Qed.

Lemma map_run_ok calls : forall l m, map_ok l m ->
  StronglySorted Z.lt (l.*1 ++ (sent calls).*1) -> Forall (Z.le 0) (l.*1 ++ (sent calls).*1) ->
  exists m', map_run m calls = Some m' /\ map_ok (l ++ sent calls) m'.
Proof.
  induction calls as [|[[k op] ts] calls IH]; intros l m Hm Hs Hz; cbn [map_run].
  { exists m. by rewrite app_nil_r. }
  change ((sent ((k, op, ts) :: calls)).*1) with (k :: (sent calls).*1) in Hs, Hz.
  assert (Hl : forall x, x ∈ l -> 0 <= x.1 < k).
  { intros x Hx. assert (Hx1 : x.1 ∈ l.*1) by (apply list_elem_of_fmap; by exists x).
    apply Forall_app in Hz as [Hz _]. rewrite Forall_forall in Hz. split; [by apply Hz|].
    apply (StronglySorted_app_1_elem_of Z.lt _ _ _ _ Hs); [done|]. apply elem_of_cons. by left. }
  assert (Hk : 0 <= k) by (apply Forall_app in Hz as [_ Hz]; by apply Forall_cons in Hz as [Hz _]).
  destruct (map_send_ts_spec l m k op ts Hm Hk Hl) as (m1 & real & -> & Hm1 & _). cbn [mbind option_bind].
  destruct (IH (l ++ [(k, ts)]) m1 Hm1) as (m' & E & Hm').
  1-2: rewrite fmap_app; cbn; by rewrite <- app_assoc.
  exists m'. split; [exact E|]. by rewrite <- app_assoc in Hm'.
Qed.

(** The latency of a picture is taken against its own stamp. The decoder may
    return a picture later than its packet was sent: when packets are numbered
    upwards and a picture is less than 128 packets old, the stamp used is the one
    sent with the packet of that picture - provided the call that sent the packet
    returned a picture too. Otherwise, that is for the pictures of the start-up,
    it is the stamp of the packet at hand, and 0 for packet 0. *)
Theorem send_stamp_matched calls k op ts :
  StronglySorted Z.lt ((sent calls).*1 ++ [k]) -> Forall (Z.le 0) ((sent calls).*1 ++ [k]) ->
  0 <= op <= k -> k < op + 128 ->
  exists m m' real, map_run send_map_init calls = Some m /\ map_send_ts m k op ts = Some (m', real) /\
    (forall t, (op, t) ∈ sent calls ++ [(k, ts)] -> real = t) /\
    (op ∉ (sent calls).*1 ++ [k] -> real = if decide (op = 0) then 0 else ts).
Proof.
  intros Hs Hz Hop Hwin.
  assert (Hs1 : StronglySorted Z.lt (sent calls).*1) by (by eapply StronglySorted_app_1_l).
  pose proof Hz as [Hz1 Hzk]%Forall_app.
  destruct (map_run_ok calls [] send_map_init map_ok_init Hs1 Hz1) as (m & E & Hm).
  assert (Hl : forall x, x ∈ sent calls -> 0 <= x.1 < k).
  { intros x Hx. assert (Hx1 : x.1 ∈ (sent calls).*1) by (apply list_elem_of_fmap; by exists x).
    rewrite Forall_forall in Hz1. split; [by apply Hz1|].
    apply (StronglySorted_app_1_elem_of Z.lt _ _ _ _ Hs); [done|]. by apply list_elem_of_singleton. }
  destruct (map_send_ts_spec (sent calls) m k op ts Hm ltac:(lia) Hl) as (m' & real & E' & _ & Hr).
  exists m, m', real. split; [exact E|]. split; [exact E'|].
  destruct Hr as [R1 R2]; [done|done| |split; [done|]].
  - rewrite fmap_app. cbn. apply (sorted_nodup Z.lt); [lia|done].
  - intros Hn. apply R2. by rewrite fmap_app.
Qed.

Lemma send_stamp_matched_witness :
  exists m m' real, map_run send_map_init [(1, 0, 500); (2, 1, 516)] = Some m /\
    map_send_ts m 3 2 533 = Some (m', real) /\ real = 516.
Proof.
  destruct (send_stamp_matched [(1, 0, 500); (2, 1, 516)] 3 2 533) as (m & m' & real & E & E' & H & _).
  - cbn. repeat (constructor; [|repeat constructor; lia]). constructor.
  - cbn. repeat constructor; lia.
  - lia.
  - lia.
  - exists m, m', real. split; [exact E|]. split; [exact E'|]. apply H. cbn. set_solver.
Defined.

(** A decoder one picture behind, as the hardware decoder is: the first picture is
    measured as if it had been sent at time 0. *)
Example first_picture_stamp_zero :
  exists m, map_send_ts send_map_init 1 0 500 = Some (m, 0).
Proof. eexists. vm_compute. reflexivity. Qed.

(** One unit waits; the second round finds none. *)
Definition demo_worker : worker Z :=
  mk_worker [Slots.mk_slot [1; 2; 3] 3 500 900 5000 0 16666 1 Slots.SLOT_READY] Dec.demo_dec 0 Fb.demo_fb
    send_map_init Latency.stats_init 0 0 0 0 false false 0.

Definition demo_round : round_env :=
  mk_round 60 1000 1010 1500 1600 (Latency.mk_offset true 0 0 0) 0
    (mk_wait 1000 sample_timeline (fun _ => 1000) (fun _ i => demo_poll sample_timeline (1000 + 500 * Z.of_nat i))
       (fun _ _ => 5000) (fun _ _ i => demo_poll sample_timeline (5000 + 200 * Z.of_nat i)))
    5100 true sample_timeline 5100 85000 (fun fs => fs).

Lemma fb_worker_never_stuck_witness :
  exists w' os, fb_run 64 8 demo_worker [demo_round; demo_round] = Some (w', os) /\ length os = 2%nat /\
    g_decode_oks w' + g_decode_fails w' = 0 + zlen (filter (fun o => o <> Idle) os).
Proof.
  destruct (fb_worker_never_stuck 64 8 ltac:(lia) Dec.demo_codec_fits
    ltac:(intros f w h px Hwh Hpx; discriminate Hpx) demo_worker [demo_round; demo_round])
    as (w' & os & E & _ & Hl & Hc).
  - split; cbn -[Dec.demo_dec Dec.ready]; [|reflexivity|by split|done| | | |by split].
    + split; [|vm_compute; split; [discriminate|reflexivity]].
      split; [reflexivity|]. split; [eexists; reflexivity|]. split; [|eexists; split; reflexivity].
      eexists. split; [reflexivity|]. rewrite zlen_replicate. apply Z2Nat.id. vm_compute. discriminate.
    + constructor; [by vm_compute|constructor].
    + constructor; [by vm_compute|constructor].
    + eexists. split; [reflexivity|]. vm_compute. repeat split; discriminate.
  - assert (He : env_ok 8 demo_round); [|constructor; [exact He|constructor; [exact He|constructor]]].
    split; [intros fs Hfs; split_and!; [done|done|intros i f; eauto]|].
    intros sl. exists 7%nat. split; [lia|]. vm_compute. discriminate.
  - exists w', os. split; [exact E|]. split; [exact Hl|]. exact Hc.
Defined.

End Dw.
