(* ===== verification/SimSender.v ===== *)
(** * The stream simulator ([tools/vmc_sim/main.c]) and the client against it

    The splitting of an Annex-B byte stream into access units, their
    fragmentation into datagrams, audio datagrams, and the answers to control
    packets and to the session mapper. What leaves the host is an argument. *)

From S2P Require Import Prelude Text Wire Protocol Fragment Mapper.
From stdpp Require Import strings.
Import LE Proto Frag Text.

#[local] Open Scope Z_scope.

Module Sim.

Definition SIM_CHUNK : Z := VMC_VIDEO_FRAG_CHUNK.
Definition SIM_AUDIO_FRAME_BYTES : Z := 48000 / 1000 * 5 * 2 * 2.
Definition SIM_PKT : Z := VMC_PROTO_HEADER_SIZE + 4 + SIM_CHUNK.

(** The address of the client is not represented. *)
Record sim_ctx := mk_ctx {
  have_client : bool; video_seq : Z; audio_seq : Z; sent : Z; control_rx : Z; input_rx : Z;
  audio_frames : Z;
}.

#[export] Instance eta_ctx : Eta sim_ctx := fun c =>
  mk_ctx (have_client c) (video_seq c) (audio_seq c) (sent c) (control_rx c) (input_rx c)
    (audio_frames c).

(** ** Access units of a byte stream *)

(** The two buffers hold [au_len] and [pend_len] bytes. *)
Record au_asm := mk_au {
  au : list Z; au_cap : Z; pend : list Z; pend_cap : Z; key : bool; have : bool;
}.

Definition au_asm_reset (st : au_asm) : au_asm :=
  mk_au [] (au_cap st) [] (pend_cap st) false false.

(** What does not fit is left out whole. *)
Definition au_append (dst : list Z) (cap : Z) (data : list Z) : list Z :=
  if decide (zlen dst + zlen data > cap) then dst else dst ++ data.

Definition start_code (slen : Z) : list Z := if decide (slen = 3) then [0; 0; 1] else [0; 0; 0; 1].

(** The access unit completed, with its key flag, and the assembler. *)
Definition au_feed (st : au_asm) (slen : Z) (body : list Z) : option (list Z * bool) * au_asm :=
  match body with
  | [] => (None, st)
  | b :: _ =>
    let t := Z.land b 0x1F in
    let vcl := bool_decide (1 <= t <= 5) in
    if vcl && have st then (Some (au st, key st), au_asm_reset st) else
    let add dst cap := au_append (au_append dst cap (start_code slen)) cap body in
    if vcl then
      let a := if decide (zlen (pend st) > 0) then au_append (au st) (au_cap st) (pend st) else au st in
      (None, mk_au (add a (au_cap st)) (au_cap st) [] (pend_cap st) (bool_decide (t = 5)) true)
    else if have st then
      (None, mk_au (add (au st) (au_cap st)) (au_cap st) (pend st) (pend_cap st) (key st) (have st))
    else
      (None, mk_au (au st) (au_cap st) (add (pend st) (pend_cap st)) (pend_cap st) (key st) (have st))
  end.

Definition starts_with (p l : list Z) : bool :=
  match strip p l with Some _ => true | None => false end.

(** The length of the start code at the head of a text. *)
Definition code_at (l : list Z) : option Z :=
  if starts_with [0; 0; 1] l then Some 3 else if starts_with [0; 0; 0; 1] l then Some 4 else None.

(** [find_start] from the head of [l]: how far the code is, and its length. *)
Fixpoint find_start (l : list Z) : option (nat * Z) :=
  match code_at l with
  | Some s => Some (O, s)
  | None =>
    match l with
    | [] => None
    | _ :: k => match find_start k with Some (n, s) => Some (S n, s) | None => None end
    end
  end.

(** [rest] is the buffer from [pos] on; the result is the number of bytes
    consumed, the access unit completed, and the assembler; [None]: out of
    fuel. *)
Fixpoint process_loop (fuel : nat) (st : au_asm) (pos : nat) (rest : list Z)
    : option (nat * option (list Z * bool) * au_asm) :=
  match fuel with
  | O => None
  | S fuel =>
    if decide (length rest < 4)%nat then Some (pos, None, st) else
    match find_start rest with
    | None => Some (pos, None, st)
    | Some (n, slen) =>
      let at_body := drop (Z.to_nat slen) (drop n rest) in
      match find_start at_body with
      | None => Some (pos, None, st)
      | Some (m, _) =>
        match au_feed st slen (take m at_body) with
        | (Some out, st) => Some ((pos + n)%nat, Some out, st)
        | (None, st) =>
          process_loop fuel st (pos + n + Z.to_nat slen + m) (drop m at_body)
        end
      end
    end
  end.

(** Each unit takes a start code at least ([process_total]). *)
Definition process_nalus (st : au_asm) (buf : list Z)
    : option (nat * option (list Z * bool) * au_asm) :=
  process_loop (S (length buf)) st 0 buf.

(** The loop of [run_pipe_source] around [process_nalus]: the access units it
    sends, the assembler, what stays in the buffer. *)
Fixpoint pipe_units (fuel : nat) (st : au_asm) (buf : list Z)
    : option (list (list Z * bool) * au_asm * list Z) :=
  match fuel with
  | O => None
  | S fuel =>
    match process_nalus st buf with
    | None => None
    | Some (used, None, st) => Some ([], st, drop used buf)
    | Some (used, Some out, st) =>
      match pipe_units fuel st (drop used buf) with
      | None => None
      | Some (outs, st, buf) => Some (out :: outs, st, buf)
      end
    end
  end.

(** The size of the input buffers of the two sources. *)
Definition SIM_IBUF_CAP : Z := 4 * 1024 * 1024.

(** What a pass of [run_pipe_source] finds in the pipe: bytes (at least one), the
    end of the encoder's output, nothing. *)
Inductive pipe_event := PData (d : list Z) | PEof | PAgain.

(** What [read] takes of the bytes [d]: no more than the buffer has room for. *)
Definition pipe_take (buf d : list Z) : nat := Z.to_nat (Z.min (zlen d) (SIM_IBUF_CAP - zlen buf)).

(** The access units sent, the assembler, the buffer, and whether the encoder was
    started again. A [read] that returns 0 is taken for the end of the output: the
    open access unit is sent and the buffer emptied. It does at the end, and when
    the buffer is full. *)
Definition pipe_event_step (st : au_asm) (buf : list Z) (e : pipe_event)
    : option (list (list Z * bool) * au_asm * list Z * bool) :=
  let units st buf := pipe_units (2 * length buf + 2) st buf in
  let eof :=
    let sent := if have st then [(au st, key st)] else [] in
    '(outs, st, buf) ← units (mk_au (au st) (au_cap st) (pend st) (pend_cap st) (key st) false) [];
    Some (sent ++ outs, st, buf, true) in
  match e with
  | PAgain => '(outs, st, buf) ← units st buf; Some (outs, st, buf, false)
  | PEof => eof
  | PData d =>
    match pipe_take buf d with
    | O => eof
    | n => '(outs, st, buf) ← units st (buf ++ take n d); Some (outs, st, buf, false)
    end
  end.

(** Passes over the output [src] of one encoder, of which the pipe holds the next
    [k] bytes at each pass: the access units, the assembler, the buffer, what is
    left in the pipe, and whether the encoder was started again, which ends it. *)
Fixpoint pipe_run (st : au_asm) (buf src : list Z) (ks : list nat)
    : option (list (list Z * bool) * au_asm * list Z * list Z * bool) :=
  match ks with
  | [] => Some ([], st, buf, src, false)
  | k :: ks =>
    let d := take k src in
    '(outs, st, buf', again) ← pipe_event_step st buf (match d with [] => PAgain | _ => PData d end);
    if again : bool then Some (outs, st, buf', [], true) else
    '(outs', st, buf', src, again) ← pipe_run st buf' (drop (pipe_take buf d) src) ks;
    Some (outs ++ outs', st, buf', src, again)
  end.

(** [src_next_au], over the results of its reads of the file: the data, the
    end of the file (from which it starts again), or an error. The result is
    the access unit ([None]: the read failed), the state and the reads left;
    [None] outside: the reads at hand do not complete an access unit, or one is
    longer than what was asked for. *)
Inductive file_read := FData (d : list Z) | FEof | FError.

Fixpoint src_next_au (st : au_asm) (inbuf : list Z) (reads : list file_read)
    : option (option (list Z * bool) * au_asm * list Z * list file_read) :=
  match process_nalus st inbuf with
  | None => None
  | Some (used, Some out, st) => Some (Some out, st, drop used inbuf, reads)
  | Some (used, None, st) =>
    let inbuf := drop used inbuf in
    let '(inbuf, st) := if decide (zlen inbuf >= SIM_IBUF_CAP) then ([], au_asm_reset st)
                        else (inbuf, st) in
    match reads with
    | [] => None
    | FData d :: reads =>
      if decide (zlen d > SIM_IBUF_CAP - zlen inbuf) then None else src_next_au st (inbuf ++ d) reads
    | FError :: reads => Some (None, st, inbuf, reads)
    | FEof :: reads => src_next_au (au_asm_reset st) [] reads
    end
  end.

(** ** Datagrams *)

Section Sending.
(** Whether the datagram with this sequence number leaves: it is not dropped on
    purpose and the socket takes it within the 200 tries of [udp_send]. *)
Context (leaves : Z -> bool).

Definition video_header (flags len : Z) (c : sim_ctx) (ts : Z) : vmc_proto_header :=
  mk_header VMC_PROTO_MAGIC VMC_PROTO_VERSION flags VMC_PROTO_STREAM_VIDEO 0 (u16 len)
    (video_seq c) ts 0.

(** [vmc_proto_encode] and [udp_send]; [pkt] is the buffer on the stack. *)
Definition emit (pkt : list Z) (h : vmc_proto_header) (payload : list Z)
    : option (list (list Z) * list Z) :=
  match vmc_proto_encode (Some pkt) SIM_PKT (Some h) (Some payload) with
  | Some (n, Some pkt) =>
    if decide (n > 0 /\ leaves (seq h) = true) then
      d ← slice pkt 0 n; Some ([d], pkt)
    else Some ([], pkt)
  | _ => None
  end.

(** The chunk loop; the fuel is more than the bytes left. *)
Fixpoint send_chunks (fuel : nat) (c : sim_ctx) (pkt data : list Z) (off idx fid : Z) (is_key : bool)
    (ts : Z) : option (list (list Z) * sim_ctx) :=
  match fuel with
  | O => None
  | S fuel =>
    if decide (off < zlen data) then
      let cl := if decide (zlen data - off > SIM_CHUNK) then SIM_CHUNK else zlen data - off in
      let last := bool_decide (off + cl >= zlen data) in
      let fh_idx := u16 (Z.lor idx (if last then VMC_VIDEO_FRAG_LAST else 0)) in
      fh ← vmc_video_frag_hdr_pack (replicate 4 0) fid fh_idx;
      let h := video_header (Z.lor VMC_PROTO_FLAG_FRAGMENTED
                 (if is_key then VMC_PROTO_FLAG_KEYFRAME else 0)) (4 + cl) c ts in
      body ← slice data off cl;
      pkt ← blit pkt VMC_PROTO_HEADER_SIZE (fh ++ body);
      '(ds, pkt) ← emit pkt h (fh ++ body);
      '(rest, c) ← send_chunks fuel (c <| video_seq := u32 (video_seq c + 1) |>) pkt data
                     (off + cl) (u16 (idx + 1)) fid is_key ts;
      Some (ds ++ rest, c)
    else Some ([], c)
  end.

(** The datagrams that leave, in order. *)
Definition send_au (c : sim_ctx) (pkt data : list Z) (is_key : bool) (ts : Z)
    : option (list (list Z) * sim_ctx) :=
  if negb (have_client c) then Some ([], c) else
  if decide (zlen data <= SIM_CHUNK) then
    let h := video_header (if is_key then VMC_PROTO_FLAG_KEYFRAME else 0) (zlen data) c ts in
    '(ds, _) ← emit pkt h data;
    Some (ds, c <| video_seq := u32 (video_seq c + 1) |>)
  else
    send_chunks (S (length data)) c pkt data 0 0 (u16 (Z.land (video_seq c) 0xFFFF)) is_key ts.

Definition send_audio (c : sim_ctx) (pkt pcm : list Z) (ts : Z)
    : option (list (list Z) * sim_ctx) :=
  if negb (have_client c) then Some ([], c) else
  let h := mk_header VMC_PROTO_MAGIC VMC_PROTO_VERSION 0 VMC_PROTO_STREAM_AUDIO 0
             SIM_AUDIO_FRAME_BYTES (audio_seq c) ts 0 in
  let c := c <| audio_seq := u32 (audio_seq c + 1) |> in
  match vmc_proto_encode (Some pkt) (VMC_PROTO_HEADER_SIZE + SIM_AUDIO_FRAME_BYTES) (Some h) (Some pcm) with
  | Some (n, Some pkt) =>
    if decide (n > 0) then
      d ← slice pkt 0 n;
      Some (if leaves (seq h) then [d] else [], c <| audio_frames := u64 (audio_frames c + 1) |>)
    else Some ([], c)
  | _ => None
  end.

(** One datagram received on the media port: [epkt] and [now] are the buffer
    and the clock of an echo. *)
Definition drain_media (c : sim_ctx) (rbuf : list Z) (n : Z) (epkt : list Z) (now : Z)
    : option (list (list Z) * sim_ctx) :=
  let c := c <| have_client := true |> in
  '(st, r) ← vmc_proto_decode (Some rbuf) n;
  match r with
  | Some (h, _) =>
    if decide (st <> VMC_OK) then Some ([], c) else
    if decide (stream h = VMC_PROTO_STREAM_CONTROL) then
      let c := c <| control_rx := u64 (control_rx c + 1) |> in
      let eh := mk_header VMC_PROTO_MAGIC VMC_PROTO_VERSION 0 VMC_PROTO_STREAM_CONTROL 0 0
                  (u32 (seq h + 1)) now 0 in
      match vmc_proto_encode (Some epkt) VMC_PROTO_HEADER_SIZE (Some eh) None with
      | Some (n, Some epkt) =>
        if decide (n > 0) then d ← slice epkt 0 n; Some (if leaves (seq eh) then [d] else [], c)
        else Some ([], c)
      | _ => None
      end
    else if decide (stream h = VMC_PROTO_STREAM_INPUT) then
      Some ([], c <| input_rx := u64 (input_rx c + 1) |>)
    else Some ([], c)
  | None => Some ([], c)
  end.

End Sending.

(** The answer to a mapper request. *)
Definition mapper_response (bind_host : list Z) (media_port : Z) : list Z :=
  stored 128 (chars "VMC1 ROUTE " ++ bind_host ++ chars ":" ++ num_print 10 media_port).

(** ** Datagrams sent and received *)

Lemma emit_ok leaves pkt h p :
  header_wf h -> vmc_proto_header_valid (Some h) = true -> zlen p = payload_len h ->
  17 + payload_len h <= SIM_PKT <= zlen pkt ->
  exists pkt', emit leaves pkt h p = Some (if leaves (seq h) then [packet h p] else [], pkt') /\
    zlen pkt' = zlen pkt.
Proof.
  intros Hh Hv Hl Hc. pose proof (zlen_nonneg p). unfold emit.
  rewrite encode_spec; [|done|lia|cbn; lia|lia].
  assert (payload_sent h (Some p) = p) as ->.
  { unfold payload_sent. cbn. apply take_ge. unfold zlen in *. lia. }
  assert (Hz : zlen (packet h p) = 17 + payload_len h) by (rewrite packet_zlen; lia).
  destruct (leaves (seq h)) eqn:El.
  - rewrite decide_True by (split; [lia|done]).
    rewrite <- Hz, slice_prefix. cbn [mbind option_bind]. eexists. split; [done|].
    rewrite zlen_app, zlen_drop by lia. lia.
  - rewrite decide_False by (intros [_ ?]; done). eexists. split; [done|].
    rewrite zlen_app, zlen_drop by lia. lia.
Qed.


(** The datagrams of the chunks [cs] from index [j] on. *)
Definition frag_flags (is_key : bool) : Z :=
  Z.lor VMC_PROTO_FLAG_FRAGMENTED (if is_key then VMC_PROTO_FLAG_KEYFRAME else 0).

Definition frag_word (j : Z) (last : bool) : Z :=
  u16 (Z.lor (u16 j) (if last then VMC_VIDEO_FRAG_LAST else 0)).

Definition frag_payload (fid j : Z) (last : bool) (chunk : list Z) : list Z :=
  (bytes16 fid ++ bytes16 (frag_word j last)) ++ chunk.

Definition frag_dgram (is_key : bool) (ts fid sq j : Z) (last : bool) (chunk : list Z) : list Z :=
  packet (mk_header VMC_PROTO_MAGIC VMC_PROTO_VERSION (frag_flags is_key) VMC_PROTO_STREAM_VIDEO 0
            (4 + zlen chunk) sq ts 0) (frag_payload fid j last chunk).

Fixpoint au_dgrams (is_key : bool) (ts fid sq j : Z) (cs : list (list Z)) : list (list Z) :=
  match cs with
  | [] => []
  | c :: cs =>
    frag_dgram is_key ts fid sq j (bool_decide (cs = [])) c
    :: au_dgrams is_key ts fid (u32 (sq + 1)) (j + 1) cs
  end.

Lemma frag_pack fid w :
  vmc_video_frag_hdr_pack (replicate 4 0) fid w = Some (bytes16 fid ++ bytes16 w).
Proof. reflexivity. Qed.

Lemma frag_payload_zlen fid j last chunk : zlen (frag_payload fid j last chunk) = 4 + zlen chunk.
Proof. unfold frag_payload. rewrite !zlen_app, !bytes16_zlen. lia. Qed.

Lemma frag_header_wf is_key len sq ts :
  0 <= len < 65536 -> 0 <= sq < 4294967296 -> 0 <= ts < 4294967296 ->
  header_wf (mk_header VMC_PROTO_MAGIC VMC_PROTO_VERSION (frag_flags is_key) VMC_PROTO_STREAM_VIDEO 0
               len sq ts 0).
Proof. intros. unfold header_wf. cbn. split_and!; unfold is_byte; try lia; by destruct is_key. Qed.

(** The chunks of the rest of an access unit: 1400 bytes each but the last. *)
Lemma send_chunks_spec leaves is_key ts fid data fuel : forall c pkt off idx,
  (forall sq, leaves sq = true) -> 0 <= ts < 4294967296 -> 0 <= video_seq c < 4294967296 ->
  0 <= off < zlen data -> (Z.to_nat (zlen data - off) < fuel)%nat -> zlen pkt = SIM_PKT ->
  exists cs, cs <> [] /\ concat cs = drop (Z.to_nat off) data /\
    Forall (fun c => 0 < zlen c <= 1400) cs /\ 1400 * (zlen cs - 1) < zlen data - off /\
    send_chunks leaves fuel c pkt data off (u16 idx) fid is_key ts
    = Some (au_dgrams is_key ts fid (video_seq c) idx cs,
            c <| video_seq := u32 (video_seq c + zlen cs) |>).
Proof.
  induction fuel as [|fuel IH]; intros c pkt off idx Hl Hts Hsq Hoff Hf Hpkt; [lia|].
  cbn [send_chunks]. rewrite decide_True by lia. cbv zeta.
  set (cl := if decide (zlen data - off > SIM_CHUNK) then SIM_CHUNK else zlen data - off).
  assert (Hcl : 0 < cl <= 1400 /\ cl <= zlen data - off /\ (cl < zlen data - off -> cl = 1400)).
  { unfold cl, SIM_CHUNK, VMC_VIDEO_FRAG_CHUNK. case_decide; lia. }
  clearbody cl. destruct Hcl as (Hc1 & Hc2 & Hc3).
  rewrite frag_pack. cbn [mbind option_bind].
  rewrite slice_ok by lia. cbn [mbind option_bind].
  set (body := take (Z.to_nat cl) (drop (Z.to_nat off) data)).
  assert (Hbody : zlen body = cl) by (unfold body; rewrite zlen_take, zlen_drop; lia).
  set (last := bool_decide (off + cl >= zlen data)).
  change (u16 (Z.lor (u16 idx) _)) with (frag_word idx last).
  set (fh := bytes16 fid ++ bytes16 (frag_word idx last)).
  assert (Hfh : zlen (fh ++ body) = 4 + cl).
  { unfold fh. rewrite !zlen_app, !bytes16_zlen. lia. }
  destruct (blit_ok pkt (fh ++ body) VMC_PROTO_HEADER_SIZE) as [pkt1 Hb].
  { done. }
  { rewrite Hfh, Hpkt. unfold VMC_PROTO_HEADER_SIZE, SIM_PKT, SIM_CHUNK, VMC_VIDEO_FRAG_CHUNK, VMC_PROTO_HEADER_SIZE. lia. }
  rewrite Hb. cbn [mbind option_bind]. apply blit_inv in Hb as (_ & _ & Hz1 & _).
  unfold video_header. rewrite (u16_small (4 + cl)) by lia. fold (frag_flags is_key).
  edestruct (emit_ok leaves pkt1) as (pkt2 & Hem & Hz2);
    [apply (frag_header_wf is_key (4 + cl) (video_seq c) ts); lia|done|exact Hfh| |].
  { cbn [payload_len]. rewrite Hz1, Hpkt.
    unfold SIM_PKT, SIM_CHUNK, VMC_VIDEO_FRAG_CHUNK, VMC_PROTO_HEADER_SIZE. lia. }
  rewrite Hem. cbn [mbind option_bind]. rewrite Hl.
  assert (Hd : body ++ drop (Z.to_nat (off + cl)) data = drop (Z.to_nat off) data).
  { unfold body. rewrite Z2Nat.inj_add, <- drop_drop by lia. apply take_drop. }
  replace (u16 (u16 idx + 1)) with (u16 (idx + 1)) by wrap_lia.
  set (c1 := c <| video_seq := u32 (video_seq c + 1) |>).
  destruct (decide (off + cl < zlen data)) as [Hmore|Hend].
  - destruct (IH c1 pkt2 (off + cl) (idx + 1)) as (cs & Hne & Hcat & Hcs & Hlen & Hrun);
      [done|done|apply u32_range|lia|lia|lia|].
    rewrite Hrun. cbn [mbind option_bind].
    exists (body :: cs). rewrite zlen_cons. split_and!; [done| | |lia|].
    + cbn [concat]. by rewrite Hcat.
    + constructor; [lia|done].
    + assert (last = false) as -> by (apply bool_decide_eq_false; lia).
      cbn [au_dgrams]. rewrite bool_decide_false by done.
      unfold frag_dgram, frag_payload. rewrite Hbody. fold fh.
      change (video_seq c1) with (u32 (video_seq c + 1)).
      replace (u32 (video_seq c + (1 + zlen cs))) with (u32 (u32 (video_seq c + 1) + zlen cs)) by wrap_lia.
      done.
  - assert (Hdata : drop (Z.to_nat (off + cl)) data = []).
    { apply drop_ge. unfold zlen in *. lia. }
    destruct fuel as [|fuel]; [lia|]. cbn [send_chunks]. rewrite decide_False by lia.
    cbn [mbind option_bind].
    exists [body]. split_and!; [done| | |change (zlen [body]) with 1; lia|].
    + cbn [concat]. by rewrite <- Hd, Hdata.
    + constructor; [lia|done].
    + assert (last = true) as -> by (apply bool_decide_eq_true; lia).
      cbn [au_dgrams]. rewrite bool_decide_true by done.
      unfold frag_dgram, frag_payload. rewrite Hbody. by fold fh.
Qed.

(** ** The bytes of the stream *)

Lemma code_at_inv l s : code_at l = Some s ->
  (s = 3 \/ s = 4) /\ exists r, l = start_code s ++ r /\ length (start_code s) = Z.to_nat s.
Proof.
  unfold code_at, starts_with.
  destruct (strip [0; 0; 1] l) as [r|] eqn:E3; [|destruct (strip [0; 0; 0; 1] l) as [r|] eqn:E4; [|done]].
  - intros [= <-]. split; [by left|]. exists r. split; [|done]. by apply strip_inv.
  - intros [= <-]. split; [by right|]. exists r. split; [|done]. by apply strip_inv.
Qed.

Lemma find_start_inv l : forall n s, find_start l = Some (n, s) ->
  (n <= length l)%nat /\ code_at (drop n l) = Some s.
Proof.
  induction l as [|x l IH]; intros n s; cbn [find_start].
  - change (code_at []) with (@None Z). done.
  - destruct (code_at (x :: l)) as [s0|] eqn:Ec; [intros [= <- <-]; split; [lia|done]|].
    destruct (find_start l) as [[m s1]|]; [|done]. intros [= <- <-].
    destruct (IH m s1 eq_refl). split; [cbn; lia|done].
Qed.

(** While no access unit is open there are no bytes in its buffer, and
    parameter sets wait only then. *)
Definition au_wf (st : au_asm) : Prop :=
  (have st = false -> au st = []) /\ (have st = true -> pend st = []).

Definition held (st : au_asm) : list Z := au st ++ pend st.
Definition sent_bytes (outs : list (list Z * bool)) : list Z := concat (fst <$> outs).

Lemma au_append_sublist dst c data : au_append dst c data `sublist_of` dst ++ data.
Proof. unfold au_append. case_decide; [apply sublist_inserts_r|]; reflexivity. Qed.

Lemma au_append_fits dst c data : zlen dst + zlen data <= c -> au_append dst c data = dst ++ data.
Proof. intros. unfold au_append. by rewrite decide_False by lia. Qed.

(** The unit appended to [dst], start code first. *)
Definition add_unit (dst : list Z) (c slen : Z) (body : list Z) : list Z :=
  au_append (au_append dst c (start_code slen)) c body.

Lemma add_unit_sublist dst c slen body : add_unit dst c slen body `sublist_of` dst ++ start_code slen ++ body.
Proof.
  unfold add_unit. etransitivity; [apply au_append_sublist|].
  rewrite (app_assoc dst). apply sublist_app; [apply au_append_sublist|reflexivity].
Qed.

Lemma add_unit_fits dst c slen body :
  zlen dst + zlen (start_code slen) + zlen body <= c -> add_unit dst c slen body = dst ++ start_code slen ++ body.
Proof.
  intros. pose proof (zlen_nonneg body). unfold add_unit.
  rewrite (au_append_fits dst) by lia. rewrite au_append_fits by (rewrite zlen_app; lia).
  by rewrite <- app_assoc.
Qed.

Definition same_caps (st st' : au_asm) : Prop := au_cap st' = au_cap st /\ pend_cap st' = pend_cap st.

Definition is_vcl (body : list Z) : bool :=
  match body with [] => false | b :: _ => bool_decide (1 <= Z.land b 0x1F <= 5) end.

(** Every access unit of a stream fits its buffer: what is held grows unit by unit -
    [sz] bytes so far, with a picture if [h] - and starts anew at the picture that
    follows a picture. *)
Inductive au_fits (ac pc : Z) : Z -> bool -> list Z -> Prop :=
| fits_rest sz h l :
    (forall n s, find_start l = Some (n, s) -> find_start (drop (Z.to_nat s) (drop n l)) = None) -> au_fits ac pc sz h l
| fits_unit sz h l s m s2 :
    find_start l = Some (O, s) -> find_start (drop (Z.to_nat s) l) = Some (m, s2) ->
    let body := take m (drop (Z.to_nat s) l) in
    let sz' := (if is_vcl body && h then 0 else sz) + (zlen (start_code s) + zlen body) in
    let h' := is_vcl body || h in
    sz' <= (if h' then ac else pc) -> au_fits ac pc sz' h' (drop m (drop (Z.to_nat s) l)) -> au_fits ac pc sz h l.

Definition fits (st : au_asm) (l : list Z) : Prop := au_fits (au_cap st) (pend_cap st) (zlen (held st)) (have st) l.

Lemma fits_inv ac pc sz h l s m s2 : au_fits ac pc sz h l ->
  find_start l = Some (O, s) -> find_start (drop (Z.to_nat s) l) = Some (m, s2) ->
  let body := take m (drop (Z.to_nat s) l) in
  let sz' := (if is_vcl body && h then 0 else sz) + (zlen (start_code s) + zlen body) in
  let h' := is_vcl body || h in
  sz' <= (if h' then ac else pc) /\ au_fits ac pc sz' h' (drop m (drop (Z.to_nat s) l)).
Proof.
  intros Hf H1 H2. destruct Hf as [sz h l Hno|sz h l s' m' s2' E1 E2 body sz' h' Hle Hf].
  - specialize (Hno _ _ H1). change (drop 0 l) with l in Hno. congruence.
  - rewrite E1 in H1. injection H1 as <-. rewrite E2 in H2. by injection H2 as <- <-.
Qed.

Lemma au_feed_spec st slen body : au_wf st ->
  match au_feed st slen body with
  | (Some (a, _), st') =>
    is_vcl body = true /\ have st = true /\ have st' = false /\ a = held st /\ held st' = [] /\
    au_wf st' /\ same_caps st st'
  | (None, st') =>
    held st' `sublist_of` held st ++ start_code slen ++ body /\ au_wf st' /\ same_caps st st' /\
    (body <> [] -> have st' = is_vcl body || have st /\ is_vcl body && have st = false /\
     (zlen (held st) + (zlen (start_code slen) + zlen body) <= (if have st' then au_cap st else pend_cap st) ->
      held st' = held st ++ start_code slen ++ body))
  end.
Proof.
  intros [Hau Hpend]. unfold au_feed. destruct body as [|b body].
  { split_and!; try done. by apply sublist_inserts_r. }
  set (l := b :: body). cbv zeta. fold (add_unit (au st) (au_cap st) slen l) (add_unit (pend st) (pend_cap st) slen l).
  assert (Hvcl : is_vcl l = bool_decide (1 <= Z.land b 0x1F <= 5)) by done. rewrite <- Hvcl. clearbody l.
  destruct (is_vcl l) eqn:Ev; cbn [andb].
  - destruct (have st) eqn:Eh.
    + unfold held. rewrite (Hpend eq_refl), app_nil_r. split_and!; try done.
    + rewrite Hau by done. set (a := if decide (zlen (pend st) > 0) then _ else _).
      assert (Ha : a `sublist_of` pend st).
      { unfold a. destruct (decide _); [apply (au_append_sublist [])|]. apply sublist_nil_l. }
      change (au_append (au_append a _ _) _ l) with (add_unit a (au_cap st) slen l).
      unfold held. cbn [au pend]. rewrite (Hau eq_refl), app_nil_r. cbn [app]. split_and!; try done.
      * etransitivity; [apply add_unit_sublist|]. apply sublist_app; [done|reflexivity].
      * intros _. split; [done|]. split; [done|]. cbn [have]. intros Hr.
        pose proof (zlen_nonneg (start_code slen)). pose proof (zlen_nonneg l).
        assert (a = pend st) as ->.
        { unfold a. destruct (decide _) as [Hp|Hp]; [by apply (au_append_fits []); rewrite zlen_nil; lia|].
          destruct (pend st); [done|]. rewrite zlen_cons in Hp. pose proof (zlen_nonneg l0). lia. }
        apply add_unit_fits. lia.
  - destruct (have st) eqn:Eh; unfold held; cbn [au pend].
    + rewrite (Hpend eq_refl), !app_nil_r. split_and!; try done.
      * apply add_unit_sublist.
      * intros _. split; [done|]. split; [done|]. cbn [have]. intros Hr.
        apply add_unit_fits. lia.
    + rewrite (Hau eq_refl). cbn [app]. split_and!; try done.
      * apply add_unit_sublist.
      * intros _. split; [done|]. split; [done|]. cbn [have]. intros Hr.
        apply add_unit_fits. lia.
Qed.

(** A code does not depend on what follows, once four bytes are there. *)
Lemma code_at_app l X s : code_at l = Some s -> code_at (l ++ X) = Some s.
Proof.
  destruct l as [|a [|b [|c [|d l]]]]; unfold code_at, starts_with; cbn [strip app];
    repeat case_decide; done.
Qed.

Lemma code_at_4 l X : (4 <= length l)%nat -> code_at (l ++ X) = code_at l.
Proof.
  destruct l as [|a [|b [|c [|d l]]]]; cbn [length]; try lia. intros _.
  unfold code_at, starts_with. cbn [strip app]. repeat case_decide; done.
Qed.

Lemma find_start_at l s : code_at l = Some s -> find_start l = Some (O, s).
Proof. intros H. destruct l; cbn [find_start]; by rewrite H. Qed.

Lemma find_start_exists l : forall n s, code_at (drop n l) = Some s -> is_Some (find_start l).
Proof.
  induction l as [|x l IH]; intros n s Hc; [by rewrite drop_nil in Hc|].
  cbn [find_start]. destruct (code_at (x :: l)) eqn:E; [done|].
  destruct n as [|n]; [change (drop 0 (x :: l)) with (x :: l) in Hc; congruence|].
  destruct (IH n s Hc) as [[m t] ->]. done.
Qed.

(** The first start code, if any, is at the head; no NAL unit is empty. *)
Definition aligned (l : list Z) : Prop := forall n s, find_start l = Some (n, s) -> n = O.
Definition tight (l : list Z) : Prop :=
  forall k s, code_at (drop k l) = Some s -> code_at (drop (k + Z.to_nat s) l) = None.

Lemma tight_drop k l : tight l -> tight (drop k l).
Proof.
  intros H j s. rewrite !drop_drop. intros Hc. rewrite Nat.add_assoc. by apply H.
Qed.

Lemma aligned_code l s : code_at l = Some s -> aligned l.
Proof. intros H n t. rewrite (find_start_at l s H). by intros [= <- _]. Qed.

Lemma aligned_head l X n s : aligned (l ++ X) -> (4 <= length l)%nat ->
  find_start l = Some (n, s) -> n = O.
Proof.
  intros Ha Hl Hf. destruct (find_start_inv _ _ _ Hf) as [Hn Hc].
  destruct (find_start_exists (l ++ X) n s) as [[n' s'] Hf'].
  { rewrite drop_app_le by done. by apply code_at_app. }
  pose proof (Ha _ _ Hf') as ->. destruct (find_start_inv _ _ _ Hf') as [_ Hc'].
  change (drop 0 (l ++ X)) with (l ++ X) in Hc'. rewrite code_at_4 in Hc' by done.
  rewrite (find_start_at _ _ Hc') in Hf. by injection Hf.
Qed.

(** One turn of [process_nalus]: what lies before, the unit, the rest. *)
Lemma unit_split rest n slen m s2 :
  find_start rest = Some (n, slen) ->
  let at_body := drop (Z.to_nat slen) (drop n rest) in
  find_start at_body = Some (m, s2) ->
  let body := take m at_body in let rest2 := drop m at_body in
  rest = take n rest ++ start_code slen ++ body ++ rest2 /\
  length (take n rest ++ start_code slen ++ body) = (n + Z.to_nat slen + m)%nat /\
  code_at rest2 = Some s2 /\ (3 <= Z.to_nat slen)%nat.
Proof.
  intros Hf at_body Hf2 body rest2.
  destruct (find_start_inv _ _ _ Hf) as [Hn Hc]. destruct (find_start_inv _ _ _ Hf2) as [Hm Hc2].
  destruct (code_at_inv _ _ Hc) as (Hs & r & Hr & Hlen).
  assert (at_body = r) as Hat by (unfold at_body; rewrite Hr; by apply drop_app_length').
  split_and!; [|  |done|destruct Hs as [-> | ->]; cbn; lia].
  - rewrite <- (take_drop n rest) at 1. f_equal. rewrite Hr. f_equal. unfold body, rest2.
    by rewrite take_drop.
  - rewrite !length_app, length_take_le, Hlen by done. unfold body. rewrite length_take_le by done. lia.
Qed.

Lemma take_past {A} (l k : list A) n u : length l = n -> take (n + u) (l ++ k) = l ++ take u k.
Proof. intros <-. by rewrite take_app_add. Qed.

Lemma find_start_app l X n s : find_start l = Some (n, s) -> find_start (l ++ X) = Some (n, s).
Proof.
  revert n. induction l as [|x l IH]; intros n H; [done|]. cbn [find_start app] in *.
  destruct (code_at (x :: l)) as [s0|] eqn:E.
  - change (x :: l ++ X) with ((x :: l) ++ X). by rewrite (code_at_app _ X _ E).
  - destruct (find_start l) as [[m s1]|] eqn:Ef; [|done]. injection H as <- <-.
    destruct (find_start_inv _ _ _ Ef) as [_ Hc]. destruct (code_at_inv _ _ Hc) as (Hs & r & Hr & Hl).
    apply (f_equal length) in Hr. rewrite length_drop, length_app, Hl in Hr.
    change (x :: l ++ X) with ((x :: l) ++ X). rewrite code_at_4, E by (cbn; destruct Hs as [-> | ->]; lia).
    by rewrite (IH m eq_refl).
Qed.

(** What [process_nalus] leaves in the buffer: no complete unit. *)
Definition stuck (l : list Z) : Prop :=
  (length l < 4)%nat \/ find_start l = None \/
  exists n s, find_start l = Some (n, s) /\ find_start (drop (Z.to_nat s) (drop n l)) = None.

(** Every [c] bytes of the stream hold a start code beyond their first four. *)
Definition coded (c : Z) (l : list Z) : Prop :=
  forall k, c <= zlen (drop k l) -> is_Some (find_start (drop 4 (take (Z.to_nat c) (drop k l)))).

Lemma coded_drop c k l : coded c l -> coded c (drop k l).
Proof. intros H j. rewrite drop_drop. apply H. Qed.

(** Such a stream does not fill a buffer of [c] bytes. *)
Lemma stuck_short c buf more : 4 <= c -> stuck buf -> aligned (buf ++ more) -> coded c (buf ++ more) -> zlen buf < c.
Proof.
  intros Hc Hst Ha Hco. destruct (decide (zlen buf < c)) as [|Hge]; [done|exfalso]. unfold zlen in *.
  destruct (Hco O) as [[m s] Hf]; [unfold zlen; change (drop 0 (buf ++ more)) with (buf ++ more); rewrite length_app; lia|].
  change (drop 0 (buf ++ more)) with (buf ++ more) in Hf. rewrite take_app_le in Hf by lia.
  apply (find_start_app _ (drop (Z.to_nat c) buf)) in Hf.
  rewrite <- drop_app_le, take_drop in Hf by (rewrite length_take; lia).
  destruct (find_start_inv _ _ _ Hf) as [_ Hcode]. rewrite drop_drop in Hcode.
  destruct Hst as [Hs|[Hs|(n & t & Hs & Hn)]]; [lia| |].
  - destruct (find_start_exists buf _ _ Hcode). congruence.
  - assert (n = O) as -> by (eapply aligned_head; [exact Ha|lia|exact Hs]). change (drop 0 buf) with buf in Hn.
    destruct (find_start_inv _ _ _ Hs) as [_ Ht]. change (drop 0 buf) with buf in Ht.
    destruct (find_start_exists (drop (Z.to_nat t) buf) (4 - Z.to_nat t + m) s) as [? E]; [|congruence].
    rewrite drop_drop. destruct (code_at_inv _ _ Ht) as ([-> | ->] & _); exact Hcode.
Qed.

(** What [process_nalus] reports about [used] bytes of [rest]. *)
Definition loop_ok (st : au_asm) (rest : list Z) (used : nat) (out : option (list Z * bool)) (st' : au_asm)
    : Prop :=
  (used <= length rest)%nat /\ au_wf st' /\ same_caps st st' /\
  sent_bytes (option_list out) ++ held st' `sublist_of` held st ++ take used rest /\
  (is_Some out -> have st' = false /\ (used = O -> have st = true)) /\
  (out = None -> stuck (drop used rest)) /\
  forall X, aligned (rest ++ X) -> tight (rest ++ X) -> fits st (rest ++ X) ->
    sent_bytes (option_list out) ++ held st' = held st ++ take used rest /\
    aligned (drop used rest ++ X) /\ fits st' (drop used rest ++ X).

Lemma loop_stop st rest : au_wf st -> stuck rest -> loop_ok st rest 0 None st.
Proof.
  intros Hwf Hs. unfold loop_ok. cbn [sent_bytes option_list fmap list_fmap concat app take drop].
  rewrite app_nil_r. split_and!; try done; first [lia | by intros [? ?]].
Qed.

Lemma process_loop_spec fuel : forall st pos rest,
  au_wf st -> (length rest < fuel)%nat ->
  exists used out st', process_loop fuel st pos rest = Some ((pos + used)%nat, out, st') /\
    loop_ok st rest used out st'.
Proof.
  induction fuel as [|fuel IH]; intros st pos rest Hwf Hf; [lia|]. cbn [process_loop].
  assert (Hstop : stuck rest -> exists used out st', Some (pos, None, st) = Some ((pos + used)%nat, out, st') /\
    loop_ok st rest used out st').
  { intros Hs. exists O, None, st. rewrite Nat.add_0_r. split; [done|by apply loop_stop]. }
  destruct (decide (length rest < 4)%nat) as [|H4]; [apply Hstop; by left|].
  destruct (find_start rest) as [[n slen]|] eqn:Ef; [|apply Hstop; right; by left].
  destruct (find_start (drop (Z.to_nat slen) (drop n rest))) as [[m s2]|] eqn:Ef2;
    [|apply Hstop; right; right; by exists n, slen].
  destruct (unit_split _ _ _ _ _ Ef Ef2) as (Hrest & Hlen & Hc2 & Hs3).
  destruct (find_start_inv _ _ _ Ef) as [Hn Hc].
  set (at_body := drop (Z.to_nat slen) (drop n rest)) in *.
  set (body := take m at_body) in *. set (rest2 := drop m at_body) in *.
  pose proof (au_feed_spec st slen body Hwf) as Hfeed.
  assert (Hz : zlen rest = Z.of_nat n + zlen (start_code slen) + zlen body + zlen rest2).
  { pose proof (f_equal length Hrest) as HL. rewrite !length_app, length_take_le in HL by done.
    unfold zlen. lia. }
  assert (Hhead : forall X, aligned (rest ++ X) -> tight (rest ++ X) -> n = O /\ body <> []).
  { intros X Ha Ht. assert (n = O) as -> by (eapply aligned_head; [exact Ha|lia|exact Ef]).
    split; [done|]. intros Hb. change (take 0 rest) with (@nil Z) in Hrest. rewrite Hb in Hrest. cbn [app] in Hrest.
    change (drop 0 rest) with rest in Hc.
    assert (code_at (drop (0 + Z.to_nat slen) (rest ++ X)) = None) as Hno.
    { apply Ht. by apply code_at_app. }
    destruct (code_at_inv _ _ Hc) as (_ & r & _ & Hls). rewrite Nat.add_0_l, Hrest, <- app_assoc in Hno.
    rewrite drop_app_length' in Hno by done. rewrite (code_at_app rest2 X s2 Hc2) in Hno. done. }
  assert (Hunit : forall X, n = O -> find_start (rest ++ X) = Some (O, slen) /\
    find_start (drop (Z.to_nat slen) (rest ++ X)) = Some (m, s2) /\
    take m (drop (Z.to_nat slen) (rest ++ X)) = body /\ drop m (drop (Z.to_nat slen) (rest ++ X)) = rest2 ++ X).
  { intros X ->. change (drop 0 rest) with rest in *.
    destruct (code_at_inv _ _ Hc) as (_ & r & Hr & Hls). apply (f_equal length) in Hr. rewrite length_app, Hls in Hr.
    destruct (find_start_inv _ _ _ Ef2) as [Hm _]. unfold at_body in Hm. rewrite length_drop in Hm.
    split; [by apply find_start_app|]. rewrite drop_app_le by lia. fold at_body.
    split; [by apply find_start_app|]. rewrite take_app_le, drop_app_le by (unfold at_body; rewrite length_drop; lia). done. }
  destruct (au_feed st slen body) as [[[a k]|] st1].
  - destruct Hfeed as (Hb & Hh & Hh' & Ha & Hheld & Hwf1 & Hcaps).
    exists n, (Some (a, k)), st1. split; [done|]. unfold loop_ok.
    cbn [sent_bytes option_list fmap list_fmap concat fst app]. unfold sent_bytes. cbn.
    rewrite Hheld, !app_nil_r, Ha. split_and!; try done.
    + apply sublist_inserts_r. reflexivity.
    + intros X Hal Ht Hfit. destruct (Hhead X Hal Ht) as [Hn0 _]. destruct (Hunit X Hn0) as (U1 & U2 & U3 & U4).
      subst n. change (drop 0 rest) with rest. rewrite app_nil_r. split; [done|]. split; [done|].
      destruct (fits_inv _ _ _ _ _ _ _ _ Hfit U1 U2) as [Hle Hrec]. unfold fits. destruct Hcaps as [-> ->].
      rewrite Hheld, Hh'. eapply fits_unit; [exact U1|exact U2| |]; rewrite U3, ?U4, Hb in *; cbn [andb orb] in *;
        rewrite ?Hh in *; rewrite ?U3, ?U4 in Hrec; done.
  - destruct Hfeed as (Hsub & Hwf1 & [Hcp1 Hcp1'] & Heq).
    destruct (IH st1 (pos + n + Z.to_nat slen + m)%nat rest2) as (used & out & st' & Hrun & Hok); [done| |].
    { apply (f_equal length) in Hrest. rewrite app_assoc in Hrest.
      rewrite (app_assoc (_ ++ _)), length_app in Hrest. rewrite <- (app_assoc (take n rest)), Hlen in Hrest. lia. }
    destruct Hok as (Hu & Hwf' & [Hc2' Hc2''] & Hsub' & Hout & Hstk & Hex).
    exists (n + Z.to_nat slen + m + used)%nat, out, st'.
    rewrite Hrun. split; [do 3 f_equal; lia|].
    assert (Hrest' : rest = (take n rest ++ start_code slen ++ body) ++ rest2)
      by (by rewrite <- !app_assoc).
    assert (Htake : take (n + Z.to_nat slen + m + used) rest
      = take n rest ++ (start_code slen ++ body) ++ take used rest2).
    { rewrite Hrest' at 1. rewrite (take_past _ _ _ _ Hlen). by rewrite <- !app_assoc. }
    assert (Hdrop : drop (n + Z.to_nat slen + m + used) rest = drop used rest2).
    { rewrite Hrest' at 1. by rewrite <- Hlen, drop_app_add. }
    unfold loop_ok. rewrite Htake, Hdrop. split_and!; try done.
    + apply (f_equal length) in Hrest'. rewrite length_app, Hlen in Hrest'. lia.
    + split; congruence.
    + etransitivity; [exact Hsub'|].
      rewrite !app_assoc. apply sublist_app; [|reflexivity].
      etransitivity; [exact Hsub|]. rewrite <- !app_assoc.
      apply sublist_app; [reflexivity|]. apply sublist_inserts_l. reflexivity.
    + intros Ho. destruct (Hout Ho) as [? _]. split; [done|lia].
    + intros X Hal Ht Hfit. destruct (Hhead X Hal Ht) as [Hn0 Hb]. destruct (Hunit X Hn0) as (U1 & U2 & U3 & U4).
      subst n. destruct (Heq Hb) as (Hh1 & Hvh & Hkeep).
      destruct (fits_inv _ _ _ _ _ _ _ _ Hfit U1 U2) as [Hle Hrec]. rewrite U3, Hvh, <- Hh1 in Hle.
      rewrite U3, U4, Hvh, <- Hh1 in Hrec. specialize (Hkeep Hle).
      destruct (Hex X) as (He & Hal2 & Hfit2).
      * eapply aligned_code. by apply code_at_app.
      * rewrite <- U4. apply tight_drop, tight_drop, Ht.
      * unfold fits. rewrite Hcp1, Hcp1', Hkeep, !zlen_app. exact Hrec.
      * rewrite He, Hkeep, <- !app_assoc. done.
Qed.

(** Everything an assembler and its buffer hold. *)
Definition pending_bytes (st : au_asm) (buf : list Z) : list Z := held st ++ buf.

(** What a run of the pipe reports: [more] is what the stream continues with. *)
Definition units_ok (st : au_asm) (inp : list Z) (outs : list (list Z * bool)) (st' : au_asm)
    (buf' : list Z) : Prop :=
  au_wf st' /\ same_caps st st' /\
  sent_bytes outs ++ pending_bytes st' buf' `sublist_of` pending_bytes st inp /\
  forall more, aligned (inp ++ more) -> tight (inp ++ more) -> fits st (inp ++ more) ->
    sent_bytes outs ++ pending_bytes st' buf' = pending_bytes st inp /\
    aligned (buf' ++ more) /\ tight (buf' ++ more) /\ fits st' (buf' ++ more) /\
    forall c, coded c (inp ++ more) -> coded c (buf' ++ more).

Lemma sent_bytes_app a b : sent_bytes (a ++ b) = sent_bytes a ++ sent_bytes b.
Proof. unfold sent_bytes. by rewrite fmap_app, concat_app. Qed.

Lemma loop_units st buf used out st' : loop_ok st buf used out st' ->
  units_ok st buf (option_list out) st' (drop used buf).
Proof.
  intros (Hu & Hwf & Hc & Hsub & _ & _ & Hex). unfold units_ok, pending_bytes.
  assert (Hb : held st ++ buf = (held st ++ take used buf) ++ drop used buf)
    by (by rewrite <- app_assoc, take_drop).
  rewrite Hb, app_assoc. split_and!; try done; [by apply sublist_app|].
  intros X Ha Ht Hr. destruct (Hex X Ha Ht Hr) as (-> & Ha' & Hf'). split_and!; try done.
  - rewrite <- drop_app_le by done. by apply tight_drop.
  - intros c Hco. rewrite <- drop_app_le by done. by apply coded_drop.
Qed.

Lemma units_trans st inp o1 st1 b1 o2 st2 b2 more :
  units_ok st inp o1 st1 b1 -> units_ok st1 (b1 ++ more) o2 st2 b2 ->
  units_ok st (inp ++ more) (o1 ++ o2) st2 b2.
Proof.
  intros (Hwf1 & [? ?] & Hs1 & He1) (Hwf2 & [? ?] & Hs2 & He2).
  unfold units_ok, pending_bytes in *.
  assert (Hsub : forall a b c d e : list Z, a ++ b `sublist_of` c -> d `sublist_of` b ++ e ->
    a ++ d `sublist_of` c ++ e).
  { intros a b c d e Hx Hy. etransitivity; [apply sublist_app; [reflexivity|exact Hy]|].
    rewrite app_assoc. apply sublist_app; [done|reflexivity]. }
  split_and!; try done; [split; congruence| |].
  - rewrite sent_bytes_app, <- (app_assoc (sent_bytes o1)), (app_assoc (held st)). eapply Hsub; [exact Hs1|].
    by rewrite <- app_assoc.
  - intros X Ha Ht Hr. rewrite <- app_assoc in Ha, Ht, Hr.
    destruct (He1 (more ++ X)) as (E1 & Ha1 & Ht1 & Hr1 & Hc1); [done..|]. rewrite app_assoc in Ha1, Ht1, Hr1.
    destruct (He2 X) as (E2 & Ha2 & Ht2 & Hr2 & Hc2); [done..|].
    split_and!; try done.
    + rewrite sent_bytes_app, <- app_assoc, E2, !app_assoc. rewrite <- E1. by rewrite !app_assoc.
    + intros c Hc. apply Hc2. rewrite <- app_assoc in Hc |- *. by apply Hc1.
Qed.

Definition measure (st : au_asm) (buf : list Z) : nat :=
  (2 * length buf + if have st then 1 else 0)%nat.

Lemma pipe_units_spec fuel : forall st buf,
  au_wf st -> (measure st buf < fuel)%nat ->
  exists outs st' buf', pipe_units fuel st buf = Some (outs, st', buf') /\ units_ok st buf outs st' buf' /\ stuck buf'.
Proof.
  induction fuel as [|fuel IH]; intros st buf Hwf Hf; [lia|]. cbn [pipe_units]. unfold process_nalus.
  destruct (process_loop_spec (S (length buf)) st 0 buf Hwf ltac:(lia)) as (used & out & st1 & -> & Hok).
  rewrite Nat.add_0_l. pose proof (loop_units _ _ _ _ _ Hok) as Hun.
  destruct Hok as (Hu & Hwf1 & _ & _ & Hout & Hstk & _).
  destruct out as [o|]; [|eexists _, _, _; split_and!; [done|done|by apply Hstk]].
  destruct (Hout ltac:(done)) as [Hh Hz].
  destruct (IH st1 (drop used buf) Hwf1) as (outs & st' & buf' & Hrun & Hok' & Hst').
  { unfold measure in *. rewrite Hh, length_drop. destruct used; [rewrite (Hz eq_refl) in Hf|]; lia. }
  rewrite Hrun. eexists _, _, _. split; [done|]. split; [|done].
  rewrite <- (app_nil_r buf). change (o :: outs) with (option_list (Some o) ++ outs).
  eapply units_trans; [exact Hun|]. by rewrite app_nil_r.
Qed.

(** What an assembler, its buffer and the pipe hold. *)
Definition all_bytes (st : au_asm) (buf src : list Z) : list Z := pending_bytes st (buf ++ src).

Lemma pipe_step st buf src k : au_wf st -> let d := take k src in let n := pipe_take buf d in
  exists outs st1 b1 again,
    pipe_event_step st buf (match d with [] => PAgain | _ => PData d end) = Some (outs, st1, b1, again) /\
    (if again : bool then outs = (if have st then [(au st, key st)] else []) /\ SIM_IBUF_CAP <= zlen buf
     else units_ok st (buf ++ take n src) outs st1 b1 /\ stuck b1).
Proof.
  intros Hwf d n. assert (Hn : take n src = take n d).
  { unfold d. rewrite take_take. f_equal. unfold n, pipe_take, d, zlen. rewrite length_take. lia. }
  assert (Hun : forall b, exists outs st1 b1, pipe_units (2 * length b + 2) st b = Some (outs, st1, b1) /\
    units_ok st b outs st1 b1 /\ stuck b1).
  { intros b. apply pipe_units_spec; [done|]. unfold measure. case_match; lia. }
  destruct d as [|x d'] eqn:Ed.
  - rewrite Hn, take_nil, app_nil_r. unfold pipe_event_step.
    destruct (Hun buf) as (o & st1 & b1 & -> & H). by exists o, st1, b1, false.
  - rewrite Hn. cbn [pipe_event_step]. fold n. destruct n as [|n'] eqn:En.
    + eexists _, _, _, true. split; [reflexivity|]. rewrite app_nil_r. split; [done|].
      unfold n, pipe_take in En. rewrite zlen_cons in En. pose proof (zlen_nonneg d'). lia.
    + destruct (Hun (buf ++ take (S n') (x :: d'))) as (o & st1 & b1 & -> & H). by exists o, st1, b1, false.
Qed.

(** C10. The sender's splitter loses, invents and reorders nothing. However much of
    the encoder's output the pipe holds at each pass, the loop around the
    splitter terminates, and as long as the encoder is not started again, the
    access units sent, followed by what is held back, buffered and still in the
    pipe, are a subsequence of the output. They are the output itself, byte for
    byte, and the encoder is not started again, when the output begins with a start
    code, holds no empty NAL unit, has access units that fit their buffers and a
    start code in every 4 MB. (Else the full buffer is taken for the end of the
    encoder: what was sent before is a subsequence as well, then the open access
    unit is sent, and the buffer thrown away.) *)
Theorem sim_stream_conserved ks : forall st buf src, au_wf st ->
  exists outs st' buf' src' again, pipe_run st buf src ks = Some (outs, st', buf', src', again) /\
    (if again : bool then
       exists outs1 st1 buf1 src1, outs = outs1 ++ (if have st1 then [(au st1, key st1)] else []) /\
         SIM_IBUF_CAP <= zlen buf1 /\ sent_bytes outs1 ++ all_bytes st1 buf1 src1 `sublist_of` all_bytes st buf src
     else au_wf st' /\ sent_bytes outs ++ all_bytes st' buf' src' `sublist_of` all_bytes st buf src) /\
    (aligned (buf ++ src) -> tight (buf ++ src) -> fits st (buf ++ src) -> coded SIM_IBUF_CAP (buf ++ src) ->
     zlen buf < SIM_IBUF_CAP -> again = false /\ sent_bytes outs ++ all_bytes st' buf' src' = all_bytes st buf src).
Proof.
  induction ks as [|k ks IH]; intros st buf src Hwf; cbn [pipe_run]; [by exists [], st, buf, src, false|].
  cbv zeta. destruct (pipe_step st buf src k Hwf) as (o1 & st1 & b1 & again & -> & H).
  cbn [mbind option_bind]. destruct again.
  { destruct H as [-> Hc]. eexists _, _, _, _, true. split; [done|]. split; [|lia].
    exists [], st, buf, src. split_and!; done. }
  set (n := pipe_take buf (take k src)) in *. destruct H as ((Hwf1 & _ & Hs1 & He1) & Hst).
  destruct (IH st1 b1 (drop n src) Hwf1) as (o2 & st2 & b2 & src2 & again & -> & Hsub & Hex). cbn [mbind option_bind].
  eexists _, _, _, _, again. split; [done|].
  assert (Hall : all_bytes st buf src = pending_bytes st (buf ++ take n src) ++ drop n src).
  { unfold all_bytes, pending_bytes. by rewrite <- !app_assoc, take_drop. }
  assert (Hlift : forall o l, sent_bytes o ++ l `sublist_of` all_bytes st1 b1 (drop n src) ->
    sent_bytes (o1 ++ o) ++ l `sublist_of` all_bytes st buf src).
  { intros o l Hl. rewrite sent_bytes_app, <- app_assoc, Hall. etransitivity; [apply sublist_app; [reflexivity|exact Hl]|].
    unfold all_bytes, pending_bytes in *. rewrite !app_assoc in *. by apply sublist_app. }
  split.
  - destruct again; [|split; [apply Hsub|by apply Hlift, Hsub]].
    destruct Hsub as (o & st3 & b3 & src3 & -> & Hc & Hs3). exists (o1 ++ o), st3, b3, src3.
    split_and!; [by rewrite app_assoc|done|by apply Hlift].
  - intros Ha Ht Hf Hco Hz. destruct (He1 (drop n src)) as (E1 & A1 & T1 & F1 & C1); try by rewrite <- app_assoc, take_drop.
    assert (Hc1 : coded SIM_IBUF_CAP (b1 ++ drop n src)) by (apply C1; by rewrite <- app_assoc, take_drop).
    destruct (Hex A1 T1 F1 Hc1) as [-> E2]; [by eapply stuck_short|]. split; [done|].
    rewrite sent_bytes_app, <- app_assoc, E2, Hall, <- E1. unfold all_bytes, pending_bytes. by rewrite !app_assoc.
Qed.

#[export] Instance aligned_dec l : Decision (aligned l).
Proof.
  refine (match find_start l as r return r = find_start l -> _ with
          | Some (S _, _) => fun E => right _ | _ => fun E => left _ end eq_refl); unfold aligned; rewrite <- E.
  - intros k t [= <- _]. done.
  - intros Ha. by specialize (Ha _ _ eq_refl).
  - done.
Defined.

Definition tight_at (l : list Z) (k : nat) : Prop :=
  match code_at (drop k l) with Some s => code_at (drop (k + Z.to_nat s) l) = None | None => True end.

#[export] Instance tight_at_dec l k : Decision (tight_at l k).
Proof. unfold tight_at. case_match; apply _. Defined.

#[export] Instance tight_dec l : Decision (tight l).
Proof.
  refine (cast_if (decide (Forall (tight_at l) (List.seq 0 (length l))))); unfold tight.
  - intros k s Hc. destruct (decide (k < length l)%nat) as [Hk|Hk].
    + rewrite Forall_forall in f. specialize (f k). unfold tight_at in f. rewrite Hc in f.
      apply f. apply elem_of_seq. lia.
    + by rewrite drop_ge in Hc by lia.
  - intros Ht. apply n. apply Forall_forall. intros k _. unfold tight_at.
    case_match; [by apply Ht|done].
Defined.

Definition demo_asm : au_asm := mk_au [] 2000 [] 1000 false false.

(** Parameter sets, a key picture, a picture, another one, cut inside a start code. *)
Definition demo_reads : list (list Z) :=
  [[0; 0; 0; 1; 0x67; 9; 0; 0; 0; 1; 0x65; 1; 2; 3; 0; 0; 1; 0x41; 4; 5; 0]; [0; 0; 1; 0x41; 7]; [0; 0; 1; 9]].

Lemma sim_stream_conserved_witness :
  exists outs st' buf', pipe_run demo_asm [] (concat demo_reads) (length <$> demo_reads) = Some (outs, st', buf', [], false) /\
    outs = [([0; 0; 0; 1; 0x67; 9; 0; 0; 0; 1; 0x65; 1; 2; 3], true); ([0; 0; 1; 0x41; 4; 5], false)] /\
    sent_bytes outs ++ all_bytes st' buf' [] = concat demo_reads.
Proof.
  destruct (sim_stream_conserved (length <$> demo_reads) demo_asm [] (concat demo_reads))
    as (outs & st' & buf' & src' & again & H1 & _ & H2); [split; reflexivity|].
  destruct H2 as [-> H2].
  - by_computation.
  - by_computation.
  - unfold fits. repeat (eapply fits_unit; [vm_compute; reflexivity|vm_compute; reflexivity|vm_compute; discriminate|]; vm_compute).
    apply fits_rest. intros n s. vm_compute. by intros [= <- <-].
  - intros k Hk. exfalso. unfold zlen in Hk. rewrite length_drop in Hk. change (length ([] ++ concat demo_reads)) with 30%nat in Hk.
    unfold SIM_IBUF_CAP in Hk. lia.
  - reflexivity.
  - assert (src' = []) as -> by (vm_compute in H1; by injection H1 as _ _ _ <-).
    exists outs, st', buf'. split; [exact H1|]. split; [|exact H2]. vm_compute in H1. by injection H1 as <- _ _.
Defined.

(** Passes that find the given events. *)
Fixpoint pipe_events (st : au_asm) (buf : list Z) (es : list pipe_event) : option (list (list Z)) :=
  match es with
  | [] => Some []
  | e :: es => '(outs, st, buf, _) ← pipe_event_step st buf e; more ← pipe_events st buf es; Some ((fst <$> outs) ++ more)
  end.

(** The end of the encoder's output: the open access unit is sent, but its
    bytes stay in the assembler and are sent again at the head of the first
    access unit of the restarted encoder; the last NAL unit is lost. *)
Example eof_sends_twice :
  pipe_events demo_asm [] [PData [0; 0; 1; 0x65; 1; 0; 0; 1; 9]; PEof;
                           PData [0; 0; 1; 0x65; 2; 0; 0; 1; 0x65; 3; 0; 0; 1; 9]]
  = Some [[0; 0; 1; 0x65; 1]; [0; 0; 1; 0x65; 1; 0; 0; 1; 0x65; 2]].
Proof. vm_compute. reflexivity. Qed.

(** A parameter set that follows a picture closes nothing: it travels with the
    picture before it, and the key picture it belongs to starts without it. *)
Example parameter_sets_misplaced :
  pipe_events demo_asm [] [PData [0; 0; 1; 0x41; 1; 0; 0; 1; 0x67; 9; 0; 0; 1; 0x65; 2; 0; 0; 1; 9]]
  = Some [[0; 0; 1; 0x41; 1; 0; 0; 1; 0x67; 9]].
Proof. vm_compute. reflexivity. Qed.

(** A picture of two slices is sent as two access units. *)
Example slices_split :
  pipe_events demo_asm [] [PData [0; 0; 1; 0x65; 0x88; 0; 0; 1; 0x65; 0x44; 0; 0; 1; 0x41; 1; 0; 0; 1; 9]]
  = Some [[0; 0; 1; 0x65; 0x88]; [0; 0; 1; 0x65; 0x44]].
Proof. vm_compute. reflexivity. Qed.

End Sim.
