(* ===== verification/UdpPath.v ===== *)
(** * Video over UDP: from the sender's access unit to the client's frame slot

    The video part of the client's UDP loop ([apps/thinclient/main.c], [main]):
    datagrams are decoded and pushed into the jitter buffer, playable ones feed
    the assembler, complete access units are published to the decode thread;
    and the composition with the sender of [SimSender]. *)

From Stdlib Require Import Sorted.
From S2P Require Import Prelude Wire Protocol Fragment JitterBuffer SimSender.
Import LE Proto Frag Sim.

#[local] Open Scope Z_scope.

Module Udp.

(** What reaches the decoder: an access unit published in a frame slot, with
    its time stamp and index, or a payload decoded inline. *)
Inductive video_out :=
| Published (au : list Z) (ts idx : Z)
| Inline (payload : list Z).

(** The client's state behind the jitter buffer. *)
Record client := mk_client {
  frag : vmc_frag_assembler; cur_fid : Z; frame_arrival_us : Z;
  video_frame_count : Z; outs : list video_out;
}.

#[export] Instance eta_client : Eta client := fun c =>
  mk_client (frag c) (cur_fid c) (frame_arrival_us c) (video_frame_count c) (outs c).

(** A datagram of [n] bytes in [pkt], when the clock reads [now], then [now'].
    [None]: an access outside an object. *)
Definition rx_video (jb : JB.vmc_jitter_buffer) (pkt : list Z) (n now now' : Z)
    : option JB.vmc_jitter_buffer :=
  '(st, r) ← vmc_proto_decode (Some pkt) n;
  match r with
  | None => Some jb
  | Some (h, off) =>
    if decide (st <> VMC_OK \/ stream h <> VMC_PROTO_STREAM_VIDEO) then Some jb else
    let push j now := JB.vmc_jb_push (Some j) (seq h) (ts_us h) (stream h) (flags h)
                        (Some (drop (Z.to_nat off) pkt)) (payload_len h) now in
    match push jb now with
    | Some (ps, Some j) =>
      if decide (ps <> VMC_OK /\ Z.land (flags h) VMC_PROTO_FLAG_KEYFRAME <> 0) then
        match push (JB.vmc_jb_reset j (seq h)) now' with
        | Some (_, Some j) => Some j
        | _ => None
        end
      else Some j
    | _ => None
    end
  end.

Fixpoint rx_all (jb : JB.vmc_jitter_buffer) (pkts : list (list Z * Z * Z))
    : option JB.vmc_jitter_buffer :=
  match pkts with
  | [] => Some jb
  | (p, now, now') :: pkts => jb ← rx_video jb p (zlen p) now now'; rx_all jb pkts
  end.

Section Drain.
(** The buffer of the slot that [slot_take_write] hands out after frame [n]. *)
Context (next_buf : Z -> list Z).

(** The body of the drain loop: what is done with a slot. *)
Definition take_slot (c : client) (s : JB.vmc_jb_slot) (arrival : Z) : option client :=
  if decide (Z.land (JB.flags s) VMC_PROTO_FLAG_FRAGMENTED <> 0) then
    match vmc_video_frag_hdr_unpack (JB.storage s) with
    | None => None
    | Some (fid, idx, last) =>
      if decide (JB.len s >= 4) then
        let c := if decide (fid <> cur_fid c)
                 then c <| cur_fid := fid |> <| frame_arrival_us := arrival |> else c in
        match vmc_frag_feed (Some (frag c)) fid idx last (Some (drop 4 (JB.storage s))) (JB.len s - 4) with
        | Some (fst, au_len, Some a) =>
          if decide (fst = VMC_OK /\ au_len > 0) then
            au ← slice (buf a) 0 au_len;
            let fidx := video_frame_count c in
            Some (c <| frag := a <| buf := next_buf fidx |> |>
                    <| video_frame_count := u32 (fidx + 1) |>
                    <| outs := outs c ++ [Published au (JB.ts_us s) fidx] |>)
          else Some (c <| frag := a |>)
        | _ => None
        end
      else Some c
    end
  else
    p ← slice (JB.storage s) 0 (JB.len s);
    Some (c <| outs := outs c ++ [Inline p] |>).

(** The drain loop with a decoder: [clk] are the readings of the clock, one for
    the peek and one for the arrival of a frame in each round. *)
Fixpoint drain_video (fuel : nat) (clk : nat -> Z) (jb : JB.vmc_jitter_buffer) (c : client)
    : option (JB.vmc_jitter_buffer * client) :=
  match fuel with
  | O => None
  | S fuel =>
    match JB.vmc_jb_peek (Some jb) (clk O) with
    | (Some i, Some jb) =>
      s ← JB.slots jb !! i;
      c ← take_slot c s (clk 1%nat);
      drain_video fuel (fun k => clk (S (S k))) (JB.vmc_jb_consume jb) c
    | (_, Some jb) => Some (jb, c)
    | (_, None) => None
    end
  end.

(** The slots of a drain, one after the other. *)
Fixpoint take_slots (c : client) (ss : list JB.vmc_jb_slot) (clk : nat -> Z) : option client :=
  match ss with
  | [] => Some c
  | s :: ss => c ← take_slot c s (clk 1%nat); take_slots c ss (fun k => clk (S (S k)))
  end.

End Drain.

(** ** The drain hands the packets over in sequence order *)

Definition before (b : Z) (s t : JB.vmc_jb_slot) : Prop := JB.dist b (JB.seq s) < JB.dist b (JB.seq t).

(** Of two orders of the same packets that agree with the distances from [b],
    the first packets agree. *)
Lemma sorted_head b s l t k :
  s :: l ≡ₚ t :: k -> Forall (before b s) l -> Forall (before b t) k -> s = t /\ l ≡ₚ k.
Proof.
  intros Hp Hs Ht. assert (s = t) as ->; [|split; [done|by apply Permutation_cons_inv in Hp]].
  assert (s ∈ t :: k) as [?|Hin]%elem_of_cons by (rewrite <- Hp; left); [done|].
  assert (t ∈ s :: l) as [?|Hit]%elem_of_cons by (rewrite Hp; left); [done|].
  rewrite Forall_forall in Hs, Ht. specialize (Hs t Hit). specialize (Ht s Hin). unfold before in *. lia.
Qed.

Definition next_after (j : JB.vmc_jitter_buffer) (ss : list JB.vmc_jb_slot) : Z :=
  match last ss with Some s => u32 (JB.seq s + 1) | None => JB.next_seq j end.

Lemma drain_takes nb b ss : forall fuel clk j c c',
  JB.jb_wf j -> JB.windowed b j ->
  (forall k, JB.all_aged j (clk k)) ->
  JB.live j ≡ₚ ss -> StronglySorted (before b) ss ->
  take_slots nb c ss clk = Some c' -> (length ss < fuel)%nat ->
  exists j', drain_video nb fuel clk j c = Some (j', c') /\
    JB.jb_wf j' /\ JB.live j' = [] /\ JB.next_seq j' = next_after j ss /\
    JB.target_delay_us j' = JB.target_delay_us j.
Proof.
  induction ss as [|s ss IH]; intros fuel clk j c c' Hwf Hw Ha Hp Hs Ht Hf;
    (destruct fuel as [|fuel]; [cbn in Hf; lia|]); cbn [drain_video take_slots] in *.
  - apply Permutation_nil_r in Hp.
    destruct (JB.peek_progress b j (clk O) Hwf Hw (Ha O)) as [[_ ->]|(i & j1 & Hpk)].
    + injection Ht as <-. by exists j.
    + destruct (JB.peek_sound b j (clk O) i j1 Hwf Hw Hpk) as (t & (Hi & Hv & _) & _).
      assert (t ∈ JB.live j) as Hin by (apply JB.live_elem; eauto).
      by rewrite Hp, elem_of_nil in Hin.
  - destruct (JB.drain_round b j (clk O) Hwf Hw (Ha O)) as (i & j1 & t & Hpk & Hi & H).
    { intros E. rewrite E in Hp. by apply Permutation_nil_l in Hp. }
    rewrite Hpk, Hi. cbn [mbind option_bind]. cbv zeta in H.
    destruct H as (Hwf2 & Hw2 & Ha2 & Hp2 & Hlt & Hn2 & Ht2).
    inversion_clear Hs as [|? ? Hs' Hfa].
    destruct (sorted_head b t (JB.live (JB.vmc_jb_consume j1)) s ss) as [-> Hpp];
      [by rewrite <- Hp2|done|done|].
    destruct (take_slot nb c s (clk 1%nat)) as [c1|] eqn:Ec; [|done].
    cbn [mbind option_bind] in *.
    destruct (IH fuel (fun k => clk (S (S k))) (JB.vmc_jb_consume j1) c1 c')
      as (j' & Hrun & Hwf' & Hl' & Hn' & Ht'); try done.
    + intros k. apply Forall_lookup. intros m u Hm Hv.
      assert (u ∈ JB.live j) as [_ [q Hq]]%JB.live_elem.
      { rewrite Hp2. right. apply JB.live_elem. eauto. }
      unfold JB.aged. rewrite Ht2. exact (Forall_lookup_1 _ _ _ _ (Ha (S (S k))) Hq Hv).
    + cbn in Hf. lia.
    + exists j'. split_and!; [done..| |by rewrite Ht', Ht2].
      rewrite Hn'. unfold next_after. rewrite last_cons. destruct (last ss); [done|exact Hn2].
Qed.

(** ** The drain loop feeds the assembler *)

(** A buffered datagram that carries one chunk. *)
Definition carries (ts : Z) (s : JB.vmc_jb_slot) (i : feed_in) : Prop :=
  Z.land (JB.flags s) VMC_PROTO_FLAG_FRAGMENTED <> 0 /\ JB.ts_us s = ts /\
  JB.len s = 4 + zlen (f_chunk i) /\ 0 <= f_id i < 65536 /\ 0 <= f_index i < 32768 /\
  slice (JB.storage s) 0 (JB.len s) = Some (frag_payload (f_id i) (f_index i) (f_last i) (f_chunk i)).

Lemma slice_head {A} (l r : list A) n : slice l 0 n = Some r -> exists k, l = r ++ k.
Proof.
  unfold slice. case_decide; [|done]. intros [= <-]. exists (drop (Z.to_nat n) l).
  by rewrite take_drop.
Qed.

Lemma frag_word_small j last : 0 <= j < 32768 ->
  frag_word j last = Z.lor j (if last then VMC_VIDEO_FRAG_LAST else 0).
Proof.
  intros Hj. unfold frag_word. rewrite (u16_small j) by lia. apply u16_small.
  assert (Z.lor j (if last then VMC_VIDEO_FRAG_LAST else 0) = j + (if last then 1 else 0) * 2 ^ 15) as ->.
  { rewrite <- (lor_shiftl_add j _ 15) by lia. by destruct last. }
  destruct last; lia.
Qed.

Lemma frag_unpack fid j last rest : 0 <= fid < 65536 -> 0 <= j < 32768 ->
  vmc_video_frag_hdr_unpack ((bytes16 fid ++ bytes16 (frag_word j last)) ++ rest)
  = Some (fid, j, last).
Proof.
  intros Hf Hj.
  destruct (frag_header_roundtrip (replicate 4 0) fid j last) as (o & Ho & Hu & _); [done|done|done|].
  rewrite <- frag_word_small, frag_pack in Ho by done. injection Ho as <-. exact Hu.
Qed.

Lemma feed_prefix a fid idx last c rest :
  vmc_frag_feed (Some a) fid idx last (Some (c ++ rest)) (zlen c) = feed1 a (mk_feed fid idx last c).
Proof.
  unfold feed1, vmc_frag_feed. cbn [f_id f_index f_last f_chunk].
  rewrite !decide_False by (by intros [_ ?]). cbv zeta.
  change (default [] (Some (c ++ rest))) with (c ++ rest). change (default [] (Some c)) with c.
  assert (slice c 0 (zlen c) = Some c) as -> by (rewrite <- (app_nil_r c) at 1; apply slice_prefix).
  rewrite slice_prefix, (decide_False (P := _ /\ Some c = None)) by (by intros [_ ?]). reflexivity.
Qed.

(** The bookkeeping of a frame's first chunk. *)
Definition arrive (c : client) (fid arrival : Z) : client :=
  if decide (fid <> cur_fid c)
  then c <| cur_fid := fid |> <| frame_arrival_us := arrival |> else c.

Lemma arrive_same c fid a : frag (arrive c fid a) = frag c /\ outs (arrive c fid a) = outs c /\
  video_frame_count (arrive c fid a) = video_frame_count c.
Proof. unfold arrive. by case_decide. Qed.

Lemma take_carried nb ts c s i arrival n a :
  carries ts s i -> feed1 (frag c) i = Some (VMC_OK, n, Some a) ->
  take_slot nb c s arrival =
    let c := arrive c (f_id i) arrival in
    if decide (n > 0) then
      au ← slice (buf a) 0 n;
      Some (c <| frag := a <| buf := nb (video_frame_count c) |> |>
              <| video_frame_count := u32 (video_frame_count c + 1) |>
              <| outs := outs c ++ [Published au ts (video_frame_count c)] |>)
    else Some (c <| frag := a |>).
Proof.
  intros (Hfl & Hts & Hlen & Hid & Hidx & Hsl) Hf. unfold take_slot.
  rewrite decide_True by done.
  destruct (slice_head _ _ _ Hsl) as [rest Hst]. unfold frag_payload in Hst.
  rewrite Hst, <- app_assoc, frag_unpack by done.
  pose proof (zlen_nonneg (f_chunk i)). rewrite decide_True by lia. cbv zeta.
  fold (arrive c (f_id i) arrival). rewrite (proj1 (arrive_same _ _ _)).
  change (drop 4 ((bytes16 (f_id i) ++ bytes16 (frag_word (f_index i) (f_last i))) ++ f_chunk i ++ rest))
    with (f_chunk i ++ rest).
  replace (JB.len s - 4) with (zlen (f_chunk i)) by lia. rewrite feed_prefix.
  replace (mk_feed _ _ _ _) with i by (by destruct i). rewrite Hf, Hts.
  destruct (decide (n > 0)).
  - by rewrite decide_True.
  - by rewrite decide_False by (by intros [_ ?]).
Qed.

Lemma take_feeds nb ts ins : forall ss c clk a' n au,
  Forall2 (carries ts) ss ins -> ins <> [] ->
  feed_all (frag c) ins = Some (replicate (length ins - 1) (VMC_OK, 0) ++ [(VMC_OK, n)], a') ->
  n > 0 -> slice (buf a') 0 n = Some au ->
  exists c', take_slots nb c ss clk = Some c' /\
    outs c' = outs c ++ [Published au ts (video_frame_count c)] /\
    frag c' = a' <| buf := nb (video_frame_count c) |> /\
    video_frame_count c' = u32 (video_frame_count c + 1).
Proof.
  induction ins as [|i ins IH]; intros ss c clk a' n au Hss Hne Hrun Hn Hau; [done|].
  inversion_clear Hss as [|s ? ss' ? Hc Hss']. cbn [feed_all] in Hrun.
  destruct (feed1 (frag c) i) as [[[st m] [a1|]]|] eqn:Ef; cbn [mbind option_bind] in Hrun; try done.
  destruct (feed_all a1 ins) as [[rs a2]|] eqn:Er; cbn [mbind option_bind] in Hrun; [|done].
  destruct (arrive_same c (f_id i) (clk 1%nat)) as (_ & Ho & Hct).
  cbn [take_slots]. destruct ins as [|i2 ins].
  - cbn in Er. injection Er as <- <-. cbn in Hrun. injection Hrun as -> -> ->.
    inversion_clear Hss'. rewrite (take_carried _ _ _ _ _ _ _ _ Hc Ef). cbv zeta.
    rewrite decide_True, Hau by done. cbn [mbind option_bind take_slots]. eexists. split; [done|].
    rewrite Ho, Hct. done.
  - replace (length (i :: i2 :: ins) - 1)%nat with (S (length (i2 :: ins) - 1)) in Hrun by (cbn; lia).
    cbn [replicate app] in Hrun. injection Hrun as -> -> -> ->.
    rewrite (take_carried _ _ _ _ _ _ _ _ Hc Ef). cbv zeta. rewrite decide_False by lia.
    cbn [mbind option_bind].
    set (c0 := arrive c (f_id i) (clk 1%nat)) in *.
    destruct (IH ss' (c0 <| frag := a1 |>) (fun k => clk (S (S k))) a' n au)
      as (c' & Ht & Ho' & Hf' & Hc'); try done.
    exists c'. change (outs (c0 <| frag := a1 |>)) with (outs c0) in Ho'.
    change (video_frame_count (c0 <| frag := a1 |>)) with (video_frame_count c0) in Ho', Hf', Hc'.
    rewrite Ho, Hct in *. done.
Qed.

(** ** Reception of the datagrams of one access unit *)

(** A datagram by its sequence number and its chunk. *)
Definition dgram (is_key : bool) (ts : Z) (p : Z * feed_in) : list Z :=
  frag_dgram is_key ts (f_id p.2) p.1 (f_index p.2) (f_last p.2) (f_chunk p.2).

Definition chunk_ok (p : Z * feed_in) : Prop :=
  0 <= p.1 < 4294967296 /\ 0 <= f_id p.2 < 65536 /\ 0 <= f_index p.2 < 32768 /\
  bytes (f_chunk p.2) /\ 0 < zlen (f_chunk p.2) <= 1400.

(** The slot that keeps what arrived. *)
Definition arrived (ts : Z) (a : Z * feed_in * Z * Z) (s : JB.vmc_jb_slot) : Prop :=
  let '(p, now, _) := a in
  carries ts s p.2 /\ JB.seq s = p.1 /\ JB.recv_us s = now /\ JB.valid s = true.

Lemma live_all_valid j : JB.jb_wf j ->
  (forall i s, JB.slots j !! i = Some s -> JB.valid s = true) -> length (JB.live j) = 256%nat.
Proof.
  intros Hwf Hall. pose proof (JB.wf_slots j Hwf) as Hl. unfold zlen, JB.VMC_JB_MAX_SLOTS in Hl.
  assert (JB.live j = JB.slots j) as ->; [|lia].
  unfold JB.live. assert (Forall (fun s => JB.valid s = true) (JB.slots j)) as Hf
    by (apply Forall_lookup; exact Hall).
  clear -Hf. induction Hf as [|s l Hs _ IH]; [done|]. by rewrite filter_cons_True, IH.
Qed.

Lemma frag_payload_bytes fid j last c : bytes c -> bytes (frag_payload fid j last c).
Proof. intros Hc. unfold frag_payload. rewrite !bytes_app. split_and!; try done; apply bytes16_bytes. Qed.

Lemma rx_one is_key ts j p now now' :
  JB.jb_wf j -> chunk_ok p -> 0 <= ts < 4294967296 ->
  ~ JB.buffered j p.1 -> JB.in_window j p.1 -> (length (JB.live j) < 256)%nat ->
  exists j' s, rx_video j (dgram is_key ts p) (zlen (dgram is_key ts p)) now now' = Some j' /\
    JB.jb_wf j' /\ JB.live j' ≡ₚ s :: JB.live j /\ arrived ts (p, now, now') s /\
    JB.next_seq j' = JB.next_seq (JB.rebase j p.1) /\ JB.target_delay_us j' = JB.target_delay_us j.
Proof.
  intros Hwf (Hsq & Hid & Hidx & Hb & Hc) Hts Hnb Hw Hl. destruct p as [sq i]. cbn [fst snd] in *.
  unfold rx_video, dgram, frag_dgram. cbn [fst snd].
  set (h := mk_header _ _ _ _ _ _ _ _ _). set (pay := frag_payload _ _ _ _).
  assert (Hz : zlen pay = 4 + zlen (f_chunk i)) by apply frag_payload_zlen.
  assert (Hh : header_wf h) by (apply frag_header_wf; lia).
  pose proof (decode_packet h pay [] (zlen (packet h pay)) Hh eq_refl) as Hd.
  rewrite app_nil_r in Hd. rewrite Hd; [|by apply frag_payload_bytes|done|].
  2: { rewrite packet_zlen. change (payload_len h) with (4 + zlen (f_chunk i)).
       change (zlen (@nil Z)) with 0. lia. }
  cbn [mbind option_bind]. set (h' := h <| crc := _ |>).
  change (stream h') with VMC_PROTO_STREAM_VIDEO. change (seq h') with sq. change (ts_us h') with ts.
  change (flags h') with (frag_flags is_key). change (payload_len h') with (4 + zlen (f_chunk i)).
  rewrite decide_False by (by intros [?|?]). cbv zeta.
  assert (drop (Z.to_nat 17) (packet h pay) = pay) as ->.
  { rewrite <- (app_nil_r (packet h pay)), packet_split, app_nil_r, app_assoc.
    by apply drop_app_length'. }
  destruct (JB.push_spec j sq ts VMC_PROTO_STREAM_VIDEO (frag_flags is_key) pay (4 + zlen (f_chunk i)) now)
    as (r & j' & Hpush & Hwf' & Hn & Ht & _ & Hcase); [done|done|lia|lia|].
  rewrite Hpush.
  destruct Hcase as [[? _]|[(_ & ? & _)|[(_ & _ & Hall & _)|(_ & _ & -> & k & s & s' & Hk & Hv & Hs & Hh' & _)]]];
    [done|done|apply live_all_valid in Hall; [lia|done]|].
  rewrite decide_False by (by intros [? _]).
  exists j', s'. destruct Hh' as (E1 & E2 & E3 & E4 & E5 & E6 & E7 & E8 & E9).
  unfold JB.VMC_JB_PAYLOAD_CAP in E8. rewrite Z.min_l in E8 by lia.
  split_and!; try done.
  - unfold JB.live. rewrite Hs. by eapply JB.live_insert.
  - unfold arrived, carries. cbn [fst snd]. split_and!; try done; try lia.
    + rewrite E4. by destruct is_key.
    + rewrite E9, E8. f_equal. apply take_ge.
      fold pay. unfold zlen in *. lia.
Qed.

Definition arrival_pkt (is_key : bool) (ts : Z) (a : Z * feed_in * Z * Z) : list Z * Z * Z :=
  let '(p, now, now') := a in (dgram is_key ts p, now, now').

Definition arrival_seq (a : Z * feed_in * Z * Z) : Z := a.1.1.1.

(** The playout position is free, or within the window that starts at [v]. *)
Definition positioned (v : Z) (j : JB.vmc_jitter_buffer) : Prop :=
  JB.stats_pushed j = 0 \/ JB.dist v (JB.next_seq j) < 256.

Lemma positioned_window v j sq :
  positioned v j -> JB.dist v sq < 256 -> JB.in_window j sq.
Proof.
  intros Hp Hsq. unfold JB.in_window, JB.rebase, JB.VMC_JB_MAX_SLOTS.
  assert (0 <= JB.dist v sq) by apply u32_range.
  destruct (decide (JB.stats_pushed j = 0)) as [_|Hn].
  - cbn [JB.next_seq upd_field]. change (JB.next_seq (j <| JB.next_seq := sq |>)) with sq.
    rewrite (JB.seq_cmp_dist v) by lia. lia.
  - destruct Hp as [?|Hp]; [done|]. assert (0 <= JB.dist v (JB.next_seq j)) by apply u32_range.
    rewrite (JB.seq_cmp_dist v) by lia. lia.
Qed.

Lemma rx_window is_key ts v arr : forall j,
  JB.jb_wf j -> 0 <= ts < 4294967296 -> positioned v j ->
  Forall (fun a => chunk_ok a.1.1 /\ JB.dist v (arrival_seq a) < 256) arr ->
  NoDup (arrival_seq <$> arr) ->
  (forall a s, a ∈ arr -> s ∈ JB.live j -> JB.seq s <> arrival_seq a) ->
  (length (JB.live j) + length arr <= 256)%nat ->
  exists j' ss, rx_all j (arrival_pkt is_key ts <$> arr) = Some j' /\ JB.jb_wf j' /\
    JB.live j' ≡ₚ ss ++ JB.live j /\ Forall2 (arrived ts) arr ss /\
    JB.target_delay_us j' = JB.target_delay_us j.
Proof.
  induction arr as [|[[p now] now'] arr IH]; intros j Hwf Hts Hpos Harr Hnd Hnew Hlen;
    cbn [fmap list_fmap rx_all arrival_pkt].
  { by exists j, []. }
  apply Forall_cons in Harr as [[Hp Hd] Harr]. unfold arrival_seq in Hd. cbn [fst] in Hp, Hd.
  apply NoDup_cons in Hnd as [Hni Hnd].
  destruct (rx_one is_key ts j p now now') as (j1 & s & -> & Hwf1 & Hl1 & Ha & Hn1 & Ht1); try done.
  { intros (k & t & Hk & Hv & Ht). apply (Hnew (p, now, now') t); [left|by apply JB.live_elem; eauto|done]. }
  { by eapply positioned_window. }
  { cbn in Hlen. lia. }
  cbn [mbind option_bind].
  destruct (IH j1) as (j' & ss & -> & Hwf' & Hl' & Hf & Ht'); try done.
  - right. rewrite Hn1. unfold JB.rebase. case_decide; [done|]. by destruct Hpos.
  - intros a t Hin Hlt. rewrite Hl1 in Hlt. apply elem_of_cons in Hlt as [-> | Hlt].
    + destruct Ha as (_ & -> & _). intros E. apply Hni.
      change (arrival_seq (p, now, now')) with (p.1). rewrite E. by apply list_elem_of_fmap_2.
    + apply Hnew; [by right|done].
  - apply Permutation_length in Hl1. rewrite Hl1. cbn in *. lia.
  - exists j', (s :: ss). split_and!; try done.
    + rewrite Hl', Hl1. cbn. by rewrite Permutation_middle.
    + by constructor.
    + by rewrite Ht'.
Qed.

(** ** The chunks of one access unit, by sequence number *)

Fixpoint au_pairs (fid sq j : Z) (cs : list (list Z)) : list (Z * feed_in) :=
  match cs with
  | [] => []
  | c :: cs =>
    (sq, mk_feed fid (u16 j) (bool_decide (cs = [])) c) :: au_pairs fid (u32 (sq + 1)) (j + 1) cs
  end.

Lemma au_pairs_dgrams is_key ts fid cs : forall sq j,
  au_dgrams is_key ts fid sq j cs = dgram is_key ts <$> au_pairs fid sq j cs.
Proof.
  induction cs as [|c cs IH]; intros sq j; [done|]. cbn [au_dgrams au_pairs fmap list_fmap].
  rewrite IH. f_equal. unfold dgram, frag_dgram, frag_payload, frag_word. cbn [fst snd f_id f_index f_last f_chunk].
  by rewrite (u16_small (u16 j)) by apply u16_range.
Qed.

Lemma au_pairs_feeds fid cs : forall sq j, snd <$> au_pairs fid sq j cs = au_feeds fid j cs.
Proof.
  induction cs as [|c cs IH]; intros sq j; [done|]. cbn [au_feeds au_pairs fmap list_fmap].
  by rewrite IH.
Qed.

Lemma au_pairs_length fid cs : forall sq j, length (au_pairs fid sq j cs) = length cs.
Proof. induction cs as [|c cs IH]; intros sq j; [done|]. cbn. by rewrite IH. Qed.

(** Sequence numbers count up from [v], across the wrap. *)
Lemma au_pairs_sorted v fid cs : forall sq j k,
  0 <= sq < 4294967296 -> JB.dist v sq = k -> 0 <= k -> k + zlen cs <= 256 ->
  StronglySorted (fun x y => JB.dist v x < JB.dist v y) (fst <$> au_pairs fid sq j cs) /\
  Forall (fun x => k <= JB.dist v x < 256) (fst <$> au_pairs fid sq j cs).
Proof.
  induction cs as [|c cs IH]; intros sq j k Hsq Hk H0 Hl; [split; constructor|].
  rewrite zlen_cons in Hl. pose proof (zlen_nonneg cs). cbn [au_pairs fmap list_fmap fst].
  destruct (IH (u32 (sq + 1)) (j + 1) (k + 1)) as [Hs Hf];
    [apply u32_range|unfold JB.dist in *; wrap_lia|lia|lia|].
  split; constructor; try done; try lia.
  all: eapply Forall_impl; [done|]; cbn; lia.
Qed.

Lemma au_pairs_last fid cs : forall sq j, cs <> [] -> 0 <= sq < 4294967296 ->
  exists p, last (au_pairs fid sq j cs) = Some p /\ u32 (p.1 + 1) = u32 (sq + zlen cs).
Proof.
  induction cs as [|c cs IH]; intros sq j Hne Hsq; [done|]. cbn [au_pairs].
  rewrite last_cons, zlen_cons. destruct cs as [|c2 cs]; [by eexists|].
  destruct (IH (u32 (sq + 1)) (j + 1)) as (p & Hp & Hq); [done|apply u32_range|].
  rewrite Hp. exists p. split; [done|]. rewrite Hq. pose proof (zlen_nonneg (c2 :: cs)). wrap_lia.
Qed.

Lemma au_pairs_ok fid cs : forall sq j,
  0 <= sq < 4294967296 -> 0 <= fid < 65536 -> 0 <= j -> j + zlen cs <= 32768 ->
  Forall (fun c => 0 < zlen c <= 1400) cs -> bytes (concat cs) ->
  Forall chunk_ok (au_pairs fid sq j cs).
Proof.
  induction cs as [|c cs IH]; intros sq j Hsq Hf Hj Hl Hc Hb; [constructor|].
  rewrite zlen_cons in Hl. pose proof (zlen_nonneg cs). cbn [concat] in Hb.
  apply bytes_app in Hb as [Hb1 Hb2]. inversion_clear Hc. cbn [au_pairs]. constructor.
  - unfold chunk_ok. cbn [fst snd f_id f_index f_chunk]. rewrite u16_small by lia.
    split_and!; done || lia.
  - apply IH; done || apply u32_range || lia.
Qed.

(** ** Orders of arrival *)

Definition pkt_of (a : list Z * Z * Z) : list Z := a.1.1.
Definition pair_of (a : Z * feed_in * Z * Z) : Z * feed_in := a.1.1.

Lemma arrivals_of is_key ts (ps : list (Z * feed_in)) : forall arrivals : list (list Z * Z * Z),
  pkt_of <$> arrivals = dgram is_key ts <$> ps ->
  exists arr : list (Z * feed_in * Z * Z),
    arrival_pkt is_key ts <$> arr = arrivals /\ pair_of <$> arr = ps.
Proof.
  induction ps as [|p ps IH]; intros [|[[q n] n'] arrivals] H; try done; [by exists []|].
  cbn in H. injection H as -> H. destruct (IH arrivals H) as (arr & <- & <-).
  by exists ((p, n, n') :: arr).
Qed.

Lemma Forall2_reorder {A B} (R : A -> B -> Prop) l k : l ≡ₚ k -> forall l',
  Forall2 R l l' -> exists k', l' ≡ₚ k' /\ Forall2 R k k'.
Proof.
  induction 1 as [|x l k _ IH|x y l|l k m _ IH1 _ IH2]; intros l' H.
  - inversion_clear H. by exists [].
  - inversion_clear H as [|? x' ? l1 Hx Hl]. destruct (IH l1 Hl) as (k' & Hp & Hk).
    exists (x' :: k'). split; [by rewrite Hp|by constructor].
  - inversion_clear H as [|? x' ? l1 Hx Hl]. inversion_clear Hl as [|? y' ? l2 Hy Hl'].
    exists (y' :: x' :: l2). split; [apply Permutation_swap|by repeat constructor].
  - destruct (IH1 l' H) as (k' & Hp & Hk). destruct (IH2 k' Hk) as (m' & Hp' & Hm).
    exists m'. split; [by rewrite Hp|done].
Qed.

Lemma sorted_slots v ss :
  StronglySorted (fun x y => JB.dist v x < JB.dist v y) (JB.seq <$> ss) -> StronglySorted (before v) ss.
Proof.
  induction ss as [|s ss IH]; intros H; [constructor|]. inversion_clear H as [|? ? Hs Hf].
  constructor; [by apply IH|]. clear -Hf.
  induction ss as [|t ss IH]; [constructor|]. cbn in Hf. inversion_clear Hf. constructor; auto.
Qed.

(** ** One access unit, end to end *)

(** Between two access units, the next one to start at sequence number [v]. *)
Definition client_ready (v : Z) (j : JB.vmc_jitter_buffer) (c : client) : Prop :=
  JB.jb_wf j /\ JB.live j = [] /\ positioned v j /\ asm_wf (frag c) /\ started (frag c) = false.

Definition datagram_ok (v : Z) (p : Z * feed_in) : Prop := chunk_ok p /\ JB.dist v p.1 < 256.

(** Reception of the datagrams [ps], in any order. *)
Lemma rx_permuted is_key ts v ps arrivals j :
  JB.jb_wf j -> JB.live j = [] -> positioned v j -> 0 <= ts < 4294967296 ->
  Forall (datagram_ok v) ps -> NoDup (fst <$> ps) -> (length ps <= 256)%nat ->
  pkt_of <$> arrivals ≡ₚ dgram is_key ts <$> ps ->
  exists j1 ss, rx_all j arrivals = Some j1 /\ JB.jb_wf j1 /\ JB.live j1 ≡ₚ ss /\
    Forall2 (fun p s => carries ts s p.2 /\ JB.seq s = p.1 /\
               exists a, a ∈ arrivals /\ JB.recv_us s = a.1.2) ps ss /\
    JB.target_delay_us j1 = JB.target_delay_us j.
Proof.
  intros Hwf Hl Hpos Hts Hok Hnd Hlen Hperm.
  destruct (Permutation_map_inv _ _ Hperm) as (ps' & Heq & Hps).
  destruct (arrivals_of is_key ts ps' arrivals Heq) as (arr & <- & <-).
  destruct (rx_window is_key ts v arr j) as (j1 & ss & Hrx & Hwf1 & Hl1 & Hf & Ht); try done.
  - rewrite Hps in Hok. rewrite (Forall_fmap pair_of) in Hok. exact Hok.
  - rewrite Hps, <- list_fmap_compose in Hnd. exact Hnd.
  - intros a s _. rewrite Hl, elem_of_nil. done.
  - rewrite Hl. apply Permutation_length in Hps. rewrite length_fmap in Hps. cbn. lia.
  - rewrite Hl, app_nil_r in Hl1. rewrite Hrx.
    assert (Hf2 : Forall2 (fun p s => carries ts s p.2 /\ JB.seq s = p.1 /\
      exists a, a ∈ arrival_pkt is_key ts <$> arr /\ JB.recv_us s = a.1.2) (pair_of <$> arr) ss).
    { apply Forall2_fmap_l. apply Forall2_same_length_lookup_2.
      { by eapply Forall2_length. }
      intros k [[p n] n'] s Ha Hs. destruct (Forall2_lookup_lr _ _ _ _ _ _ Hf Ha Hs) as (H1 & H2 & H3 & _).
      cbn. split_and!; try done. exists (arrival_pkt is_key ts (p, n, n')). split; [|by rewrite H3].
      apply list_elem_of_fmap_2. by eapply list_elem_of_lookup_2. }
    symmetry in Hps. destruct (Forall2_reorder _ _ _ Hps _ Hf2) as (ss2 & Hp2 & Hf3).
    exists j1, ss2. split_and!; try done. by rewrite Hl1.
Qed.

(** What the slots of one access unit make the assembler do. *)
Lemma take_frame nb ts fid sq cs ss c clk :
  Forall2 (carries ts) ss (snd <$> au_pairs fid sq 0 cs) -> cs <> [] -> 0 < zlen (concat cs) ->
  asm_wf (frag c) -> started (frag c) = false -> zlen (concat cs) <= cap (frag c) ->
  cap (frag c) <= zlen (nb (video_frame_count c)) ->
  exists c', take_slots nb c ss clk = Some c' /\
    outs c' = outs c ++ [Published (concat cs) ts (video_frame_count c)] /\
    video_frame_count c' = u32 (video_frame_count c + 1) /\
    asm_wf (frag c') /\ started (frag c') = false /\ cap (frag c') = cap (frag c).
Proof.
  intros Hss Hne Hpos Hwf Hst Hcap Hnb. rewrite au_pairs_feeds in Hss.
  destruct (frag_reassembles fid cs (frag c)) as (a' & Hrun & Hs & Hsl & Hwf' & Hc'); auto.
  destruct (take_feeds nb ts (au_feeds fid 0 cs) ss c clk a' (zlen (concat cs)) (concat cs))
    as (c' & Ht & Ho & Hf & Hn); try done.
  { by destruct cs. }
  { rewrite Hrun. rewrite <- (au_pairs_feeds fid cs sq), length_fmap, au_pairs_length. done. }
  { lia. }
  exists c'. rewrite Hf. split_and!; try done.
  destruct Hwf' as (? & ? & ? & ?). unfold asm_wf. cbn. split_and!; try done; lia.
Qed.

Lemma dist_self v : JB.dist v v = 0.
Proof. unfold JB.dist. by rewrite Z.sub_diag. Qed.

Lemma au_datagrams_ok v fid cs :
  0 <= v < 4294967296 -> 0 <= fid < 65536 -> zlen cs <= 256 ->
  Forall (fun c => 0 < zlen c <= 1400) cs -> bytes (concat cs) ->
  let ps := au_pairs fid v 0 cs in
  Forall (datagram_ok v) ps /\ NoDup (fst <$> ps) /\ (length ps <= 256)%nat /\
  StronglySorted (fun x y => JB.dist v x < JB.dist v y) (fst <$> ps).
Proof.
  intros Hv Hf Hl Hc Hb ps.
  destruct (au_pairs_sorted v fid cs v 0 0) as [Hs Hd]; [done|apply dist_self|lia|lia|].
  pose proof (au_pairs_ok fid cs v 0 Hv Hf ltac:(lia) ltac:(lia) Hc Hb) as Hok. fold ps in Hs, Hd, Hok.
  split_and!; [|eapply sorted_nodup, Hs; cbn; lia| |done].
  - apply Forall_fmap in Hd. apply Forall_forall. intros p Hp. unfold datagram_ok.
    rewrite Forall_forall in Hd, Hok. split; [by apply Hok|]. apply (Hd p Hp).
  - unfold ps. rewrite au_pairs_length. unfold zlen in Hl. lia.
Qed.

(** C1. End to end over UDP: when every datagram of an access unit of 1401 to
    358400 bytes arrives, in any order, and the playout delay passes, the
    client publishes to its decoder exactly the access unit the sender was
    given, once, with its time stamp and the next frame index, having decoded,
    reordered and reassembled its fragments within 257 rounds of the drain
    loop; and sender and client are ready for the next access unit. No access
    leaves an object on the way. *)
Theorem udp_video_end_to_end leaves nb cx pkt data is_key ts j c :
  (forall sq, leaves sq = true) -> have_client cx = true -> 0 <= video_seq cx < 4294967296 ->
  0 <= ts < 4294967296 -> bytes data -> 1400 < zlen data <= 358400 -> zlen pkt = SIM_PKT ->
  client_ready (video_seq cx) j c -> zlen data <= cap (frag c) ->
  cap (frag c) <= zlen (nb (video_frame_count c)) ->
  exists ds cx', send_au leaves cx pkt data is_key ts = Some (ds, cx') /\
    forall arrivals clk, pkt_of <$> arrivals ≡ₚ ds ->
      (forall k a, a ∈ arrivals -> JB.target_delay_us j <= u64 (clk k - a.1.2)) ->
      exists j1 j' c', rx_all j arrivals = Some j1 /\
        drain_video nb 257 clk j1 c = Some (j', c') /\
        outs c' = outs c ++ [Published data ts (video_frame_count c)] /\
        client_ready (video_seq cx') j' c'.
Proof.
  intros Hleaves Hcl Hv Hts Hb Hlen Hpkt (Hwf & Hl & Hpos & Hwfa & Hst) Hcap Hnb.
  set (fid := u16 (Z.land (video_seq cx) 0xFFFF)).
  destruct (send_chunks_spec leaves is_key ts fid data (S (length data)) cx pkt 0 0)
    as (cs & Hne & Hcat & Hcs & Hn & Hsend); try done; [lia|unfold zlen in *; lia|].
  change (drop (Z.to_nat 0) data) with data in Hcat.
  assert (Hn256 : zlen cs <= 256) by lia. pose proof (zlen_nonneg cs).
  exists (au_dgrams is_key ts fid (video_seq cx) 0 cs), (cx <| video_seq := u32 (video_seq cx + zlen cs) |>).
  split.
  { unfold send_au. rewrite Hcl. cbn [negb].
    unfold SIM_CHUNK, VMC_VIDEO_FRAG_CHUNK in *. rewrite decide_False by lia. exact Hsend. }
  intros arrivals clk Harr Hclk. rewrite au_pairs_dgrams in Harr. rewrite <- Hcat in Hb.
  destruct (au_datagrams_ok (video_seq cx) fid cs) as (Hok & Hnd & Hl256 & Hsorted);
    [done|apply u16_range|done..|].
  destruct (rx_permuted is_key ts (video_seq cx) _ arrivals j Hwf Hl Hpos Hts Hok Hnd Hl256 Harr)
    as (j1 & ss & Hrx & Hwf1 & Hl1 & Hf & Ht1).
  destruct (take_frame nb ts fid (video_seq cx) cs ss c clk)
    as (c' & Htake & Ho & Hct & Hwf' & Hst' & Hcap'); rewrite ?Hcat; try done; [|lia|].
  { apply Forall2_fmap_r, Forall2_flip. eapply Forall2_impl; [exact Hf|]. by intros p s (? & _). }
  assert (Hseqs : JB.seq <$> ss = fst <$> au_pairs fid (video_seq cx) 0 cs).
  { clear -Hf. induction Hf as [|p s ps ss (_ & E & _) _ IH]; [done|]. cbn. by rewrite E, <- IH. }
  assert (Hslot : forall k s, JB.slots j1 !! k = Some s -> JB.valid s = true ->
    JB.dist (video_seq cx) (JB.seq s) < 256 /\ exists a, a ∈ arrivals /\ JB.recv_us s = a.1.2).
  { intros k s Hk Hvs. assert (s ∈ ss) as [m Hm]%list_elem_of_lookup
      by (rewrite <- Hl1; apply JB.live_elem; eauto).
    destruct (Forall2_lookup_r _ _ _ _ _ Hf Hm) as (p & Hp & _ & Es & Ea). split; [|done].
    rewrite Es. by apply (Forall_lookup_1 _ _ _ _ Hok Hp). }
  destruct (drain_takes nb (video_seq cx) ss 257 clk j1 c c') as (j' & Hd & Hwfj & Hlj & Hnx & _); try done.
  - apply Forall_lookup. intros k s Hk Hvs. unfold JB.near. destruct (Hslot k s Hk Hvs). lia.
  - intros k. apply Forall_lookup. intros m s Hm Hvs. destruct (Hslot m s Hm Hvs) as (_ & a & Ha & Er).
    unfold JB.aged. apply bool_decide_eq_true. rewrite Ht1, Er. specialize (Hclk k a Ha). lia.
  - apply sorted_slots. by rewrite Hseqs.
  - apply Forall2_length in Hf. lia.
  - rewrite Hcat in Ho. exists j1, j', c'. split_and!; try done.
    refine (conj Hwfj (conj Hlj (conj _ (conj Hwf' Hst')))).
    right. rewrite Hnx. unfold next_after. change (video_seq (cx <| video_seq := _ |>)) with (u32 (video_seq cx + zlen cs)).
    destruct (au_pairs_last fid cs (video_seq cx) 0 Hne Hv) as (p & Hp & Eq).
    assert (JB.seq <$> last ss = Some p.1) as Hlast.
    { rewrite <- fmap_last, Hseqs, fmap_last, Hp. done. }
    destruct (last ss) as [s|]; [|done]. cbn in Hlast. injection Hlast as ->.
    rewrite Eq, dist_self. lia.
Qed.

Definition demo_data : list Z := replicate 1400 7 ++ [1; 2; 3].
Definition demo_ctx : sim_ctx := mk_ctx true 4294967295 0 0 0 0 0.
Definition demo_sent : list (list Z) :=
  match send_au (fun _ => true) demo_ctx (replicate 1421 0) demo_data true 5000 with
  | Some (ds, _) => ds
  | None => []
  end.
Definition demo_client : client := mk_client (mk_asm (replicate 2000 0) 2000 0 0 0 false) 0 0 0 [].
Definition demo_arrivals : list (list Z * Z * Z) := (fun d => (d, 1000, 1000)) <$> reverse demo_sent.

(** Two fragments, around the wrap of the sequence numbers, swapped on the way. *)
Lemma udp_video_end_to_end_witness :
  exists j1 j' c', rx_all JB.demo_jb demo_arrivals = Some j1 /\
    drain_video (fun _ => replicate 2000 0) 257 (fun _ => 30000) j1 demo_client = Some (j', c') /\
    outs c' = [Published demo_data 5000 0] /\ client_ready 1 j' c'.
Proof.
  destruct (udp_video_end_to_end (fun _ => true) (fun _ => replicate 2000 0) demo_ctx
              (replicate 1421 0) demo_data true 5000 JB.demo_jb demo_client)
    as (ds & cx' & Hs & Hrun).
  - reflexivity.
  - reflexivity.
  - split; vm_compute; [discriminate|reflexivity].
  - split; vm_compute; [discriminate|reflexivity].
  - apply (bool_decide_unpack _). vm_compute. exact I.
  - split; vm_compute; [reflexivity|discriminate].
  - reflexivity.
  - split; [exact JB.demo_jb_wf|]. split; [reflexivity|]. split; [left; reflexivity|].
    split; [|reflexivity]. apply (bool_decide_unpack _). vm_compute. exact I.
  - vm_compute. discriminate.
  - vm_compute. discriminate.
  - assert (ds = demo_sent) as -> by (unfold demo_sent; by rewrite Hs).
    destruct (Hrun demo_arrivals (fun _ => 30000)) as (j1 & j' & c' & H1 & H2 & H3 & H4).
    + unfold demo_arrivals. rewrite <- list_fmap_compose, list_fmap_id. apply reverse_Permutation.
    + intros k a (d & -> & _)%list_elem_of_fmap. vm_compute. discriminate.
    + exists j1, j', c'. split; [exact H1|]. split; [exact H2|]. split; [exact H3|].
      assert (video_seq cx' = 1) as <-; [|exact H4].
      apply (f_equal (fmap (fun p => video_seq p.2))) in Hs. vm_compute in Hs. by injection Hs.
Defined.

End Udp.
