(* ===== verification/Reader.v ===== *)
(** * The DASH reader of the thin client ([apps/thinclient/main.c], [dash_reader_direct])

    One round of the fetch loop: the window from the manifest, the audio
    segments, the video segments, the recovery when the server's window has
    moved on or its timeline has restarted, the end of the content and the
    pause before the next round. The manifest loader, the HTTP fetches, the
    clocks and the allocator are inputs of the round; what other threads do to
    the timeline in between is a function. [g_run] stays set. *)

From S2P Require Import Prelude FrameSlots Present AvSync.
From Stdlib Require Import Sorted.

#[local] Open Scope Z_scope.

Module Reader.
Import AvSync.

(** What a round does, in order: the FIFO emptied, a segment (initialisation
    segment first) handed to the demuxer, the timeline restarted, the timeline
    anchored anew, with the anchor there was. *)
Inductive event :=
| EFlush
| EAudio (n : Z) (data : list Z)
| EVideo (n : Z) (data : list Z)
| ERestart
| EResync (n old_anchor : Z).

Record reader := mk_reader {
  man : dash_manifest; frame_rate : Z; init_v : list Z; init_a : list Z;
  tl : timeline; lb : live_buffers; last_vnum : Z; last_anum : Z;
  g_prefetch_done : Z; g_eos_reached : bool; g_eos_end_wall_us : Z;
}.

#[export] Instance eta_reader : Eta reader := fun r =>
  mk_reader (man r) (frame_rate r) (init_v r) (init_a r) (tl r) (lb r) (last_vnum r) (last_anum r)
    (g_prefetch_done r) (g_eos_reached r) (g_eos_end_wall_us r).

(** The inputs of a round: the manifest if it could be loaded, with its frame
    rate; the clock; what a fetch of a segment yields ([None] or no byte: it
    failed), how long it takes, whether [malloc] succeeds; the wall clock at a
    resync and after the demultiplexing of a segment. *)
Record round_in := mk_round {
  fresh : option (dash_manifest * Z); now : Z;
  get_a : Z -> option (list Z); get_v : Z -> option (list Z);
  malloc_a : Z -> bool; malloc_v : Z -> bool;
  fetch_us : Z -> Z; resync_wall : Z -> Z; seg_wall : Z -> Z;
  others : timeline -> timeline;
}.

(** A fetch that returns at least one byte. *)
Definition fetched (o : option (list Z)) : option (list Z) :=
  match o with Some (b :: l) => Some (b :: l) | _ => None end.

(** A session starts. *)
Definition session_start (r : reader) : reader :=
  r <| tl := ((tl r) <| g_anchor_wall_us := 0 |> <| g_anchor_seg := 0 |>) |>
    <| g_prefetch_done := 0 |> <| lb := mk_live 0 VMC_TARGET_US VMC_TARGET_US |>
    <| last_vnum := -1 |> <| last_anum := -1 |>.

(** ** Audio *)

(** Where the round starts, and [last_anum]; the FIFO is flushed when segments
    already delivered have been overtaken by the server's window. *)
Definition audio_start (start oldest target last : Z) : Z * Z * list event :=
  let at_ := if decide (last < 0) then oldest else last + 1 in
  let '(at_, last, es) :=
    if decide (at_ < start)
    then (if decide (start > target) then target else start, start - 1,
          if decide (last >= 0) then [EFlush] else [])
    else (at_, last, []) in
  (if decide (at_ > target) then target else at_, last, es).

(** The fuel is the length of the window. *)
Fixpoint audio_loop (fuel : nat) (i : round_in) (init : list Z) (target at_ last : Z) : Z * list event :=
  match fuel with
  | O => (last, [])
  | S fuel =>
    if decide (at_ <= target) then
      if decide (last >= 0 /\ at_ <= last) then (last, []) else
      match fetched (get_a i at_) with
      | None => (last, [])
      | Some seg =>
        if malloc_a i at_ then
          let '(last, es) := audio_loop fuel i init target (at_ + 1) at_ in
          (last, EAudio at_ (init ++ seg) :: es)
        else audio_loop fuel i init target (at_ + 1) last
      end
    else (last, [])
  end.

Definition fetch_audio (i : round_in) (init : list Z) (w : window) (start last : Z) : Z * list event :=
  match init with
  | [] => (last, [])
  | _ =>
    let '(at_, last, es) := audio_start start (audio_oldest w) (audio_target w) last in
    let '(last, es') := audio_loop (Z.to_nat (audio_target w - at_ + 1)) i init (audio_target w) at_ last in
    (last, es ++ es')
  end.

(** ** Video *)

(** The timeline part of [dash_resync]; its effect on slots and queue is in
    [AvSync]. *)
Definition resync_timeline (t : timeline) (n wall : Z) : timeline :=
  (dash_resync t [] Present.queue_init n wall).1.1.

(** The arrival interval of segments. *)
Definition segment_arrived (t : timeline) (wall : Z) : timeline :=
  if decide (g_stream_fps t > 0) then
    let t :=
      if decide (g_last_seg_arrival_wall t <> 0) then
        let interval := i64 (wall - g_last_seg_arrival_wall t) in
        if decide (interval > 50000) then
          t <| g_seg_interval_ewma :=
                 if decide (g_seg_interval_ewma t = 0) then interval
                 else Z.quot (15 * g_seg_interval_ewma t + interval) 16 |>
        else t
      else t in
    t <| g_last_seg_arrival_wall := wall |>
  else t.

Fixpoint video_loop (fuel : nat) (i : round_in) (hi vn : Z) (r : reader)
    : reader * nat * list event :=
  match fuel with
  | O => (r, O, [])
  | S fuel =>
    if decide (vn <= hi) then
      match fetched (get_v i vn) with
      | None => (r, O, [])
      | Some seg =>
        let r := r <| lb := dash_update_live_buffer (lb r) (fetch_us i vn) (i32 (seg_duration (man r))) |> in
        let whole := match init_v r with
                     | [] => Some seg
                     | _ => if malloc_v i vn then Some (init_v r ++ seg) else None
                     end in
        let '(r, es) :=
          match whole with
          | None => (r, [])
          | Some data =>
            let old := g_anchor_wall_us (tl r) in
            let '(t, es) :=
              if decide (old = 0 \/ (last_vnum r >= 0 /\ vn <> last_vnum r + 1))
              then (resync_timeline (tl r) vn (resync_wall i vn), [EResync vn old])
              else (tl r, []) in
            (r <| tl := segment_arrived t (seg_wall i vn) |>, es ++ [EVideo vn data])
          end in
        let '(r, n, es') := video_loop fuel i hi (vn + 1) (r <| last_vnum := vn |>) in
        (r, S n, es ++ es')
      end
    else (r, O, [])
  end.

(** Where the round starts: behind the server's window, it jumps to its start;
    when the edge has fallen behind what was fetched, everything starts over. *)
Definition video_start (w : window) (r : reader) : reader * Z * list event :=
  let start := start_number (man r) in
  let vn := if decide (last_vnum r < 0) then video_target w else last_vnum r + 1 in
  let '(r, vn) := if decide (vn < start) then (r <| last_vnum := start - 1 |>, start) else (r, vn) in
  if decide (last_vnum r >= 0 /\ vfetch_hi w < last_vnum r) then
    (r <| last_vnum := -1 |> <| last_anum := -1 |>
       <| tl := ((tl r) <| g_anchor_wall_us := 0 |> <| g_anchor_seg := 0 |>
                      <| g_audio_start_wall_us := 0 |> <| g_audio_delay_us := 0 |>) |>,
     video_target w, [ERestart])
  else (r, vn, []).

(** ** A round *)

Definition reader_round (r : reader) (i : round_in) : reader * list event :=
  let r := r <| tl := others i (tl r) |> in
  let r := match fresh i with
           | Some (m, rate) => r <| man := m |> <| frame_rate := rate |>
           | None => r
           end in
  let total := total_segments (man r) in
  let w := reader_window (man r) (lb r) (now i) in
  let '(la, es_a) := fetch_audio i (init_a r) w (start_number (man r)) (last_anum r) in
  let r := r <| last_anum := la |> in
  let r := if decide (frame_rate r > 0 /\ frame_rate r <> g_stream_fps (tl r))
           then r <| tl := ((tl r) <| g_stream_fps := frame_rate r |>) |> else r in
  let '(r, vn, es_s) := video_start w r in
  let '(r, n, es_v) := video_loop (Z.to_nat (vfetch_hi w - vn + 1)) i (vfetch_hi w) vn r in
  let r := if decide (n <> O /\ g_prefetch_done r < 3)
           then r <| g_prefetch_done := g_prefetch_done r + 1 |> else r in
  let r := if static_mpd (man r) && bool_decide (total > 0) && bool_decide (last_vnum r >= i32 total - 1)
           then r <| g_eos_reached := true |>
                  <| g_eos_end_wall_us := u64 (g_anchor_wall_us (tl r) + u64 total * u64 (seg_duration (man r))
                                               + g_playout_latency_us (tl r) + 500000) |>
           else r in
  (r, es_a ++ es_s ++ es_v).

(** The rounds of a session; it ends when the end of the content is reached. *)
Fixpoint reader_rounds (r : reader) (ins : list round_in) : reader * list event :=
  match ins with
  | [] => (r, [])
  | i :: ins =>
    let '(r, es) := reader_round r i in
    if g_eos_reached r then (r, es) else
    let '(r, es') := reader_rounds r ins in (r, es ++ es')
  end.

(** ** The order of delivery *)

(** A trace read from left to right: the latest video and audio segments since
    the last restart, and the segment a resync announces. [None]: the trace
    replays or reorders segments, or anchors the timeline where it is anchored
    already, or not at the segment that follows. *)
Definition trace_step (s : Z * Z * option Z) (e : event) : option (Z * Z * option Z) :=
  let '(lv, la, p) := s in
  match e, p with
  | EVideo n _, Some k => if decide (n = k /\ lv < n) then Some (n, la, None) else None
  | _, Some _ => None
  | EVideo n _, None => if decide (lv < n) then Some (n, la, None) else None
  | EAudio n _, None => if decide (la < n) then Some (lv, n, None) else None
  | EFlush, None => Some (lv, la, None)
  | ERestart, None => Some (-1, -1, None)
  | EResync n old, None => if decide (old = 0) then Some (lv, la, Some n) else None
  end.

Fixpoint trace_run (s : Z * Z * option Z) (es : list event) : option (Z * Z * option Z) :=
  match es with
  | [] => Some s
  | e :: es => s ← trace_step s e; trace_run s es
  end.

Lemma trace_run_app s a b : trace_run s (a ++ b) = (s ← trace_run s a; trace_run s b).
Proof.
  revert s. induction a as [|e a IH]; intros s; [done|]. cbn [app trace_run].
  destruct (trace_step s e); cbn [mbind option_bind]; [apply IH|done].
Qed.

(** The trace so far is bounded by what the reader remembers. *)
Definition trace_to (s : Z * Z * option Z) (es : list event) (v a : Z) : Prop :=
  exists lv la, trace_run s es = Some (lv, la, None) /\ -1 <= lv <= v /\ -1 <= la <= a.

Lemma trace_to_app s es es' lv la v a :
  trace_run s es = Some (lv, la, None) -> trace_to (lv, la, None) es' v a -> trace_to s (es ++ es') v a.
Proof. intros H (x & y & Hr & ?). exists x, y. by rewrite trace_run_app, H. Qed.

Lemma fetched_inv o l : fetched o = Some l -> l <> [] /\ o = Some l.
Proof. destruct o as [[|b k]|]; by intros [= <-]. Qed.

Lemma audio_loop_order i init target fuel : forall at_ last lv la,
  -1 <= la <= last -> -1 <= lv -> (last < 0 -> 0 <= at_) ->
  let '(last', es) := audio_loop fuel i init target at_ last in
  last <= last' /\ trace_to (lv, la, None) es lv last'.
Proof.
  induction fuel as [|fuel IH]; intros at_ last lv la Hla Hlv Hat; cbn [audio_loop].
  { split; [lia|]. by exists lv, la. }
  destruct (decide (at_ <= target)); [|split; [lia|by exists lv, la]].
  destruct (decide (last >= 0 /\ at_ <= last)) as [|Hn]; [split; [lia|by exists lv, la]|].
  destruct (fetched (get_a i at_)); [|split; [lia|by exists lv, la]].
  destruct (malloc_a i at_).
  - specialize (IH (at_ + 1) at_ lv at_ ltac:(lia) Hlv ltac:(lia)).
    destruct (audio_loop _ _ _ _ _ _) as [last' es]. destruct IH as (Hl & x & y & Hr & Hx).
    split; [lia|]. exists x, y. split; [|done]. cbn [trace_run trace_step].
    rewrite decide_True by lia. done.
  - apply IH; lia.
Qed.

Lemma fetch_audio_order i init w start last lv la :
  0 <= start <= audio_target w -> start <= audio_oldest w -> -1 <= la <= last -> -1 <= lv ->
  let '(last', es) := fetch_audio i init w start last in trace_to (lv, la, None) es lv last'.
Proof.
  intros Ht Ho Hla Hlv. unfold fetch_audio. destruct init as [|b init]; [by exists lv, la|].
  assert (Hs : let '(at_, last', es) := audio_start start (audio_oldest w) (audio_target w) last in
    -1 <= la <= last' /\ 0 <= at_ /\ trace_run (lv, la, None) es = Some (lv, la, None)).
  { unfold audio_start. repeat case_decide; split_and!; try done; lia. }
  destruct (audio_start _ _ _ _) as [[at_ last'] es]. destruct Hs as (Hl & Hat & Hr).
  pose proof (audio_loop_order i (b :: init) (audio_target w)
    (Z.to_nat (audio_target w - at_ + 1)) at_ last' lv la Hl Hlv ltac:(lia)) as Hloop.
  destruct (audio_loop _ _ _ _ _ _) as [last2 es']. eapply trace_to_app; [exact Hr|apply Hloop].
Qed.

(** In the loop, the next segment follows the last one, or there is none yet. *)
Definition at_next (vn : Z) (r : reader) : Prop :=
  0 <= vn /\ (last_vnum r < 0 \/ vn = last_vnum r + 1).

Lemma video_loop_order i hi fuel : forall vn r lv la,
  at_next vn r -> -1 <= lv <= last_vnum r -> -1 <= la <= last_anum r ->
  let '(r', _, es) := video_loop fuel i hi vn r in
  man r' = man r /\ last_anum r' = last_anum r /\ g_eos_reached r' = g_eos_reached r /\
  trace_to (lv, la, None) es (last_vnum r') (last_anum r').
Proof.
  induction fuel as [|fuel IH]; intros vn r lv la Hn Hlv Hla; cbn [video_loop];
    [split_and!; try done; by exists lv, la|].
  destruct (decide (vn <= hi)); [|split_and!; try done; by exists lv, la].
  destruct (fetched (get_v i vn)) as [sg|]; [|split_and!; try done; by exists lv, la].
  cbv zeta. set (r1 := r <| lb := _ |>).
  change (last_vnum r1) with (last_vnum r). change (tl r1) with (tl r). change (init_v r1) with (init_v r).
  set (whole := match init_v r with [] => _ | _ => _ end). clearbody whole.
  assert (Hlt : lv < vn) by (destruct Hn as (? & [?|?]); lia).
  assert (Hstep : exists r2 es, (match whole with
      | None => (r1, [])
      | Some data =>
        let '(t, es) :=
          if decide (g_anchor_wall_us (tl r) = 0 \/ (last_vnum r >= 0 /\ vn <> last_vnum r + 1))
          then (resync_timeline (tl r) vn (resync_wall i vn), [EResync vn (g_anchor_wall_us (tl r))])
          else (tl r, []) in
        (r1 <| tl := segment_arrived t (seg_wall i vn) |>, es ++ [EVideo vn data])
      end) = (r2, es) /\ man r2 = man r /\ last_anum r2 = last_anum r /\ g_eos_reached r2 = g_eos_reached r /\
      exists lv', trace_run (lv, la, None) es = Some (lv', la, None) /\ -1 <= lv' <= vn).
  { destruct whole as [data|]; [|eexists _, _; split_and!; try done; exists lv; split; [done|lia]].
    destruct (decide _) as [Hd|Hd]; eexists _, _; split_and!; try done; exists vn; (split; [|lia]);
      cbn [app trace_run trace_step].
    - destruct Hd as [Hd|[? ?]]; [|destruct Hn as (_ & [?|?]); lia].
      rewrite decide_True by done. cbn [mbind option_bind trace_step].
      by rewrite decide_True.
    - by rewrite decide_True. }
  destruct Hstep as (r2 & es & Heq & Hm & Ha & He & lv' & Hr & Hlv').
  match goal with |- context [match whole with None => _ | Some _ => _ end] =>
    replace (match whole with None => _ | Some _ => _ end) with (r2, es) end.
  specialize (IH (vn + 1) (r2 <| last_vnum := vn |>) lv' la).
  destruct (video_loop _ _ _ _ _) as [[r' n'] es'].
  destruct IH as (H1 & H2 & H3 & H4).
  - destruct Hn. split; [lia|]. right. done.
  - done.
  - change (last_anum (r2 <| last_vnum := vn |>)) with (last_anum r2). lia.
  - change (man (r2 <| last_vnum := vn |>)) with (man r2) in H1.
    change (last_anum (r2 <| last_vnum := vn |>)) with (last_anum r2) in H2.
    change (g_eos_reached (r2 <| last_vnum := vn |>)) with (g_eos_reached r2) in H3.
    split_and!; try congruence. by eapply trace_to_app.
Qed.

Lemma video_start_order w r lv la :
  0 <= start_number (man r) <= video_target w -> -1 <= lv <= last_vnum r -> -1 <= la <= last_anum r ->
  let '(r', vn, es) := video_start w r in
  at_next vn r' /\ man r' = man r /\ g_eos_reached r' = g_eos_reached r /\
  trace_to (lv, la, None) es (last_vnum r') (last_anum r').
Proof.
  intros Hs Hlv Hla. unfold video_start. cbv zeta.
  set (vn := if decide (last_vnum r < 0) then _ else _).
  assert (Hvn : last_vnum r < 0 /\ vn = video_target w \/ 0 <= last_vnum r /\ vn = last_vnum r + 1).
  { unfold vn. case_decide; lia. }
  clearbody vn. destruct (decide (vn < start_number (man r))) as [Hg|Hg].
  - change (last_vnum (r <| last_vnum := _ |>)) with (start_number (man r) - 1).
    destruct (decide _); unfold at_next; split_and!; try done; try (cbn; lia).
    + by exists (-1), (-1).
    + exists lv, la. cbn. split_and!; done || lia.
  - destruct (decide _); unfold at_next; split_and!; try done; try (cbn; lia).
    + by exists (-1), (-1).
    + by exists lv, la.
Qed.

Lemma reader_round_order r i lv la :
  0 <= start_number (match fresh i with Some (m, _) => m | None => man r end) ->
  -1 <= lv <= last_vnum r -> -1 <= la <= last_anum r ->
  let '(r', es) := reader_round r i in
  man r' = (match fresh i with Some (m, _) => m | None => man r end) /\
  trace_to (lv, la, None) es (last_vnum r') (last_anum r').
Proof.
  intros Hs Hlv Hla. unfold reader_round. cbv zeta.
  set (r1 := r <| tl := _ |>). set (r2 := match fresh i with Some _ => _ | None => r1 end).
  assert (Hr2 : man r2 = (match fresh i with Some (m, _) => m | None => man r end) /\
    last_vnum r2 = last_vnum r /\ last_anum r2 = last_anum r).
  { unfold r2. by destruct (fresh i) as [[m k]|]. }
  destruct Hr2 as (Hm & Hv & Ha). rewrite <- Hm in *. rewrite <- Hv in Hlv. rewrite <- Ha in Hla.
  clearbody r2. clear r1 Hv Ha. set (w := reader_window _ _ _).
  destruct (window_floor (man r2) (lb r2) (now i)) as (Hw1 & Hw2 & Hw3). fold w in Hw1, Hw2, Hw3.
  pose proof (fetch_audio_order i (init_a r2) w (start_number (man r2)) (last_anum r2) lv la
    ltac:(lia) Hw3 Hla ltac:(lia)) as Haud.
  destruct (fetch_audio _ _ _ _ _) as [la' es_a]. destruct Haud as (lv1 & la1 & Hr1 & Hlv1 & Hla1).
  set (r3 := if decide _ then _ else _).
  assert (man r3 = man r2 /\ last_vnum r3 = last_vnum r2 /\ last_anum r3 = la') as (Hm3 & Hv3 & Ha3)
    by (unfold r3; by destruct (decide _)).
  clearbody r3. rewrite <- Hm3 in Hw1.
  pose proof (video_start_order w r3 lv1 la1 ltac:(rewrite <- Hm3 in Hs; lia) ltac:(lia) ltac:(lia)) as Hst.
  destruct (video_start w r3) as [[r4 vn] es_s]. destruct Hst as (Hn & Hm4 & _ & lv2 & la2 & Hr4 & Hlv2 & Hla2).
  pose proof (video_loop_order i (vfetch_hi w) (Z.to_nat (vfetch_hi w - vn + 1)) vn r4 lv2 la2 Hn Hlv2 Hla2) as Hvl.
  destruct (video_loop _ _ _ _ _) as [[r5 n] es_v]. destruct Hvl as (Hm5 & _ & _ & lv3 & la3 & Hr5 & Hl3).
  assert (Htr : trace_run (lv, la, None) (es_a ++ es_s ++ es_v) = Some (lv3, la3, None)).
  { by rewrite trace_run_app, Hr1; cbn [mbind option_bind]; rewrite trace_run_app, Hr4. }
  split; [repeat (case_match || case_decide); cbn; congruence|].
  exists lv3, la3. split; [done|]. repeat (case_match || case_decide); done.
Qed.

Lemma reader_rounds_order ins : forall r lv la,
  0 <= start_number (man r) -> Forall (fun i => forall m k, fresh i = Some (m, k) -> 0 <= start_number m) ins ->
  -1 <= lv <= last_vnum r -> -1 <= la <= last_anum r ->
  let '(r', es) := reader_rounds r ins in trace_to (lv, la, None) es (last_vnum r') (last_anum r').
Proof.
  induction ins as [|i ins IH]; intros r lv la Hs Hin Hlv Hla; cbn [reader_rounds]; [by exists lv, la|].
  apply Forall_cons in Hin as [Hi Hin].
  assert (Hs' : 0 <= start_number (match fresh i with Some (m, _) => m | None => man r end)).
  { destruct (fresh i) as [[m k]|]; [by eapply Hi|done]. }
  pose proof (reader_round_order r i lv la Hs' Hlv Hla) as Hr.
  destruct (reader_round r i) as [r1 es]. destruct Hr as (Hm & lv1 & la1 & Hr & Hlv1 & Hla1).
  destruct (g_eos_reached r1); [by exists lv1, la1|].
  specialize (IH r1 lv1 la1 ltac:(by rewrite Hm) Hin Hlv1 Hla1).
  destruct (reader_rounds r1 ins) as [r' es']. by eapply trace_to_app.
Qed.

(** ** What a round delivers when every fetch succeeds *)

Definition video_of (es : list event) : list (Z * list Z) :=
  omap (fun e => match e with EVideo n d => Some (n, d) | _ => None end) es.
Definition audio_of (es : list event) : list (Z * list Z) :=
  omap (fun e => match e with EAudio n d => Some (n, d) | _ => None end) es.

(** Segments [a .. b], each behind the initialisation segment. *)
Definition segments (init : list Z) (get : Z -> option (list Z)) (a b : Z) : list (Z * list Z) :=
  (fun n => (n, init ++ default [] (get n))) <$> seqZ a (b - a + 1).

Lemma segments_nil init get a b : b < a -> segments init get a b = [].
Proof. intros H. unfold segments. by rewrite seqZ_nil by lia. Qed.

Lemma segments_cons init get a b : a <= b ->
  segments init get a b = (a, init ++ default [] (get a)) :: segments init get (a + 1) b.
Proof.
  intros H. unfold segments. rewrite seqZ_cons by lia. cbn. do 2 f_equal.
  replace (Z.succ a) with (a + 1) by lia. f_equal. lia.
Qed.

Lemma segments_app init get a b c : a <= b + 1 -> b <= c ->
  segments init get a b ++ segments init get (b + 1) c = segments init get a c.
Proof.
  intros H1 H2. unfold segments. rewrite <- fmap_app. f_equal.
  replace (c - a + 1) with (b - a + 1 + (c - (b + 1) + 1)) by lia. rewrite (seqZ_app a (b - a + 1) (c - (b + 1) + 1)) by lia. f_equal. f_equal; lia.
Qed.

Lemma segments_ext init get get' a b : (forall n, a <= n <= b -> get n = get' n) ->
  segments init get a b = segments init get' a b.
Proof. intros H. apply list_fmap_ext. intros i n Hn. apply lookup_seqZ in Hn as [-> Hn]. by rewrite H by lia. Qed.

Lemma segments_forall (P : Z * list Z -> Prop) init get a b :
  (forall n, a <= n <= b -> P (n, init ++ default [] (get n))) -> Forall P (segments init get a b).
Proof. intros H. apply Forall_fmap, Forall_seqZ. intros n Hn. apply H. lia. Qed.

(** The fetches and allocations of segments [lo .. hi] succeed. *)
Definition fetches (get : Z -> option (list Z)) (mal : Z -> bool) (lo hi : Z) : Prop :=
  forall n, lo <= n <= hi -> is_Some (fetched (get n)) /\ mal n = true.

Definition all_fetched (i : round_in) (start : Z) (w : window) : Prop :=
  fetches (get_v i) (malloc_v i) start (vfetch_hi w) /\ fetches (get_a i) (malloc_a i) start (audio_target w).

(** No sound is thrown away and the timeline does not start over. *)
Definition quiet (es : list event) : Prop :=
  Forall (fun e => match e with EFlush | ERestart => False | _ => True end) es.

(** What a session keeps: the manifest, the initialisation segments, the frame
    rate, the duration of a segment, the bounds of its buffers. *)
Definition kept (r r' : reader) : Prop :=
  man r' = man r /\ frame_rate r' = frame_rate r /\ init_v r' = init_v r /\ init_a r' = init_a r /\
  g_eos_reached r' = g_eos_reached r /\ last_anum r' = last_anum r /\
  g_stream_fps (tl r') = g_stream_fps (tl r) /\ g_seg_duration_us (tl r') = g_seg_duration_us (tl r) /\
  (buffers_ok (lb r) -> buffers_ok (lb r')).

#[export] Instance kept_preorder : PreOrder kept.
Proof.
  split; [by intros r; unfold kept|]. intros x y z (?&?&?&?&?&?&?&?&?) (?&?&?&?&?&?&?&?&?).
  unfold kept. split_and!; [congruence..|tauto].
Qed.

Lemma resync_keeps t n wall : g_stream_fps (resync_timeline t n wall) = g_stream_fps t /\
  g_seg_duration_us (resync_timeline t n wall) = g_seg_duration_us t.
Proof. unfold resync_timeline, dash_resync. cbv zeta. by repeat case_decide. Qed.

Lemma arrived_keeps t wall : g_stream_fps (segment_arrived t wall) = g_stream_fps t /\
  g_seg_duration_us (segment_arrived t wall) = g_seg_duration_us t.
Proof. unfold segment_arrived. cbv zeta. by repeat case_decide. Qed.

Lemma video_loop_keeps i hi fuel : forall vn r, kept r (video_loop fuel i hi vn r).1.1.
Proof.
  induction fuel as [|fuel IH]; intros vn r; cbn [video_loop]; [done|].
  destruct (decide (vn <= hi)); [|done]. destruct (fetched (get_v i vn)); [|done]. cbv zeta.
  match goal with |- context [match ?x with None => (?a, []) | Some _ => _ end] => destruct x end.
  - destruct (if decide _ then _ else _) as [t es] eqn:E.
    match goal with |- context [video_loop fuel i hi (vn + 1) ?x] => set (r2 := x) end.
    assert (kept r r2).
    { destruct (arrived_keeps t (seg_wall i vn)), (resync_keeps (tl r) vn (resync_wall i vn)).
      assert (g_stream_fps t = g_stream_fps (tl r) /\ g_seg_duration_us t = g_seg_duration_us (tl r)) as [? ?]
        by (destruct (decide _); injection E as <- _; done).
      unfold kept, r2. cbn. split_and!; try done; try congruence. apply live_buffers_step. }
    specialize (IH (vn + 1) r2). destruct (video_loop _ _ _ _ _) as [[? ?] ?]. by trans r2.
  - match goal with |- context [video_loop fuel i hi (vn + 1) ?x] => set (r2 := x) end.
    assert (kept r r2) by (unfold kept, r2; cbn; split_and!; try done; apply live_buffers_step).
    specialize (IH (vn + 1) r2). destruct (video_loop _ _ _ _ _) as [[? ?] ?]. by trans r2.
Qed.

Lemma video_loop_all i lo hi fuel : forall vn r,
  fetches (get_v i) (malloc_v i) lo hi -> lo <= vn -> (Z.to_nat (hi - vn + 1) <= fuel)%nat -> vn <= hi + 1 ->
  last_vnum r = vn - 1 \/ vn <= hi ->
  let '(r', _, es) := video_loop fuel i hi vn r in
  video_of es = segments (init_v r) (get_v i) vn hi /\ audio_of es = [] /\ last_vnum r' = hi /\ quiet es.
Proof.
  induction fuel as [|fuel IH]; intros vn r Hall Hlo Hf Hvn Hl; cbn [video_loop].
  { rewrite segments_nil by lia. split_and!; try done; [lia|constructor]. }
  destruct (decide (vn <= hi)) as [Hle|Hgt]; [|rewrite segments_nil by lia; split_and!; try done; [lia|constructor]].
  destruct (Hall vn ltac:(lia)) as ([sg Hsg] & Hm). rewrite Hsg. cbv zeta. rewrite Hm.
  apply fetched_inv in Hsg as [_ Hget].
  set (r1 := r <| lb := _ |>). set (whole := match init_v r1 with [] => _ | _ => _ end).
  assert (Hw : whole = Some (init_v r ++ sg)) by (unfold whole; change (init_v r1) with (init_v r); by destruct (init_v r)).
  rewrite Hw. clear whole Hw. destruct (if decide _ then _ else _) as [t es] eqn:Et.
  assert (Hes : video_of es = [] /\ audio_of es = [] /\ quiet es)
    by (destruct (decide _); injection Et as _ <-; unfold quiet; by repeat constructor).
  match goal with |- context [video_loop fuel i hi (vn + 1) ?x] => set (r2 := x) end.
  specialize (IH (vn + 1) r2 Hall ltac:(lia) ltac:(lia) ltac:(lia) ltac:(left; cbn; lia)).
  destruct (video_loop _ _ _ _ _) as [[r' n] es']. change (init_v r2) with (init_v r) in IH.
  destruct IH as (H1 & H2 & H3 & H4). unfold video_of, audio_of, quiet in *. destruct Hes as (He1 & He2 & He3).
  rewrite !omap_app, He1, He2, H1, H2. split_and!; try done.
  - rewrite (segments_cons _ _ vn) by lia. by rewrite Hget.
  - repeat apply Forall_app_2; try done. by repeat constructor.
Qed.

Lemma audio_loop_all i init lo target fuel : forall at_ last,
  fetches (get_a i) (malloc_a i) lo target -> lo <= at_ -> (Z.to_nat (target - at_ + 1) <= fuel)%nat -> (last < 0 \/ last < at_) ->
  let '(last', es) := audio_loop fuel i init target at_ last in
  audio_of es = segments init (get_a i) at_ target /\ video_of es = [] /\ quiet es /\
  last' = if decide (at_ <= target) then target else last.
Proof.
  induction fuel as [|fuel IH]; intros at_ last Hall Hlo Hf Hl; cbn [audio_loop].
  { rewrite segments_nil by lia. split_and!; try done; [constructor|by rewrite decide_False by lia]. }
  destruct (decide (at_ <= target)) as [Hle|Hgt]; [|rewrite segments_nil by lia; split_and!; try done; constructor].
  rewrite decide_False by lia. destruct (Hall at_ ltac:(lia)) as ([sg Hsg] & Hm). rewrite Hsg, Hm.
  apply fetched_inv in Hsg as [_ Hget].
  specialize (IH (at_ + 1) at_ Hall ltac:(lia) ltac:(lia) ltac:(lia)).
  destruct (audio_loop _ _ _ _ _ _) as [last' es]. destruct IH as (H1 & H2 & H3 & H4).
  unfold audio_of, video_of in *. cbn. rewrite H1, H2. split_and!; try done.
  - rewrite (segments_cons _ _ at_) by lia. by rewrite Hget.
  - by constructor.
  - rewrite H4. destruct (decide _); [done|lia].
Qed.

Lemma window_live m b t :
  static_mpd m = false -> 0 < seg_duration m < 2 ^ 31 -> buffers_ok b ->
  let w := reader_window m b t in
  start_number m <= video_target w <= vfetch_hi w /\ start_number m <= audio_oldest w <= audio_target w.
Proof.
  intros Hst Hsd [Hv Ha] w. unfold VMC_PREFETCH_US in *.
  destruct (segments_cover (g_audio_live_buffer_us b) (seg_duration m) ltac:(lia) Hsd) as [_ Hna].
  fold (buffer_segments m (g_audio_live_buffer_us b)) in Hna.
  unfold w. rewrite window_live_form by done. unfold window_at.
  cbn [video_target vfetch_hi audio_oldest audio_target]. lia.
Qed.

Lemma fetch_audio_all i init w start last :
  fetches (get_a i) (malloc_a i) start (audio_target w) -> init <> [] -> start <= audio_oldest w <= audio_target w -> 0 <= start ->
  last <= audio_target w ->
  let '(last', es) := fetch_audio i init w start last in
  audio_of es = segments init (get_a i)
                  (if decide (last < 0) then audio_oldest w else Z.max (last + 1) start) (audio_target w) /\
  video_of es = [] /\ last' = audio_target w /\ (last < 0 \/ start <= last + 1 -> quiet es).
Proof.
  intros Hall Hne Hw Hs Hl. unfold fetch_audio. destruct init as [|b init]; [done|]. set (init' := b :: init).
  unfold audio_start. cbv zeta. set (from := if decide (last < 0) then _ else Z.max _ _).
  destruct (decide (last = audio_target w)) as [->|Hnl].
  - destruct (decide (audio_target w < 0)); [lia|].
    rewrite (decide_False (P := _ + 1 < start)) by lia.
    rewrite (decide_True (P := _ + 1 > audio_target w)) by lia.
    replace (Z.to_nat _) with 1%nat by lia. cbn [audio_loop].
    rewrite decide_True, decide_True by lia. cbn [app]. unfold from. rewrite segments_nil by lia.
    split_and!; try done. constructor.
  - set (at_ := if decide (last < 0) then audio_oldest w else last + 1).
    assert (Hst : exists at2 last2 es, (let '(at_, last, es) :=
        if decide (at_ < start)
        then (if decide (start > audio_target w) then audio_target w else start, start - 1,
              if decide (last >= 0) then [EFlush] else [])
        else (at_, last, []) in (if decide (at_ > audio_target w) then audio_target w else at_, last, es))
        = (at2, last2, es) /\ at2 = from /\ (last2 < 0 \/ last2 < at2) /\ at2 <= audio_target w /\
        audio_of es = [] /\ video_of es = [] /\ (last < 0 \/ start <= last + 1 -> quiet es)).
    { unfold at_, from. repeat destruct (decide _); eexists _, _, _; split_and!; try done; try lia; intros; solve [constructor|lia]. }
    destruct Hst as (at2 & last2 & es & -> & -> & Hl2 & Hle & He1 & He2 & He3).
    assert (Hfrom : start <= from) by (unfold from; destruct (decide (last < 0)); lia).
    pose proof (audio_loop_all i init' start (audio_target w) (Z.to_nat (audio_target w - from + 1)) from last2
      Hall Hfrom ltac:(lia) Hl2) as Hloop.
    destruct (audio_loop _ _ _ _ _ _) as [last' es']. destruct Hloop as (H1 & H2 & H3 & H4).
    unfold audio_of, video_of in *. rewrite !omap_app, He1, He2, H1, H2. split_and!; try done.
    + rewrite H4. by rewrite decide_True.
    + intros Hst. apply Forall_app_2; [by apply He3|done].
Qed.

(** Where a round starts on a window that has not fallen back. *)
Lemma video_start_live w r start :
  start_number (man r) = start -> 0 <= start -> start <= video_target w <= vfetch_hi w -> last_vnum r <= vfetch_hi w ->
  let from := if decide (last_vnum r < 0) then video_target w else Z.max (last_vnum r + 1) start in
  exists r', video_start w r = (r', from, []) /\ kept r r' /\
    (last_vnum r' = from - 1 \/ from <= vfetch_hi w).
Proof.
  intros <- Hs Hw Hl. unfold video_start. cbv zeta.
  destruct (decide (last_vnum r < 0));
    match goal with |- context [decide (?x < start_number (man r))] => destruct (decide (x < start_number (man r))) end;
    try lia.
  - rewrite decide_False by lia. eexists; split_and!; try done. lia.
  - change (last_vnum (r <| last_vnum := _ |>)) with (start_number (man r) - 1).
    rewrite decide_False by lia. rewrite Z.max_r by lia. eexists; split_and!; try done. cbn. lia.
  - rewrite decide_False by lia. rewrite Z.max_l by lia. eexists; split_and!; try done. lia.
Qed.

(** C14. The reader never replays and never reorders. Over any rounds of a
    session whose manifests number their segments from 0 or later, whatever fetches fail or succeed, however the manifest, the live
    edge, the buffers and the other threads move: between two restarts of the
    timeline, the video segments handed to the demuxer strictly increase, and
    so do the audio segments; the timeline is anchored only when it has no
    anchor, and then at the video segment that follows at once. *)
Theorem reader_in_order r ins :
  0 <= start_number (man r) ->
  Forall (fun i => forall m k, fresh i = Some (m, k) -> 0 <= start_number m) ins ->
  let '(r', es) := reader_rounds (session_start r) ins in
  exists lv la, trace_run (-1, -1, None) es = Some (lv, la, None) /\
    -1 <= lv <= last_vnum r' /\ -1 <= la <= last_anum r'.
Proof.
  intros Hs Hin.
  exact (reader_rounds_order ins (session_start r) (-1) (-1) Hs Hin
    (conj (Z.le_refl _) (Z.le_refl _)) (conj (Z.le_refl _) (Z.le_refl _))).
Qed.

(** The state once the manifest of the round is in place. *)
Definition opened (r : reader) (i : round_in) : reader :=
  let r := r <| tl := others i (tl r) |> in
  let r := match fresh i with
           | Some (m, rate) => r <| man := m |> <| frame_rate := rate |>
           | None => r
           end in
  if decide (frame_rate r > 0 /\ frame_rate r <> g_stream_fps (tl r))
  then r <| tl := ((tl r) <| g_stream_fps := frame_rate r |>) |> else r.

Lemma opened_spec r i : let r' := opened r i in
  man r' = (match fresh i with Some (m, _) => m | None => man r end) /\ lb r' = lb r /\
  init_v r' = init_v r /\ init_a r' = init_a r /\ last_vnum r' = last_vnum r /\ last_anum r' = last_anum r.
Proof. unfold opened. cbv zeta. destruct (fresh i) as [[m k]|]; by case_decide. Qed.

(** A round as its parts. *)
Lemma reader_round_parts r i :
  reader_round r i =
  let r := opened r i in
  let total := total_segments (man r) in
  let w := reader_window (man r) (lb r) (now i) in
  let '(la, es_a) := fetch_audio i (init_a r) w (start_number (man r)) (last_anum r) in
  let '(r, vn, es_s) := video_start w (r <| last_anum := la |>) in
  let '(r, n, es_v) := video_loop (Z.to_nat (vfetch_hi w - vn + 1)) i (vfetch_hi w) vn r in
  let r := if decide (n <> O /\ g_prefetch_done r < 3)
           then r <| g_prefetch_done := g_prefetch_done r + 1 |> else r in
  let r := if static_mpd (man r) && bool_decide (total > 0) && bool_decide (last_vnum r >= i32 total - 1)
           then r <| g_eos_reached := true |>
                  <| g_eos_end_wall_us := u64 (g_anchor_wall_us (tl r) + u64 total * u64 (seg_duration (man r))
                                               + g_playout_latency_us (tl r) + 500000) |>
           else r in
  (r, es_a ++ es_s ++ es_v).
Proof.
  unfold reader_round, opened. cbv zeta. set (r2 := match fresh i with Some _ => _ | None => _ end). clearbody r2.
  destruct (decide (frame_rate r2 > 0 /\ frame_rate r2 <> g_stream_fps (tl r2))) as [Hd|Hd]; cbn [man lb init_a last_anum];
    destruct (fetch_audio _ _ _ _ _) as [la es];
    cbn [frame_rate tl]; (rewrite decide_True by exact Hd) || (rewrite decide_False by exact Hd); reflexivity.
Qed.

(** A round catches up. On a live manifest, when every fetch of the round,
    from the manifest's first segment on, succeeds and the live edge has not fallen behind what was fetched, the round
    hands the demuxer every video segment from the one after the last (from the
    start of the window at first, or when the server has dropped it) up to the
    one being written, and every audio segment up to the live edge: each once,
    in order, behind its initialisation segment, none left out. *)
Lemma reader_round_complete r i : let m := man (opened r i) in let w := reader_window m (lb r) (now i) in
  static_mpd m = false -> 0 < seg_duration m < 2 ^ 31 -> 0 <= start_number m -> buffers_ok (lb r) ->
  all_fetched i (start_number m) w -> init_a r <> [] -> last_vnum r <= vfetch_hi w -> last_anum r <= audio_target w ->
  let '(r', es) := reader_round r i in
  video_of es = segments (init_v r) (get_v i)
    (if decide (last_vnum r < 0) then video_target w else Z.max (last_vnum r + 1) (start_number m)) (vfetch_hi w) /\
  audio_of es = segments (init_a r) (get_a i)
    (if decide (last_anum r < 0) then audio_oldest w else Z.max (last_anum r + 1) (start_number m)) (audio_target w) /\
  (last_anum r < 0 \/ start_number m <= last_anum r + 1 -> quiet es) /\
  last_vnum r' = vfetch_hi w /\ kept ((opened r i) <| last_anum := audio_target w |>) r'.
Proof.
  intros m w Hst Hsd Hs Hb [Hallv Halla] Hia Hlv Hla. rewrite reader_round_parts. cbv zeta.
  destruct (opened_spec r i) as (_ & Eb & Ev & Ea & Elv & Ela). rewrite Eb, Ea, Ela. fold m. fold w.
  destruct (window_live m (lb r) (now i) Hst Hsd Hb) as (Hw1 & Hw2). fold w in Hw1, Hw2.
  pose proof (fetch_audio_all i (init_a r) w (start_number m) (last_anum r) Halla Hia Hw2 Hs Hla) as Haud.
  destruct (fetch_audio _ _ _ _ _) as [la es_a]. destruct Haud as (A1 & A2 & -> & A4).
  set (r3 := (opened r i) <| last_anum := _ |>). set (from := if decide (last_vnum r < 0) then _ else Z.max _ _).
  destruct (video_start_live w r3 (start_number m) eq_refl Hs Hw1 ltac:(change (last_vnum r3) with (last_vnum (opened r i)); lia)) as (r4 & -> & K4 & F3).
  change (last_vnum r3) with (last_vnum (opened r i)) in *. rewrite Elv in *. fold from in F3 |- *.
  assert (Hfrom : start_number m <= from <= vfetch_hi w + 1) by (unfold from; destruct (decide (last_vnum r < 0)); lia).
  pose proof (video_loop_all i (start_number m) (vfetch_hi w) (Z.to_nat (vfetch_hi w - from + 1)) from r4 Hallv
    (proj1 Hfrom) ltac:(lia) (proj2 Hfrom) F3) as Hvl.
  pose proof (video_loop_keeps i (vfetch_hi w) (Z.to_nat (vfetch_hi w - from + 1)) from r4) as Hk.
  destruct (video_loop _ _ _ _ _) as [[r5 n] es_v]. destruct Hvl as (V1 & V2 & V3 & V4). cbn [fst] in Hk.
  set (r6 := if decide (n <> O /\ _) then _ else r5).
  assert (H6 : kept r5 r6 /\ last_vnum r6 = last_vnum r5) by (unfold r6; destruct (decide (n <> O /\ _)); unfold kept; by split_and!). destruct H6 as [K6 L6]. clearbody r6.
  assert (K : kept r3 r6) by (trans r5; [by trans r4|done]).
  assert (Em : man r6 = m) by (destruct K as [-> _]; done). rewrite Em, Hst. cbn [andb].
  assert (Ei : init_v r4 = init_v r) by (destruct K4 as (_ & _ & -> & _); exact Ev).
  unfold video_of, audio_of, quiet in *. cbn [app]. rewrite !omap_app, A1, A2, V1, V2, app_nil_r, Ei, L6.
  split_and!; try done. intros Hq. apply Forall_app_2; [by apply A4|exact V4].
Qed.

Definition demo_man : dash_manifest := mk_manifest 1 1000000 1000000000 0 false.
Definition demo_tl : timeline := mk_timeline 24 1000000 7 3 0 85000 0 0 0 0 false 0 0 0.
Definition demo_reader : reader :=
  mk_reader demo_man 0 [100] [101] demo_tl (mk_live 0 VMC_TARGET_US VMC_TARGET_US) 5 5 0 false 0.

(** A round at which every fetch returns its segment number. *)
Definition demo_round (t : Z) : round_in :=
  mk_round None t (fun n => Some [n]) (fun n => Some [n]) (fun _ => true) (fun _ => true)
    (fun _ => 1000) (fun _ => 1002000000) (fun _ => 1002000000) (fun t => t).

(** Two rounds of a session, the second one second later. *)
Lemma reader_in_order_witness :
  let '(r', es) := reader_rounds (session_start demo_reader) [demo_round 1006500000; demo_round 1007500000] in
  es = [EAudio 3 [101; 3]; EAudio 4 [101; 4]; EAudio 5 [101; 5]; EAudio 6 [101; 6];
        EResync 3 0; EVideo 3 [100; 3]; EVideo 4 [100; 4]; EVideo 5 [100; 5]; EVideo 6 [100; 6];
        EVideo 7 [100; 7]; EAudio 7 [101; 7]; EVideo 8 [100; 8]] /\
  exists lv la, trace_run (-1, -1, None) es = Some (lv, la, None).
Proof.
  pose proof (reader_in_order demo_reader [demo_round 1006500000; demo_round 1007500000]) as H.
  destruct (reader_rounds _ _) as [r' es] eqn:E.
  assert (0 <= start_number (man demo_reader)) as H0 by (vm_compute; discriminate).
  assert (Forall (fun i => forall m k, fresh i = Some (m, k) -> 0 <= start_number m)
            [demo_round 1006500000; demo_round 1007500000]) as H1
    by (repeat constructor; intros m k Hf; discriminate Hf).
  destruct (H H0 H1) as (lv & la & Hr & _). split; [|exists lv, la; exact Hr].
  vm_compute in E. injection E as _ <-. reflexivity.
Defined.

(** The server's window has moved on from segment 6 to segment 20: the reader
    jumps there, but the timeline keeps its anchor. *)
Example jump_keeps_anchor :
  (reader_round demo_reader
     (mk_round (Some (mk_manifest 20 1000000 1000000000 0 false, 0)) 1021500000
        (fun _ => None) (fun n => Some [n]) (fun _ => true) (fun _ => true)
        (fun _ => 1000) (fun _ => 1002000000) (fun _ => 1002000000) (fun t => t))).2
  = [EFlush; EVideo 20 [100; 20]; EVideo 21 [100; 21]; EVideo 22 [100; 22]].
Proof. reflexivity. Qed.

(** A clip of six segments whose last one cannot be fetched: the end of the
    content is declared all the same, and the segment is never asked for again. *)
Example eos_without_last_segment :
  let '(r', es) := reader_round demo_reader
     (mk_round (Some (mk_manifest 1 1000000 1000000000 6000000 true, 0)) 1021500000
        (fun n => Some [n]) (fun n => if decide (n = 6) then None else Some [n])
        (fun _ => true) (fun _ => true)
        (fun _ => 1000) (fun _ => 1002000000) (fun _ => 1002000000) (fun t => t)) in
  g_eos_reached r' = true /\ last_vnum r' = 5 /\ video_of es = [].
Proof. vm_compute. done. Qed.

End Reader.
