(* ===== verification/AudioWorker.v ===== *)
(** * The audio worker of the thin client ([apps/thinclient/main.c], [audio_worker])

    The PCM FIFO between the threads that deliver sound (the DASH reader, the
    UDP receiver) and the thread that renders it in periods of 5 ms, with the
    clocks that thread keeps for the video side. The worker is written against
    the queue interface [ByteFifo], which the ring buffer implements, and
    against the sink queries below, which the ALSA sink implements. What other
    threads do to the FIFO is a sequence of operations placed between the
    rounds and inside the waits of a round. *)

From S2P Require Import Prelude RingBuf Audio FrameSlots Present AvSync.

#[local] Open Scope Z_scope.

(** What the worker asks a sink: [vmc_alsa_sink_playing],
    [vmc_alsa_sink_position_us] and [vmc_alsa_sink_delay_us]; the second
    argument is the answer of the clock or the device. *)
Class AudioSink (C : Type) := {
  snk_playing : C -> bool;
  snk_position : C -> option Z -> option Z;
  snk_delay : C -> option Z -> option Z;
}.

#[export] Instance alsa_audio_sink : AudioSink (option Audio.alsa_ctx) := {
  snk_playing := Audio.vmc_alsa_sink_playing;
  snk_position := Audio.vmc_alsa_sink_position_us;
  snk_delay := Audio.vmc_alsa_sink_delay_us;
}.

Module Aw.
Import AvSync.

Definition VMC_AUDIO_FRAME_BYTES : Z := 960.

(** Bytes of the FIFO as 16-bit samples, little-endian. *)
Fixpoint samples_of (b : list Z) : list Z :=
  match b with
  | lo :: hi :: b => i16 (lo + 256 * hi) :: samples_of b
  | _ => []
  end.

(** What another thread does to the FIFO: [FWrite] a payload of the UDP mode
    ([vmc_ringbuf_write]) or the frames of a decoded packet
    ([audio_fifo_write_raw]); [FReset] by the reader that jumps. *)
Inductive fifo_op :=
| FWrite (src : list Z) (len : Z)
| FReset.

Definition audio_fifo_write_raw (pcm : list Z) (frames : Z) : fifo_op :=
  FWrite pcm (u64 (u64 (frames * 2) * 2)).

(** What happens to the sound, in order: bytes accepted by the FIFO, bytes
    thrown away by a reset, a period rendered: the bytes of it that came from
    the FIFO, the period itself, and how many times the worker waited. *)
Inductive event :=
| EAccept (d : list Z)
| EFlush (d : list Z)
| EPeriod (d pcm : list Z) (waited : nat).

Section Worker.
Context {Q C D : Type} `{HQ : ByteFifo Q} `{HC : AudioSink C}.

(** [pcm_buf] is the local array of the worker, [bytes_consumed] the global
    [g_audio_bytes_consumed], [ewma] and [last_alsa_pos_us] its statics. *)
Record worker := mk_worker {
  fifo : Q; pipe : Audio.vmc_audio_pipeline C D; pcm_buf : list Z;
  tl : timeline; slots : list Slots.vmc_frame_slot; queue : Present.present_queue;
  bytes_consumed : Z; ewma : Z; last_alsa_pos_us : Z;
}.

#[export] Instance eta_worker : Eta worker := fun w =>
  mk_worker (fifo w) (pipe w) (pcm_buf w) (tl w) (slots w) (queue w)
    (bytes_consumed w) (ewma w) (last_alsa_pos_us w).

(** The inputs of a round: whether the first picture is there; what the other
    threads do to the FIFO during each wait; whether [g_run_audio] is still set
    at each test; the answers of the sound device; readings of the wall clock. *)
Record round_env := mk_env {
  first_video_ready : bool; arrivals : nat -> list fifo_op; still_running : nat -> bool;
  position : option Z; delay1 : option Z; delay2 : option Z;
  advance_wall : Z; start_wall : Z; resync_wall : Z;
}.

(** ** The FIFO *)

Definition fifo_do (q : Q) (o : fifo_op) : option (Q * list event) :=
  match o with
  | FWrite src len => '(n, q') ← fifo_write q src len; Some (q', [EAccept (take (Z.to_nat n) src)])
  | FReset => Some (fifo_reset q, [EFlush (fifo_data q)])
  end.

Fixpoint fifo_all (q : Q) (os : list fifo_op) : option (Q * list event) :=
  match os with
  | [] => Some (q, [])
  | o :: os =>
    '(q, es) ← fifo_do q o;
    '(q, es') ← fifo_all q os;
    Some (q, es ++ es')
  end.

(** The bounded wait for a full period; the fuel is the number of waits left. *)
Fixpoint wait_period (fuel : nat) (e : round_env) (waited : nat) (q : Q)
    : option (Q * nat * list event) :=
  match fuel with
  | O => Some (q, waited, [])
  | S fuel =>
    if decide (fifo_used q < VMC_AUDIO_FRAME_BYTES) then
      if still_running e waited then
        '(q, es) ← fifo_all q (arrivals e waited);
        '(q, waited, es') ← wait_period fuel e (S waited) q;
        Some (q, waited, es ++ es')
      else Some (q, waited, [])
    else Some (q, waited, [])
  end.

(** The period: the array, its length in bytes and the bytes that are data. *)
Definition take_period (q : Q) (pcm : list Z) : option (Q * list Z * Z * Z) :=
  let avail := fifo_used q in
  if decide (avail >= VMC_AUDIO_FRAME_BYTES) then
    '(n, o, q) ← fifo_read q (Some pcm) VMC_AUDIO_FRAME_BYTES;
    Some (q, default [] o, n, VMC_AUDIO_FRAME_BYTES)
  else if decide (avail > 0) then
    '(n, o, q) ← fifo_read q (Some pcm) avail;
    o ← blit (default [] o) n (replicate (Z.to_nat (VMC_AUDIO_FRAME_BYTES - n)) 0);
    Some (q, o, VMC_AUDIO_FRAME_BYTES, avail)
  else
    o ← blit pcm 0 (replicate (Z.to_nat VMC_AUDIO_FRAME_BYTES) 0);
    Some (q, o, VMC_AUDIO_FRAME_BYTES, avail).

(** ** The clocks *)

(** The playback position; [data_n] bytes of the FIFO went into the period. *)
Definition audio_position (w : worker) (e : round_env) (data_n : Z) : worker :=
  match snk_position (Audio.sink_ctx (Audio.sink (pipe w))) (position e) with
  | Some p =>
    let t := (tl w) <| g_audio_pos_us := p |> <| g_audio_active := true |> in
    if decide (p <> last_alsa_pos_us w)
    then w <| tl := t <| g_audio_last_advance_wall := advance_wall e |> |> <| last_alsa_pos_us := p |>
    else w <| tl := t |>
  | None =>
    if decide (data_n > 0) then
      let w := w <| bytes_consumed := u64 (bytes_consumed w + data_n) |> in
      let t := (tl w) <| g_audio_active := true |> <| g_audio_last_advance_wall := advance_wall e |> in
      w <| tl :=
        if decide (g_audio_start_wall_us t <> 0)
        then t <| g_audio_pos_us := u64 (g_audio_start_wall_us t
                                         + u64 (bytes_consumed w / 4 * 1000000) / 48000) |>
        else t |>
    else w
  end.

Definition audio_delay (w : worker) (e : round_env) : worker :=
  match snk_delay (Audio.sink_ctx (Audio.sink (pipe w))) (delay1 e) with
  | Some d =>
    let v := if decide (ewma w = 0) then d else u64 (u64 (15 * ewma w) + d) / 16 in
    w <| ewma := v |> <| tl := (tl w) <| g_audio_delay_us := v |> |>
  | None => w
  end.

(** The first period that plays fixes the start of the audio and anchors the
    timeline anew. *)
Definition audio_begin (w : worker) (e : round_env) : worker :=
  if g_audio_active (tl w) && bool_decide (g_audio_start_wall_us (tl w) = 0) then
    let t := (tl w) <| g_audio_start_wall_us := start_wall e |> in
    let t := match snk_delay (Audio.sink_ctx (Audio.sink (pipe w))) (delay2 e) with
             | Some d => t <| g_audio_delay_us := d |>
             | None => t
             end in
    if decide (g_anchor_seg t <> 0) then
      let '(t, fs, q) := dash_resync t (slots w) (queue w) (g_anchor_seg t) (resync_wall e) in
      w <| tl := t |> <| slots := fs |> <| queue := q |>
    else w <| tl := t |>
  else w.

(** ** A round of the worker *)

Definition audio_round (w : worker) (e : round_env) : option (worker * list event) :=
  if negb (snk_playing (Audio.sink_ctx (Audio.sink (pipe w)))) then Some (w, []) else
  if decide (g_audio_start_wall_us (tl w) = 0 /\ first_video_ready e = false) then Some (w, []) else
  '(q, waited, es) ← wait_period 40 e 0 (fifo w);
  '(q', pcm, n, data_n) ← take_period q (pcm_buf w);
  let frames := n / 2 / Audio.VMC_AUDIO_CHANNELS in
  outbuf ← slice pcm 0 (frames * 2 * 2);
  '(_, p) ← Audio.vmc_audio_pipeline_render (Some (pipe w)) (Some (samples_of outbuf)) frames;
  p ← p;
  let w := w <| fifo := q' |> <| pcm_buf := pcm |> <| pipe := p |> in
  Some (audio_begin (audio_delay (audio_position w e data_n) e) e,
        es ++ [EPeriod (take (Z.to_nat data_n) (fifo_data q)) pcm waited]).

(** The FIFO, the worker and the threads around them. *)
Inductive turn :=
| TOther (o : fifo_op)
| TTimeline (f : timeline -> timeline)
| TRound (e : round_env).

Definition audio_turn (w : worker) (t : turn) : option (worker * list event) :=
  match t with
  | TOther o => '(q, es) ← fifo_do (fifo w) o; Some (w <| fifo := q |>, es)
  | TTimeline f => Some (w <| tl := f (tl w) |>, [])
  | TRound e => audio_round w e
  end.

Fixpoint audio_run (w : worker) (ts : list turn) : option (worker * list event) :=
  match ts with
  | [] => Some (w, [])
  | t :: ts =>
    '(w, es) ← audio_turn w t;
    '(w, es') ← audio_run w ts;
    Some (w, es ++ es')
  end.

End Worker.

(** ** What becomes of the sound *)

(** The bytes that entered the FIFO, those that left it, the periods. *)
Definition accepted (es : list event) : list Z :=
  mjoin ((fun e => match e with EAccept d => d | _ => [] end) <$> es).
Definition released (es : list event) : list Z :=
  mjoin ((fun e => match e with EAccept _ => [] | EFlush d | EPeriod d _ _ => d end) <$> es).
Definition periods (es : list event) : list (list Z) :=
  omap (fun e => match e with EPeriod _ p _ => Some p | _ => None end) es.

(** A period is the data followed by silence; it is only short of data after
    forty waits. *)
Definition period_ok (e : event) : Prop :=
  match e with
  | EPeriod d p n =>
    zlen p = VMC_AUDIO_FRAME_BYTES /\
    p = d ++ replicate (Z.to_nat (VMC_AUDIO_FRAME_BYTES - zlen d)) 0 /\
    (zlen d < VMC_AUDIO_FRAME_BYTES -> n = 40%nat)
  | _ => True
  end.

(** Whole stereo frames. *)
Definition whole_frames (d : list Z) : Prop := zlen d mod 4 = 0.
Definition event_aligned (e : event) : Prop :=
  match e with EAccept d | EFlush d | EPeriod d _ _ => whole_frames d end.

(** The calls a C program may make. *)
Definition op_ok (o : fifo_op) : Prop :=
  match o with FWrite src len => 0 <= len <= zlen src | FReset => True end.
Definition op_aligned (o : fifo_op) : Prop :=
  match o with FWrite _ len => len mod 4 = 0 | FReset => True end.

Definition turn_all (P : fifo_op -> Prop) (t : turn) : Prop :=
  match t with
  | TOther o => P o
  | TTimeline _ => True
  | TRound e => forall k, Forall P (arrivals e k)
  end.
Definition turn_runs (t : turn) : Prop :=
  match t with TRound e => forall k, still_running e k = true | _ => True end.

Lemma accepted_app a b : accepted (a ++ b) = accepted a ++ accepted b.
Proof. unfold accepted. by rewrite fmap_app, join_app. Qed.
Lemma released_app a b : released (a ++ b) = released a ++ released b.
Proof. unfold released. by rewrite fmap_app, join_app. Qed.
Lemma periods_app a b : periods (a ++ b) = periods a ++ periods b.
Proof. apply omap_app. Qed.

(** Alignment of parts. *)
Lemma whole_app a b : whole_frames a -> whole_frames b -> whole_frames (a ++ b).
Proof. unfold whole_frames. rewrite zlen_app. intros. Z.div_mod_to_equations; lia. Qed.
Lemma whole_drop n (d : list Z) : whole_frames d -> Z.of_nat n mod 4 = 0 -> whole_frames (drop n d).
Proof.
  unfold whole_frames. intros. destruct (decide (length d <= n)%nat).
  - by rewrite drop_ge by lia.
  - unfold zlen in *. rewrite length_drop. Z.div_mod_to_equations; lia.
Qed.

Section Conservation.
Context {Q C D : Type} `{HQ : !ByteFifo Q} `{HL : !ByteFifoLaws Q} `{HC : !AudioSink C}.
#[local] Abbreviation sound_worker := (worker (Q := Q) (C := C) (D := D)).

(** What a piece of a run guarantees: from a good FIFO to a good one, nothing
    lost, and whole frames stay whole. *)
Definition conserves (q q' : Q) (es : list event) : Prop :=
  fifo_ok q' /\ fifo_cap q' = fifo_cap q /\
  fifo_data q ++ accepted es = released es ++ fifo_data q'.
Definition keeps_frames (q q' : Q) (es : list event) : Prop :=
  fifo_cap q mod 4 = 0 -> whole_frames (fifo_data q) ->
  whole_frames (fifo_data q') /\ Forall event_aligned es.

Lemma conserves_refl q : fifo_ok q -> conserves q q [].
Proof. intros H. split_and!; try done. by rewrite app_nil_r. Qed.
Lemma keeps_refl q : keeps_frames q q [].
Proof. intros _ H. split; [done|constructor]. Qed.
Lemma conserves_app q1 q2 q3 a b : conserves q1 q2 a -> conserves q2 q3 b -> conserves q1 q3 (a ++ b).
Proof.
  intros (H1 & C1 & D1) (H2 & C2 & D2). split_and!; [done|congruence|].
  by rewrite accepted_app, released_app, app_assoc, D1, <- app_assoc, D2, app_assoc.
Qed.
Lemma keeps_app q1 q2 q3 a b : conserves q1 q2 a ->
  keeps_frames q1 q2 a -> keeps_frames q2 q3 b -> keeps_frames q1 q3 (a ++ b).
Proof.
  intros (_ & HCap & _) H1 H2 Hc Hw. destruct (H1 Hc Hw) as [Hw2 Ha].
  destruct H2 as [Hw3 Hb]; [by rewrite HCap|done|]. split; [done|]. by apply Forall_app.
Qed.

Lemma fifo_do_spec q o : fifo_ok q -> op_ok o ->
  exists q' es, fifo_do q o = Some (q', es) /\ conserves q q' es /\
    (op_aligned o -> keeps_frames q q' es) /\ periods es = [] /\ Forall period_ok es.
Proof.
  intros Hq Ho. destruct o as [src len|]; cbn [fifo_do].
  - destruct (fifo_write_law q src len Hq Ho) as (n & q' & -> & Hn & Hq' & Hc & Hd).
    eexists _, _. split; [done|]. split; [|split; [|split]].
    + split_and!; [done|done|]. cbn. by rewrite app_nil_r.
    + intros Hal Hcap Hw. pose proof (fifo_bound_law q Hq).
      assert (Hw' : whole_frames (take (Z.to_nat n) src)).
      { unfold whole_frames in *. cbn in Ho, Hal. rewrite zlen_take by lia.
        Z.div_mod_to_equations; lia. }
      rewrite Hd. split; [by apply whole_app|]. by repeat constructor.
    + done.
    + by repeat constructor.
  - destruct (fifo_reset_law q Hq) as (Hq' & Hd & Hc). eexists _, _. split; [done|].
    split; [|split; [|split]].
    + split_and!; [done|done|]. cbn. rewrite Hd. by rewrite !app_nil_r.
    + intros _ _ Hw. rewrite Hd. split; [done|]. by repeat constructor.
    + done.
    + by repeat constructor.
Qed.

Lemma fifo_all_spec os : forall q, fifo_ok q -> Forall op_ok os ->
  exists q' es, fifo_all q os = Some (q', es) /\ conserves q q' es /\
    (Forall op_aligned os -> keeps_frames q q' es) /\ periods es = [] /\ Forall period_ok es.
Proof.
  induction os as [|o os IH]; intros q Hq Hos; cbn [fifo_all].
  { exists q, []. split; [done|]. split; [by apply conserves_refl|]. split; [intros; apply keeps_refl|]. by repeat constructor. }
  apply Forall_cons in Hos as [Ho Hos].
  destruct (fifo_do_spec q o Hq Ho) as (q1 & e1 & -> & H1 & K1 & P1 & O1). cbn [mbind option_bind].
  destruct (IH q1 (proj1 H1) Hos) as (q2 & e2 & -> & H2 & K2 & P2 & O2). cbn [mbind option_bind].
  eexists _, _. split; [done|]. split; [by eapply conserves_app|]. split; [|split].
  - intros [Ha Has]%Forall_cons. eapply keeps_app; eauto.
  - by rewrite periods_app, P1, P2.
  - by apply Forall_app.
Qed.

(** The wait ends with a full period or after all the waits. *)
Lemma wait_period_spec fuel e : forall k q,
  fifo_ok q -> (forall j, Forall op_ok (arrivals e j)) -> (forall j, still_running e j = true) ->
  exists q' n es, wait_period fuel e k q = Some (q', n, es) /\ conserves q q' es /\
    ((forall j, Forall op_aligned (arrivals e j)) -> keeps_frames q q' es) /\
    periods es = [] /\ Forall period_ok es /\
    (fifo_used q' < VMC_AUDIO_FRAME_BYTES -> n = (k + fuel)%nat).
Proof.
  induction fuel as [|fuel IH]; intros k q Hq Ha Hr; cbn [wait_period].
  { exists q, k, []. split; [done|]. split; [by apply conserves_refl|]. split; [intros; apply keeps_refl|].
    split; [done|]. split; [constructor|lia]. }
  destruct (decide (fifo_used q < VMC_AUDIO_FRAME_BYTES)) as [Hu|Hu]; cycle 1.
  { exists q, k, []. split; [done|]. split; [by apply conserves_refl|]. split; [intros; apply keeps_refl|].
    split; [done|]. split; [constructor|done]. }
  rewrite Hr. destruct (fifo_all_spec (arrivals e k) q Hq (Ha k)) as (q1 & e1 & -> & H1 & K1 & P1 & O1).
  cbn [mbind option_bind].
  destruct (IH (S k) q1 (proj1 H1) Ha Hr) as (q2 & n & e2 & -> & H2 & K2 & P2 & O2 & L).
  cbn [mbind option_bind]. eexists _, _, _. split; [done|]. split; [by eapply conserves_app|].
  split; [|split; [|split]].
  - intros Hal. eapply keeps_app; eauto.
  - by rewrite periods_app, P1, P2.
  - by apply Forall_app.
  - intros Hlt. rewrite (L Hlt). lia.
Qed.

(** The period that is taken out of the FIFO. *)
Lemma take_period_spec q pcm : fifo_ok q -> zlen pcm = VMC_AUDIO_FRAME_BYTES ->
  let dn := Z.min VMC_AUDIO_FRAME_BYTES (zlen (fifo_data q)) in
  let d := take (Z.to_nat dn) (fifo_data q) in
  exists q' pcm', take_period q pcm = Some (q', pcm', VMC_AUDIO_FRAME_BYTES, dn) /\
    zlen pcm' = VMC_AUDIO_FRAME_BYTES /\
    pcm' = d ++ replicate (Z.to_nat (VMC_AUDIO_FRAME_BYTES - zlen d)) 0 /\ zlen d = dn /\
    fifo_ok q' /\ fifo_cap q' = fifo_cap q /\ fifo_data q' = drop (Z.to_nat dn) (fifo_data q).
Proof.
  intros Hq Hp dn d. unfold VMC_AUDIO_FRAME_BYTES in *. pose proof (zlen_nonneg (fifo_data q)) as Hnn.
  assert (Hd : zlen d = dn) by (unfold d; rewrite zlen_take; lia).
  assert (Hdv : d = take (Z.to_nat dn) (fifo_data q)) by done. assert (Hdn : dn = Z.min 960 (zlen (fifo_data q))) by done.
  clearbody d dn. unfold take_period, VMC_AUDIO_FRAME_BYTES. cbv zeta. rewrite fifo_used_law by done.
  destruct (decide (zlen (fifo_data q) >= 960)) as [Hge|Hlt].
  - destruct (fifo_read_law q pcm 960 Hq ltac:(lia)) as (n & q' & -> & Hn & Hq' & Hc & Hd').
    cbn [mbind option_bind default]. replace n with dn in * by lia. rewrite <- Hdv.
    assert (H960 : dn = 960) by lia. exists q', d. change (id ?x) with x. unfold overwrite. rewrite drop_ge, app_nil_r by (unfold zlen in *; lia).
    split; [by rewrite H960|]. split; [lia|]. split; [|done].
    replace (960 - zlen d) with 0 by lia. by rewrite app_nil_r.
  - destruct (decide (zlen (fifo_data q) > 0)) as [Hpos|H0].
    + assert (Hle : 0 <= zlen (fifo_data q) <= zlen pcm) by lia.
      destruct (fifo_read_law q pcm _ Hq Hle) as (n & q' & -> & Hn & Hq' & Hc & Hd').
      cbn [mbind option_bind default]. replace n with dn in * by lia. rewrite <- Hdv. change (id ?x) with x.
      assert (Hb : blit (overwrite pcm d) dn (replicate (Z.to_nat (960 - dn)) 0)
                   = Some (d ++ replicate (Z.to_nat (960 - dn)) 0)).
      { unfold overwrite. rewrite <- (app_nil_r (drop (length d) pcm)), <- Hd, blit_app;
          [by rewrite app_nil_r|]. rewrite length_replicate, length_drop. unfold zlen in *. lia. }
      rewrite Hb. cbn [mbind option_bind]. exists q', (d ++ replicate (Z.to_nat (960 - dn)) 0).
      split; [by replace (zlen (fifo_data q)) with dn by lia|].
      split; [rewrite zlen_app, zlen_replicate; lia|]. rewrite Hd. split_and!; done.
    + assert (He : fifo_data q = []) by (apply length_zero_iff_nil; unfold zlen in *; lia).
      assert (Hb : blit pcm 0 (replicate (Z.to_nat 960) 0) = Some (replicate 960 0)).
      { rewrite <- (app_nil_r pcm). rewrite (blit_app [] pcm []); [done|].
        rewrite length_replicate. unfold zlen in Hp. lia. }
      rewrite Hb. cbn [mbind option_bind]. exists q, (replicate 960 0).
      assert (H00 : dn = 0) by (rewrite Hdn, He; done).
      split; [by rewrite He, H00|]. rewrite zlen_replicate.
      rewrite Hd, Hdv, He, H00. done.
Qed.

(** The clocks leave the sound alone. *)
Lemma clocks_keep (w : sound_worker) e dn :
  let w' := audio_begin (audio_delay (audio_position w e dn) e) e in
  fifo w' = fifo w /\ pipe w' = pipe w /\ pcm_buf w' = pcm_buf w.
Proof.
  assert (H1 : forall w : sound_worker, fifo (audio_position w e dn) = fifo w /\
    pipe (audio_position w e dn) = pipe w /\ pcm_buf (audio_position w e dn) = pcm_buf w).
  { intros v. unfold audio_position. destruct (snk_position _ _); cbv zeta; repeat case_decide; done. }
  assert (H2 : forall w : sound_worker, fifo (audio_delay w e) = fifo w /\
    pipe (audio_delay w e) = pipe w /\ pcm_buf (audio_delay w e) = pcm_buf w).
  { intros v. unfold audio_delay. by destruct (snk_delay _ _). }
  assert (H3 : forall w : sound_worker, fifo (audio_begin w e) = fifo w /\
    pipe (audio_begin w e) = pipe w /\ pcm_buf (audio_begin w e) = pcm_buf w).
  { intros v. unfold audio_begin. destruct (_ && _); [|done]. cbv zeta. case_decide; [|done].
    by destruct (dash_resync _ _ _ _ _) as [[? ?] ?]. }
  cbv zeta. destruct (H1 w) as (A1 & A2 & A3), (H2 (audio_position w e dn)) as (B1 & B2 & B3),
    (H3 (audio_delay (audio_position w e dn) e)) as (C1 & C2 & C3).
  split_and!; congruence.
Qed.

(** The sink after periods were played. *)
Definition played (f : C -> list Z -> Z -> vmc_status * C) (c : C) (ps : list (list Z)) : C :=
  foldl (fun c p => (f c (samples_of p) 240).2) c ps.

Definition worker_ok (f : C -> list Z -> Z -> vmc_status * C) (w : sound_worker) : Prop :=
  fifo_ok (fifo w) /\ zlen (pcm_buf w) = VMC_AUDIO_FRAME_BYTES /\
  zlen (Audio.mixer (pipe w)) = Audio.VMC_MIXER_MAX_SOURCES /\ Audio.play (Audio.sink (pipe w)) = Some f.

(** What a piece of a run of the worker guarantees. *)
Definition turn_spec f (w w' : sound_worker) (es : list event) (aligned : Prop) : Prop :=
  worker_ok f w' /\ conserves (fifo w) (fifo w') es /\ Forall period_ok es /\
  Audio.sink_ctx (Audio.sink (pipe w')) = played f (Audio.sink_ctx (Audio.sink (pipe w))) (periods es) /\
  (aligned -> keeps_frames (fifo w) (fifo w') es).

Lemma turn_spec_refl f w P : worker_ok f w -> turn_spec f w w [] P.
Proof.
  intros H. split; [done|]. split; [apply conserves_refl, H|].
  split; [constructor|]. split; [done|]. intros; apply keeps_refl.
Qed.

Lemma audio_round_spec f (w : sound_worker) e : worker_ok f w ->
  (forall k, Forall op_ok (arrivals e k)) -> (forall k, still_running e k = true) ->
  exists w' es, audio_round w e = Some (w', es) /\
    turn_spec f w w' es (forall k, Forall op_aligned (arrivals e k)).
Proof.
  intros Hw Ha Hr. pose proof Hw as (Hq & Hp & Hm & Hf). unfold audio_round.
  destruct (snk_playing _); [|exists w, []; split; [done|by apply turn_spec_refl]]. cbn [negb].
  case_decide; [exists w, []; split; [done|by apply turn_spec_refl]|].
  destruct (wait_period_spec 40 e 0 (fifo w) Hq Ha Hr) as (q & n & es & -> & H1 & K1 & P1 & O1 & L1).
  cbn [mbind option_bind].
  destruct (take_period_spec q (pcm_buf w) (proj1 H1) Hp) as (q' & pcm & -> & Hz & Hpcm & Hd & Hq' & Hc' & Hdata).
  cbn [mbind option_bind]. set (dn := Z.min _ _) in *. set (d := take _ _) in *. cbv zeta.
  change (VMC_AUDIO_FRAME_BYTES / 2 / Audio.VMC_AUDIO_CHANNELS) with 240. change (240 * 2 * 2) with 960.
  rewrite slice_ok by (unfold VMC_AUDIO_FRAME_BYTES in Hz; lia). cbn [mbind option_bind].
  change (drop (Z.to_nat 0) pcm) with pcm. rewrite take_ge by (unfold zlen, VMC_AUDIO_FRAME_BYTES in Hz; lia).
  destruct (pipe w) as [m [pl c] src ms] eqn:Epipe.
  cbn [Audio.mixer Audio.sink Audio.play Audio.sink_ctx] in *. subst pl.
  pose proof (Audio.pipeline_render_plays_unmixed m f c src ms (samples_of pcm) 240 Hm) as Hrender.
  destruct (f c (samples_of pcm) 240) as [st c'] eqn:Ef. destruct Hrender as (m' & -> & Hmz & _).
  cbn [mbind option_bind]. eexists _, _. split; [done|].
  match goal with |- turn_spec _ _ (audio_begin (audio_delay (audio_position ?v _ _) _) _) _ _ =>
    destruct (clocks_keep v e dn) as (F1 & F2 & F3); set (w' := audio_begin _ _) in * end.
  cbn [fifo pipe pcm_buf upd_field] in F1, F2, F3.
  unfold turn_spec, worker_ok. rewrite F1, F2, F3.
  cbn [Audio.mixer Audio.sink Audio.play Audio.sink_ctx].
  split; [split_and!; [done|done|congruence|done]|]. assert (Hkeep : conserves q q' [EPeriod d pcm n]).
  { split_and!; [done|done|]. cbn. rewrite !app_nil_r, Hdata. by rewrite <- (take_drop (Z.to_nat dn) (fifo_data q)) at 1. }
  split; [by eapply conserves_app|]. split; [|split].
  - apply Forall_app. split; [done|]. constructor; [|constructor]. split_and!; [done|done|].
    intros Hlt. apply L1. rewrite fifo_used_law by apply H1. lia.
  - rewrite periods_app, P1. unfold played. cbn. rewrite Epipe. cbn. by rewrite Ef.
  - intros Hal. eapply keeps_app; [exact H1|by apply K1|]. intros Hcap Hwh.
    assert (Hal4 : dn mod 4 = 0) by (unfold whole_frames in Hwh; unfold dn, VMC_AUDIO_FRAME_BYTES;
      pose proof (Z.min_spec 960 (zlen (fifo_data q))); Z.div_mod_to_equations; lia).
    rewrite Hdata. split; [apply whole_drop; [done|]|repeat constructor].
    + rewrite Z2Nat.id; [done|]. rewrite <- Hd. apply zlen_nonneg.
    + unfold event_aligned, whole_frames. by rewrite Hd.
Qed.

Lemma turn_spec_app f (w1 w2 w3 : sound_worker) a b (P R : Prop) :
  turn_spec f w1 w2 a P -> turn_spec f w2 w3 b R -> turn_spec f w1 w3 (a ++ b) (P /\ R).
Proof.
  intros (_ & C1 & O1 & S1 & K1) (W2 & C2 & O2 & S2 & K2).
  split; [done|]. split; [by eapply conserves_app|]. split; [by apply Forall_app|]. split.
  - rewrite S2, S1, periods_app. unfold played. by rewrite foldl_app.
  - intros [HP HR]. eapply keeps_app; eauto.
Qed.

Lemma audio_turn_spec f (w : sound_worker) t : worker_ok f w -> turn_all op_ok t -> turn_runs t ->
  exists w' es, audio_turn w t = Some (w', es) /\ turn_spec f w w' es (turn_all op_aligned t).
Proof.
  intros Hw Ho Hr. destruct t as [o|g|e]; cbn [audio_turn].
  - destruct Hw as (Hq & Hw). destruct (fifo_do_spec (fifo w) o Hq Ho) as (q & es & -> & H1 & K1 & P1 & O1).
    eexists _, es. split; [done|]. split; [split; [apply H1|exact Hw]|]. rewrite P1.
    split_and!; done || apply H1.
  - eexists _, []. split; [done|]. by apply (turn_spec_refl f w True).
  - by apply audio_round_spec.
Qed.

(** C4. No sound is lost, repeated or reordered. Whatever queue holds the
    PCM bytes and whatever sink plays them, and however the threads that
    deliver or reset the sound interleave with the worker and its waits: a run
    never leaves an object of memory, and every byte the FIFO accepted is, in
    order, in exactly one period, in one flush, or still in the FIFO. Every
    period is 960 bytes, the data followed by silence, short of data only after
    forty waits; the sink is handed exactly these periods, as 240 stereo frames
    each. When every delivery is of whole stereo frames, every period and every
    flush is too, so left and right never change places. *)
Theorem audio_stream_conserved f (w : sound_worker) ts :
  worker_ok f w -> Forall (turn_all op_ok) ts -> Forall turn_runs ts ->
  exists w' es, audio_run w ts = Some (w', es) /\ worker_ok f w' /\
    fifo_data (fifo w) ++ accepted es = released es ++ fifo_data (fifo w') /\
    Forall period_ok es /\
    Audio.sink_ctx (Audio.sink (pipe w')) = played f (Audio.sink_ctx (Audio.sink (pipe w))) (periods es) /\
    (Forall (turn_all op_aligned) ts -> fifo_cap (fifo w) mod 4 = 0 -> whole_frames (fifo_data (fifo w)) ->
     Forall event_aligned es).
Proof.
  intros Hw Ho Hr.
  assert (exists w' es, audio_run w ts = Some (w', es) /\ turn_spec f w w' es (Forall (turn_all op_aligned) ts))
    as (w' & es & Hrun & W & (_ & _ & Hc) & O & S & K).
  { revert w Hw Ho Hr. induction ts as [|t ts IH]; intros w Hw Ho Hr; cbn [audio_run].
    { exists w, []. split; [done|by apply turn_spec_refl]. }
    apply Forall_cons in Ho as [Ho Hos], Hr as [Hr Hrs].
    destruct (audio_turn_spec f w t Hw Ho Hr) as (w1 & e1 & -> & H1). cbn [mbind option_bind].
    destruct (IH w1 (proj1 H1) Hos Hrs) as (w2 & e2 & -> & H2). cbn [mbind option_bind].
    eexists _, _. split; [done|]. pose proof (turn_spec_app _ _ _ _ _ _ _ _ H1 H2) as (? & ? & ? & ? & K).
    split_and!; try done. intros HF. apply K. by apply Forall_cons. }
  exists w', es. split_and!; try done. intros Hal Hcap Hwh. by apply K.
Qed.

End Conservation.

(** ** The start of the audio *)

Section Start.
Context {Q C D : Type} `{HQ : !ByteFifo Q} `{HC : !AudioSink C}.
#[local] Abbreviation sound_worker := (worker (Q := Q) (C := C) (D := D)).

Definition small (x : Z) : Prop := 0 <= x < 2 ^ 60.

(** Where a frame lies after the anchor. *)
Definition content_us (t : timeline) (s k : Z) : Z :=
  (s - g_anchor_seg t) * i64 (g_seg_duration_us t) + k * frame_period_us (g_stream_fps t).

(** What the position and the delay of the sink leave alone. *)
Definition same_timeline (t t' : timeline) : Prop :=
  g_stream_fps t' = g_stream_fps t /\ g_seg_duration_us t' = g_seg_duration_us t /\
  g_anchor_wall_us t' = g_anchor_wall_us t /\ g_anchor_seg t' = g_anchor_seg t /\
  g_timeline_adj_us t' = g_timeline_adj_us t /\ g_playout_latency_us t' = g_playout_latency_us t /\
  g_audio_start_wall_us t' = g_audio_start_wall_us t.

Lemma clocks_timeline (w : sound_worker) e dn :
  let v := audio_delay (audio_position w e dn) e in
  same_timeline (tl w) (tl v) /\ slots v = slots w.
Proof.
  assert (H1 : same_timeline (tl w) (tl (audio_position w e dn)) /\ slots (audio_position w e dn) = slots w).
  { unfold audio_position, same_timeline. destruct (snk_position _ _); cbv zeta; repeat case_decide; done. }
  unfold audio_delay. by destruct (snk_delay _ _).
Qed.

Lemma deadline_before_start t s k :
  small (g_anchor_wall_us t) -> small (g_playout_latency_us t) -> g_timeline_adj_us t = 0 ->
  g_audio_start_wall_us t = 0 -> g_anchor_seg t <= s -> 0 <= i64 (g_seg_duration_us t) -> small (content_us t s k) ->
  dash_au_deadline t s k = g_anchor_wall_us t + g_playout_latency_us t + content_us t s k.
Proof.
  intros HA HP Hadj H0 Hs Hd HX. unfold small in *.
  assert (Hb : deadline_base t = g_anchor_wall_us t + g_playout_latency_us t).
  { unfold deadline_base. rewrite H0, Hadj, decide_True, !i64_small by (done || lia). lia. }
  unfold content_us in *. rewrite dash_au_deadline_eq; lia.
Qed.

Lemma deadline_after_start t s k :
  small (g_audio_start_wall_us t) -> 0 < g_audio_start_wall_us t -> small (g_audio_delay_us t) ->
  0 <= g_playout_latency_us t <= g_audio_start_wall_us t -> g_timeline_adj_us t = 0 ->
  g_anchor_seg t <= s -> 0 <= i64 (g_seg_duration_us t) -> small (content_us t s k) ->
  dash_au_deadline t s k
  = g_audio_start_wall_us t + g_audio_delay_us t - g_playout_latency_us t + content_us t s k.
Proof.
  intros HS HS0 HD HP Hadj Hs Hd HX. unfold small in *.
  assert (Hb : deadline_base t = g_audio_start_wall_us t + g_audio_delay_us t - g_playout_latency_us t).
  { unfold deadline_base. rewrite Hadj, decide_False, !i64_small by (rewrite ?i64_small; lia). lia. }
  unfold content_us in *. rewrite dash_au_deadline_eq; lia.
Qed.

(** The deadlines of the slots, shifted by the difference of the anchors. *)
Lemma resync_slots t fs q n wall i fr d :
  g_anchor_wall_us t <> 0 -> g_anchor_seg t = n -> small (g_anchor_wall_us t) -> small (resync_anchor t wall) ->
  fs !! i = Some fr -> Slots.state fr <> Slots.SLOT_FREE -> Slots.deadline_us fr = d ->
  small (d - g_anchor_wall_us t) -> small d ->
  let '(t', fs', _) := dash_resync t fs q n wall in
  exists fr', fs' !! i = Some fr' /\ Slots.deadline_us fr' = d + (resync_anchor t wall - g_anchor_wall_us t).
Proof.
  intros Ha Hn HA HA' Hi Hst Hd Hge Hsm. unfold small in *. unfold dash_resync. cbv zeta.
  rewrite decide_True by done. cbn [g_anchor_wall_us].
  change (g_anchor_wall_us (_ <| g_last_seg_arrival_wall := 0 |>)) with (resync_anchor t wall).
  rewrite !i64_small by lia. case_decide as Hz.
  - eexists. split; [unfold Slots.shift_deadlines; by rewrite list_lookup_fmap, Hi|].
    unfold Slots.shift_deadline. rewrite decide_True by done. cbn [Slots.deadline_us]. rewrite Hd.
    change (u64 (Z.max 0 (i64 (i64 d + (resync_anchor t wall - g_anchor_wall_us t))))
      = d + (resync_anchor t wall - g_anchor_wall_us t)).
    rewrite (i64_small d), i64_small by lia. rewrite Z.max_r, u64_small by lia. done.
  - exists fr. split; [done|]. lia.
Qed.

Lemma resync_fields t fs q n wall :
  let t' := (dash_resync t fs q n wall).1.1 in
  g_stream_fps t' = g_stream_fps t /\ g_seg_duration_us t' = g_seg_duration_us t /\
  g_anchor_wall_us t' = resync_anchor t wall /\ g_anchor_seg t' = n /\ g_timeline_adj_us t' = 0 /\
  g_playout_latency_us t' = g_playout_latency_us t /\
  g_audio_start_wall_us t' = g_audio_start_wall_us t /\ g_audio_delay_us t' = g_audio_delay_us t.
Proof.
  unfold dash_resync. cbv zeta.
  destruct (decide (g_anchor_wall_us t <> 0 /\ g_anchor_seg t = n)); [|done].
  match goal with |- context [if decide ?P then _ else _] => by destruct (decide P) end.
Qed.

(** A round that changes the clocks ends with them. *)
Lemma audio_round_inv (w : sound_worker) e w' es : audio_round w e = Some (w', es) ->
  w' = w \/ exists w1 dn, tl w1 = tl w /\ slots w1 = slots w /\
    w' = audio_begin (audio_delay (audio_position w1 e dn) e) e.
Proof.
  unfold audio_round. destruct (snk_playing _); [|by intros [= <- _]; left]. cbn [negb].
  case_decide; [by intros [= <- _]; left|]. intros Hr. right.
  destruct (wait_period _ _ _ _) as [[[q n] e1]|]; [|done]. cbn [mbind option_bind] in Hr.
  destruct (take_period _ _) as [[[[q' pcm] m] dn]|]; [|done]. cbn [mbind option_bind] in Hr.
  destruct (slice _ _ _) as [out|]; [|done]. cbn [mbind option_bind] in Hr.
  destruct (Audio.vmc_audio_pipeline_render _ _ _) as [[st [p|]]|]; [|done..].
  cbn [mbind option_bind] in Hr. injection Hr as <- _. eexists _, dn. split_and!; [..|reflexivity]; done.
Qed.

(** The round that starts the audio moves the pictures. When playback
    begins, the timeline is anchored where the first sample will be heard, less
    the playout latency. A frame that already waits in a slot keeps its place
    in the content, but its deadline is the one a frame published from now on
    would get plus the playout latency. *)
Theorem audio_start_rebases (w : sound_worker) e w' es i fr s k :
  audio_round w e = Some (w', es) ->
  let t := tl w in let t' := tl w' in
  g_audio_start_wall_us t = 0 -> g_audio_start_wall_us t' <> 0 ->
  g_anchor_wall_us t <> 0 -> g_anchor_seg t <> 0 -> g_timeline_adj_us t = 0 -> g_audio_delay_us t' <> 0 ->
  small (g_anchor_wall_us t) -> small (start_wall e) -> small (g_audio_delay_us t') ->
  0 <= g_playout_latency_us t <= start_wall e ->
  small (start_wall e + g_audio_delay_us t') ->
  0 <= i64 (g_seg_duration_us t) -> g_anchor_seg t <= s ->
  small (g_anchor_wall_us t + g_playout_latency_us t + content_us t s k) -> small (content_us t s k) ->
  slots w !! i = Some fr -> Slots.state fr <> Slots.SLOT_FREE -> Slots.deadline_us fr = dash_au_deadline t s k ->
  g_audio_start_wall_us t' = start_wall e /\ g_anchor_seg t' = g_anchor_seg t /\
  g_anchor_wall_us t' = start_wall e + g_audio_delay_us t' - g_playout_latency_us t /\
  exists fr', slots w' !! i = Some fr' /\
    Slots.deadline_us fr' = dash_au_deadline t' s k + g_playout_latency_us t.
Proof.
  intros Hr t t' H0 H1 Ha Hseg Hadj Hdl HA HS HDl HP Hsum Hdur Hs Hsm HX Hi Hst Hd.
  assert (HPs : small (g_playout_latency_us t)) by (unfold small in *; lia).
  rewrite (deadline_before_start t s k) in Hd by done.
  destruct (audio_round_inv w e w' es Hr) as [->|(w1 & dn & E1 & E2 & Ew)]; [done|].
  destruct (clocks_timeline w1 e dn) as [(F1 & F2 & F3 & F4 & F5 & F6 & F7) Hsl].
  set (v := audio_delay (audio_position w1 e dn) e) in *. rewrite E1 in F1, F2, F3, F4, F5, F6, F7.
  rewrite E2 in Hsl. fold t in F1, F2, F3, F4, F5, F6, F7. clearbody v. subst t'. rewrite Ew in *. clear Hr Ew E1 E2 w' w1.
  unfold audio_begin in *. rewrite F7, H0 in *.
  destruct (g_audio_active (tl v) && _); [|congruence]. cbv zeta in *.
  set (t1 := match snk_delay _ _ with Some _ => _ | None => _ end) in *.
  assert (Et1 : g_stream_fps t1 = g_stream_fps t /\ g_seg_duration_us t1 = g_seg_duration_us t /\
    g_anchor_wall_us t1 = g_anchor_wall_us t /\ g_anchor_seg t1 = g_anchor_seg t /\
    g_playout_latency_us t1 = g_playout_latency_us t /\ g_audio_start_wall_us t1 = start_wall e)
    by (unfold t1; by destruct (snk_delay _ _)).
  clearbody t1. destruct Et1 as (G1 & G2 & G3 & G4 & G5 & G6).
  rewrite (decide_True (P := g_anchor_seg t1 <> 0)) in * by congruence.
  pose proof (resync_fields t1 (slots v) (queue v) (g_anchor_seg t1) (resync_wall e)) as Hf.
  pose proof (resync_slots t1 (slots v) (queue v) (g_anchor_seg t1) (resync_wall e) i fr
    (g_anchor_wall_us t + g_playout_latency_us t + content_us t s k)) as Hrs.
  destruct (dash_resync t1 _ _ _ _) as [[t2 fs2] q2]. cbv zeta in Hf. cbn [fst tl slots upd_field] in *.
  destruct Hf as (K1 & K2 & K3 & K4 & K5 & K6 & K7 & K8).
  assert (Hanchor : resync_anchor t1 (resync_wall e)
    = start_wall e + g_audio_delay_us t2 - g_playout_latency_us t).
  { unfold resync_anchor. rewrite G6, decide_True by congruence. rewrite <- K8, decide_True by done.
    rewrite G5, u64_small; unfold small in *; lia. }
  assert (Hc : content_us t2 s k = content_us t s k).
  { unfold content_us. by rewrite K1, K2, K4, G1, G2, G4. }
  rewrite G3, Hanchor, Hsl in Hrs. destruct Hrs as (fr' & Hl & Hd'); try done; try congruence.
  all: try (unfold small in *; lia).
  split_and!; [congruence|congruence|congruence|]. exists fr'. split; [done|]. rewrite Hd'.
  rewrite (deadline_after_start t2 s k); rewrite ?K7, ?K6, ?K5, ?K4, ?K2, ?G2, ?G4, ?G5, ?G6, ?Hc; try done.
  all: unfold small in *; lia.
Qed.

End Start.

(** ** Over the ring buffer and the ALSA sink *)

#[local] Existing Instances RB.ringbuf_fifo RB.ringbuf_fifo_laws.

(** A device that takes every frame. *)
Definition alsa_takes_all (c : option Audio.alsa_ctx) (p : list Z) (fr : Z)
    : vmc_status * option Audio.alsa_ctx :=
  match c with
  | Some a => match Audio.alsa_play a p fr (Audio.mk_env true fr 0) with
              | Some (st, a, _, _) => (st, Some a)
              | None => (VMC_ERR_IO, c)
              end
  | None => (VMC_OK, c)
  end.

Definition demo_timeline : timeline := mk_timeline 24 1000000 1700000000000000 4 0 85000 0 0 0 0 false 0 0 0.

Definition demo_worker : worker (Q := RB.vmc_ringbuf) (C := option Audio.alsa_ctx) (D := unit) :=
  mk_worker (RB.mk_ringbuf (replicate 2048 0) 2047 0 0 0)
    (Audio.mk_pipeline (replicate 8 Audio.source_zero)
       (Audio.mk_sink (Some alsa_takes_all) (Some (Audio.mk_alsa true 0 2 [] 0))) (Audio.mk_asource None tt) 0)
    (replicate 960 0) demo_timeline [] Present.queue_init 0 0 0.

(** A round with the device's delay at 10 ms and nothing new in the FIFO. *)
Definition demo_env : round_env :=
  mk_env true (fun _ => []) (fun _ => true) (Some 1700000001000000) (Some 480) (Some 480)
    1700000001000000 1700000001000000 1700000001000000.

Lemma audio_stream_conserved_witness :
  exists w' es, audio_run demo_worker
      [TOther (FWrite (replicate 1200 7) 1200); TRound demo_env; TRound demo_env] = Some (w', es) /\
    periods es = [replicate 960 7; replicate 240 7 ++ replicate 720 0] /\
    accepted es = released es ++ fifo_data (fifo w') /\
    Forall event_aligned es.
Proof.
  destruct (audio_stream_conserved alsa_takes_all demo_worker
    [TOther (FWrite (replicate 1200 7) 1200); TRound demo_env; TRound demo_env])
    as (w' & es & Hrun & _ & Hc & _ & _ & Ha).
  - split; [|by split_and!]. exists 11. by split_and!; vm_compute.
  - repeat constructor; vm_compute; congruence.
  - repeat constructor.
  - exists w', es. split; [exact Hrun|]. split; [|split; [exact Hc|]].
    + assert (Hp : periods <$> (audio_run demo_worker
        [TOther (FWrite (replicate 1200 7) 1200); TRound demo_env; TRound demo_env] ≫= fun r => Some r.2)
        = Some [replicate 960 7; replicate 240 7 ++ replicate 720 0]) by (vm_compute; reflexivity).
      rewrite Hrun in Hp. injection Hp as Hp. exact Hp.
    + apply Ha; [repeat constructor|reflexivity|reflexivity].
Defined.

(** A datagram of 3 bytes in front of stereo frames [1, 2]: from then on left
    and right are made of halves of the samples. *)
Example odd_payload_swaps_channels :
  (fun r => take 4 <$> periods r.2) <$> audio_run demo_worker
    [TOther (FWrite [9; 9; 9] 3); TOther (FWrite (mjoin (replicate 479 [1; 0; 2; 0])) 1916);
     TRound demo_env; TRound demo_env]
  = Some [[9; 9; 9; 1]; [0; 2; 0; 1]].
Proof. vm_compute. reflexivity. Qed.

(** A session whose pictures arrive before its sound: frame 1 of segment 4
    waits in slot 0 when the first period is played. *)
Definition waiting_slot (d : Z) : Slots.vmc_frame_slot := Slots.mk_slot [] 0 0 0 d 1 0 4 Slots.SLOT_READY.

Definition starting_worker : worker (Q := RB.vmc_ringbuf) (C := option Audio.alsa_ctx) (D := unit) :=
  demo_worker <| slots := [waiting_slot (dash_au_deadline demo_timeline 4 1)] |>.

Lemma audio_start_rebases_witness :
  exists w' es fr', audio_round starting_worker demo_env = Some (w', es) /\
    g_audio_start_wall_us (tl w') = 1700000001000000 /\
    slots w' !! 0%nat = Some fr' /\ Slots.deadline_us fr' = dash_au_deadline (tl w') 4 1 + 85000.
Proof.
  assert (Ht : (fun r => tl r.1) <$> audio_round starting_worker demo_env = Some
    (mk_timeline 24 1000000 1700000000925000 4 0 85000 1 0 0 1700000001000000 true 1700000001000000 10000
       1700000001000000)) by (vm_compute; reflexivity).
  destruct (audio_round starting_worker demo_env) as [[w' es]|] eqn:E; [|discriminate Ht].
  cbn [fmap option_fmap option_map fst] in Ht. injection Ht as Ht.
  destruct (audio_start_rebases starting_worker demo_env w' es 0 (waiting_slot (dash_au_deadline demo_timeline 4 1))
    4 1 E) as (H1 & _ & _ & fr' & Hl & Hd); rewrite ?Ht;
    [vm_compute; first [reflexivity|discriminate|split; [discriminate|first [reflexivity|discriminate]]]..|].
  exists w', es, fr'. split; [reflexivity|]. rewrite Ht in Hd |- *. split; [reflexivity|]. split; [exact Hl|exact Hd].
Defined.

(** Frame 2, published right after that round, is decoded before frame 1. *)
Example audio_start_reorders :
  (fun r => Slots.pick 0 Slots.UINT64_MAX None
              (slots r.1 ++ [waiting_slot (dash_au_deadline (tl r.1) 4 2)]))
  <$> audio_round starting_worker demo_env = Some (Some 1%nat).
Proof. vm_compute. reflexivity. Qed.

End Aw.
