(* ===== verification/PresentWorker.v ===== *)
(** * The present worker of the thin client ([apps/thinclient/main.c], [present_worker])

    The thread that takes the frames off the present queue, holds each until
    the sound that belongs to it is heard, flips it onto the screen and corrects
    the lead of the picture from what it measures at the flip. It calls the
    scanout of [Drm], whose kernel is an interface, and the clocks of [AvSync];
    the readings of the clocks and the timeline at each poll are inputs of a
    round. [g_run] stays set during a round. *)

From S2P Require Import Prelude Drm FrameSlots Present AvSync.

#[local] Open Scope Z_scope.

Module Pw.
Import AvSync.
#[local] Existing Instances Drm.eta_drm Drm.kms_kernel.

(** ** The A/V servo *)

(** [off]: the time stamp of the frame on screen less the audio content. *)
Definition av_servo (shift off : Z) : Z :=
  if decide (off > -500000 /\ off < 500000) then
    let s := shift - Z.quot off 8 in
    let s := if decide (s < -200000) then -200000 else s in
    if decide (s > 200000) then 200000 else s
  else shift.

(** ** The gate *)

(** What a poll reads: the timeline, the wall clock at the content test, at the
    test for a stalled sound clock, and inside [dash_pres_clock]. *)
Record poll := mk_poll {
  p_tl : timeline; p_wall : Z; p_wall2 : Z; p_clock1 : Z; p_clock2 : Z; p_clock3 : Z;
}.

(** Whether a poll releases the frame. *)
Definition released (gate_pts deadline : Z) (p : poll) : bool :=
  let ac := tlm_audio_content_at_wall (p_tl p) (p_wall p) in
  (bool_decide (ac >= 0) && bool_decide (ac >= gate_pts)) ||
  ((bool_decide (ac < 0) ||
    bool_decide (u64 (u64 (p_wall2 p) - g_audio_last_advance_wall (p_tl p)) > 1000000)) &&
   bool_decide (dash_pres_clock (p_tl p) (p_clock1 p) (p_clock2 p) (p_clock3 p) >= deadline)).

(** The poll at which the frame is released, [600] if none does; the fuel is
    the number of polls left. *)
Fixpoint gate (fuel i : nat) (polls : nat -> poll) (gate_pts deadline : Z) : nat :=
  match fuel with
  | O => i
  | S fuel => if released gate_pts deadline (polls i) then i
              else gate fuel (S i) polls gate_pts deadline
  end.

Definition lead_us (vblank_period_us : Z) : Z :=
  i64 (if decide (vblank_period_us > 0) then vblank_period_us else 16667) * 2.

(** ** The flip *)

Section Flip.
Context {K : Type} `{HK : Drm.DrmKernel K}.

(** The retries; the status of the last attempt. *)
Fixpoint flip_loop (tries : nat) (s : Drm.vmc_drm_scanout) (k : K) (idx now : Z)
    : option (vmc_status * Drm.vmc_drm_scanout * K) :=
  match tries with
  | O => Some (VMC_ERR_AGAIN, s, k)
  | S tries =>
    '(st, s, k) ← Drm.vmc_drm_scanout_present s k idx now;
    if decide (st = VMC_ERR_AGAIN) then
      '(r, s, k) ← Drm.vmc_drm_scanout_wait_flip s k 20;
      if decide (r < 0) then Some (st, s, k) else flip_loop tries s k idx now
    else Some (st, s, k)
  end.

(** Drain, flip, drain. *)
Definition flip_frame (s : Drm.vmc_drm_scanout) (k : K) (idx now : Z)
    : option (vmc_status * Drm.vmc_drm_scanout * K) :=
  '(_, s, k) ← Drm.vmc_drm_scanout_drain s k;
  '(st, s, k) ← flip_loop 50 s k idx now;
  '(_, s, k) ← Drm.vmc_drm_scanout_drain s k;
  Some (st, s, k).

(** ** The report of a completed flip *)

(** What is emitted: a [vrender] record, a missed or doubled vblank, a failed
    flip. *)
Inductive report :=
| RVrender (buf vblank : Z) (m : Present.vmc_vmeta) (apos : Z) (repeat : bool)
| RVsyncMiss (late fidx : Z)
| RVsyncDup (vblank fidx : Z)
| RFlipError (fidx : Z).

(** The state of the worker and of what it shares: the queue, the scanout and
    its kernel, [g_vmeta]; its statics [sync_shift] and [last_buf]. *)
Record presenter := mk_presenter {
  queue : Present.present_queue; so : Drm.vmc_drm_scanout; kn : K; vmeta : list Present.vmc_vmeta;
  sync_shift : Z; last_buf : Z; g_presented : Z; g_av_armed : bool; g_last_video_deadline_us : Z;
}.

#[export] Instance eta_presenter : Eta presenter := fun p =>
  mk_presenter (queue p) (so p) (kn p) (vmeta p) (sync_shift p) (last_buf p) (g_presented p)
    (g_av_armed p) (g_last_video_deadline_us p).

(** What a round reads: the polls of the gate, the clock at the submission, the
    timeline at the report, the wall clock in [tlm_audio_content_us] and after. *)
Record round_env := mk_round {
  polls : nat -> poll; submit_now : Z; report_tl : timeline; apos_wall : Z; wall_now : Z;
}.

Definition completed (p : presenter) (e : round_env) : option (presenter * list report) :=
  let cb := Drm.last_completed (so p) in
  if decide (0 <= cb < Drm.VMC_DRM_MAX_BUFS) then
    let vblank := Drm.last_flip_ts_us (so p) in
    m ← zget (vmeta p) cb;
    let dup := bool_decide (cb = last_buf p) in
    let apos := tlm_audio_content_at_wall (report_tl e) (apos_wall e) in
    let shift := av_servo (sync_shift p) (Present.m_pts m - apos) in
    let late := i64 (wall_now e) - i64 (Present.m_deadline m) in
    let fp := frame_period_us (g_stream_fps (report_tl e)) in
    let s := (so p) <| Drm.last_completed := -1 |> in
    Some (p <| so := s |> <| last_buf := cb |>
            <| sync_shift := shift |>,
          [RVrender cb vblank m apos dup]
          ++ (if decide (apos >= 0 /\ late > i64 (g_playout_latency_us (report_tl e)) + i64 (fp * 3 / 2))
              then [RVsyncMiss late (Present.m_fidx m)] else [])
          ++ (if dup then [RVsyncDup vblank (Present.m_fidx m)] else []))
  else Some (p, []).

(** ** A round *)

(** A frame off the queue; with it the number of polls it waited. *)
Definition present_frame (p : presenter) (x : Present.present_entry) (e : round_env)
    : option (presenter * nat * list report) :=
  let gate_pts := Present.pts_us x - lead_us (Drm.vblank_period_us (so p)) - sync_shift p in
  let waited := if decide (Present.deadline_us x <> 0)
                then gate 600 0 (polls e) gate_pts (Present.deadline_us x) else O in
  '(st, s, k) ← flip_frame (so p) (kn p) (Present.buf_idx x) (submit_now e);
  err ← (if decide (st = VMC_OK \/ st = VMC_ERR_AGAIN) then Some []
         else m ← zget (vmeta p) (Present.buf_idx x); Some [RFlipError (Present.m_fidx m)]);
  '(p, rs) ← completed (p <| so := s |> <| kn := k |>) e;
  Some (p <| g_presented := g_presented p + 1 |> <| g_av_armed := true |>
          <| g_last_video_deadline_us :=
               u64 (Present.deadline_us x - g_playout_latency_us (report_tl e)) |>,
        waited, err ++ rs).

(** [None] inside: the queue is empty, the worker waits. *)
Definition present_round (p : presenter) (e : round_env)
    : option (presenter * option (nat * list report)) :=
  match Present.present_pop (queue p) true with
  | Present.Waits | Present.Does None => Some (p, None)
  | Present.Faults => None
  | Present.Does (Some (x, q)) =>
    '(p, waited, rs) ← present_frame (p <| queue := q |>) x e; Some (p, Some (waited, rs))
  end.

End Flip.

(** ** The servo converges *)

(** A run of the servo: each measurement is of a frame that was released with
    the shift at hand, or with the one before it ([true]) when its flip was
    still pending; [b] is the shift that would have put the frame on its sound. *)
Fixpoint servo_run (prev cur : Z) (ms : list (bool * Z)) : Z :=
  match ms with
  | [] => cur
  | (late, b) :: ms => servo_run cur (av_servo cur ((if late then prev else cur) - b)) ms
  end.

(** [a] is at most [z] away from 0. *)
Definition near (z a : Z) : Prop := - z <= a <= z.

Lemma near_abs z a : Z.abs a <= z <-> near z a.
Proof. unfold near. lia. Qed.

Section Servo.
Context (b dev : Z) (Hb : near 200000 b) (Hdev : 0 <= dev).

(** The error is within [(x + 9 dev) / 7], now and one frame ago, and moves by
    an eighth of it at most. *)
Record within (x prev cur : Z) : Prop := {
  w_low : 56 <= x;
  w_win : x + 16 * dev < 3500000;
  w_range : near 200000 cur;
  w_cur : near (x + 9 * dev) (7 * (cur - b));
  w_prev : near (x + 9 * dev) (7 * (prev - b));
  w_move : near (x + 16 * dev) (56 * (cur - prev));
}.

(** The bound after three frames. *)
Definition shrink (x : Z) : Z := (57 * x + 392) / 64.

(** Clamping moves towards every point of the range. *)
Lemma clamp_toward x c z : near 200000 c -> near z (x - c) ->
  let s := if decide (x < -200000) then -200000 else x in
  let s := if decide (s > 200000) then 200000 else s in
  near 200000 s /\ near z (s - c).
Proof. unfold near. intros Hc Hz. cbv zeta. repeat case_decide; lia. Qed.

(** An eighth, rounded towards zero. *)
Lemma eighth o z : near z o -> near z (8 * Z.quot o 8) /\ near 7 (o - 8 * Z.quot o 8).
Proof. unfold near. intros. Z.quot_rem_to_equations; lia. Qed.

Lemma clamp_scaled k x c z : 0 < k -> near 200000 c -> near z (k * (x - c)) ->
  let s := if decide (x < -200000) then -200000 else x in
  let s := if decide (s > 200000) then 200000 else s in
  near 200000 s /\ near z (k * (s - c)).
Proof.
  intros Hk Hc Hz. destruct (clamp_toward x c (z / k) Hc) as [H1 H2].
  - unfold near in *. split; [|apply Z.div_le_lower_bound; lia].
    enough (- (z / k) <= x - c) by done. enough (c - x <= z / k) by lia. apply Z.div_le_lower_bound; lia.
  - cbv zeta. split; [exact H1|]. pose proof (Z.mul_div_le z k Hk). unfold near in *. nia.
Qed.

Lemma servo_step x y prev cur late m :
  within x prev cur -> near dev (m - b) -> y <= x ->
  near (y + 9 * dev) (7 * (cur - b)) -> near (y + 9 * dev) (7 * (prev - b)) ->
  let cur' := av_servo cur ((if late : bool then prev else cur) - m) in
  near 200000 cur' /\ near (shrink x + 9 * dev) (7 * (cur' - b)) /\
  near (y + 16 * dev) (56 * (cur' - cur)).
Proof.
  intros [Hl Hw Hr Hc Hp Hm] Hn Hy Hyc Hyp. set (o := (if late then prev else cur) - m).
  assert (Ho : near (y + 16 * dev) (7 * o)) by (unfold near, o in *; destruct late; lia).
  assert (Hd : near (x + 16 * dev) (56 * (cur - b - (o + (m - b))))) by (unfold near, o in *; destruct late; lia).
  unfold av_servo. rewrite decide_True by (unfold near in *; lia). cbv zeta.
  destruct (eighth o ((y + 16 * dev) / 7)) as [H8 Hrem].
  { unfold near in *. Z.div_mod_to_equations; lia. }
  set (q := Z.quot o 8) in *. clearbody o q. clear Hyc Hyp Hp Hw.
  assert (He : near (shrink x + 9 * dev) (7 * (cur - q - b))).
  { assert (near (57 * x + 392 + 576 * dev) (448 * (cur - q - b))) by (unfold near in *; lia).
    unfold shrink, near in *. Z.div_mod_to_equations; lia. }
  assert (Hq : near (y + 16 * dev) (56 * (cur - q - cur))).
  { unfold near in *. Z.div_mod_to_equations; lia. }
  destruct (clamp_scaled 7 (cur - q) b _ ltac:(lia) Hb He) as [H1 H2].
  destruct (clamp_scaled 56 (cur - q) cur _ ltac:(lia) Hr Hq) as [_ H3].
  split_and!; [exact H1|exact H2|exact H3].
Qed.

Lemma shrink_low x : 56 <= x -> 56 <= shrink x <= x.
Proof. unfold shrink. intros. Z.div_mod_to_equations; lia. Qed.

(** A frame keeps the bound. *)
Lemma within_next x prev cur late m : within x prev cur -> near dev (m - b) ->
  within x cur (av_servo cur ((if late : bool then prev else cur) - m)).
Proof.
  intros Hw Hn. destruct (servo_step x x prev cur late m Hw Hn) as (H1 & H2 & H3); try apply Hw; [lia|].
  destruct Hw as [Hl Hwin Hr Hc Hp Hm]. pose proof (shrink_low x Hl).
  split; try done. unfold near in *. lia.
Qed.

(** Three frames tighten it. *)
Lemma within_three x prev cur l1 l2 l3 m1 m2 m3 ms :
  within x prev cur -> near dev (m1 - b) -> near dev (m2 - b) -> near dev (m3 - b) ->
  exists prev' cur', servo_run prev cur ((l1, m1) :: (l2, m2) :: (l3, m3) :: ms) = servo_run prev' cur' ms /\
    within (shrink x) prev' cur'.
Proof.
  intros Hw N1 N2 N3. cbn [servo_run].
  set (c1 := av_servo cur _). set (c2 := av_servo c1 _). set (c3 := av_servo c2 _).
  pose proof (shrink_low x (w_low _ _ _ Hw)) as Hs.
  pose proof (within_next x prev cur l1 m1 Hw N1) as W1. fold c1 in W1.
  pose proof (within_next x cur c1 l2 m2 W1 N2) as W2. fold c2 in W2.
  destruct (servo_step x x prev cur l1 m1 Hw N1) as (_ & E1 & _); [lia|apply Hw|apply Hw|]. fold c1 in E1.
  destruct (servo_step x x cur c1 l2 m2 W1 N2) as (_ & E2 & _); [lia|apply W1|apply W1|]. fold c2 in E2.
  destruct (servo_step x (shrink x) c1 c2 l3 m3 W2 N3) as (R3 & E3 & M3); [lia|done|done|]. fold c3 in R3, E3, M3.
  exists c2, c3. split; [done|]. destruct Hw as [Hl Hwin _ _ _ _]. split; done || lia.
Qed.

Lemma within_run ms : forall x prev cur, within x prev cur -> Forall (fun m => near dev (m.2 - b)) ms ->
  exists prev', within x prev' (servo_run prev cur ms).
Proof.
  induction ms as [|[l m] ms IH]; intros x prev cur Hw Hms; [by exists prev|].
  apply Forall_cons in Hms as [Hm Hms]. cbn [servo_run]. apply IH; [by apply within_next|done].
Qed.

Lemma within_iter k : forall x prev cur ms, within x prev cur ->
  Forall (fun m => near dev (m.2 - b)) ms -> (3 * k <= length ms)%nat ->
  exists prev', within (Nat.iter k shrink x) prev' (servo_run prev cur ms).
Proof.
  induction k as [|k IH]; intros x prev cur ms Hw Hms Hl; [by apply within_run|].
  destruct ms as [|[l1 m1] [|[l2 m2] [|[l3 m3] ms]]]; cbn [length] in Hl; try lia.
  do 3 (apply Forall_cons in Hms as [? Hms]). cbn [snd] in *.
  destruct (within_three x prev cur l1 l2 l3 m1 m2 m3 ms) as (p' & c' & -> & Hw'); [done..|].
  rewrite Nat.iter_succ_r. apply IH; [done|done|lia].
Qed.

End Servo.

(** C33. The picture finds its sound. Whatever shift the servo starts with, when
    the shift that is needed varies by at most [dev] (30 ms) around a value it
    can reach, then after 400 measured frames the error is at most 8 us plus
    nine sevenths of [dev], and stays there; the shift never leaves 200 ms. This
    also holds when a measurement is one frame old, as it is while a flip is
    pending. *)
Theorem av_servo_converges b dev s0 ms :
  Z.abs b <= 200000 -> 0 <= dev <= 30000 -> Z.abs s0 <= 200000 ->
  Forall (fun m => Z.abs (m.2 - b) <= dev) ms ->
  Z.abs (servo_run s0 s0 ms) <= 200000 /\
  ((400 <= length ms)%nat -> 7 * Z.abs (servo_run s0 s0 ms - b) <= 56 + 9 * dev).
Proof.
  intros Hb%near_abs Hdev Hs0 Hms.
  assert (Hn : Forall (fun m => near dev (m.2 - b)) ms) by (eapply Forall_impl; [exact Hms|]; intros m; apply near_abs).
  assert (Hw : within b dev 2800056 s0 s0) by (split; unfold near in *; lia).
  destruct (within_run b dev Hb (proj1 Hdev) ms _ _ _ Hw Hn) as (p1 & W1).
  split; [apply near_abs, W1|]. intros Hl.
  destruct (within_iter b dev Hb (proj1 Hdev) 133 _ _ _ _ Hw Hn ltac:(lia)) as (p2 & W2).
  assert (Hx : Nat.iter 133 shrink 2800056 = 56) by (vm_compute; reflexivity).
  rewrite Hx in W2. pose proof (w_cur _ _ _ _ _ W2). unfold near in *. lia.
Qed.

Lemma av_servo_converges_witness :
  servo_run 0 0 [(false, 35000); (true, 35000)] = 8750 /\
  7 * Z.abs (servo_run 0 0 (replicate 400 (true, 35000)) - 35000) <= 56 + 9 * 0.
Proof.
  split; [vm_compute; reflexivity|]. apply (av_servo_converges 35000 0 0); try lia.
  - apply Forall_replicate. cbn. lia.
  - rewrite length_replicate. lia.
Defined.

(** ** What a frame on its way to the screen cannot break *)

(** The first poll that releases. *)
Lemma gate_first fuel : forall i polls g d,
  let w := gate fuel i polls g d in
  (i <= w <= i + fuel)%nat /\ (forall j, (i <= j < w)%nat -> released g d (polls j) = false) /\
  ((w < i + fuel)%nat -> released g d (polls w) = true).
Proof.
  induction fuel as [|fuel IH]; intros i ps g d; cbn [gate].
  { split; [lia|]. split; [|lia]. intros j Hj. lia. }
  destruct (released g d (ps i)) eqn:E.
  { split; [lia|]. split; [intros j Hj; lia|done]. }
  destruct (IH (S i) ps g d) as (H1 & H2 & H3). split; [lia|]. split; [|intros; apply H3; lia].
  intros j Hj. destruct (decide (j = i)) as [->|]; [done|apply H2; lia].
Qed.

Section Screen.
Context (n a lc : Z) (Ha : 0 <= a).

(** Since buffer [a] was on screen with [lc] as the last completion: either
    nothing has completed, or another buffer is on screen and it is the last
    completed one; [a] is not on its way. *)
Definition shown (s : Drm.vmc_drm_scanout) : Prop :=
  Drm.flip_pending s <> a /\
  ((Drm.on_screen s = a /\ Drm.last_completed s = lc) \/
   (Drm.on_screen s <> a /\ Drm.last_completed s = Drm.on_screen s)).

Lemma handler_completes s sec usec s' : Drm.flip_handler s sec usec = Some s' ->
  Drm.flip_h_head s <> Drm.flip_h_tail s ->
  Drm.last_completed s' = Drm.on_screen s' /\ Drm.flip_pending s' = -1.
Proof.
  unfold Drm.flip_handler. intros H Hne. rewrite decide_True in H by done.
  destruct (zget _ _) as [rec|]; cbn [mbind option_bind] in H; [|done].
  destruct (Drm.release_on_screen _ _) as [s1|]; cbn [mbind option_bind] in H; [|done].
  injection H as <-. done.
Qed.

Lemma wait_shown s k hs p ms : Drm.sys_inv n (Drm.mk_sys s k hs) p -> shown s ->
  exists d s' k' p', Drm.vmc_drm_scanout_wait_flip s k ms = Some (d, s', k') /\ 0 <= d /\
    Drm.sys_inv n (Drm.mk_sys s' k' hs) p' /\ shown s'.
Proof.
  intros Hi Hs. destruct (Drm.wait_inv n s k hs p ms Hi) as (d & s' & k' & p' & He & Hi').
  exists d, s', k', p'. split; [done|]. revert He.
  unfold Drm.vmc_drm_scanout_wait_flip, Drm.drain_events. cbn [Drm.poll_events Drm.kms_kernel].
  destruct (Drm.k_script k) as [|[[sec usec]|] sc]; [by intros [= <- <- <-]| |by intros [= <- <- <-]].
  destruct (Drm.k_pending k) as [f|] eqn:Ek; [|by intros [= <- <- <-]].
  destruct p as [i|]; [|destruct (Drm.si_flip _ _ _ Hi) as (? & _); cbn in *; congruence].
  destruct (Drm.handler_inv n s k hs i (sec, usec) Hi) as (f' & s1 & _ & Hh & Hon & _).
  cbn [Drm.handle_events fst snd] in *. rewrite Hh. cbn [mbind option_bind]. intros [= <- <- <-].
  destruct (Drm.si_flip _ _ _ Hi) as (_ & Hfp & Hhd & _). cbn [Drm.so] in Hfp, Hhd.
  assert (Hne : Drm.flip_h_head s <> Drm.flip_h_tail s).
  { rewrite Hhd. apply Drm.rem_succ_ne, (Drm.sh_tail _ (Drm.si_shape _ _ _ Hi)). }
  destruct (handler_completes _ _ _ _ Hh Hne) as [Hlc Hfp'].
  split; [lia|]. split; [done|]. split; [lia|]. right. destruct Hs as [Hne2 _]. split; [congruence|done].
Qed.

Lemma record_shown s idx now s' : Drm.record_flip s idx now = Some s' -> idx <> a -> shown s -> shown s'.
Proof.
  unfold Drm.record_flip. intros H Hidx [_ Hs].
  destruct (zget _ _); cbn [mbind option_bind] in H; [|done].
  destruct (zset _ _ _); cbn [mbind option_bind] in H; [|done]. cbv zeta in H.
  destruct (zset _ _ (Drm.mk_rec _ _)); cbn [mbind option_bind] in H; [|done]. injection H as <-.
  destruct (decide _); (split; [done|exact Hs]).
Qed.

Lemma present_loop_shown tries : forall s k hs p idx now,
  Drm.sys_inv n (Drm.mk_sys s k hs) p -> shown s -> idx ∈ hs -> idx <> a ->
  exists st s' k' p', Drm.present_loop tries s k idx now = Some (st, s', k') /\
    Drm.sys_inv n (Drm.mk_sys s' k' (Drm.after st idx hs)) p' /\ shown s'.
Proof.
  induction tries as [|tries IH]; intros s k hs p idx now Hi Hs Hidx Hne; cbn [Drm.present_loop].
  { by exists VMC_ERR_AGAIN, s, k, p. }
  destruct (Drm.si_handed _ _ _ Hi idx Hidx) as ((b & Hb & _) & _). cbn [Drm.so] in Hb.
  pose proof (Drm.buf_at_range _ _ _ Hb) as [_ Hz]. rewrite Hz.
  cbn [mbind option_bind Drm.page_flip Drm.kms_kernel].
  assert (Hkeep : forall sc, Drm.sys_inv n (Drm.mk_sys s (Drm.mk_kms (Drm.k_pending k) (Drm.k_scan k) sc) hs) p).
  { intros sc. destruct Hi. by split. }
  destruct (Drm.k_script k) as [|[ts|] sc]; [by eexists _, _, _, p| |by eexists _, _, _, p].
  destruct (Drm.k_pending k) as [f|] eqn:Ek.
  - destruct (wait_shown s (Drm.mk_kms (Some f) (Drm.k_scan k) sc) hs p
      (i32 (u32 (Drm.vblank_period_us s + 999) / 1000)) (Hkeep sc) Hs) as (d & s1 & k1 & p1 & -> & _ & Hi1 & Hs1).
    cbn [mbind option_bind]. by eapply IH.
  - destruct p as [i|]; [destruct (Drm.si_flip _ _ _ Hi) as ((? & _ & ? & _) & _); cbn in *; congruence|].
    destruct (Drm.record_inv n s k hs idx now sc Hi Hidx) as (b' & s1 & Hb' & Hr & Hi1).
    assert (b' = b) as -> by congruence. rewrite Hr. cbn [mbind option_bind].
    eexists _, _, _, (Some idx). split; [done|]. split; [exact Hi1|by eapply record_shown].
Qed.

Lemma present_shown s k hs p idx now :
  Drm.sys_inv n (Drm.mk_sys s k hs) p -> shown s -> idx ∈ hs -> idx <> a ->
  exists st s' k' p', Drm.vmc_drm_scanout_present s k idx now = Some (st, s', k') /\
    Drm.sys_inv n (Drm.mk_sys s' k' (Drm.after st idx hs)) p' /\ shown s'.
Proof.
  intros Hi Hs Hidx Hne. destruct (Drm.si_handed _ _ _ Hi idx Hidx) as ((b & Hb & _) & _).
  apply Drm.buf_at_range in Hb as [Hr _]. cbn [Drm.so] in Hr.
  unfold Drm.vmc_drm_scanout_present. rewrite (decide_False (P := idx < 0)) by lia.
  rewrite decide_False by lia. by eapply present_loop_shown.
Qed.

Lemma flip_loop_shown tries : forall s k hs p idx now,
  Drm.sys_inv n (Drm.mk_sys s k hs) p -> shown s -> idx ∈ hs -> idx <> a ->
  exists st s' k' p', flip_loop tries s k idx now = Some (st, s', k') /\
    Drm.sys_inv n (Drm.mk_sys s' k' (Drm.after st idx hs)) p' /\ shown s'.
Proof.
  induction tries as [|tries IH]; intros s k hs p idx now Hi Hs Hidx Hne; cbn [flip_loop].
  { by exists VMC_ERR_AGAIN, s, k, p. }
  destruct (present_shown s k hs p idx now Hi Hs Hidx Hne) as (st & s1 & k1 & p1 & -> & Hi1 & Hs1).
  cbn [mbind option_bind]. destruct (decide (st = VMC_ERR_AGAIN)) as [->|]; [|by eexists _, _, _, p1].
  change (Drm.after VMC_ERR_AGAIN idx hs) with hs in Hi1.
  destruct (wait_shown s1 k1 hs p1 20 Hi1 Hs1) as (d & s2 & k2 & p2 & -> & Hd & Hi2 & Hs2).
  cbn [mbind option_bind]. rewrite decide_False by lia. by eapply IH.
Qed.

Lemma flip_frame_shown s k hs p idx now :
  Drm.sys_inv n (Drm.mk_sys s k hs) p -> shown s -> idx ∈ hs -> idx <> a ->
  exists st s' k' p', flip_frame s k idx now = Some (st, s', k') /\
    Drm.sys_inv n (Drm.mk_sys s' k' (Drm.after st idx hs)) p' /\ shown s'.
Proof.
  intros Hi Hs Hidx Hne. unfold flip_frame.
  destruct (wait_shown s k hs p 0 Hi Hs) as (d & s1 & k1 & p1 & He1 & _ & Hi1 & Hs1).
  change (Drm.vmc_drm_scanout_drain s k) with (Drm.vmc_drm_scanout_wait_flip s k 0). rewrite He1.
  cbn [mbind option_bind].
  destruct (flip_loop_shown 50 s1 k1 hs p1 idx now Hi1 Hs1 Hidx Hne) as (st & s2 & k2 & p2 & -> & Hi2 & Hs2).
  cbn [mbind option_bind].
  destruct (wait_shown s2 k2 _ p2 0 Hi2 Hs2) as (d' & s3 & k3 & p3 & He3 & _ & Hi3 & Hs3).
  change (Drm.vmc_drm_scanout_drain s2 k2) with (Drm.vmc_drm_scanout_wait_flip s2 k2 0). rewrite He3.
  cbn [mbind option_bind]. by eexists _, _, _, p3.
Qed.

End Screen.

(** The state between two frames: [hs] are the buffers handed out and not yet
    presented. What completed has been reported, or it is the buffer shown
    since the scanout was set up. *)
Record presenter_ok (n : Z) (p : presenter (K := Drm.kms)) (hs : list Z) (pp : option Z) : Prop := {
  po_inv : Drm.sys_inv n (Drm.mk_sys (so p) (kn p) hs) pp;
  po_meta : zlen (vmeta p) = Drm.VMC_DRM_MAX_BUFS;
  po_shift : Z.abs (sync_shift p) <= 200000;
  po_last : (Drm.last_completed (so p) = -1 /\ (last_buf p = -1 \/ last_buf p = Drm.on_screen (so p))) \/
            (Drm.last_completed (so p) = Drm.on_screen (so p) /\ last_buf p = -1);
}.

(** What may be reported: a flip of the buffer that is on screen now. *)
Definition report_ok (p' : presenter (K := Drm.kms)) (r : report) : Prop :=
  match r with
  | RVrender b _ _ _ dup => b = Drm.on_screen (so p') /\ dup = false
  | RVsyncDup _ _ => False
  | _ => True
  end.

Lemma av_servo_bound s off : Z.abs s <= 200000 -> Z.abs (av_servo s off) <= 200000.
Proof. unfold av_servo. intros. repeat case_decide; lia. Qed.

Lemma screen_range n p hs pp : Drm.sys_inv n (Drm.mk_sys (so p) (kn p) hs) pp ->
  0 <= Drm.on_screen (so p) < Drm.VMC_DRM_MAX_BUFS.
Proof.
  intros Hi. destruct (Drm.si_screen _ _ _ Hi) as (b & Hb & _). apply Drm.buf_at_range in Hb as [Hr _].
  pose proof (Drm.sh_nbufs _ (Drm.si_shape _ _ _ Hi)). cbn [Drm.so] in *. lia.
Qed.

Lemma sys_inv_forget n s k hs pp : Drm.sys_inv n (Drm.mk_sys s k hs) pp ->
  Drm.sys_inv n (Drm.mk_sys (s <| Drm.last_completed := -1 |>) k hs) pp.
Proof.
  intros [Hsh Hcn Hfb Hfl Hsc Hfr Hnd Hha Hbu]. split; try done. destruct Hsh. by split.
Qed.

(** The report of the flip that has completed since [a] was on screen. *)
Lemma completed_ok n a p hs pp e :
  Drm.sys_inv n (Drm.mk_sys (so p) (kn p) hs) pp -> zlen (vmeta p) = Drm.VMC_DRM_MAX_BUFS ->
  Z.abs (sync_shift p) <= 200000 -> 0 <= a ->
  (shown a (-1) (so p) /\ (last_buf p = -1 \/ last_buf p = a)) \/ (shown a a (so p) /\ last_buf p = -1) ->
  exists p' rs, completed p e = Some (p', rs) /\ presenter_ok n p' hs pp /\ Forall (report_ok p') rs /\
    g_presented p' = g_presented p.
Proof.
  intros Hi Hm Hs Ha Hl. pose proof (screen_range _ _ _ _ Hi) as Hr. unfold completed. cbv zeta.
  set (cb := Drm.last_completed (so p)).
  destruct (decide (0 <= cb < Drm.VMC_DRM_MAX_BUFS)) as [Hcb|Hcb].
  - destruct (zget_is_Some (vmeta p) cb) as [m Em]; [by rewrite Hm|]. rewrite Em. cbn [mbind option_bind].
    assert (Hon : cb = Drm.on_screen (so p) /\ cb <> last_buf p).
    { unfold cb in *. unfold shown in Hl. lia. }
    destruct Hon as [Hon Hnl]. rewrite (bool_decide_eq_false_2 (cb = last_buf p)) by done.
    eexists _, _. split; [done|]. split; [|split; [|done]].
    + split; [by apply sys_inv_forget|done|by apply av_servo_bound|]. left. split; [done|]. right. exact Hon.
    + constructor; [done|]. apply Forall_app. split; [|constructor]. case_decide; by repeat constructor.
  - eexists _, _. split; [done|]. split; [|by split; [constructor|]]. split; [done|done|done|].
    unfold cb in *. unfold shown in Hl. lia.
Qed.

(** C34. A frame off the queue reaches the screen without harm. On a kernel that
    keeps one flip outstanding, for a frame whose buffer the decode worker was
    handed: the round never leaves an object and keeps the scanout's invariant,
    the table of identities and the bound on the shift; at most the buffer of
    the frame leaves the buffers handed out; every report is of the buffer that is then on screen, and none calls it a
    repetition. The frame waits for the first poll that finds its sound heard,
    or its deadline passed while the sound clock stands, or for 600 polls. *)
Theorem present_frame_safe n p hs pp x e :
  presenter_ok n p hs pp -> Present.buf_idx x ∈ hs ->
  exists p' waited rs hs' pp', present_frame p x e = Some (p', waited, rs) /\
    presenter_ok n p' hs' pp' /\ Forall (report_ok p') rs /\ g_presented p' = g_presented p + 1 /\
    (hs' = filter (fun i => i <> Present.buf_idx x) hs \/ hs' = hs) /\
    let g := Present.pts_us x - lead_us (Drm.vblank_period_us (so p)) - sync_shift p in
    let d := Present.deadline_us x in
    (waited <= 600)%nat /\ (forall j, (j < waited)%nat -> released g d (polls e j) = false) /\
    (d <> 0 -> (waited < 600)%nat -> released g d (polls e waited) = true).
Proof.
  intros [Hi Hm Hs Hl] Hx. unfold present_frame. cbv zeta.
  set (g := _ - sync_shift p). set (d := Present.deadline_us x).
  set (waited := if decide (d <> 0) then _ else O).
  assert (Hw : (waited <= 600)%nat /\ (forall j, (j < waited)%nat -> released g d (polls e j) = false) /\
    (d <> 0 -> (waited < 600)%nat -> released g d (polls e waited) = true)).
  { unfold waited. case_decide; [|split_and!; [lia|intros; lia|done]].
    destruct (gate_first 600 0 (polls e) g d) as (H1 & H2 & H3). split_and!; [lia| |intros; apply H3; lia].
    intros j Hj. apply H2. lia. }
  clearbody waited. set (a := Drm.on_screen (so p)). pose proof (screen_range _ _ _ _ Hi) as Hr. fold a in Hr.
  destruct (Drm.si_handed _ _ _ Hi _ Hx) as ((b & Hb & _) & Hne & Hnp). cbn [Drm.so] in Hb, Hne, Hnp.
  assert (Hsh : shown a (Drm.last_completed (so p)) (so p)).
  { split; [|by left]. pose proof (Drm.si_flip _ _ _ Hi) as Hf. pose proof (Drm.si_front _ _ _ Hi) as Hfr.
    cbn [Drm.so] in *. destruct pp as [i|]; [|unfold Drm.flip_state in Hf; lia].
    destruct Hf as (_ & -> & _). intros ->. by apply Hfr. }
  destruct (flip_frame_shown n a (Drm.last_completed (so p)) ltac:(lia) (so p) (kn p) hs pp _ (submit_now e) Hi Hsh Hx Hne)
    as (st & s' & k' & p2 & -> & Hi2 & Hs2). cbn [mbind option_bind].
  assert (exists err, (if decide (st = VMC_OK \/ st = VMC_ERR_AGAIN) then Some []
     else m ← zget (vmeta p) (Present.buf_idx x); Some [RFlipError (Present.m_fidx m)]) = Some err /\
     forall q, Forall (report_ok q) err) as (err & -> & Herr).
  { case_decide; [by exists []; split; [|constructor]|]. apply Drm.buf_at_range in Hb as [Hbr _].
    pose proof (Drm.sh_nbufs _ (Drm.si_shape _ _ _ Hi)). cbn [Drm.so] in *.
    destruct (zget_is_Some (vmeta p) (Present.buf_idx x)) as [m ->]; [lia|].
    eexists. split; [done|]. intros q. by repeat constructor. }
  cbn [mbind option_bind]. set (v := p <| so := s' |> <| kn := k' |>).
  destruct (completed_ok n a v (Drm.after st (Present.buf_idx x) hs) p2 e) as (p' & rs & -> & Hok & Hrs & Hg); try done; [lia| |].
  { destruct Hl as [[E1 E2]|[E1 E2]]; rewrite E1 in Hs2; [left|right]; split; [exact Hs2|exact E2|exact Hs2|exact E2]. }
  cbn [mbind option_bind]. eexists _, waited, _, (Drm.after st (Present.buf_idx x) hs), p2.
  split; [done|]. split; [destruct Hok; by split|]. split; [|split; [|split; [|exact Hw]]].
  - apply Forall_app. split; [apply Herr|]. eapply Forall_impl; [exact Hrs|]. by intros [].
  - cbn. by rewrite Hg.
  - unfold Drm.after. case_decide; [by left|by right].
Qed.

(** The scanout of three buffers, buffer 1 handed to the decode worker. *)
Definition demo_presenter (sc : list (option (Z * Z))) : presenter (K := Drm.kms) :=
  match Drm.vmc_drm_scanout_next_idx Drm.demo_drm with
  | Some (_, s) => mk_presenter Present.queue_init s (Drm.mk_kms None 101 sc)
                     (replicate 8 (Present.mk_vmeta 0 0 0 0 0 0)) 0 (-1) 0 false 0
  | None => mk_presenter Present.queue_init Drm.demo_drm (Drm.mk_kms None 101 sc) [] 0 0 0 false 0
  end.

Definition demo_tl : timeline := mk_timeline 60 1000000 1000000 1 0 85000 0 0 0 2950000 true 2000000 10000 2950000.

(** The sound comes near 1 s at poll 5. *)
Definition demo_round : round_env :=
  mk_round (fun i => let w := 2956000 + 3000 * Z.of_nat i in mk_poll demo_tl w w w w w) 0 demo_tl 3010000 3010000.

Lemma demo_presenter_ok sc : presenter_ok 3 (demo_presenter sc) [1] None.
Proof.
  assert (Hi : Drm.sys_inv 3 (Drm.mk_sys Drm.demo_drm (Drm.mk_kms None 101 sc) []) None).
  { apply (Drm.drm_init_inv (Some Drm.drm_zero) 3 5 (Some Drm.demo_res)
      [Drm.demo_env 1; Drm.demo_env 2; Drm.demo_env 3] true true Drm.demo_drm sc
      (Drm.mk_buf 1 101 64 640 4096 (-1) false 0 0)); [vm_compute; reflexivity|exact Drm.demo_distinct|reflexivity]. }
  destruct (Drm.take_inv _ _ _ Hi) as (y & Hy & Hiy). vm_compute in Hy. injection Hy as <-.
  split; [exact Hiy|reflexivity|vm_compute; discriminate|right; by split].
Qed.

Lemma present_frame_safe_witness :
  exists p' rs, present_frame (demo_presenter (replicate 9 (Some (5, 0)))) (Present.mk_entry 1 2085000 1000000) demo_round
      = Some (p', 5%nat, rs) /\ Forall (report_ok p') rs /\ rs <> [] /\ g_presented p' = 1.
Proof.
  destruct (present_frame_safe 3 (demo_presenter (replicate 9 (Some (5, 0)))) [1] None
    (Present.mk_entry 1 2085000 1000000) demo_round (demo_presenter_ok _) ltac:(left))
    as (p' & w & rs & hs' & pp' & He & _ & Hrs & Hg & _).
  exists p', rs. split; [|split; [exact Hrs|split; [|exact Hg]]].
  - rewrite He. assert (Hw : (fun r => r.1.2) <$> present_frame (demo_presenter (replicate 9 (Some (5, 0))))
      (Present.mk_entry 1 2085000 1000000) demo_round = Some 5%nat) by (vm_compute; reflexivity).
    rewrite He in Hw. injection Hw as ->. reflexivity.
  - intros ->. assert (Hn : (fun r => bool_decide (length r.2 = 0%nat)) <$> present_frame (demo_presenter (replicate 9 (Some (5, 0))))
      (Present.mk_entry 1 2085000 1000000) demo_round = Some false) by (vm_compute; reflexivity).
    rewrite He in Hn. discriminate Hn.
Defined.

(** Before any flip has completed, buffer 0 is reported as flipped, because
    [last_completed] starts as 0, and as late against its deadline 0. *)
Example first_report_is_spurious :
  (fun r : presenter * nat * list report =>
     (fun x => match x with RVrender b v _ _ _ => Some (b, v) | _ => None end) <$> r.2)
    <$> present_frame (demo_presenter [None; Some (5, 0)]) (Present.mk_entry 1 2085000 1000000) demo_round
  = Some [Some (0, 0); None].
Proof. vm_compute. reflexivity. Qed.

(** A flip that fails: the frame is dropped and its buffer stays busy. *)
Example failed_flip_keeps_buffer :
  (fun r : presenter * nat * list report => (Drm.busy <$> take 3 (Drm.bufs (so r.1.1)), length r.2))
    <$> present_frame (demo_presenter []) (Present.mk_entry 1 2085000 1000000) demo_round
  = Some ([false; true; false], 3%nat).
Proof. vm_compute. reflexivity. Qed.

End Pw.
