(* ===== verification/CudaConv.v ===== *)
(** * The CUDA colour converter ([tools/cuda/nv12_conv.cu])

    The kernel that turns NV12 into BGRA with scaling, and the host functions
    around it with the device and staging buffers they keep. A launch executes
    the threads of its grid in any order. Stores to memory that is gone are
    faults. [conv_async] only queues work on the one stream, which the device
    carries out in order, job by job, at any later time; a wait for an event that
    succeeds lasts until the jobs up to it are done. A picture stays in device
    memory until its job is done. Single precision is an interface: [nvcc] may contract a product
    and a sum; IEEE binary32 without contraction is an instance. *)

From S2P Require Import Prelude Present.
From stdpp Require Import gmap.
From Stdlib Require Import Floats.SpecFloat.

#[local] Open Scope Z_scope.

Module Cuda.

(** ** The kernel *)

(** The arithmetic of [float]; [f_lit n] is the literal [n / 1000]. *)
Class Float32 (F : Type) := {
  f_int : Z -> F; f_lit : Z -> F; f_add : F -> F -> F; f_sub : F -> F -> F; f_mul : F -> F -> F;
  f_trunc : F -> Z;
}.

(** The geometry of a call. *)
Record dims := mk_dims { w : Z; h : Z; y_stride : Z; uv_stride : Z; out_w : Z; out_h : Z }.

(** The result of an [int] operation, which may not overflow. *)
Definition int_of (x : Z) : option Z :=
  if decide (-2147483648 <= x < 2147483648) then Some x else None.

(** The nearest sample of an output pixel: [Y], [U], [V]. *)
Definition sample (y uv : list Z) (d : dims) (ox oy : Z) : option (Z * Z * Z) :=
  a ← int_of (ox * w d); b ← int_of (oy * h d);
  let sx := Z.quot a (out_w d) in let sy := Z.quot b (out_h d) in
  let sx2 := Z.quot sx 2 in let sy2 := Z.quot sy 2 in
  iy ← int_of (sy * y_stride d + sx); Y ← zget y iy;
  iu ← int_of (sy2 * uv_stride d + sx2 * 2); U ← zget uv iu;
  iv ← int_of (sy2 * uv_stride d + sx2 * 2 + 1); V ← zget uv iv;
  Some (Y, U, V).

Definition clamp (v : Z) : Z := if decide (v < 0) then 0 else if decide (v > 255) then 255 else v.

Section Kernel.
Context {F : Type} `{Float32 F}.

(** The four bytes of a pixel. *)
Definition bgra (c : Z * Z * Z) : list Z :=
  let '(Y, U, V) := c in
  let yy := f_mul (f_lit 1164) (f_int (Y - 16)) in
  let r := f_trunc (f_add yy (f_mul (f_lit 1596) (f_int (V - 128)))) in
  let g := f_trunc (f_sub (f_sub yy (f_mul (f_lit 813) (f_int (V - 128))))
                      (f_mul (f_lit 392) (f_int (U - 128)))) in
  let b := f_trunc (f_add yy (f_mul (f_lit 2017) (f_int (U - 128)))) in
  [clamp b; clamp g; clamp r; 0].

(** One thread, with its coordinates. *)
Definition kernel_thread (y uv : list Z) (d : dims) (out_stride : Z) (out : list Z) (t : Z * Z)
    : option (list Z) :=
  let '(ox, oy) := t in
  if decide (ox >= out_w d \/ oy >= out_h d) then Some out else
  c ← sample y uv d ox oy;
  blit out ((oy * out_stride + ox) * 4) (bgra c).

(** The threads of a launch: blocks of 16 by 16. *)
Definition block_threads (b : Z * Z) : list (Z * Z) :=
  ty ← seqZ 0 16; tx ← seqZ 0 16; [(b.1 * 16 + tx, b.2 * 16 + ty)].

Definition grid (d : dims) : list (Z * Z) :=
  by_ ← seqZ 0 (Z.quot (out_h d + 15) 16); bx ← seqZ 0 (Z.quot (out_w d + 15) 16);
  block_threads (bx, by_).

(** The threads in the order in which they happen to write. *)
Fixpoint launch (y uv : list Z) (d : dims) (out_stride : Z) (order : list (Z * Z)) (out : list Z)
    : option (list Z) :=
  match order with
  | [] => Some out
  | t :: order => out ← kernel_thread y uv d out_stride out t; launch y uv d out_stride order out
  end.

(** ** Buffers *)

(** Memory blocks by number, and the next number. *)
Record gpu := mk_gpu { mem : gmap nat (list Z); fresh : nat }.

(** A pointer kept with the size last allocated for it; [None] is NULL. *)
Record cache := mk_cache { ptr : option nat; cap : Z }.

Definition cuda_free (g : gpu) (p : option nat) : gpu :=
  match p with Some b => mk_gpu (delete b (mem g)) (fresh g) | None => g end.

Definition block (g : gpu) (p : option nat) : option (list Z) := b ← p; mem g !! b.

Definition put_block (g : gpu) (p : option nat) (l : list Z) : option gpu :=
  b ← p; _ ← mem g !! b; Some (mk_gpu (<[b := l]> (mem g)) (fresh g)).

(** Growing a cache: free, then allocate; a failed allocation leaves the pointer
    and the size as they were. *)
Definition ensure (g : gpu) (c : cache) (bytes : Z) (ok : bool) : bool * gpu * cache :=
  if decide (cap c < bytes) then
    let g := cuda_free g (ptr c) in
    if ok then (true, mk_gpu (<[fresh g := replicate (Z.to_nat bytes) 0]> (mem g)) (S (fresh g)),
                mk_cache (Some (fresh g)) bytes)
    else (false, g, c)
  else (true, g, c).

(** [cudaMemcpyAsync] between blocks. *)
Definition copy_block (g : gpu) (dst src : option nat) (n : Z) : option gpu :=
  s ← block g src; s ← slice s 0 n; t ← block g dst; t ← blit t 0 s; put_block g dst t.

(** A launch on a block. *)
Definition run_kernel (g : gpu) (y uv : list Z) (d : dims) (order : list (Z * Z)) (out : option nat) : option gpu :=
  o ← block g out; o ← launch y uv d (out_w d) order o; put_block g out o.

(** What is queued on [g_conv_stream]: a launch, a copy, the record of an event. *)
Inductive job :=
| JKernel (y uv : list Z) (d : dims) (order : list (Z * Z)) (out : option nat)
| JCopy (dst src : option nat) (n : Z)
| JEvent (h : Z).

Definition exec_job (g : gpu) (j : job) : option gpu :=
  match j with
  | JKernel y uv d order out => run_kernel g y uv d order out
  | JCopy dst src n => copy_block g dst src n
  | JEvent _ => Some g
  end.

(** The statics of the library, and the jobs queued that are not yet done. *)
Record conv := mk_conv {
  dev : gpu; d_y : cache; d_uv : cache; d_out : cache; dbg : cache; g_stage : list cache;
  init_host : bool; init_dev : bool; init_async : bool; g_next : Z; stream : list job;
}.

#[export] Instance eta_conv : Eta conv := fun c =>
  mk_conv (dev c) (d_y c) (d_uv c) (d_out c) (dbg c) (g_stage c) (init_host c) (init_dev c)
    (init_async c) (g_next c) (stream c).

Definition N_STAGE : Z := 3.

Definition conv_init : conv :=
  let none := mk_cache None 0 in
  mk_conv (mk_gpu empty 0) none none none none (replicate 3 none) false false false 0 [].

Definition out_bytes (d : dims) : Z := u64 (u64 (u64 (out_w d) * u64 (out_h d)) * 4).

(** [nv12_to_bgra]: from host memory to [bgra]. The answers: [cudaSetDevice], the
    three allocations. *)
Definition nv12_to_bgra (c : conv) (y uv bgra_out : list Z) (d : dims) (set_ok ok_y ok_uv ok_out : bool)
    (order : list (Z * Z)) : option (Z * conv * list Z) :=
  if negb (init_host c) && negb set_ok then Some (-1, c, bgra_out) else
  let c := c <| init_host := true |> in
  let y_bytes := u64 (u64 (y_stride d) * u64 (h d)) in
  let uv_bytes := u64 (u64 (uv_stride d) * u64 (Z.quot (h d) 2)) in
  let '(r, g, cy) := ensure (dev c) (d_y c) y_bytes ok_y in
  let c := c <| dev := g |> <| d_y := cy |> in
  if negb r then Some (-1, c, bgra_out) else
  let '(r, g, cuv) := ensure (dev c) (d_uv c) uv_bytes ok_uv in
  let c := c <| dev := g |> <| d_uv := cuv |> in
  if negb r then Some (-1, c, bgra_out) else
  let '(r, g, co) := ensure (dev c) (d_out c) (out_bytes d) ok_out in
  let c := c <| dev := g |> <| d_out := co |> in
  if negb r then Some (-1, c, bgra_out) else
  ys ← slice y 0 y_bytes; by_ ← block (dev c) (ptr (d_y c)); by_ ← blit by_ 0 ys;
  g ← put_block (dev c) (ptr (d_y c)) by_;
  us ← slice uv 0 uv_bytes; bu ← block g (ptr (d_uv c)); bu ← blit bu 0 us;
  g ← put_block g (ptr (d_uv c)) bu;
  g ← run_kernel g by_ bu d order (ptr (d_out c));
  o ← block g (ptr (d_out c)); px ← slice o 0 (out_bytes d);
  res ← blit bgra_out 0 px;
  Some (0, c <| dev := g |>, res).

(** [nv12_to_bgra_device_out]: from device memory to host memory. *)
Definition nv12_to_bgra_device_out (c : conv) (y uv host_bgra : list Z) (d : dims) (set_ok ok_dbg : bool)
    (order : list (Z * Z)) : option (Z * conv * list Z) :=
  if negb (init_dev c) && negb set_ok then Some (-1, c, host_bgra) else
  let c := c <| init_dev := true |> in
  let '(r, g, cd) := ensure (dev c) (dbg c) (out_bytes d) ok_dbg in
  let c := c <| dev := g |> <| dbg := cd |> in
  if negb r then Some (-1, c, host_bgra) else
  g ← run_kernel (dev c) y uv d order (ptr (dbg c));
  o ← block g (ptr (dbg c)); px ← slice o 0 (out_bytes d);
  res ← blit host_bgra 0 px;
  Some (0, c <| dev := g |>, res).

(** The answers of the library to one [conv_async]. *)
Record async_env := mk_async {
  set_ok : bool; stream_ok : bool; stage_ok : bool; dbg_ok : bool; event_ok : bool; record_ok : bool;
}.

(** The status, the statics, whether [*out_event] was set. [want]: [out_event]
    is not NULL; the handle that [cudaEventCreateWithFlags] would give. *)
Definition conv_async (c : conv) (y uv : list Z) (d : dims) (stage_idx : Z) (want : option Z) (e : async_env)
    (order : list (Z * Z)) : option (Z * conv * bool) :=
  if negb (init_async c) && negb (set_ok e && stream_ok e) then Some (-1, c, false) else
  let c := c <| init_async := true |> in
  if decide (stage_idx < 0 \/ stage_idx >= N_STAGE) then Some (-1, c, false) else
  st ← zget (g_stage c) stage_idx;
  let '(r, g, st) := ensure (dev c) st (out_bytes d) (stage_ok e) in
  ss ← zset (g_stage c) stage_idx st;
  let c := c <| dev := g |> <| g_stage := ss |> in
  if negb r then Some (-1, c, false) else
  let '(r, g, cd) := ensure (dev c) (dbg c) (out_bytes d) (dbg_ok e) in
  let c := c <| dev := g |> <| dbg := cd |> in
  if negb r then Some (-1, c, false) else
  let c := c <| stream := stream c ++ [JKernel y uv d order (ptr (dbg c)); JCopy (ptr st) (ptr (dbg c)) (out_bytes d)] |> in
  match want with
  | None => Some (0, c, false)
  | Some h =>
    if negb (event_ok e && record_ok e) then Some (-1, c, false)
    else Some (0, c <| stream := stream c ++ [JEvent h] |>, true)
  end.

(** The device carries out the next job. *)
Definition stream_step (c : conv) : option conv :=
  match stream c with
  | [] => Some c
  | j :: js => g ← exec_job (dev c) j; Some (c <| dev := g |> <| stream := js |>)
  end.

Fixpoint stream_steps (n : nat) (c : conv) : option conv :=
  match n with O => Some c | S n => c ← stream_step c; stream_steps n c end.

(** How many jobs there are up to the record of [h]; none when it is done. *)
Fixpoint jobs_until (h : Z) (js : list job) : option nat :=
  match js with
  | [] => None
  | JEvent h' :: js => if decide (h' = h) then Some 1%nat else S <$> jobs_until h js
  | _ :: js => S <$> jobs_until h js
  end.

(** [ok]: [cudaEventSynchronize] succeeds; else it says nothing of the jobs. *)
Definition conv_wait_event (c : conv) (h : Z) (ok : bool) : option conv :=
  if ok then stream_steps (default O (jobs_until h (stream c))) c else Some c.

(** The staging memory as the CPU reads it after the event. *)
Definition conv_stage_ptr (c : conv) (stage_idx : Z) : option (list Z) :=
  if decide (stage_idx < 0 \/ stage_idx >= N_STAGE) then None else
  st ← zget (g_stage c) stage_idx; block (dev c) (ptr st).

(** [cuda_import_fd]: whether the import and the mapping succeed. *)
Definition MAX_IMPORTS : Z := 8.

Definition cuda_import_fd (c : conv) (import_ok map_ok : bool) : Z * conv :=
  if decide (g_next c >= MAX_IMPORTS) then (-1, c) else
  if negb import_ok then (-1, c) else
  if negb map_ok then (-1, c) else (0, c <| g_next := g_next c + 1 |>).

End Kernel.

(** ** The picture *)

(** A geometry the kernel can work on: what the tests of the code leave to its
    callers. Odd sizes need room for the samples at the border. *)
Record geom_ok (y uv : list Z) (d : dims) : Prop := {
  ok_in : 0 < w d /\ 0 < h d;
  ok_out : 0 < out_w d /\ 0 < out_h d;
  ok_mul : out_w d * w d < 2147483648 /\ out_h d * h d < 2147483648;
  ok_size : out_w d * out_h d < 2 ^ 40;
  ok_y : w d <= y_stride d /\ y_stride d * h d <= zlen y /\ y_stride d * h d < 2147483648;
  ok_uv : w d + 1 <= uv_stride d + (w d + 1) mod 2 /\ uv_stride d * ((h d + 1) / 2) <= zlen uv /\
          uv_stride d * ((h d + 1) / 2) < 2147483648;
}.

Lemma int_of_some x : -2147483648 <= x < 2147483648 -> int_of x = Some x.
Proof. intros. unfold int_of. by rewrite decide_True. Qed.

(** Scaling a coordinate stays inside the source. *)
Lemma scaled a n m : 0 <= a < m -> 0 < n -> 0 <= Z.quot (a * n) m < n.
Proof. intros. rewrite Z.quot_div_nonneg by nia. split; [apply Z.div_pos; nia|apply Z.div_lt_upper_bound; nia]. Qed.

Lemma sample_ok y uv d ox oy : geom_ok y uv d -> 0 <= ox < out_w d -> 0 <= oy < out_h d ->
  exists c, sample y uv d ox oy = Some c.
Proof.
  intros [[Hw Hh] _ [Hm1 Hm2] _ (Hy1 & Hy2 & Hy3) (Hu1 & Hu2 & Hu3)] Hx Hy. unfold sample.
  pose proof (scaled ox (w d) (out_w d) Hx Hw) as Hsx. pose proof (scaled oy (h d) (out_h d) Hy Hh) as Hsy.
  rewrite !int_of_some by nia. cbn [mbind option_bind].
  set (sx := Z.quot (ox * w d) _) in *. set (sy := Z.quot (oy * h d) _) in *. clearbody sx sy.
  rewrite !Z.quot_div_nonneg by lia. set (px := sx / 2). set (py := sy / 2).
  assert (Hpx : 0 <= px /\ px * 2 + 1 < uv_stride d) by (unfold px; Z.div_mod_to_equations; lia).
  assert (Hpy : 0 <= py /\ py + 1 <= (h d + 1) / 2) by (unfold py; Z.div_mod_to_equations; lia).
  assert (Hi1 : 0 <= sy * y_stride d + sx < y_stride d * h d) by nia.
  assert (Hi2 : 0 <= py * uv_stride d + px * 2 /\ py * uv_stride d + px * 2 + 1 < uv_stride d * ((h d + 1) / 2)) by nia.
  rewrite (int_of_some (sy * _ + _)), (int_of_some (py * _ + _)), (int_of_some (py * _ + _ + 1)) by lia.
  cbn [mbind option_bind].
  destruct (zget_is_Some y (sy * y_stride d + sx)) as [Y ->]; [lia|]. cbn [mbind option_bind].
  destruct (zget_is_Some uv (py * uv_stride d + px * 2)) as [U ->]; [lia|]. cbn [mbind option_bind].
  destruct (zget_is_Some uv (py * uv_stride d + px * 2 + 1)) as [V ->]; [lia|]. cbn [mbind option_bind].
  by eexists.
Qed.

Section Picture.
Context {F : Type} `{Float32 F}.

(** The pixel at [(ox, oy)], and the picture row by row. *)
Definition pixel (y uv : list Z) (d : dims) (ox oy : Z) : list Z :=
  match sample y uv d ox oy with Some c => bgra c | None => [] end.

Definition picture (y uv : list Z) (d : dims) : list Z :=
  (fun i => default 0 (zget (pixel y uv d ((i / 4) mod out_w d) (i / 4 / out_w d)) (i mod 4)))
  <$> seqZ 0 (out_w d * out_h d * 4).

Lemma zlen_picture y uv d : 0 < out_w d /\ 0 < out_h d -> zlen (picture y uv d) = out_w d * out_h d * 4.
Proof. intros. unfold picture, zlen. rewrite length_fmap, length_seqZ. nia. Qed.

Lemma bgra_byte c i : 0 <= i < 4 -> exists b, zget (bgra c) i = Some b /\ 0 <= b < 256.
Proof.
  intros Hi. destruct c as [[Y U] V]. unfold bgra.
  assert (Hc : forall v, 0 <= clamp v < 256) by (intros v; unfold clamp; repeat case_decide; lia).
  assert (i = 0 \/ i = 1 \/ i = 2 \/ i = 3) as [->|[->|[->| ->]]] by lia; eexists; (split; [reflexivity|]);
    apply Hc || lia.
Qed.

Lemma zlen_bgra c : zlen (bgra c) = 4.
Proof. by destruct c as [[Y U] V]. Qed.

(** Where the bytes of a pixel lie. *)
Lemma offset_inj ow a b c x y z : 0 <= a < ow -> 0 <= x < ow -> 0 <= c < 4 -> 0 <= z < 4 ->
  (b * ow + a) * 4 + c = (y * ow + x) * 4 + z -> a = x /\ b = y /\ c = z.
Proof.
  intros. assert (c = z) by lia. assert (b * ow + a = y * ow + x) by lia.
  assert (b = y) by nia. split_and!; [nia|done|done].
Qed.

Lemma kernel_thread_ok y uv d out t : geom_ok y uv d -> 0 <= t.1 -> 0 <= t.2 ->
  out_w d * out_h d * 4 <= zlen out ->
  exists out', kernel_thread y uv d (out_w d) out t = Some out' /\ zlen out' = zlen out /\
    (forall i, zget out' i = if decide (t.1 < out_w d /\ t.2 < out_h d /\
                                         0 <= i - (t.2 * out_w d + t.1) * 4 < 4)
                             then zget (pixel y uv d t.1 t.2) (i - (t.2 * out_w d + t.1) * 4)
                             else zget out i).
Proof.
  intros Hg Hx Hy Hz. destruct t as [ox oy]. cbn [fst snd] in *. unfold kernel_thread.
  case_decide as Hd.
  { exists out. split_and!; [done|done|]. intros i. rewrite decide_False; [done|lia]. }
  destruct (sample_ok y uv d ox oy Hg ltac:(lia) ltac:(lia)) as [c Hc]. unfold pixel. rewrite Hc.
  cbn [mbind option_bind]. destruct (blit_ok out (bgra c) ((oy * out_w d + ox) * 4)) as [o Ho].
  - nia.
  - rewrite zlen_bgra. nia.
  - exists o. apply blit_inv in Ho as E. destruct E as (_ & _ & Hl & Hg').
    split_and!; [done|done|]. intros i. rewrite Hg', zlen_bgra.
    repeat case_decide; try lia; done.
Qed.

(** A launch writes the pixels of its threads and nothing else, in any order. *)
Lemma launch_ok y uv d order : geom_ok y uv d -> Forall (fun t => 0 <= t.1 /\ 0 <= t.2) order ->
  forall out, out_w d * out_h d * 4 <= zlen out ->
  exists out', launch y uv d (out_w d) order out = Some out' /\ zlen out' = zlen out /\
    (forall ox oy c, 0 <= ox < out_w d -> 0 <= oy < out_h d -> 0 <= c < 4 ->
       zget out' ((oy * out_w d + ox) * 4 + c) =
       if decide ((ox, oy) ∈ order) then zget (pixel y uv d ox oy) c
       else zget out ((oy * out_w d + ox) * 4 + c)).
Proof.
  intros Hg Hord. induction Hord as [|t order [Hx Hy] Hord IH]; intros out Hz; cbn [launch].
  { exists out. split_and!; [done|done|]. intros. rewrite decide_False; [done|]. apply not_elem_of_nil. }
  destruct (kernel_thread_ok y uv d out t Hg Hx Hy Hz) as (o1 & -> & Hl1 & Ho1). cbn [mbind option_bind].
  destruct (IH o1 ltac:(lia)) as (o2 & -> & Hl2 & Ho2). exists o2. split_and!; [done|lia|].
  intros ox oy c Hox Hoy Hc. rewrite Ho2 by done. destruct t as [tx ty]. cbn [fst snd] in *.
  destruct (decide ((ox, oy) ∈ order)) as [Hin|Hout].
  { rewrite decide_True; [done|]. by right. }
  rewrite Ho1. match goal with |- (if decide ?P then _ else _) = _ => destruct (decide P) as [Hd|Hd] end.
  - destruct (offset_inj (out_w d) ox oy c tx ty ((oy * out_w d + ox) * 4 + c - (ty * out_w d + tx) * 4))
      as (-> & -> & Hcc); [lia..|]. rewrite (decide_True (P := (tx, ty) ∈ _)) by left. f_equal. lia.
  - rewrite decide_False; [done|]. intros [[= <- <-]|?]%elem_of_cons; [|done]. apply Hd. lia.
Qed.

(** The grid has a thread for every pixel. *)
Lemma grid_covers d ox oy : 0 <= ox < out_w d -> 0 <= oy < out_h d -> (ox, oy) ∈ grid d.
Proof.
  intros Hx Hy. unfold grid, block_threads. rewrite !Z.quot_div_nonneg by lia.
  apply list_elem_of_bind. exists (oy / 16). split.
  2: { apply elem_of_seqZ. Z.div_mod_to_equations. lia. }
  apply list_elem_of_bind. exists (ox / 16). split.
  2: { apply elem_of_seqZ. Z.div_mod_to_equations. lia. }
  apply list_elem_of_bind. exists (oy mod 16). split.
  2: { apply elem_of_seqZ. Z.div_mod_to_equations. lia. }
  apply list_elem_of_bind. exists (ox mod 16). split.
  2: { apply elem_of_seqZ. Z.div_mod_to_equations. lia. }
  apply list_elem_of_singleton. cbn. f_equal; Z.div_mod_to_equations; lia.
Qed.

Lemma grid_nonneg d : Forall (fun t => 0 <= t.1 /\ 0 <= t.2) (grid d).
Proof.
  apply Forall_forall. intros t (by_ & H1 & Hb)%list_elem_of_bind. apply elem_of_seqZ in Hb.
  apply list_elem_of_bind in H1 as (bx & H1 & Hbx). apply elem_of_seqZ in Hbx.
  apply list_elem_of_bind in H1 as (ty & H1 & Hty). apply elem_of_seqZ in Hty.
  apply list_elem_of_bind in H1 as (tx & H1 & Htx). apply elem_of_seqZ in Htx.
  apply list_elem_of_singleton in H1 as ->. cbn. lia.
Qed.

(** A launch over the whole grid leaves the picture at the start of the buffer. *)
Lemma launch_picture y uv d order out : geom_ok y uv d -> order ≡ₚ grid d ->
  out_w d * out_h d * 4 <= zlen out ->
  exists out', launch y uv d (out_w d) order out = Some out' /\ zlen out' = zlen out /\
    slice out' 0 (out_w d * out_h d * 4) = Some (picture y uv d).
Proof.
  intros Hg Hord Hz. pose proof (ok_out _ _ _ Hg) as Hpos.
  destruct (launch_ok y uv d order Hg) with (out := out) as (o & Ho & Hl & Hpix); [|done|].
  { rewrite Hord. apply grid_nonneg. }
  exists o. split_and!; [done|done|]. rewrite slice_take by nia. f_equal.
  apply zget_ext. intros i Hi0. destruct (decide (i < out_w d * out_h d * 4)) as [Hi|Hge].
  2: { rewrite !zget_ge; [done|by rewrite zlen_picture; lia|rewrite zlen_take by nia; lia]. }
  rewrite zget_take by lia. unfold picture.
  assert (Hdm : i = ((i / 4 / out_w d) * out_w d + (i / 4) mod out_w d) * 4 + i mod 4).
  { rewrite (Z.mul_comm _ (out_w d)), <- Z.div_mod by lia. rewrite Z.mul_comm, <- Z.div_mod; lia. }
  pose proof (Z.mod_pos_bound (i / 4) (out_w d) ltac:(lia)) as Hx.
  pose proof (Z.mod_pos_bound i 4 ltac:(lia)) as Hc.
  assert (Hy : 0 <= i / 4 / out_w d < out_h d).
  { split; [repeat apply Z.div_pos; lia|]. apply Z.div_lt_upper_bound; [lia|].
    apply Z.div_lt_upper_bound; lia. }
  rewrite Hdm at 1. rewrite Hpix, decide_True by (done || by (rewrite Hord; apply grid_covers)).
  rewrite (zget_to_nat (_ <$> _)), list_lookup_fmap, lookup_seqZ_lt by lia. cbn. rewrite Z2Nat.id by lia.
  rewrite Z.add_0_l. unfold pixel. destruct (sample_ok y uv d _ _ Hg Hx Hy) as [c ->].
  destruct (bgra_byte c (i mod 4) Hc) as (b & -> & _). done.
Qed.

(** ** The buffers *)

(** A cache holds a live block of its size, or nothing yet. *)
Definition valid (g : gpu) (c : cache) : Prop :=
  match ptr c with
  | None => cap c = 0
  | Some b => exists l, mem g !! b = Some l /\ zlen l = cap c
  end.

(** All of them, in blocks of their own. *)
Record caches_ok (g : gpu) (cs : list cache) : Prop := {
  cs_valid : Forall (valid g) cs;
  cs_fresh : forall b, is_Some (mem g !! b) -> (b < fresh g)%nat;
  cs_apart : forall i j ci cj b, cs !! i = Some ci -> cs !! j = Some cj ->
    ptr ci = Some b -> ptr cj = Some b -> i = j;
}.

(** The caches of the library, the staging buffers last. *)
Definition caches (c : conv) : list cache := [d_y c; d_uv c; d_out c; dbg c] ++ g_stage c.

Definition conv_ok (c : conv) : Prop := caches_ok (dev c) (caches c) /\ length (g_stage c) = 3%nat.

Lemma valid_block g cs i c : caches_ok g cs -> cs !! i = Some c -> 0 < cap c ->
  exists b l, ptr c = Some b /\ mem g !! b = Some l /\ zlen l = cap c.
Proof.
  intros Hok Hi Hc. pose proof (Forall_lookup_1 _ _ _ _ (cs_valid _ _ Hok) Hi) as Hv.
  unfold valid in Hv. destruct (ptr c) as [b|]; [|lia]. destruct Hv as (l & Hl & Hz). by exists b, l.
Qed.

(** With memory to be had, the cache is large enough afterwards, and the contents
    of the others are what they were. *)
Lemma ensure_ok g cs i c bytes : caches_ok g cs -> cs !! i = Some c -> 0 < bytes ->
  exists g' c', ensure g c bytes true = (true, g', c') /\ caches_ok g' (<[i := c']> cs) /\
    bytes <= cap c' /\
    (forall j cj, j <> i -> cs !! j = Some cj -> block g' (ptr cj) = block g (ptr cj)).
Proof.
  intros Hok Hi Hb. unfold ensure. case_decide as Hd.
  2: { exists g, c. split; [done|]. split; [by rewrite list_insert_id|]. split; [lia|done]. }
  set (g1 := cuda_free g (ptr c)).
  assert (Hother : forall j cj b, j <> i -> cs !! j = Some cj -> ptr cj = Some b -> mem g1 !! b = mem g !! b).
  { intros j cj b Hne Hj Hp. unfold g1, cuda_free. destruct (ptr c) as [bc|] eqn:Ec; [|done]. cbn.
    apply lookup_delete_ne. intros ->. apply Hne. symmetry. exact (cs_apart _ _ Hok i j c cj b Hi Hj Ec Hp). }
  assert (Hfr : forall b, is_Some (mem g1 !! b) -> (b < fresh g)%nat).
  { intros b. unfold g1, cuda_free. destruct (ptr c) as [bc|]; [|apply Hok]. cbn. intros [l Hl].
    apply (cs_fresh _ _ Hok). apply lookup_delete_Some in Hl as [_ Hl]. by exists l. }
  assert (Hf1 : fresh g1 = fresh g) by (unfold g1, cuda_free; by destruct (ptr c)).
  assert (Hlt : forall j cj b, j <> i -> cs !! j = Some cj -> ptr cj = Some b ->
            (b < fresh g)%nat /\ exists l, mem g !! b = Some l /\ zlen l = cap cj).
  { intros j cj b Hne Hj Hp. pose proof (Forall_lookup_1 _ _ _ _ (cs_valid _ _ Hok) Hj) as Hv.
    unfold valid in Hv. rewrite Hp in Hv. split; [|done]. destruct Hv as (l & Hl & _). apply (cs_fresh _ _ Hok). by exists l. }
  eexists _, _. split; [done|]. rewrite Hf1. split; [|split; [cbn; lia|]].
  - assert (Hi' : (i < length cs)%nat) by (by eapply lookup_lt_Some). split.
    + apply Forall_lookup_2. intros j cj. destruct (decide (j = i)) as [->|Hne].
      * rewrite list_lookup_insert_eq by done. intros [= <-]. unfold valid. cbn.
        eexists. rewrite lookup_insert_eq. split; [done|]. rewrite zlen_replicate. lia.
      * rewrite list_lookup_insert_ne by done. intros Hj. pose proof (Forall_lookup_1 _ _ _ _ (cs_valid _ _ Hok) Hj) as Hv.
        unfold valid in *. destruct (ptr cj) as [b|] eqn:Ep; [|done].
        destruct (Hlt j cj b Hne Hj Ep) as [Hb' _]. cbn.
        rewrite lookup_insert_ne by lia. by rewrite (Hother j cj b).
    + cbn. intros b [l Hl]. apply lookup_insert_Some in Hl as [[<- _]|[_ Hl]]; [lia|].
      specialize (Hfr b ltac:(by exists l)). lia.
    + intros j k cj ck b Hj Hk Hpj Hpk. destruct (decide (j = i)) as [->|Hj1], (decide (k = i)) as [->|Hk1]; [done| | |].
      * rewrite list_lookup_insert_eq in Hj by done. injection Hj as <-. cbn in Hpj. injection Hpj as <-.
        rewrite list_lookup_insert_ne in Hk by done. destruct (Hlt k ck _ Hk1 Hk Hpk). lia.
      * rewrite list_lookup_insert_eq in Hk by done. injection Hk as <-. cbn in Hpk. injection Hpk as <-.
        rewrite list_lookup_insert_ne in Hj by done. destruct (Hlt j cj _ Hj1 Hj Hpj). lia.
      * rewrite list_lookup_insert_ne in Hj, Hk by done. exact (cs_apart _ _ Hok _ _ _ _ _ Hj Hk Hpj Hpk).
  - intros j cj Hne Hj. unfold block. destruct (ptr cj) as [b|] eqn:Ep; [|done]. cbn.
    destruct (Hlt j cj b Hne Hj Ep) as [Hb' _]. rewrite lookup_insert_ne by lia. exact (Hother j cj b Hne Hj Ep).
Qed.

(** Storing into a cache's block. *)
Lemma put_block_ok g cs i c l l' : caches_ok g cs -> cs !! i = Some c -> block g (ptr c) = Some l ->
  zlen l' = zlen l ->
  exists g', put_block g (ptr c) l' = Some g' /\ caches_ok g' cs /\ block g' (ptr c) = Some l' /\
    (forall j cj, j <> i -> cs !! j = Some cj -> block g' (ptr cj) = block g (ptr cj)).
Proof.
  intros Hok Hi Hb Hz. unfold block, put_block in *. destruct (ptr c) as [b|] eqn:Ep; [|done].
  cbn [mbind option_bind] in *. rewrite Hb. cbn [mbind option_bind]. eexists. split; [done|]. split_and!.
  - split.
    + apply Forall_lookup_2. intros j cj Hj. pose proof (Forall_lookup_1 _ _ _ _ (cs_valid _ _ Hok) Hj) as Hv.
      unfold valid in *. destruct (ptr cj) as [bj|]; [|done]. cbn. destruct Hv as (lj & Hl & Hlz).
      destruct (decide (b = bj)) as [->|Hne].
      * rewrite lookup_insert_eq. eexists. split; [done|]. congruence.
      * rewrite lookup_insert_ne by done. by exists lj.
    + cbn. intros x [y Hy]. apply lookup_insert_Some in Hy as [[<- _]|[_ Hy]]; apply (cs_fresh _ _ Hok); by eexists.
    + exact (cs_apart _ _ Hok).
  - cbn. apply lookup_insert_eq.
  - intros j cj Hne Hj. destruct (ptr cj) as [bj|] eqn:Ej; [|done]. cbn. apply lookup_insert_ne.
    intros ->. apply Hne. exact (cs_apart _ _ Hok j i cj c bj Hj Hi Ej Ep).
Qed.

(** ** One conversion *)

Lemma out_bytes_eq y uv d : geom_ok y uv d -> out_bytes d = out_w d * out_h d * 4 /\ 0 < out_bytes d.
Proof.
  intros Hg. pose proof (ok_out _ _ _ Hg). pose proof (ok_size _ _ _ Hg).
  assert (Hw : out_w d <= out_w d * out_h d) by nia. assert (Hh : out_h d <= out_w d * out_h d) by nia.
  assert (Hp : 0 < out_w d * out_h d) by nia.
  unfold out_bytes. rewrite (u64_small (out_w d)), (u64_small (out_h d)) by lia.
  rewrite (u64_small (out_w d * out_h d)), u64_small by lia. lia.
Qed.

Lemma caches_set_stage c k x : caches (c <| g_stage := <[k := x]> (g_stage c) |>) = <[(4 + k)%nat := x]> (caches c).
Proof. reflexivity. Qed.

(** The stage [k] shows [px]. *)
Definition shows (c : conv) (k : Z) (px : list Z) : Prop :=
  exists l, conv_stage_ptr c k = Some l /\ slice l 0 (zlen px) = Some px.

Lemma stage_cache c k : conv_ok c -> 0 <= k < 3 ->
  exists st, zget (g_stage c) k = Some st /\ caches c !! (4 + Z.to_nat k)%nat = Some st.
Proof.
  intros [_ Hl] Hk. destruct (zget_is_Some (g_stage c) k) as [st Hs]; [unfold zlen; lia|].
  exists st. split; [done|]. by rewrite zget_to_nat in Hs by lia.
Qed.

Lemma cache_block g cs i c n : caches_ok g cs -> cs !! i = Some c -> 0 < n <= cap c ->
  exists l, block g (ptr c) = Some l /\ n <= zlen l.
Proof.
  intros Hok Hi Hc. destruct (valid_block g cs i c Hok Hi ltac:(lia)) as (b & l & -> & Hl & Hz).
  exists l. split; [exact Hl|lia].
Qed.

Lemma run_kernel_ok g cs i c y uv d order : caches_ok g cs -> cs !! i = Some c -> geom_ok y uv d ->
  order ≡ₚ grid d -> out_bytes d <= cap c ->
  exists g' l, run_kernel g y uv d order (ptr c) = Some g' /\ caches_ok g' cs /\
    block g' (ptr c) = Some l /\ slice l 0 (out_bytes d) = Some (picture y uv d) /\
    (forall j cj, j <> i -> cs !! j = Some cj -> block g' (ptr cj) = block g (ptr cj)).
Proof.
  intros Hok Hi Hg Hord Hcap. destruct (out_bytes_eq y uv d Hg) as [Hob Hpos].
  destruct (cache_block g cs i c (out_bytes d) Hok Hi ltac:(lia)) as (o & Ho & Hzo).
  unfold run_kernel. rewrite Ho. cbn [mbind option_bind].
  destruct (launch_picture y uv d order o Hg Hord ltac:(lia)) as (o' & -> & Hz & Hpic). cbn [mbind option_bind].
  destruct (put_block_ok g cs i c o o' Hok Hi Ho Hz) as (g' & -> & Hok' & Hb & Hoth).
  exists g', o'. rewrite Hob. by split_and!.
Qed.

Lemma copy_block_ok g cs i j ci cj px l : caches_ok g cs -> cs !! i = Some ci -> cs !! j = Some cj ->
  0 < zlen px <= cap ci -> block g (ptr cj) = Some l -> slice l 0 (zlen px) = Some px ->
  exists g' l', copy_block g (ptr ci) (ptr cj) (zlen px) = Some g' /\ caches_ok g' cs /\
    block g' (ptr ci) = Some l' /\ slice l' 0 (zlen px) = Some px /\
    (forall k ck, k <> i -> cs !! k = Some ck -> block g' (ptr ck) = block g (ptr ck)).
Proof.
  intros Hok Hi Hj Hcap Hl Hpx. destruct (cache_block g cs i ci (zlen px) Hok Hi Hcap) as (t & Ht & Hzt).
  unfold copy_block. rewrite Hl. cbn [mbind option_bind]. rewrite Hpx. cbn [mbind option_bind].
  rewrite Ht. cbn [mbind option_bind]. destruct (blit_ok t px 0) as [t' Hb]; [lia|lia|]. rewrite Hb.
  cbn [mbind option_bind]. apply blit_inv in Hb as Hi'. destruct Hi' as (_ & _ & Hz & Hgl).
  destruct (put_block_ok g cs i ci t t' Hok Hi Ht Hz) as (g' & -> & Hok' & Hb' & Hoth).
  exists g', t'. split_and!; [done|done|done| |done]. rewrite slice_take by lia. f_equal.
  apply zget_ext. intros x Hx. destruct (decide (x < zlen px)).
  - rewrite zget_take, Hgl, decide_True by lia. f_equal. lia.
  - rewrite !zget_ge; [done|lia|rewrite zlen_take; lia].
Qed.

(** A conversion that has been queued: its picture, its stage, its event. *)
Record work := mk_work { wy : list Z; wuv : list Z; wd : dims; worder : list (Z * Z); wk : Z; wh : Z }.

Definition work_px (w : work) : list Z := picture (wy w) (wuv w) (wd w).

Definition stage_at (c : conv) (k : Z) : option nat := st ← zget (g_stage c) k; ptr st.

Definition jobs (c : conv) (w : work) : list job :=
  [JKernel (wy w) (wuv w) (wd w) (worder w) (ptr (dbg c));
   JCopy (stage_at c (wk w)) (ptr (dbg c)) (out_bytes (wd w)); JEvent (wh w)].

(** The last [n] of its three jobs. *)
Definition todo (n : nat) (c : conv) (w : work) : list job := drop (3 - n) (jobs c w).

Definition staged (c : conv) (w : work) : Prop :=
  geom_ok (wy w) (wuv w) (wd w) /\ worder w ≡ₚ grid (wd w) /\ 0 <= wk w < 3 /\ out_bytes (wd w) <= cap (dbg c) /\
  exists st, zget (g_stage c) (wk w) = Some st /\ out_bytes (wd w) <= cap st.

(** Where its picture is when [n] jobs are left. *)
Definition reached (c : conv) (w : work) (n : nat) : Prop :=
  match n with
  | O | 1%nat => shows c (wk w) (work_px w)
  | 2%nat => exists l, block (dev c) (ptr (dbg c)) = Some l /\ slice l 0 (out_bytes (wd w)) = Some (work_px w)
  | _ => True
  end.

(** Same caches: the jobs of other conversions are the same. *)
Definition same_caches (c c' : conv) : Prop := dbg c' = dbg c /\ g_stage c' = g_stage c.

Lemma same_staged c c' w : same_caches c c' -> staged c w -> staged c' w.
Proof. intros [Hd Hs]. unfold staged. by rewrite Hd, Hs. Qed.

Lemma same_todo c c' n w : same_caches c c' -> todo n c' w = todo n c w.
Proof. intros [Hd Hs]. unfold todo, jobs, stage_at. by rewrite Hd, Hs. Qed.

Lemma zlen_work c w : staged c w -> zlen (work_px w) = out_bytes (wd w) /\ 0 < out_bytes (wd w).
Proof.
  intros (Hg & _). destruct (out_bytes_eq _ _ _ Hg) as [E Hp]. unfold work_px.
  rewrite zlen_picture; [split; [by rewrite E|done]|apply Hg].
Qed.

Lemma stage_ptr_eq c j st : 0 <= j < 3 -> zget (g_stage c) j = Some st -> conv_stage_ptr c j = block (dev c) (ptr st).
Proof. intros Hj Hs. unfold conv_stage_ptr. rewrite decide_False by (unfold N_STAGE; lia). by rewrite Hs. Qed.

(** A change of the device's memory that leaves a stage's block alone. *)
Lemma stage_ptr_kept c g js j : conv_ok c -> 0 <= j < 3 ->
  (forall st, caches c !! (4 + Z.to_nat j)%nat = Some st -> block g (ptr st) = block (dev c) (ptr st)) ->
  conv_stage_ptr (c <| dev := g |> <| stream := js |>) j = conv_stage_ptr c j.
Proof.
  intros Hok Hj Hb. destruct (stage_cache c j Hok Hj) as (st & Hs & Hs').
  rewrite (stage_ptr_eq c j st), (stage_ptr_eq (c <| dev := g |> <| stream := js |>) j st) by done. by apply Hb.
Qed.

(** The device carries out the next job of a conversion. *)
Lemma step_work c w n rest : conv_ok c -> staged c w -> (n < 3)%nat -> reached c w (S n) -> stream c = todo (S n) c w ++ rest ->
  exists c', stream_step c = Some c' /\ conv_ok c' /\ same_caches c c' /\ stream c' = todo n c w ++ rest /\ reached c' w n /\
    (forall j, 0 <= j < 3 -> j <> wk w -> conv_stage_ptr c' j = conv_stage_ptr c j).
Proof.
  intros Hc Hw Hn Hr Hs. pose proof Hc as [Hok Hlen]. pose proof Hw as (Hg & Hord & Hk & Hcap & st & Hst & Hcst).
  destruct (zlen_work c w Hw) as [Hz Hpos]. destruct (stage_cache c (wk w) Hc Hk) as (st' & E & Hst'). rewrite Hst in E. injection E as <-.
  unfold stream_step. rewrite Hs. destruct n as [|[|[|n]]]; [| | |lia]; cbn [todo Nat.sub jobs drop app].
  - cbn [exec_job mbind option_bind]. exists (c <| dev := dev c |> <| stream := rest |>). by split_and!.
  - destruct Hr as (l & Hl & Hsl). unfold stage_at. rewrite Hst. cbn [mbind option_bind exec_job].
    rewrite <- Hz in Hsl, Hcst, Hpos |- *.
    destruct (copy_block_ok (dev c) (caches c) _ 3 st (dbg c) (work_px w) l Hok Hst' eq_refl ltac:(lia) Hl Hsl)
      as (g & l' & -> & Hok' & Hl' & Hsl' & Hoth). cbn [mbind option_bind]. eexists. split; [done|].
    split_and!; [by split|done|done| |].
    + exists l'. split; [|done]. erewrite stage_ptr_eq; [exact Hl'|done|exact Hst].
    + intros j Hj Hne. apply stage_ptr_kept; [done|done|]. intros sj Hsj. apply (Hoth (4 + Z.to_nat j)%nat); [lia|done].
  - cbn [exec_job].
    destruct (run_kernel_ok (dev c) (caches c) 3 (dbg c) _ _ _ _ Hok eq_refl Hg Hord Hcap) as (g & l & -> & Hok' & Hl & Hsl & Hoth).
    cbn [mbind option_bind]. eexists. split; [done|]. split_and!; [by split|done|done|by exists l|].
    intros j Hj Hne. apply stage_ptr_kept; [done|done|]. intros sj Hsj. apply (Hoth (4 + Z.to_nat j)%nat); [lia|done].
Qed.

(** A conversion whose allocations succeed is queued; the stages that the others
    use keep what they show, and so does the device's picture when it is large
    enough already. *)
Lemma conv_async_ok c w : conv_ok c -> geom_ok (wy w) (wuv w) (wd w) -> worder w ≡ₚ grid (wd w) -> 0 <= wk w < 3 ->
  exists c', conv_async c (wy w) (wuv w) (wd w) (wk w) (Some (wh w)) (mk_async true true true true true true) (worder w) = Some (0, c', true) /\
    conv_ok c' /\ staged c' w /\ stream c' = stream c ++ todo 3 c' w /\
    (forall j, 0 <= j < 3 -> j <> wk w -> zget (g_stage c') j = zget (g_stage c) j /\ conv_stage_ptr c' j = conv_stage_ptr c j) /\
    (out_bytes (wd w) <= cap (dbg c) -> dbg c' = dbg c /\ block (dev c') (ptr (dbg c)) = block (dev c) (ptr (dbg c))).
Proof.
  intros [Hok Hlen] Hg Hord Hk. destruct (out_bytes_eq _ _ _ Hg) as [_ Hpos].
  destruct (stage_cache c (wk w) (conj Hok Hlen) Hk) as (st & Hst & Hst').
  unfold conv_async. cbn [set_ok stream_ok stage_ok dbg_ok event_ok record_ok andb negb].
  rewrite andb_false_r, decide_False by (unfold N_STAGE; lia).
  change (g_stage (c <| init_async := true |>)) with (g_stage c).
  change (dev (c <| init_async := true |>)) with (dev c). rewrite Hst. cbn [mbind option_bind].
  destruct (ensure_ok (dev c) (caches c) _ st (out_bytes (wd w)) Hok Hst' Hpos) as (g1 & st1 & -> & Hok1 & Hc1 & Hoth1).
  rewrite zset_ok by (unfold zlen; lia). cbn [mbind option_bind negb].
  set (cs1 := <[(4 + Z.to_nat (wk w))%nat := st1]> (caches c)) in *.
  match goal with |- context [ensure ?g ?x _ _] => change g with g1; change x with (dbg c) end.
  destruct (ensure_ok g1 cs1 3 (dbg c) (out_bytes (wd w)) Hok1 eq_refl Hpos) as (g2 & cd & Ee & Hok2 & Hc2 & Hoth2).
  rewrite Ee. cbn [negb]. set (cs2 := <[3%nat := cd]> cs1) in *. eexists. split; [done|].
  assert (Hst1 : zget (<[Z.to_nat (wk w) := st1]> (g_stage c)) (wk w) = Some st1)
    by (rewrite zget_to_nat, list_lookup_insert_eq by lia; done).
  split; [split; [exact Hok2|cbn; by rewrite length_insert]|].
  split; [unfold staged; split; [done|split; [done|split; [done|split; [exact Hc2|by exists st1]]]]|].
  split; [|split].
  - transitivity ((stream c ++ [JKernel (wy w) (wuv w) (wd w) (worder w) (ptr cd); JCopy (ptr st1) (ptr cd) (out_bytes (wd w))])
                    ++ [JEvent (wh w)]); [done|]. rewrite <- app_assoc. f_equal. cbn [app].
    transitivity [JKernel (wy w) (wuv w) (wd w) (worder w) (ptr cd);
      JCopy (zget (<[Z.to_nat (wk w) := st1]> (g_stage c)) (wk w) ≫= ptr) (ptr cd) (out_bytes (wd w)); JEvent (wh w)]; [|done].
    by rewrite Hst1.
  - intros j Hj Hne. assert (Hj' : zget (<[Z.to_nat (wk w) := st1]> (g_stage c)) j = zget (g_stage c) j)
      by (rewrite !zget_to_nat, list_lookup_insert_ne by lia; done).
    split; [exact Hj'|]. destruct (stage_cache c j (conj Hok Hlen) Hj) as (sj & Hsj & Hcj).
    assert (Hcj1 : cs1 !! (4 + Z.to_nat j)%nat = Some sj) by (unfold cs1; by rewrite list_lookup_insert_ne by lia).
    rewrite (stage_ptr_eq c j sj) by done. erewrite stage_ptr_eq; [|done|exact (eq_trans Hj' Hsj)].
    etransitivity; [exact (Hoth2 (4 + Z.to_nat j)%nat sj ltac:(lia) Hcj1)|]. apply (Hoth1 (4 + Z.to_nat j)%nat sj); [lia|done].
  - intros Hcap. unfold ensure in Ee. rewrite decide_False in Ee by lia. injection Ee as <- <-.
    split; [done|]. exact (Hoth1 3%nat (dbg c) ltac:(lia) eq_refl).
Qed.

End Picture.

(** ** An instance, and what it shows *)

(** IEEE binary32, rounding to nearest even; conversion to [int] truncates. *)
#[export] Instance binary32 : Float32 spec_float := {
  f_int z := binary_normalize 24 128 z 0 false;
  f_lit n := SFdiv 24 128 (binary_normalize 24 128 n 0 false) (binary_normalize 24 128 1000 0 false);
  f_add := SFadd 24 128; f_sub := SFsub 24 128; f_mul := SFmul 24 128;
  f_trunc x := match x with
               | S754_finite s m e =>
                 let v := if decide (0 <= e) then Zpos m * 2 ^ e else Zpos m / 2 ^ (- e) in
                 if s then - v else v
               | _ => 0
               end;
}.

Lemma conv_init_ok : conv_ok conv_init.
Proof.
  split; [|done]. split.
  - apply Forall_forall. intros c Hc. assert (c = mk_cache None 0) as ->; [|done].
    repeat (apply elem_of_cons in Hc as [->|Hc]; [done|]). by apply elem_of_nil in Hc.
  - intros b [l Hl]. cbn in Hl. by rewrite lookup_empty in Hl.
  - intros i j ci cj b Hi _ Hp _. apply list_elem_of_lookup_2 in Hi.
    repeat (apply elem_of_cons in Hi as [->|Hi]; [done|]). by apply elem_of_nil in Hi.
Qed.

(** Video white and black, and pure red of the limited range. *)
Example colours :
  bgra (235, 128, 128) = [254; 254; 254; 0] /\ bgra (16, 128, 128) = [0; 0; 0; 0] /\
  bgra (81, 90, 240) = [0; 0; 254; 0].
Proof. vm_compute. done. Qed.

Definition demo_dims (n : Z) : dims := mk_dims 2 2 2 2 n n.
Definition all_ok : async_env := mk_async true true true true true true.

(** A picture that needs a larger stage when memory is short: the old stage is
    freed, the call fails, and the next picture of the old size is copied to the
    freed memory. *)
Example failed_growth_dangles :
  (a ← conv_async conv_init [16; 16; 16; 16] [128; 128] (demo_dims 2) 0 (Some 1) all_ok (grid (demo_dims 2));
   c ← conv_wait_event a.1.2 1 true;
   b ← conv_async c [16; 16; 16; 16] [128; 128] (demo_dims 4) 0 (Some 2) (mk_async true true false true true true) (grid (demo_dims 4));
   a ← conv_async b.1.2 [16; 16; 16; 16] [128; 128] (demo_dims 2) 0 (Some 3) all_ok (grid (demo_dims 2));
   Some (b.1.1, a.1.1, length (stream a.1.2), bool_decide (conv_wait_event a.1.2 3 true = None)))
  = Some (-1, 0, 3%nat, true).
Proof. vm_compute. reflexivity. Qed.

(** A picture of odd height: [h / 2] rows of chroma are copied, the kernel reads
    one more. *)
Example odd_height_overreads :
  let d := mk_dims 2 3 2 2 2 3 in
  nv12_to_bgra conv_init (replicate 6 16) (replicate 4 128) (replicate 24 0) d true true true true (grid d) = None.
Proof. vm_compute. reflexivity. Qed.

End Cuda.
