(* ===== verification/PicturePath.v ===== *)
(** * From decoded pictures to scanout buffers ([apps/thinclient/main.c],
      [tools/cuda/nv12_conv.cu])

    The copy of a staging image into a scanout buffer with streaming stores, and
    the composition of the decode worker's pipeline ([Present]) with the
    converter ([CudaConv]), whose device carries out the queued jobs at its own
    pace between any two effects of the worker: what the buffers hold when they
    are queued. The copies by the GPU's own engine, for buffers that are pinned,
    are not represented. *)

From S2P Require Import Prelude FbDisplay Present CudaConv.
From Stdlib Require Import Sorted.

#[local] Open Scope Z_scope.

Module Pic.
Import Cuda.
#[local] Existing Instances Cuda.eta_conv.

(** ** [copy_stage_to_drm_wc] *)

(** One of the two loops of a row: [step] bytes at a time, while [n] allows it; a
    streaming store needs a 16-byte aligned destination. The offsets are from
    the start of the two images. The fuel is [n], of which every round takes a
    part. *)
Fixpoint stream_loop (fuel : nat) (step n : Z) (src : list Z) (s d : Z) (dst : list Z)
    : option (list Z * Z * Z * Z) :=
  match fuel with
  | O => Some (dst, n, s, d)
  | S fuel =>
    if decide (n >= step) then
      if decide (d mod 16 = 0) then
        chunk ← slice src s step;
        dst ← blit dst d chunk;
        stream_loop fuel step (n - step) src (s + step) (d + step) dst
      else None
    else Some (dst, n, s, d)
  end.

Definition stream_row (src : list Z) (s : Z) (dst : list Z) (d row_bytes : Z) : option (list Z) :=
  '(dst, n, s, d) ← stream_loop (Z.to_nat row_bytes) 64 row_bytes src s d dst;
  '(dst, n, s, d) ← stream_loop (Z.to_nat n) 16 n src s d dst;
  if decide (n > 0) then rest ← slice src s n; blit dst d rest else Some dst.

(** [n] rows from row [r] on. *)
Fixpoint copy_stage_rows (src : list Z) (src_pitch : Z) (dst : list Z) (dst_pitch w : Z) (n : nat) (r : Z)
    : option (list Z) :=
  match n with
  | O => Some dst
  | S n =>
    dst ← stream_row src (r * src_pitch) dst (r * dst_pitch) (w * 4);
    copy_stage_rows src src_pitch dst dst_pitch w n (r + 1)
  end.

Definition copy_stage_to_drm_wc (src : list Z) (src_pitch : Z) (dst : list Z) (dst_pitch w h : Z)
    : option (list Z) := copy_stage_rows src src_pitch dst dst_pitch w (Z.to_nat h) 0.

(** ** The worker's pipeline at work *)

(** The converter and the scanout buffers. *)
Record rig := mk_rig { cv : conv; bufs : list (list Z) }.

(** A decoded picture in device memory. *)
Record source := mk_source { sy : list Z; suv : list Z; sd : dims; sorder : list (Z * Z) }.

Section Rig.
Context {F : Type} `{Float32 F}.
Context (src : Present.decoded_au -> source) (pitch dw dh : Z).

(** The answers of the library to a conversion that yields no event. *)
Context (fails : Present.decoded_au -> async_env).

(** One effect of [Present.decode_drm], carried out by the worker, and the entry it
    queues, if it does, with what the entry's buffer holds at that moment. An
    event is what a conversion yields whose calls all succeed. *)
Definition exec_effect (g : rig) (e : Present.effect) : option (rig * list (Present.present_entry * list Z)) :=
  match e with
  | Present.E_convert au stage _ ev =>
    let s := src au in
    '(_, c, set) ← conv_async (cv g) (sy s) (suv s) (sd s) stage (Some (default 0 ev))
                     (match ev with Some _ => all_ok | None => fails au end) (sorder s);
    if decide (set = bool_decide (is_Some ev)) then Some (mk_rig c (bufs g), []) else None
  | Present.E_wait h ok => c ← conv_wait_event (cv g) h ok; Some (mk_rig c (bufs g), [])
  | Present.E_copy stage buf =>
    px ← conv_stage_ptr (cv g) stage;
    dst ← zget (bufs g) buf;
    dst ← copy_stage_to_drm_wc px (dw * 4) dst pitch dw dh;
    bs ← zset (bufs g) buf dst;
    Some (mk_rig (cv g) bs, [])
  | Present.E_push e => dst ← zget (bufs g) (Present.buf_idx e); Some (g, [(e, dst)])
  | Present.E_free _ | Present.E_meta _ _ | Present.E_release _ => Some (g, [])
  end.

(** The effects in order, while the device works on its own: before each of them
    it does [hd O ticks] of the jobs queued. *)
Fixpoint replay (g : rig) (ticks : list nat) (es : list Present.effect)
    : option (rig * list (Present.present_entry * list Z)) :=
  match es with
  | [] => Some (g, [])
  | e :: es =>
    c ← stream_steps (hd O ticks) (cv g);
    '(g, shot) ← exec_effect (mk_rig c (bufs g)) e;
    '(g, shots) ← replay g (tl ticks) es; Some (g, shot ++ shots)
  end.

End Rig.

(** ** Streaming is copying *)

Lemma slice_split {A} (l : list A) s m n : 0 <= s -> 0 <= m -> 0 <= n -> s + m + n <= zlen l ->
  exists a b, slice l s m = Some a /\ slice l (s + m) n = Some b /\ slice l s (m + n) = Some (a ++ b).
Proof.
  intros Hs Hm Hn Hl. rewrite !slice_ok by lia. eexists _, _. split_and!; [done|done|]. f_equal.
  rewrite !Z2Nat.inj_add by lia. rewrite <- drop_drop. rewrite <- (take_drop (Z.to_nat m) (drop (Z.to_nat s) l)) at 1.
  rewrite take_app_add'; [done|]. rewrite length_take, length_drop. unfold zlen in Hl. lia.
Qed.

Lemma blit_app_twice {A} (l a b : list A) d : 0 <= d -> d + zlen a + zlen b <= zlen l ->
  exists l1 l2, blit l d a = Some l1 /\ blit l1 (d + zlen a) b = Some l2 /\ blit l d (a ++ b) = Some l2.
Proof.
  intros Hd Hl. pose proof (zlen_nonneg a). pose proof (zlen_nonneg b).
  destruct (blit_ok l a d) as [l1 H1]; [lia|lia|]. apply blit_inv in H1 as I1. destruct I1 as (_ & _ & Z1 & G1).
  destruct (blit_ok l1 b (d + zlen a)) as [l2 H2]; [lia|lia|]. apply blit_inv in H2 as I2. destruct I2 as (_ & _ & Z2 & G2).
  destruct (blit_ok l (a ++ b) d) as [l3 H3]; [lia|rewrite zlen_app; lia|].
  apply blit_inv in H3 as I3. destruct I3 as (_ & _ & Z3 & G3). exists l1, l2. split_and!; [done|done|].
  rewrite H3. f_equal. apply zget_ext. intros i Hi. rewrite G2, G1, G3, zlen_app.
  destruct (decide (i < d)); [rewrite !decide_False by lia; done|].
  destruct (decide (i < d + zlen a)).
  - rewrite decide_True, decide_False, decide_True by lia. by rewrite zget_app_l by lia.
  - destruct (decide (i < d + zlen a + zlen b)).
    + rewrite !decide_True by lia. rewrite zget_app_r by lia. f_equal. lia.
    + rewrite !decide_False by lia. done.
Qed.

Lemma stream_loop_ok step src : 0 < step -> step mod 16 = 0 -> forall fuel n s d dst,
  0 <= n <= Z.of_nat fuel -> 0 <= s -> s + n <= zlen src -> 0 <= d -> d + n <= zlen dst -> d mod 16 = 0 ->
  exists m chunk dst', stream_loop fuel step n src s d dst = Some (dst', n - m, s + m, d + m) /\
    0 <= m <= n /\ n - m < step /\ (d + m) mod 16 = 0 /\
    slice src s m = Some chunk /\ blit dst d chunk = Some dst'.
Proof.
  intros Hstep Hal. assert (Hnone : forall n s d dst, 0 <= n < step -> 0 <= s -> s + n <= zlen src ->
      0 <= d -> d + n <= zlen dst -> d mod 16 = 0 ->
      exists m chunk dst', Some (dst, n, s, d) = Some (dst', n - m, s + m, d + m) /\
        0 <= m <= n /\ n - m < step /\ (d + m) mod 16 = 0 /\
        slice src s m = Some chunk /\ blit dst d chunk = Some dst').
  { intros n s d dst Hn Hs Hsn Hd Hdn Hda. exists 0, [], dst. rewrite Z.sub_0_r, !Z.add_0_r.
    split_and!; try done; try lia.
    - rewrite slice_ok by lia. done.
    - unfold blit. rewrite decide_True by (change (zlen (@nil Z)) with 0; lia). cbn [length app]. rewrite Nat.add_0_r. by rewrite take_drop. }
  induction fuel as [|fuel IH]; intros n s d dst Hn Hs Hsn Hd Hdn Hda; cbn [stream_loop].
  { apply Hnone; lia. }
  case_decide as Hge; [|apply Hnone; lia]. rewrite decide_True by done.
  destruct (slice_split src s step (n - step)) as (a & b & Ha & _ & _); [lia..|]. rewrite Ha. cbn [mbind option_bind].
  pose proof (slice_zlen _ _ _ _ Ha) as Hza.
  destruct (blit_ok dst a d) as [dst1 Hb]; [lia|lia|]. rewrite Hb. cbn [mbind option_bind].
  apply blit_inv in Hb as Hi. destruct Hi as (_ & _ & Hz1 & _).
  destruct (IH (n - step) (s + step) (d + step) dst1) as (m & c & dst' & -> & Hm & Hlt & Hal' & Hc & Hbl); [lia..| |].
  { Z.div_mod_to_equations. lia. }
  destruct (slice_split src s step m) as (a' & c' & Ha' & Hc' & Hac); [lia..|].
  rewrite Ha in Ha'. injection Ha' as <-. rewrite Hc in Hc'. injection Hc' as <-.
  pose proof (slice_zlen _ _ _ _ Hc) as Hzc.
  destruct (blit_app_twice dst a c d) as (x1 & x2 & E1 & E2 & E3); [lia|lia|].
  rewrite Hb in E1. injection E1 as <-. rewrite Hza, Hbl in E2. injection E2 as <-.
  exists (step + m), (a ++ c), dst'. rewrite !Z.add_assoc, Z.sub_add_distr. split_and!; (done || lia).
Qed.

Lemma stream_row_ok src s dst d n : 0 <= n -> 0 <= s -> s + n <= zlen src -> 0 <= d -> d + n <= zlen dst ->
  d mod 16 = 0 ->
  exists row dst', slice src s n = Some row /\ blit dst d row = Some dst' /\
    stream_row src s dst d n = Some dst' /\ zlen dst' = zlen dst.
Proof.
  intros Hn Hs Hsn Hd Hdn Hda. unfold stream_row.
  destruct (stream_loop_ok 64 src eq_refl eq_refl (Z.to_nat n) n s d dst) as (m & a & d1 & -> & Hm & _ & Ha1 & Sa & Ba);
    [lia..|done|]. cbn [mbind option_bind].
  pose proof (slice_zlen _ _ _ _ Sa) as Za. apply blit_inv in Ba as Hi1. destruct Hi1 as (_ & _ & Z1 & _).
  destruct (stream_loop_ok 16 src eq_refl eq_refl (Z.to_nat (n - m)) (n - m) (s + m) (d + m) d1)
    as (k & b & d2 & -> & Hk & _ & Ha2 & Sb & Bb); [lia..|done|]. cbn [mbind option_bind].
  pose proof (slice_zlen _ _ _ _ Sb) as Zb.
  destruct (slice_split src s m k) as (a' & b' & Sa' & Sb' & Sab); [lia..|].
  rewrite Sa in Sa'. injection Sa' as <-. rewrite Sb in Sb'. injection Sb' as <-.
  destruct (blit_app_twice dst a b d) as (x1 & x2 & E1 & E2 & E3); [lia|lia|].
  rewrite Ba in E1. injection E1 as <-. rewrite Za, Bb in E2. injection E2 as <-.
  apply blit_inv in E3 as Hi3. destruct Hi3 as (_ & _ & Z3 & _).
  case_decide as Hr.
  - destruct (slice_split src s (m + k) (n - m - k)) as (ab & c & Sab' & Sc & Sall); [lia..|].
    rewrite Sab in Sab'. injection Sab' as <-. pose proof (slice_zlen _ _ _ _ Sc) as Zc.
    replace (s + m + k) with (s + (m + k)) by lia. rewrite Sc. cbn [mbind option_bind].
    destruct (blit_app_twice dst (a ++ b) c d) as (y1 & y2 & F1 & F2 & F3); [lia|rewrite zlen_app; lia|].
    rewrite E3 in F1. injection F1 as <-. rewrite zlen_app, Za, Zb in F2.
    replace (d + m + k) with (d + (m + k)) by lia. exists ((a ++ b) ++ c), y2.
    replace (m + k + (n - m - k)) with n in Sall by lia. apply blit_inv in F3 as Hi4. destruct Hi4 as (_ & _ & Z4 & _).
    by split_and!.
  - replace (m + k) with n in Sab by lia. exists (a ++ b), d2. by split_and!.
Qed.

(** The streaming copy is the row-by-row copy, when the rows of the destination
    are aligned. *)
Lemma copy_stage_is_copy_rows src sp dp w n : 0 <= w -> 0 <= sp -> 0 <= dp -> dp mod 16 = 0 ->
  forall dst r, 0 <= r -> (r + Z.of_nat n - 1) * sp + w * 4 <= zlen src \/ n = O ->
  (r + Z.of_nat n - 1) * dp + w * 4 <= zlen dst \/ n = O ->
  copy_stage_rows src sp dst dp w n r = Fb.copy_rows dst src dp sp w n r /\
  exists dst', copy_stage_rows src sp dst dp w n r = Some dst'.
Proof.
  intros Hw Hsp Hdp Hal. induction n as [|n IH]; intros dst r Hr Hs Hd; cbn [copy_stage_rows Fb.copy_rows]; [by split; [|eexists]|].
  destruct Hs as [Hs|]; [|done]. destruct Hd as [Hd|]; [|done].
  destruct (stream_row_ok src (r * sp) dst (r * dp) (w * 4)) as (row & dst1 & -> & Hb & -> & Hz); [lia|nia|nia|nia|nia| |].
  { rewrite Z.mul_mod, Hal, Z.mul_0_r by lia. done. }
  cbn [mbind option_bind]. rewrite Hb. cbn [mbind option_bind].
  apply IH; [lia| |]; (destruct n; [by right|left]); rewrite ?Hz; nia.
Qed.

(** C39. The streaming copy is exact: it writes the rows of the image, byte for byte,
    for every width, whether or not a row is a multiple of the block sizes, and
    nothing else - provided the lines of the destination are aligned for it and
    both images are as large as their geometry says. *)
Theorem streaming_copy_exact src sp dst dp w h :
  0 <= w -> 0 < h -> w * 4 <= sp -> w * 4 <= dp -> dp mod 16 = 0 ->
  (h - 1) * sp + w * 4 <= zlen src -> (h - 1) * dp + w * 4 <= zlen dst ->
  exists dst', copy_stage_to_drm_wc src sp dst dp w h = Some dst' /\ zlen dst' = zlen dst /\
    forall r c, 0 <= r -> 0 <= c < dp ->
      zget dst' (r * dp + c) = if decide (r < h /\ c < w * 4) then zget src (r * sp + c)
                               else zget dst (r * dp + c).
Proof.
  intros Hw Hh Hsp Hdp Hal Hs Hd. unfold copy_stage_to_drm_wc.
  destruct (copy_stage_is_copy_rows src sp dp w (Z.to_nat h) Hw ltac:(lia) ltac:(lia) Hal dst 0) as [-> _];
    [lia|left; lia|left; lia|].
  destruct (Fb.copy_rows_spec src dp sp w (Z.to_nat h) dst 0) as (dst' & -> & Hz & Hin & Hout); [lia..|left; lia|left; lia|].
  exists dst'. split_and!; [done|done|]. intros r c Hr Hc. case_decide as Hb.
  - apply Hin; lia.
  - apply Hout; lia.
Qed.

Lemma streaming_copy_exact_witness :
  exists dst', copy_stage_to_drm_wc (seqZ 0 48) 20 (replicate 64 255) 32 5 2 = Some dst' /\
    zget dst' 51 = Some 39 /\ zget dst' 52 = Some 255.
Proof.
  destruct (streaming_copy_exact (seqZ 0 48) 20 (replicate 64 255) 32 5 2) as (d & E & _ & Hg);
    try (by vm_compute); try lia.
  exists d. split; [exact E|]. split.
  - change 51 with (1 * 32 + 19). rewrite Hg by lia. reflexivity.
  - change 52 with (1 * 32 + 20). rewrite Hg by lia. reflexivity.
Defined.

(** ** What is queued is what was decoded *)

(** A buffer shows a picture. *)
Definition on_buffer (dst : list Z) (pitch dw dh : Z) (px : list Z) : Prop :=
  forall r c, 0 <= r < dh -> 0 <= c < dw * 4 -> zget dst (r * pitch + c) = zget px (r * (dw * 4) + c).

Section Shots.
Context {F : Type} `{Float32 F}.
Context (src : Present.decoded_au -> source) (pitch dw dh : Z) (fails : Present.decoded_au -> async_env).
Context (Hdims : 0 < dw /\ 0 < dh) (Hpitch : dw * 4 <= pitch) (Hal : pitch mod 16 = 0).

Definition pic_of (g : Present.good_frame) : list Z :=
  let s := src (Present.g_au g) in picture (sy s) (suv s) (sd s).

(** A picture the converter can take, for a buffer there is. *)
Definition frame_ok (nbufs : nat) (g : Present.good_frame) : Prop :=
  let s := src (Present.g_au g) in
  geom_ok (sy s) (suv s) (sd s) /\ out_w (sd s) = dw /\ out_h (sd s) = dh /\ sorder s ≡ₚ grid (sd s) /\
  0 <= Present.g_buf g < Z.of_nat nbufs /\ Present.g_buf g < 8.

(** The events of two frames that are in flight together are different. *)
Definition events_apart : list Present.good_frame -> Prop :=
  Sorted (fun a b => Present.g_ev a <> Present.g_ev b).

Definition bufs_ok (nbufs : nat) (bs : list (list Z)) : Prop :=
  length bs = nbufs /\ Forall (fun b => pitch * dh <= zlen b) bs.

(** At the start: nothing is queued on the device. *)
Definition rig_ok (nbufs : nat) (g : rig) : Prop :=
  conv_ok (cv g) /\ stream (cv g) = [] /\ bufs_ok nbufs (bufs g).

Lemma zlen_pic nb g : frame_ok nb g -> zlen (pic_of g) = dw * dh * 4.
Proof. intros (Hg & Hw & Hh & _). unfold pic_of. by rewrite zlen_picture, Hw, Hh by apply Hg. Qed.

Lemma copy_shows l px dst : zlen px = dw * dh * 4 -> slice l 0 (zlen px) = Some px -> pitch * dh <= zlen dst ->
  exists dst', copy_stage_to_drm_wc l (dw * 4) dst pitch dw dh = Some dst' /\ zlen dst' = zlen dst /\
    on_buffer dst' pitch dw dh px.
Proof.
  intros Hz Hs Hd. apply slice_inv in Hs as (_ & _ & Hl & _ & Hget).
  unfold copy_stage_to_drm_wc.
  destruct (copy_stage_is_copy_rows l (dw * 4) pitch dw (Z.to_nat dh)) with (dst := dst) (r := 0) as [-> _];
    [lia|lia|lia|done|lia|left; nia|left; nia|].
  destruct (Fb.copy_rows_spec l pitch (dw * 4) dw (Z.to_nat dh) dst 0) as (d & -> & Hzd & Hin & _); [lia..|left; nia|left; nia|].
  exists d. split_and!; [done|done|]. intros r c Hr Hc. rewrite Hin by lia.
  rewrite Hget by nia. f_equal.
Qed.

(** The conversion of a frame in stage [k]. *)
Definition work_of (f : Present.good_frame) (k : Z) : work :=
  let s := src (Present.g_au f) in mk_work (sy s) (suv s) (sd s) (sorder s) k (Present.g_ev f).

(** The jobs of the conversion behind, if there is one. *)
Definition behind (c : conv) (o : option (work * nat)) : list job :=
  match o with Some (w2, m) => todo m c w2 | None => [] end.

(** A conversion with [n] jobs left, and perhaps one behind it in another stage,
    whose jobs wait for those. *)
Record flying (c : conv) (w : work) (n : nat) (o : option (work * nat)) : Prop := {
  fl_ok : conv_ok c;
  fl_staged : staged c w;
  fl_n : (n <= 3)%nat;
  fl_stream : stream c = todo n c w ++ behind c o;
  fl_reached : reached c w n;
  fl_behind : forall w2 m, o = Some (w2, m) -> staged c w2 /\ (m <= 3)%nat /\ reached c w2 m /\
                wk w <> wk w2 /\ ((0 < n)%nat -> m = 3%nat);
}.

(** A shot is of the frame whose picture it is. *)
Definition shot_of (g : Present.good_frame) (x : Present.present_entry * list Z) : Prop :=
  Present.buf_idx x.1 = Present.g_buf g /\ Present.deadline_us x.1 = Present.au_deadline (Present.g_au g) /\
  on_buffer x.2 pitch dw dh (pic_of g).

(** The device does [t] jobs: those of the first conversion, then the others. *)
Lemma flying_step c w n o : flying c w n o ->
  exists c' o', stream_step c = Some c' /\ flying c' w (n - 1) o' /\ fst <$> o' = fst <$> o.
Proof.
  intros [Hok Hw Hn Hs Hr Hb]. destruct n as [|n].
  - destruct o as [[w2 [|m]]|].
    + exists c, (Some (w2, 0%nat)). unfold stream_step. rewrite Hs. by split_and!.
    + destruct (Hb w2 (S m) eq_refl) as (Hw2 & Hm & Hr2 & Hne & _).
      destruct (step_work c w2 m [] Hok Hw2 ltac:(lia) Hr2) as (c' & E & Hok' & Hsame & Hs' & Hr' & Hkeep).
      { by rewrite Hs, app_nil_r. }
      exists c', (Some (w2, m)). split_and!; [done| |done]. split.
      * done.
      * by apply (same_staged c).
      * lia.
      * cbn [behind]. rewrite Hs', app_nil_r. by rewrite (same_todo c c' _ w2 Hsame).
      * cbn in Hr |- *. unfold shows in *. rewrite Hkeep; [done|apply Hw|done].
      * intros w3 m3 [= <- <-]. split_and!; [by apply (same_staged c)|lia|done|done|lia].
    + exists c, None. unfold stream_step. rewrite Hs. by split_and!.
  - destruct (step_work c w n (behind c o) Hok Hw ltac:(lia) Hr Hs) as (c' & E & Hok' & Hsame & Hs' & Hr' & Hkeep).
    exists c', o. rewrite Nat.sub_succ, Nat.sub_0_r. split_and!; [done| |done]. split.
    + done.
    + by apply (same_staged c).
    + lia.
    + rewrite Hs', (same_todo c c' n w Hsame). f_equal. destruct o as [[w2 m]|]; [|done].
      symmetry. by apply same_todo.
    + done.
    + intros w2 m E2. destruct (Hb w2 m E2) as (Hw2 & Hm & _ & Hne & H3). specialize (H3 ltac:(lia)) as ->.
      split_and!; [by apply (same_staged c)|lia|done|done|done].
Qed.

Lemma flying_steps t : forall c w n o, flying c w n o ->
  exists c' o', stream_steps t c = Some c' /\ flying c' w (n - t) o' /\ fst <$> o' = fst <$> o.
Proof.
  induction t as [|t IH]; intros c w n o Hf; cbn [stream_steps].
  { exists c, o. by rewrite Nat.sub_0_r. }
  destruct (flying_step c w n o Hf) as (c1 & o1 & -> & H1 & E1). cbn [mbind option_bind].
  destruct (IH c1 w _ o1 H1) as (c2 & o2 & -> & H2 & E2). exists c2, o2.
  replace (n - S t)%nat with (n - 1 - t)%nat by lia. split_and!; [done|done|congruence].
Qed.

Lemma flying_tick t c w n o : flying c w n o ->
  exists c' n' o', stream_steps t c = Some c' /\ flying c' w n' o' /\ fst <$> o' = fst <$> o /\ (n = 0%nat -> n' = 0%nat).
Proof.
  intros Hf. destruct (flying_steps t c w n o Hf) as (c' & o' & E & Hf' & Eo).
  exists c', (n - t)%nat, o'. split_and!; [done|done|done|lia].
Qed.

(** A wait that succeeds is over when the conversion is. *)
Lemma flying_wait c w n o : flying c w n o -> (forall w2, fst <$> o = Some w2 -> wh w2 <> wh w) ->
  exists c' o', conv_wait_event c (wh w) true = Some c' /\ flying c' w 0 o' /\ fst <$> o' = fst <$> o.
Proof.
  intros Hf Hne. unfold conv_wait_event.
  assert (Hb : jobs_until (wh w) (behind c o) = None).
  { destruct o as [[w2 m]|]; [|done]. specialize (Hne w2 eq_refl). destruct (fl_behind _ _ _ _ Hf w2 m eq_refl) as (_ & Hm & _).
    destruct m as [|[|[|[|m]]]]; [done|..|lia]; cbn; by rewrite decide_False. }
  assert (Hu : default O (jobs_until (wh w) (stream c)) = n).
  { rewrite (fl_stream _ _ _ _ Hf). pose proof (fl_n _ _ _ _ Hf).
    destruct n as [|[|[|[|n]]]]; [cbn; by rewrite Hb|..|lia]; cbn; by rewrite decide_True. }
  rewrite Hu. destruct (flying_steps n c w n o Hf) as (c' & o' & E & Hf' & Eo).
  rewrite Nat.sub_diag in Hf'. by exists c', o'.
Qed.

(** The conversion behind, alone, when the first is over. *)
Lemma flying_next c w w2 m : flying c w 0 (Some (w2, m)) -> flying c w2 m None.
Proof.
  intros [Hok _ _ Hs _ Hb]. destruct (Hb w2 m eq_refl) as (Hw2 & Hm & Hr & _ & _).
  split; [done|done|done|by rewrite Hs, app_nil_r|done|done].
Qed.

(** Queueing a conversion of the same size disturbs neither the one in flight nor
    what it has done already. *)
Lemma flying_queue c w n w2 : flying c w n None -> geom_ok (wy w2) (wuv w2) (wd w2) -> worder w2 ≡ₚ grid (wd w2) ->
  0 <= wk w2 < 3 -> wk w <> wk w2 -> out_bytes (wd w2) = out_bytes (wd w) ->
  exists c', conv_async c (wy w2) (wuv w2) (wd w2) (wk w2) (Some (wh w2)) all_ok (worder w2) = Some (0, c', true) /\
    flying c' w n (Some (w2, 3%nat)).
Proof.
  intros [Hok Hw Hn Hs Hr _] Hg Hord Hk Hne Hsize.
  destruct (conv_async_ok c w2 Hok Hg Hord Hk) as (c' & E & Hok' & Hw2 & Hs' & Hkeep & Hdbg).
  exists c'. split; [exact E|]. destruct Hw as (Hg1 & Hord1 & Hk1 & Hcap & st & Hst & Hcst).
  destruct (Hkeep (wk w) Hk1 Hne) as [Est Esp]. destruct Hdbg as [Edbg Eblk]; [by rewrite Hsize|].
  assert (Hjobs : jobs c' w = jobs c w) by (unfold jobs, stage_at; by rewrite Edbg, Est). split.
  - done.
  - unfold staged. rewrite Edbg, Est. split; [done|]. split; [done|]. split; [done|]. split; [done|]. by exists st.
  - done.
  - rewrite Hs', Hs. cbn [behind]. rewrite app_nil_r. unfold todo at 1 3. by rewrite Hjobs.
  - destruct n as [|[|[|[|n]]]]; cbn in *; unfold shows in *; rewrite ?Edbg, ?Eblk, ?Esp; (done || lia).
  - intros w3 m [= <- <-]. by split_and!.
Qed.

Lemma work_size nb f k : frame_ok nb f -> out_bytes (wd (work_of f k)) = u64 (u64 (u64 dw * u64 dh) * 4).
Proof. intros (_ & Hw & Hh & _). unfold out_bytes. cbn. by rewrite Hw, Hh. Qed.

Lemma exec_convert nb c bs f k n f2 k2 : flying c (work_of f k) n None -> frame_ok nb f -> frame_ok nb f2 ->
  0 <= k2 < 3 -> k <> k2 ->
  exists c', exec_effect src pitch dw dh fails (mk_rig c bs) (Present.E_convert (Present.g_au f2) k2 (Present.g_buf f2) (Some (Present.g_ev f2)))
             = Some (mk_rig c' bs, []) /\
    flying c' (work_of f k) n (Some (work_of f2 k2, 3%nat)).
Proof.
  intros Hf Hf1 Hf2 Hk Hne. pose proof Hf2 as (Hg & _ & _ & Hord & _).
  destruct (flying_queue c (work_of f k) n (work_of f2 k2)) as (c' & E & Hc'); try done.
  { by rewrite !(work_size nb). }
  exists c'. split; [|done]. cbn in E. cbn. by rewrite E.
Qed.

(** The copy of a conversion that is over. *)
Lemma exec_copy nb c bs f k o : flying c (work_of f k) 0 o -> frame_ok nb f -> bufs_ok nb bs ->
  exists bs' dst, exec_effect src pitch dw dh fails (mk_rig c bs) (Present.E_copy k (Present.g_buf f)) = Some (mk_rig c bs', []) /\
    bufs_ok nb bs' /\ zget bs' (Present.g_buf f) = Some dst /\ on_buffer dst pitch dw dh (pic_of f).
Proof.
  intros Hfl Hf [Hl Hb]. destruct (fl_reached _ _ _ _ Hfl : shows c k (pic_of f)) as (l & Hl' & Hs). pose proof Hf as (_ & _ & _ & _ & Hbuf & _).
  destruct (zget_is_Some bs (Present.g_buf f)) as [dst Hd]; [unfold zlen; lia|].
  assert (Hzd : pitch * dh <= zlen dst).
  { rewrite zget_to_nat in Hd by lia. exact (Forall_lookup_1 _ _ _ _ Hb Hd). }
  destruct (copy_shows l (pic_of f) dst (zlen_pic nb f Hf) Hs Hzd) as (dst' & Ec & Hz & Hon).
  eexists _, dst'. split; [|split; [|split; [|done]]].
  - cbn [exec_effect cv bufs]. cbn in Hl'. rewrite Hl'. cbn [mbind option_bind]. rewrite Hd. cbn [mbind option_bind].
    rewrite Ec. cbn [mbind option_bind]. rewrite zset_ok by (unfold zlen; lia). done.
  - split; [by rewrite length_insert|]. apply Forall_insert; [done|]. lia.
  - rewrite zget_to_nat by lia. apply list_lookup_insert_eq. lia.
Qed.

(** One effect that queues no entry, after some work of the device. *)
Lemma replay_quiet c bs ticks e es c1 g1 : stream_steps (hd O ticks) c = Some c1 ->
  exec_effect src pitch dw dh fails (mk_rig c1 bs) e = Some (g1, []) ->
  replay src pitch dw dh fails (mk_rig c bs) ticks (e :: es) = replay src pitch dw dh fails g1 (tl ticks) es.
Proof.
  intros E1 E2. cbn [replay cv bufs]. rewrite E1. cbn [mbind option_bind]. rewrite E2. cbn [mbind option_bind].
  by destruct (replay _ _ _ _ _ g1 _ es) as [[g' shots]|].
Qed.

(** The effects of one frame: its conversion is queued, the one before is waited
    for, copied and handed over. *)
Lemma replay_frame nb c bs ticks f k n f2 k2 mb mm sl e :
  flying c (work_of f k) n None -> bufs_ok nb bs -> frame_ok nb f -> frame_ok nb f2 -> 0 <= k2 < 3 -> k <> k2 ->
  Present.g_ev f <> Present.g_ev f2 -> Present.buf_idx e = Present.g_buf f ->
  exists c' bs' n' dst ticks',
    (forall es, replay src pitch dw dh fails (mk_rig c bs) ticks
       ([Present.E_convert (Present.g_au f2) k2 (Present.g_buf f2) (Some (Present.g_ev f2));
         Present.E_wait (Present.g_ev f) true; Present.E_free (Present.g_ev f); Present.E_copy k (Present.g_buf f);
         Present.E_meta mb mm; Present.E_release sl; Present.E_push e] ++ es) =
       '(g, shots) ← replay src pitch dw dh fails (mk_rig c' bs') ticks' es; Some (g, (e, dst) :: shots)) /\
    flying c' (work_of f2 k2) n' None /\ bufs_ok nb bs' /\ on_buffer dst pitch dw dh (pic_of f).
Proof.
  intros Hc Hbs Hf Hf2 Hk Hne Hev Hbuf.
  destruct (flying_tick (hd O ticks) _ _ _ _ Hc) as (c1 & n1 & o1 & T1 & H1 & O1 & _). destruct o1; [done|].
  destruct (exec_convert nb c1 bs f k n1 f2 k2 H1 Hf Hf2 Hk Hne) as (c2 & X2 & H2).
  destruct (flying_tick (hd O (tl ticks)) _ _ _ _ H2) as (c3 & n3 & o3 & T3 & H3 & O3 & _).
  destruct (flying_wait _ _ _ _ H3) as (c4 & o4 & X4 & H4 & O4).
  { intros w2. rewrite O3. intros [= <-]. cbn. congruence. }
  destruct (flying_tick (hd O (tl (tl ticks))) _ _ _ _ H4) as (c5 & n5 & o5 & T5 & H5 & O5 & Z5).
  rewrite (Z5 eq_refl) in H5.
  destruct (flying_tick (hd O (tl (tl (tl ticks)))) _ _ _ _ H5) as (c6 & n6 & o6 & T6 & H6 & O6 & Z6).
  rewrite (Z6 eq_refl) in H6.
  destruct (exec_copy nb c6 bs f k o6 H6 Hf Hbs) as (bs' & dst & X7 & Hbs' & Hdst & Hon).
  destruct (flying_tick (hd O (tl (tl (tl (tl ticks))))) _ _ _ _ H6) as (c8 & n8 & o8 & T8 & H8 & O8 & Z8).
  destruct (flying_tick (hd O (tl (tl (tl (tl (tl ticks)))))) _ _ _ _ H8) as (c9 & n9 & o9 & T9 & H9 & O9 & Z9).
  destruct (flying_tick (hd O (tl (tl (tl (tl (tl (tl ticks))))))) _ _ _ _ H9) as (c10 & n10 & o10 & T10 & H10 & O10 & Z10).
  rewrite (Z10 (Z9 (Z8 eq_refl))) in H10.
  assert (Ho : fst <$> o10 = Some (work_of f2 k2)) by (rewrite O10, O9, O8, O6, O5, O4, O3; done).
  destruct o10 as [[w2 m]|]; [|done]. injection Ho as ->.
  exists c10, bs', m, dst, (tl (tl (tl (tl (tl (tl (tl ticks))))))). split; [|by split_and!; [apply (flying_next c10 (work_of f k))|..]].
  intros es. cbn [app]. rewrite (replay_quiet _ _ _ _ _ _ _ T1 X2).
  rewrite (replay_quiet _ _ _ _ _ _ (mk_rig c4 bs) T3) by (cbn in X4 |- *; by rewrite X4).
  rewrite (replay_quiet _ _ _ _ _ _ (mk_rig c5 bs) T5), (replay_quiet _ _ _ _ _ _ _ T6 X7) by done.
  rewrite (replay_quiet _ _ _ _ _ _ (mk_rig c8 bs') T8), (replay_quiet _ _ _ _ _ _ (mk_rig c9 bs') T9) by done.
  cbn [replay cv bufs]. rewrite T10. cbn [mbind option_bind exec_effect bufs]. rewrite Hbuf, Hdst. done.
Qed.

Lemma replay_run fs : forall nb p f k c bs n ticks, Present.in_flight p f k -> 0 <= k ->
  frame_ok nb f -> Forall (frame_ok nb) fs -> events_apart (f :: fs) -> bufs_ok nb bs -> flying c (work_of f (k mod 3)) n None ->
  exists g' shots, replay src pitch dw dh fails (mk_rig c bs) ticks (snd (Present.decode_run p (Present.good_in <$> fs))) = Some (g', shots) /\
    Forall2 shot_of (take (length fs) (f :: fs)) shots.
Proof.
  induction fs as [|f2 fs IH]; intros nb p f k c bs n ticks Hp Hk Hf Hfs Hev Hbs Hc; [by exists (mk_rig c bs), []|].
  apply Forall_cons in Hfs as [Hf2 Hfs]. pose proof Hf2 as (_ & _ & _ & _ & Hb2 & Hb2').
  apply Sorted_inv in Hev as [Hev Hev1]. apply HdRel_inv in Hev1.
  destruct (Present.decode_drm_step p f f2 k Hp ltac:(lia)) as (p' & E & Hp' & _).
  change (Present.good_in <$> f2 :: fs) with ((Present.g_au f2, snd (Present.good_in f2)) :: (Present.good_in <$> fs)).
  cbn [Present.decode_run]. rewrite E.
  assert (Hne : k mod 3 <> (k + 1) mod 3) by (Z.div_mod_to_equations; lia).
  edestruct (replay_frame nb c bs ticks f (k mod 3) n f2 ((k + 1) mod 3)) as (c' & bs' & n' & dst & ticks' & Er & Hc' & Hbs' & Hon);
    [done|done|done|done|apply Z.mod_pos_bound; lia|done|done| |].
  2: destruct (IH nb p' f2 (k + 1) c' bs' n' ticks' Hp' ltac:(lia) Hf2 Hfs Hev Hbs' Hc') as (g' & shots & Es & Hsh').
  2: destruct (Present.decode_run p' (Present.good_in <$> fs)) as [p2 out]; cbn [snd] in Es |- *; rewrite Er, Es.
  - shelve.
  - cbn [mbind option_bind]. eexists _, _. split; [done|]. cbn [length take]. constructor; [by split_and!|]. exact Hsh'.
  Unshelve. reflexivity.
Qed.

(** C3. What is queued for the screen is what was decoded. In DRM mode, on frames that
    find a buffer and whose conversions and waits succeed, for any arithmetic of the
    converter, any order of its threads and any progress of the device, which
    does the jobs queued on its stream whenever it likes: at the moment an entry
    is queued, its buffer shows exactly the picture of that entry's own frame,
    complete - although its conversion was only queued, the conversion of the next
    frame is queued before it is copied, and both go through one device buffer -
    with its own deadline, frame by frame in order; the last frame stays in the
    converter. No access leaves an object. Decoded pictures are taken to stay in
    device memory until their kernels have run, and conversions in flight
    together to have different events. *)
Theorem pictures_reach_buffers nb f fs g ticks :
  frame_ok nb f -> Forall (frame_ok nb) fs -> events_apart (f :: fs) -> rig_ok nb g ->
  exists g' shots,
    replay src pitch dw dh fails g ticks (snd (Present.decode_run Present.pending_init (Present.good_in <$> (f :: fs))))
    = Some (g', shots) /\
    Forall2 shot_of (take (length fs) (f :: fs)) shots.
Proof.
  intros Hf Hfs Hev (Hok & Hst & Hbs). destruct g as [c bs]. cbn [cv bufs] in *.
  cbn [fmap list_fmap Present.good_in Present.decode_run].
  destruct (Present.decode_drm Present.pending_init (Present.g_au f) _) as [p out0] eqn:E. cbn in E.
  injection E as <- <-. set (p := Present.mk_pending _ _ _ _ _ _ _ _ _).
  pose proof Hf as (Hg & _ & _ & Hord & Hb & Hb8).
  assert (Hp : Present.in_flight p f 0) by (unfold Present.in_flight; cbn; split_and!; (reflexivity || lia)).
  change (list_fmap _ _ Present.good_in fs) with (Present.good_in <$> fs).
  assert (Hidle : stream_steps (hd O ticks) c = Some c).
  { induction (hd O ticks) as [|t IH]; [done|]. cbn. unfold stream_step. rewrite Hst. exact IH. }
  destruct (conv_async_ok c (work_of f 0) Hok Hg Hord ltac:(cbn; lia)) as (c1 & X1 & Hok1 & Hw1 & Hs1 & _).
  assert (Hc1 : flying c1 (work_of f (0 mod 3)) 3 None).
  { split; [done|done|lia|by rewrite Hs1, Hst, app_nil_r|done|done]. }
  destruct (replay_run fs nb p f 0 c1 bs 3 (tl ticks) Hp ltac:(lia) Hf Hfs Hev Hbs Hc1) as (g' & shots & Es & Hs).
  destruct (Present.decode_run p (Present.good_in <$> fs)) as [p2 out]. cbn [snd app] in Es |- *.
  exists g', shots. split; [|exact Hs]. rewrite (replay_quiet c bs ticks _ _ c (mk_rig c1 bs) Hidle); [exact Es|].
  change (mk_async true true true true true true) with all_ok in X1. cbn in X1. cbn.
  rewrite Z.mod_0_l by done. by rewrite X1.
Qed.

End Shots.

(** Three pictures of 2 by 2 pixels on buffers of 16 bytes a line. *)
Definition demo_source (au : Present.decoded_au) : source :=
  mk_source (replicate 4 (16 + Present.fidx au)) [128; 128] (demo_dims 2) (grid (demo_dims 2)).

Definition demo_frame (i : nat) : Present.good_frame :=
  Present.mk_good (Present.mk_au i (Z.of_nat i) 1 0 (900000 + Z.of_nat i * 16667) 2000) (Z.of_nat i) (Z.of_nat i) 500.

Definition demo_rig : rig := mk_rig conv_init (replicate 3 (replicate 32 7)).

Lemma demo_frame_ok i : (i < 3)%nat -> frame_ok demo_source 2 2 3 (demo_frame i).
Proof.
  intros Hi. unfold frame_ok, demo_frame. cbn [Present.g_au Present.g_buf]. split; [|by split_and!; try lia].
  split; cbn; rewrite ?zlen_replicate; try lia; split_and!; (lia || reflexivity || discriminate).
Qed.

(** The device works late: it does one job before the second wait and nothing else
    of its own. *)
Lemma pictures_reach_buffers_witness :
  exists g' shots,
    replay demo_source 16 2 2 (fun _ => all_ok) demo_rig [0; 0; 0; 0; 0; 0; 0; 0; 0; 1]%nat
      (snd (Present.decode_run Present.pending_init (Present.good_in <$> [demo_frame 0; demo_frame 1; demo_frame 2])))
    = Some (g', shots) /\
    Forall2 (shot_of demo_source 16 2 2) [demo_frame 0; demo_frame 1] shots.
Proof.
  apply (pictures_reach_buffers demo_source 16 2 2 (fun _ => all_ok) ltac:(lia) ltac:(lia) eq_refl 3 (demo_frame 0) [demo_frame 1; demo_frame 2]).
  - apply demo_frame_ok. lia.
  - repeat constructor; apply demo_frame_ok; lia.
  - repeat constructor; discriminate.
  - split; [exact conv_init_ok|]. split; [reflexivity|]. split; [reflexivity|]. repeat constructor; vm_compute; discriminate.
Defined.

(** What a buffer shows of its first pixel when its entry is queued. *)
Definition first_pixels (r : option (rig * list (Present.present_entry * list Z))) : list (option (list Z)) :=
  match r with Some (_, shots) => (fun x => slice x.2 0 4) <$> shots | None => [] end.

(** A wait that fails is reported, and the stage is copied all the same: with a
    device that has done nothing yet, the buffer is queued with the stage as it
    was allocated, where a successful wait would have brought the picture. *)
Example failed_wait_shows_stale_stage :
  let ins ok := [Present.good_in (demo_frame 1);
                 (Present.g_au (demo_frame 2), Present.mk_conv (Some 2) (Some 2) ok 500)] in
  let queued ok := first_pixels (replay demo_source 16 2 2 (fun _ => all_ok) demo_rig []
                                   (snd (Present.decode_run Present.pending_init (ins ok)))) in
  queued true = [Some [1; 1; 1; 0]] /\ queued false = [Some [0; 0; 0; 0]].
Proof. vm_compute. done. Qed.

End Pic.
