(* ===== verification/Manifest.v ===== *)
(** * The MPD manifest ([dash_load_manifest] of [apps/thinclient/main.c];
      [parse_avail_start_us], [read_start_number] and [patch_mpd_static] of
      [tools/vmc-dash-sim/main.c])

    The attributes the client reads out of the manifest by searching its text,
    with the times in double arithmetic; the same on the server, and the rewrite
    that ends a play-once stream. [double] is IEEE binary64 with rounding to
    nearest even ([SpecFloat]). Texts are byte lists without the NUL. *)

From S2P Require Import Prelude Text AvSync.
From Stdlib Require Import SpecFloat.
From stdpp Require Import strings.

#[local] Open Scope Z_scope.

Module Mpd.
Import Text.

(** ** Doubles *)

Definition d_of_Z (n : Z) : spec_float := binary_normalize 53 1024 n 0 false.
Definition d_sub : spec_float -> spec_float -> spec_float := SFsub 53 1024.
Definition d_mul : spec_float -> spec_float -> spec_float := SFmul 53 1024.

(** The quotient of two positive integers, correctly rounded. *)
Definition d_ratio (n k : Z) : spec_float :=
  match n, k with
  | Zpos a, Zpos b => SFdiv 53 1024 (S754_finite false a 0) (S754_finite false b 0)
  | _, _ => S754_zero false
  end.

(** The conversion to an integer type, towards zero; outside the range of the
    type it is undefined and not meant here. *)
Definition d_trunc (d : spec_float) : Z :=
  match d with
  | S754_finite s m e =>
    let v := if decide (0 <= e) then Zpos m * 2 ^ e else Zpos m / 2 ^ (- e) in
    if s then - v else v
  | _ => 0
  end.

(** Digits: how many, their value, the rest. *)
Fixpoint digits (l : list Z) (k n : Z) : Z * Z * list Z :=
  match l with
  | c :: r => match base_digit 10 c with
              | Some d => digits r (k + 1) (10 * n + d)
              | None => (k, n, l)
              end
  | [] => (k, n, [])
  end.

(** [strtod], and [%lf] of [sscanf], for decimal numbers without an exponent
    (hexadecimal, infinity and NaN are not meant either). *)
Definition scan_double (l : list Z) : option (spec_float * list Z) :=
  let l := skip_space l in
  let '(neg, l) := match l with
                   | c :: k => if decide (c = 45) then (true, k)
                               else if decide (c = 43) then (false, k) else (false, l)
                   | [] => (false, l)
                   end in
  let '(k1, n1, r) := digits l 0 0 in
  let '(k2, n2, r) := match r with
                      | c :: r' => if decide (c = 46) then digits r' 0 n1 else (0, n1, r)
                      | [] => (0, n1, r)
                      end in
  if decide (k1 + k2 = 0) then None else
  let d := d_ratio n2 (10 ^ k2) in
  Some (if neg : bool then SFopp d else d, r).

(** ** Dates *)

Definition leap (y : Z) : bool :=
  (y mod 4 =? 0) && (negb (y mod 100 =? 0) || (y mod 400 =? 0)).

(** Days of the year before month [m], [0] being January. *)
Definition days_before (y m : Z) : Z :=
  default 0 (zget [0; 31; 59; 90; 120; 151; 181; 212; 243; 273; 304; 334] m)
  + (if leap y && bool_decide (2 <= m) then 1 else 0).

(** Days from 1970-01-01 to the first day of year [y]. *)
Definition year_start (y : Z) : Z :=
  365 * (y - 1970) + ((y - 1) / 4 - (y - 1) / 100 + (y - 1) / 400 - 477).

(** [timegm] of the C library on a broken-down time, month from 0; months
    beyond the year are carried. *)
Definition timegm (y mon mday h mi s : Z) : Z :=
  let y := y + mon / 12 in
  let m := mon mod 12 in
  (((year_start y + days_before y m + (mday - 1)) * 24 + h) * 60 + mi) * 60 + s.

(** [sscanf(s, "%d-%d-%dT%d:%d:%lf", ...) == 6]. *)
Definition scan_iso (s : list Z) : option (Z * Z * Z * Z * Z * spec_float) :=
  '(y, l) ← scan_int s; l ← strip [45] l;
  '(mo, l) ← scan_int l; l ← strip [45] l;
  '(d, l) ← scan_int l; l ← strip [84] l;
  '(h, l) ← scan_int l; l ← strip [58] l;
  '(mi, l) ← scan_int l; l ← strip [58] l;
  '(se, _) ← scan_double l;
  Some (y, mo, d, h, mi, se).

(** The time, [fail] where the text is not one or lies before the epoch:
    [parse_iso8601] with -1, [parse_avail_start_us] with 0. *)
Definition iso_us (fail : Z) (s : list Z) : Z :=
  match scan_iso s with
  | None => fail
  | Some (y, mo, d, h, mi, se) =>
    let sec := d_trunc se in
    let epoch := timegm y (mo - 1) d h mi sec in
    if decide (epoch < 0) then fail
    else epoch * 1000000 + d_trunc (d_mul (d_sub se (d_of_Z sec)) (d_of_Z 1000000))
  end.

Definition parse_iso8601 (s : list Z) : Z := iso_us (-1) s.

(** ** Durations *)

Definition unit_us (c : Z) : Z :=
  if decide (c = 72 \/ c = 104) then 3600000000
  else if decide (c = 77 \/ c = 109) then 60000000
  else if decide (c = 83 \/ c = 115) then 1000000
  else 0.

(** The loop; every iteration consumes a digit, so the length of the text is
    fuel enough. *)
Fixpoint duration_loop (fuel : nat) (p : list Z) (us : Z) : Z :=
  match fuel with
  | O => us
  | S fuel =>
    match p with
    | [] => us
    | _ =>
      match scan_double p with
      | None => us
      | Some (d, p) =>
        match p with
        | [] => us
        | c :: p => duration_loop fuel p
                      (us + (if decide (unit_us c = 0) then 0 else d_trunc (d_mul d (d_of_Z (unit_us c)))))
        end
      end
    end
  end.

Definition skip_letter (up low : Z) (p : list Z) : list Z :=
  match p with c :: r => if decide (c = up \/ c = low) then r else p | [] => p end.

Definition parse_duration_us (s : list Z) : Z :=
  let p := skip_letter 84 116 (skip_letter 80 112 s) in
  duration_loop (length p) p 0.

(** ** The client: [dash_load_manifest] *)

(** The start of an attribute: its name, [=] and a quote. *)
Definition attr (name : String.string) : list Z := chars name ++ [61; 34].

Definition dynamic : list Z := attr "type" ++ chars "dynamic" ++ [34].
Definition static_ : list Z := attr "type" ++ chars "static" ++ [34].

(** What follows the first occurrence of a name, and the value of a quoted
    attribute, cut to what its buffer of 64 bytes holds; [Some None]: the
    attribute is there but its value does not end. *)
Definition after (name s : list Z) : option (list Z) := drop (length name) <$> strstr name s.

Definition attribute (name s : list Z) : option (option (list Z)) :=
  (fun r => (fun v => take 63 v.1) <$> strchr 34 r) <$> after name s.

Record loaded := mk_loaded {
  manifest : AvSync.dash_manifest; frame_rate : Z; publish_time_us : Z; timeshift_depth_us : Z;
  window_segments : Z; base : list Z;
}.

(** The value of an attribute that need not be there. *)
Definition timed (f : list Z -> Z) (name s : list Z) : Z :=
  match attribute name s with Some (Some v) => f v | _ => 0 end.

Definition seg_duration (s : list Z) : Z :=
  match after (attr "timescale") s with
  | None => 1000000
  | Some ts =>
    match strstr (chars "<S ") (attr "timescale" ++ ts) with
    | None => 1000000
    | Some stl =>
      match after (attr "d") stl with
      | None => 1000000
      | Some d =>
        if decide (atoi ts > 0 /\ atoi d > 0) then Z.quot (atoi d * 1000000) (atoi ts) else 1000000
      end
    end
  end.

Definition manifest_rate (s : list Z) : Z :=
  match after (attr "frameRate") s with
  | None => 0
  | Some fr =>
    let den := match strchr 47 fr with
               | Some (_, _ :: c :: r) => atoi (c :: r)
               | _ => 1
               end in
    if decide (atoi fr > 0 /\ den > 0) then Z.quot (atoi fr) den else 0
  end.

(** The scheme and host of the URL, in a buffer of 256 bytes. [None]: no
    scheme; [Some None]: the copy leaves the buffer, because its length is that
    of the scheme and of a host cut to 255. *)
Definition base_of (url : list Z) : option (option (list Z)) :=
  b ← after (chars "://") url;
  let bl := match strchr 47 b with Some (h, _) => zlen h | None => zlen b end in
  let bl := if decide (bl >= 256) then 255 else bl in
  let n := zlen url - zlen b + bl in
  Some (if decide (n < 256) then Some (take (Z.to_nat n) url) else None).

(** [body]: what [http_get] delivered, [None] if it failed; [beyond]: the
    memory behind it, for the text is searched up to the first NUL although the
    body ends without one. The result is [None] where the program faults, and
    otherwise the manifest, or no manifest where -1 is returned. *)
Definition dash_load_manifest (url : list Z) (body : option (list Z)) (beyond : list Z)
    : option (option loaded) :=
  match body with
  | None | Some [] => Some None
  | Some b =>
    let s := c_string (b ++ beyond) in
    let static := bool_decide (is_Some (strstr static_ s)) in
    let duration := timed parse_duration_us (attr "mediaPresentationDuration") s in
    match strstr (attr "availabilityStartTime") s, static with
    | None, false => Some None
    | _, _ =>
      let avail := timed parse_iso8601 (attr "availabilityStartTime") s in
      let publish := timed parse_iso8601 (attr "publishTime") s in
      let depth := timed parse_duration_us (attr "timeShiftBufferDepth") s in
      let start := match after (attr "startNumber") s with Some r => atoi r | None => 0 end in
      let seg := seg_duration s in
      match base_of url with
      | None => Some None
      | Some None => None
      | Some (Some base) =>
        let publish := if decide (publish <= 0) then avail else publish in
        let depth := if decide (depth <= 0) then 10000000 else depth in
        if decide (u64 seg = 0) then None else
        let win := i32 (u64 (depth + u64 seg - 1) / u64 seg) in
        let win := if decide (win < 1) then 1 else win in
        if decide (seg <= 0) then Some None else
        if static || bool_decide (avail > 0)
        then Some (Some (mk_loaded (AvSync.mk_manifest start seg avail duration static)
                           (manifest_rate s) publish depth win base))
        else Some None
      end
    end
  end.

(** ** The server *)

(** [file]: the first 16383 bytes of the manifest, [None] if it cannot be read. *)
Definition parse_avail_start_us (file : option (list Z)) : Z :=
  match file with
  | None | Some [] => 0
  | Some b =>
    match attribute (attr "availabilityStartTime") (c_string b) with
    | Some (Some v) => iso_us 0 v
    | _ => 0
    end
  end.

Definition read_start_number (file : option (list Z)) : Z :=
  match file with
  | None | Some [] => 0
  | Some b => match after (attr "startNumber") (c_string b) with Some r => atoi r | None => 0 end
  end.

(** The replacing loop; it consumes a byte at least, so the length is fuel
    enough. *)
Fixpoint replace_loop (fuel : nat) (p : list Z) : list Z :=
  match fuel with
  | O => []
  | S fuel =>
    match p with
    | [] => []
    | c :: r => match strip dynamic p with
                | Some q => static_ ++ replace_loop fuel q
                | None => c :: replace_loop fuel r
                end
    end
  end.

(** [file]: the first 65535 bytes; the result is what the file holds
    afterwards, [None] if it is left alone. *)
Definition patch_mpd_static (file : option (list Z)) : option (list Z) :=
  match file with
  | None | Some [] => None
  | Some b =>
    let s := c_string b in
    match strstr static_ s with
    | Some _ => None
    | None => Some (replace_loop (length s) s)
    end
  end.

(** ** The calendar *)

Definition days_in_month (y m : Z) : Z :=
  default 0 (zget [31; 28; 31; 30; 31; 30; 31; 31; 30; 31; 30; 31] (m - 1))
  + (if leap y && bool_decide (m = 2) then 1 else 0).

Definition next_day (x : Z * Z * Z) : Z * Z * Z :=
  let '(y, m, d) := x in
  if decide (d < days_in_month y m) then (y, m, d + 1)
  else if decide (m < 12) then (y, m + 1, 1) else (y + 1, 1, 1).

(** The [k]-th day from the epoch, counted one by one. *)
Definition day (k : nat) : Z * Z * Z := Nat.iter k next_day (1970, 1, 1).

Definition day_number (x : Z * Z * Z) : Z :=
  let '(y, m, d) := x in year_start y + days_before y (m - 1) + (d - 1).

Lemma year_start_next y : year_start (y + 1) = year_start y + 365 + (if leap y then 1 else 0).
Proof.
  unfold year_start, leap. replace (y + 1 - 1) with y by lia.
  destruct (Z.eqb_spec (y mod 4) 0), (Z.eqb_spec (y mod 100) 0), (Z.eqb_spec (y mod 400) 0);
    cbn [andb orb negb]; Z.div_mod_to_equations; lia.
Qed.

Lemma days_before_next y m : 1 <= m <= 12 ->
  days_before y (m - 1) + days_in_month y m
  = if decide (m < 12) then days_before y m else 365 + (if leap y then 1 else 0).
Proof.
  intros Hm. assert (m = 1 \/ m = 2 \/ m = 3 \/ m = 4 \/ m = 5 \/ m = 6 \/ m = 7 \/ m = 8 \/ m = 9 \/
    m = 10 \/ m = 11 \/ m = 12) as Hc by lia. unfold days_before, days_in_month.
  repeat destruct Hc as [->|Hc]; try subst m; destruct (leap y); reflexivity.
Qed.

Lemma month_length y m : 1 <= m <= 12 -> 28 <= days_in_month y m <= 31.
Proof.
  intros Hm. assert (m = 1 \/ m = 2 \/ m = 3 \/ m = 4 \/ m = 5 \/ m = 6 \/ m = 7 \/ m = 8 \/ m = 9 \/
    m = 10 \/ m = 11 \/ m = 12) as Hc by lia. unfold days_in_month.
  repeat destruct Hc as [->|Hc]; try subst m; destruct (leap y); vm_compute; split; discriminate.
Qed.

Lemma day_spec k : let '(y, m, d) := day k in
  1970 <= y <= 1970 + Z.of_nat k /\ 1 <= m <= 12 /\ 1 <= d <= days_in_month y m /\ day_number (y, m, d) = Z.of_nat k.
Proof.
  induction k as [|k IH]; [by vm_compute|]. unfold day in *. rewrite Nat.iter_succ.
  destruct (Nat.iter k next_day (1970, 1, 1)) as [[y m] d]. destruct IH as (Hy & Hm & Hd & Hn).
  pose proof (days_before_next y m Hm) as Hb. unfold next_day, day_number in *.
  destruct (decide (d < days_in_month y m)); [split_and!; lia|].
  destruct (decide (m < 12)) as [Hlt|Hge].
  - pose proof (month_length y (m + 1) ltac:(lia)). replace (m + 1 - 1) with m by lia.
    split_and!; lia.
  - pose proof (month_length (y + 1) 1 ltac:(lia)). rewrite year_start_next. assert (Hm12 : m = 12) by lia.
    assert (days_before (y + 1) (1 - 1) = 0) by (unfold days_before; by destruct (leap (y + 1))).
    replace (y + 1 - 1) with y by lia. split_and!; lia.
Qed.

(** ** Reading a time *)

(** Two decimal digits, as [%02d] prints them. *)
Definition two (n : Z) : list Z := [48 + n / 10; 48 + n mod 10].

Lemma base_digit_48 a : 0 <= a < 10 -> base_digit 10 (48 + a) = Some a.
Proof.
  intros Ha. pose proof (digit_char_val 10 a ltac:(lia) Ha) as H. unfold digit_char in H.
  by rewrite decide_True in H by lia.
Qed.

Lemma scan_two n rest : 0 <= n < 100 -> no_digit 10 rest -> scan_int (two n ++ rest) = Some (n, rest).
Proof.
  intros Hn Hr. pose proof (Z.div_mod n 10 ltac:(lia)). pose proof (Z.mod_pos_bound n 10 ltac:(lia)).
  assert (0 <= n / 10 < 10) by (Z.div_mod_to_equations; lia).
  unfold scan_int, scan_long, two. cbn [app skip_space]. unfold is_space.
  rewrite !bool_decide_eq_false_2 by lia. cbn [orb]. rewrite !decide_False by lia.
  rewrite (base_digit_48 (n / 10)) by lia. cbn [num_scan]. rewrite !base_digit_48 by lia.
  rewrite num_scan_stop by done. rewrite i32_small; [do 2 f_equal|]; lia.
Qed.

Lemma scan_int_print n rest : 0 <= n < 2 ^ 31 -> no_digit 10 rest ->
  scan_int (num_print 10 n ++ rest) = Some (n, rest).
Proof. intros Hn Hr. unfold scan_int. by rewrite scan_long_print, i32_small by (done || lia). Qed.

(** Whole seconds are read exactly. *)
Lemma whole_second s : 0 <= s < 60 ->
  d_trunc (d_ratio s (10 ^ 0)) = s /\
  d_trunc (d_mul (d_sub (d_ratio s (10 ^ 0)) (d_of_Z s)) (d_of_Z 1000000)) = 0.
Proof.
  intros Hs. assert (H : forallb (fun s => (d_trunc (d_ratio s (10 ^ 0)) =? s) &&
    (d_trunc (d_mul (d_sub (d_ratio s (10 ^ 0)) (d_of_Z s)) (d_of_Z 1000000)) =? 0)) (seqZ 0 60) = true)
    by (vm_compute; reflexivity).
  rewrite forallb_forall in H. specialize (H s). rewrite andb_true_iff, !Z.eqb_eq in H.
  apply H. apply list_elem_of_In, elem_of_seqZ. lia.
Qed.

Lemma scan_double_two s rest : 0 <= s < 100 -> no_digit 10 rest ->
  match rest with c :: _ => c <> 46 | [] => True end ->
  scan_double (two s ++ rest) = Some (d_ratio s (10 ^ 0), rest).
Proof.
  intros Hn Hr Hdot. pose proof (Z.div_mod s 10 ltac:(lia)). pose proof (Z.mod_pos_bound s 10 ltac:(lia)).
  assert (0 <= s / 10 < 10) by (Z.div_mod_to_equations; lia).
  unfold scan_double, two. cbn [app skip_space]. unfold is_space.
  rewrite !bool_decide_eq_false_2 by lia. cbn [orb]. rewrite !decide_False by lia.
  cbn [digits]. rewrite !base_digit_48 by lia.
  assert (Hd : forall k n, digits rest k n = (k, n, rest)).
  { intros k n. destruct rest as [|c r]; [done|]. cbn [digits]. unfold no_digit in Hr. by rewrite Hr. }
  rewrite Hd. replace (10 * (10 * 0 + s / 10) + s mod 10) with s by lia.
  destruct rest as [|c r]; [done|]. rewrite (decide_False (P := c = 46)) by done. done.
Qed.

(** A time as the manifests hold it, to the second. *)
Definition print_iso (x : Z * Z * Z) (h mi s : Z) : list Z :=
  let '(y, m, d) := x in
  num_print 10 y ++ [45] ++ two m ++ [45] ++ two d ++ [84] ++ two h ++ [58] ++ two mi ++ [58] ++ two s ++ [90].

Lemma no_digit_cons c l : base_digit 10 c = None -> no_digit 10 (c :: l).
Proof. done. Qed.

(** C35. Times are counted from the epoch by the calendar. For the day that is
    [k] days after 1970-01-01, counted day by day with the leap years of the
    Gregorian calendar, and any time of that day to the second, the client and
    the server read from the text of the manifest exactly the microseconds since
    the epoch. *)
Theorem iso_time_exact fail k h mi s :
  Z.of_nat k < 2 ^ 30 -> 0 <= h < 24 -> 0 <= mi < 60 -> 0 <= s < 60 ->
  iso_us fail (print_iso (day k) h mi s) = (((Z.of_nat k * 24 + h) * 60 + mi) * 60 + s) * 1000000.
Proof.
  intros Hk Hh Hmi Hs. pose proof (day_spec k) as Hd. destruct (day k) as [[y m] d].
  destruct Hd as (Hy & Hm & Hd & Hn). cbv beta iota delta [print_iso]. unfold iso_us, scan_iso.
  pose proof (month_length y m Hm).
  rewrite scan_int_print by (done || lia).
  cbn [mbind option_bind]. rewrite strip_app. cbn [mbind option_bind].
  rewrite scan_two by (done || lia). cbn [mbind option_bind]. rewrite strip_app. cbn [mbind option_bind].
  rewrite scan_two by (done || lia). cbn [mbind option_bind]. rewrite strip_app. cbn [mbind option_bind].
  rewrite scan_two by (done || lia). cbn [mbind option_bind]. rewrite strip_app. cbn [mbind option_bind].
  rewrite scan_two by (done || lia). cbn [mbind option_bind]. rewrite strip_app. cbn [mbind option_bind].
  rewrite scan_double_two by (done || lia). cbn [mbind option_bind]. cbv zeta.
  destruct (whole_second s Hs) as [-> ->].
  assert (Htm : timegm y (m - 1) d h mi s = ((Z.of_nat k * 24 + h) * 60 + mi) * 60 + s).
  { unfold timegm. cbv zeta. rewrite Z.div_small, Z.mod_small by lia. unfold day_number in Hn.
    replace (y + 0) with y by lia. rewrite Hn. lia. }
  rewrite Htm, decide_False by lia. lia.
Qed.

(** The leap day of 1972 is day 789. *)
Lemma iso_time_exact_witness :
  iso_us (-1) (chars "1972-02-29T12:34:56Z") = 68214896000000.
Proof.
  pose proof (iso_time_exact (-1) 789 12 34 56 ltac:(reflexivity) ltac:(lia) ltac:(lia) ltac:(lia)) as H.
  assert (Hp : print_iso (day 789) 12 34 56 = chars "1972-02-29T12:34:56Z") by (vm_compute; reflexivity).
  rewrite Hp in H. exact H.
Defined.

(** ** The end of a play-once stream *)

Definition letters (l : list Z) : Prop := Forall (fun c => c <> 0) l.

(** A text without the letter t matches only bytes that were copied. *)
Lemma replace_strip w : Forall (fun c => c <> 116) w -> forall fuel p r,
  (length p <= fuel)%nat -> strip w (replace_loop fuel p) = Some r -> is_Some (strip w p).
Proof.
  induction 1 as [|c w Hc _ IH]; intros fuel p r Hf Hs; [by eexists|].
  destruct fuel as [|fuel]; [done|]. destruct p as [|x q]; [done|]. cbn [replace_loop] in Hs.
  cbn [length] in Hf. destruct (strip dynamic (x :: q)) as [q'|] eqn:E.
  - change (static_ ++ replace_loop fuel q') with (116 :: (tail static_ ++ replace_loop fuel q')) in Hs.
    cbn [strip] in Hs. rewrite decide_False in Hs by done. done.
  - cbn [strip] in Hs |- *. case_decide; [|done]. eapply IH; [|exact Hs]. lia.
Qed.

(** Nothing dynamic is left. *)
Lemma replace_no_dynamic fuel : forall p, (length p <= fuel)%nat -> strstr dynamic (replace_loop fuel p) = None.
Proof.
  induction fuel as [|fuel IH]; intros p Hf; [done|]. destruct p as [|c q]; [done|]. cbn [length] in Hf.
  cbn [replace_loop]. destruct (strip dynamic (c :: q)) as [q'|] eqn:E.
  - apply strip_inv, (f_equal length) in E. rewrite length_app in E. cbn [length] in E.
    change (length dynamic) with 14%nat in E. specialize (IH q' ltac:(lia)).
    exact IH.
  - cbn [strstr]. destruct (strip dynamic (c :: replace_loop fuel q)) as [r|] eqn:Er; [|apply IH; lia].
    exfalso. change dynamic with (116 :: tail dynamic) in E, Er. cbn [strip] in E, Er.
    case_decide; [|done]. destruct (replace_strip (tail dynamic)) with (fuel := fuel) (p := q) (r := r);
      [by repeat constructor|lia|done|]. congruence.
Qed.

(** What was dynamic is static. *)
Lemma replace_static fuel : forall p, (length p <= fuel)%nat -> is_Some (strstr dynamic p) ->
  is_Some (strstr static_ (replace_loop fuel p)).
Proof.
  induction fuel as [|fuel IH]; intros p Hf [r Hr]; (destruct p as [|c q]; [done|]); cbn [length] in Hf; [lia|].
  cbn [replace_loop]. cbn [strstr] in Hr. destruct (strip dynamic (c :: q)) as [q'|] eqn:E.
  - rewrite strstr_here. by eexists.
  - destruct (IH q ltac:(lia) (mk_is_Some _ _ Hr)) as [x Hx]. cbn [strstr].
    destruct (strip static_ _); [by eexists|]. rewrite Hx. by eexists.
Qed.

Lemma replace_length fuel : forall p, (length p <= fuel)%nat -> (length (replace_loop fuel p) <= length p)%nat.
Proof.
  induction fuel as [|fuel IH]; intros p Hf; [cbn; lia|]. destruct p as [|c q]; [done|]. cbn [replace_loop].
  cbn [length] in *. destruct (strip dynamic (c :: q)) as [q'|] eqn:E.
  - apply strip_inv, (f_equal length) in E. rewrite length_app in E. cbn [length] in E.
    change (length dynamic) with 14%nat in E. rewrite length_app. change (length static_) with 13%nat.
    specialize (IH q' ltac:(lia)). lia.
  - cbn [length]. specialize (IH q ltac:(lia)). lia.
Qed.

Lemma replace_letters fuel : forall p, letters p -> letters (replace_loop fuel p).
Proof.
  induction fuel as [|fuel IH]; intros p Hp; [constructor|]. destruct p as [|c q]; [constructor|].
  cbn [replace_loop]. destruct (strip dynamic (c :: q)) as [q'|] eqn:E.
  - apply strip_inv in E. rewrite E in Hp. apply Forall_app in Hp as [_ Hp].
    apply Forall_app. split; [by repeat constructor|by apply IH].
  - apply Forall_cons in Hp as [Hc Hp]. constructor; [done|by apply IH].
Qed.

Lemma strstr_app pat l k r : strstr pat l = Some r -> is_Some (strstr pat (l ++ k)).
Proof.
  revert r. induction l as [|c l IH]; intros r Hr.
  - cbn [strstr] in Hr. destruct (strip pat []) as [x|] eqn:E; [|done]. apply strip_inv in E.
    destruct pat; [|done]. cbn. destruct k; by eexists.
  - cbn [strstr] in Hr. cbn [app strstr]. destruct (strip pat (c :: l)) as [x|] eqn:E.
    + apply strip_inv in E. change (c :: l ++ k) with ((c :: l) ++ k). rewrite E, <- app_assoc, strip_app. by eexists.
    + destruct (IH r Hr) as [y Hy]. destruct (strip pat (c :: l ++ k)); [by eexists|]. rewrite Hy. by eexists.
Qed.

Lemma c_string_app l k : letters l -> c_string (l ++ k) = l ++ c_string k.
Proof. induction 1 as [|c l Hc _ IH]; [done|]. cbn. by rewrite decide_False, IH by done. Qed.

(** The server's rewrite ends the stream for the client. A live manifest
    (shorter than the server's buffer, without a NUL) that says dynamic is
    rewritten into one, no longer than before, in which nothing says dynamic and
    something says static; a second rewrite leaves it alone; and whatever lies
    behind it in the client's memory, a client that loads a manifest from it
    takes the stream for ended. *)
Theorem patched_manifest_ends_stream f url beyond :
  letters f -> is_Some (strstr dynamic f) -> strstr static_ f = None ->
  exists g, patch_mpd_static (Some f) = Some g /\ (length g <= length f)%nat /\
    strstr dynamic g = None /\ patch_mpd_static (Some g) = None /\
    forall l, dash_load_manifest url (Some g) beyond = Some (Some l) ->
      AvSync.static_mpd (manifest l) = true.
Proof.
  intros Hf Hdyn Hst. pose proof (replace_static (length f) f (Nat.le_refl _) Hdyn) as [r Hr].
  pose proof (replace_letters (length f) f Hf) as Hg. set (g := replace_loop (length f) f) in *.
  assert (Hne : f <> [] /\ g <> []) by (split; intros E; [rewrite E in Hdyn; by destruct Hdyn|rewrite E in Hr; done]).
  destruct Hne as [Hnf Hng]. exists g. unfold patch_mpd_static.
  split; [destruct f; [done|]; rewrite c_string_id by done; by rewrite Hst|].
  split; [apply replace_length; lia|]. split; [apply replace_no_dynamic; lia|].
  split; [destruct g; [done|]; rewrite c_string_id by done; by rewrite Hr|].
  intros l Hl. unfold dash_load_manifest in Hl. destruct g as [|c g']; [done|]. rewrite c_string_app in Hl by done.
  destruct (strstr_app static_ (c :: g') (c_string beyond) r Hr) as [r' Hr']. cbv zeta in Hl.
  rewrite Hr' in Hl. rewrite (bool_decide_eq_true_2 (is_Some (Some r'))) in Hl by done.
  destruct (strstr (attr "availabilityStartTime") _); destruct (base_of url) as [[b|]|]; try done;
    repeat case_decide; try done; cbn [orb] in Hl; injection Hl as <-; done.
Qed.

(** ** What a loaded manifest promises *)

Lemma atoi_range l : - 2 ^ 31 <= atoi l < 2 ^ 31.
Proof.
  unfold atoi, scan_int. destruct (scan_long l) as [[v r]|]; [|lia]. unfold i32.
  Z.div_mod_to_equations; lia.
Qed.

Lemma base_of_ok url b : base_of url = Some (Some b) -> zlen b < 256 /\ exists rest, url = b ++ rest.
Proof.
  unfold base_of. destruct (after _ url) as [h|]; [|done]. cbn [mbind option_bind].
  set (n := zlen url - zlen h + _). case_decide as Hn; [|done]. intros [= <-].
  split; [|exists (drop (Z.to_nat n) url); by rewrite take_drop].
  unfold zlen. rewrite length_take. pose proof (zlen_nonneg url). lia.
Qed.

(** C36. Every manifest the client accepts is one its fetch loop can run on: the
    segment duration is positive, so that no division by it faults; a live one
    has a start after the epoch; numbers are in the range of their types, the
    frame rate is not negative, the window holds a segment at least, and the
    base fits its buffer and is a prefix of the URL. *)
Theorem manifest_well_formed url body beyond l :
  dash_load_manifest url body beyond = Some (Some l) ->
  let m := manifest l in
  0 < AvSync.seg_duration m /\ (AvSync.static_mpd m = false -> 0 < AvSync.avail_start_us m) /\
  - 2 ^ 31 <= AvSync.start_number m < 2 ^ 31 /\ 0 <= frame_rate l /\
  1 <= window_segments l < 2 ^ 31 /\ 0 < timeshift_depth_us l /\
  zlen (base l) < 256 /\ exists rest, url = base l ++ rest.
Proof.
  unfold dash_load_manifest. destruct body as [[|c b]|]; [done| |done]. cbv zeta.
  set (s := c_string _). clearbody s. set (st := bool_decide (is_Some (strstr static_ s))). clearbody st.
  assert (Hrate : 0 <= manifest_rate s).
  { unfold manifest_rate. destruct (after _ s); [|done]. cbv zeta. case_decide; [|done]. apply Z.quot_pos; lia. }
  assert (Hstart : - 2 ^ 31 <= (match after (attr "startNumber") s with Some r => atoi r | None => 0 end) < 2 ^ 31)
    by (destruct (after _ s); [apply atoi_range|done]).
  set (start := match after (attr "startNumber") s with Some r => atoi r | None => 0 end) in *. clearbody start.
  set (rate := manifest_rate s) in *. clearbody rate.
  set (avail := timed parse_iso8601 (attr "availabilityStartTime") s). clearbody avail.
  destruct (strstr (attr "availabilityStartTime") s), st; try done;
    destruct (base_of url) as [[bs|]|] eqn:Eb; try done; apply base_of_ok in Eb as [Hb1 Hb2].
  all: destruct (decide (u64 (seg_duration s) = 0)); [done|].
  all: destruct (decide (seg_duration s <= 0)); [done|]; cbn [orb].
  all: try (destruct (bool_decide (avail > 0)) eqn:Ea; [apply bool_decide_eq_true in Ea|done]).
  all: intros [= <-]; cbn [manifest AvSync.seg_duration AvSync.static_mpd AvSync.avail_start_us
    AvSync.start_number frame_rate window_segments timeshift_depth_us base].
  all: split_and!; try done; try lia.
  all: repeat match goal with |- context [if decide ?P then _ else _] => destruct (decide P) end; try lia.
  all: match goal with |- i32 ?x < _ => pose proof (Z.mod_pos_bound (x + 2147483648) 4294967296); unfold i32; lia end.
Qed.

(** A manifest that names all the client looks for. *)
Definition demo_mpd (type rate : list Z) : list Z :=
  chars "<MPD " ++ attr "type" ++ type ++ [34] ++ attr " availabilityStartTime" ++ chars "1972-02-29T12:34:56Z" ++ [34]
  ++ attr " timeShiftBufferDepth" ++ chars "PT1M" ++ [34] ++ attr " frameRate" ++ rate ++ [34]
  ++ attr " timescale" ++ chars "1000" ++ [34] ++ attr " startNumber" ++ chars "3" ++ [34]
  ++ chars "><S " ++ attr "d" ++ chars "2000" ++ [34] ++ chars "/></MPD>".

Definition demo_url : list Z := chars "http://host:8080/live.mpd".

Lemma manifest_well_formed_witness :
  exists l, dash_load_manifest demo_url (Some (demo_mpd (chars "dynamic") (chars "24/1"))) [0] = Some (Some l) /\
    l = mk_loaded (AvSync.mk_manifest 3 2000000 68214896000000 0 false) 24 68214896000000 60000000 30
          (chars "http://host:8080") /\ 0 < AvSync.seg_duration (manifest l).
Proof.
  destruct (dash_load_manifest demo_url (Some (demo_mpd (chars "dynamic") (chars "24/1"))) [0]) as [[l|]|] eqn:E;
    [|vm_compute in E; discriminate E..].
  destruct (manifest_well_formed _ _ _ l E) as (Hs & _). exists l. split; [reflexivity|]. split; [|exact Hs].
  vm_compute in E. injection E as <-. reflexivity.
Defined.

Lemma patched_manifest_ends_stream_witness :
  patch_mpd_static (Some (demo_mpd (chars "dynamic") (chars "24/1"))) = Some (demo_mpd (chars "static") (chars "24/1")) /\
  strstr dynamic (demo_mpd (chars "static") (chars "24/1")) = None.
Proof.
  destruct (patched_manifest_ends_stream (demo_mpd (chars "dynamic") (chars "24/1")) demo_url [0])
    as (g & Hg & _ & Hn & _).
  - apply (bool_decide_unpack _). vm_compute. exact I.
  - eexists. vm_compute. reflexivity.
  - vm_compute. reflexivity.
  - assert (Hp : patch_mpd_static (Some (demo_mpd (chars "dynamic") (chars "24/1")))
      = Some (demo_mpd (chars "static") (chars "24/1"))) by (vm_compute; reflexivity).
    rewrite Hp in Hg. injection Hg as <-. split; [exact Hp|exact Hn].
Defined.

(** The search goes on behind the body: what lies there can end the stream. *)
Example load_reads_beyond :
  option_map (option_map (fun l => AvSync.static_mpd (manifest l)))
    (dash_load_manifest demo_url (Some (demo_mpd (chars "dynamic") (chars "24/1"))) (static_ ++ [0]))
  = Some (Some true).
Proof. vm_compute. reflexivity. Qed.

(** A rate without a denominator takes the next slash of the document for it. *)
Example rate_without_slash : manifest_rate (demo_mpd (chars "dynamic") (chars "24")) = 0.
Proof. vm_compute. reflexivity. Qed.

(** A duration below a microsecond: the window is divided by 0 before the
    duration is tested. *)
Example tiny_segment_faults :
  dash_load_manifest demo_url (Some (attr "availabilityStartTime" ++ attr "timescale" ++ chars "2000000<S " ++ attr "d" ++ [49])) [0]
  = None.
Proof. vm_compute. reflexivity. Qed.

(** A host of 250 characters: the base is written past its 256 bytes. *)
Example long_host_overflows :
  base_of (chars "http://" ++ replicate 250 97 ++ chars "/live.mpd") = Some None.
Proof. vm_compute. reflexivity. Qed.

(** Days of a duration count for nothing, and neither does what follows. *)
Example days_are_dropped :
  (parse_duration_us (chars "PT1H2M3.5S"), parse_duration_us (chars "P1DT2H")) = (3723500000, 0).
Proof. vm_compute. reflexivity. Qed.

(** Milliseconds lose a microsecond. *)
Example millisecond_truncated : parse_iso8601 (chars "1970-01-01T00:00:01.001Z") = 1000999.
Proof. vm_compute. reflexivity. Qed.

End Mpd.
