(* ===== verification/Demux.v ===== *)
(** * Demultiplexing DASH segments ([apps/thinclient/main.c])

    A segment in memory is read through libavformat; its video packets pass a
    bitstream filter and are published with the identity and the deadline of
    their frame, its audio packets are retimed, decoded, resampled and written to
    the PCM FIFO. The library is an interface: its objects are abstract states,
    its laws what its documentation says of them. *)

From S2P Require Import Prelude AvSync AudioWorker.

#[local] Open Scope Z_scope.

Module Demux.
Import AvSync.

(** ** Reading from memory *)

Record mem_read_ctx := mk_mem { data : list Z; size : Z; pos : Z }.

(** One read of at most [buf_size] bytes; inside, [None] is the end. *)
Definition read_mem_packet (c : mem_read_ctx) (buf_size : Z) : option (option (list Z) * mem_read_ctx) :=
  if decide (pos c >= size c) then Some (None, c) else
  let remaining := u64 (size c - pos c) in
  let to_copy := i32 (if decide (u64 buf_size < remaining) then u64 buf_size else remaining) in
  d ← slice (data c) (pos c) to_copy;
  Some (Some d, mk_mem (data c) (size c) (u64 (pos c + u64 to_copy))).

(** Reads of the given sizes, until the end. *)
Fixpoint read_all (c : mem_read_ctx) (sizes : list Z) : option (list Z * bool) :=
  match sizes with
  | [] => Some ([], false)
  | n :: sizes =>
    '(r, c) ← read_mem_packet c n;
    match r with
    | None => Some ([], true)
    | Some d => '(rest, e) ← read_all c sizes; Some (d ++ rest, e)
    end
  end.

(** ** The library *)

Inductive media := Video | Audio | Other.

(** A packet: its stream's type and time base, its time stamp ([None]:
    [AV_NOPTS_VALUE]), its bytes, whether it carries side data. *)
Record packet := mk_packet {
  p_media : media; p_tb : Z * Z; p_pts : option Z; p_bytes : list Z; p_side : bool;
}.

(** [B]: a bitstream filter, [D]: an audio decoder, [R]: a resampler, [F]: a frame
    of decoded audio. [None] is an error code. [bsf_held], [dec_held]: how often
    the object can be read before it needs another packet. [av_open] etc.: what
    opening, probing and reading yield for the bytes of a segment. *)
Class AvLib (B D R F : Type) := {
  bsf_send : B -> packet -> option B;
  bsf_recv : B -> option (list Z * B);
  bsf_held : B -> nat;
  dec_send : D -> packet -> option D;
  dec_recv : D -> option (F * D);
  dec_held : D -> nat;
  swr_out : R -> F -> Z;
  swr_conv : R -> Z -> F -> Z * list Z * R;
  av_rescale_q : Z -> Z * Z -> Z * Z -> Z;
  av_open : list Z -> bool;
  av_probe : list Z -> bool;
  av_packets : list Z -> list packet;
}.

(** What the documentation promises. [sent], [got]: the packets a decoder has
    accepted and the frames it has handed out. A decoder that has been read empty
    accepts the next packet, unless it is damaged. *)
Class AvLaws (B D R F : Type) `{AvLib B D R F} := {
  bsf_recv_held b o b' : bsf_recv b = Some (o, b') -> (bsf_held b' < bsf_held b)%nat;
  dec_recv_held d f d' : dec_recv d = Some (f, d') -> (dec_held d' < dec_held d)%nat;
  sent : D -> list packet;
  got : D -> list F;
  intact : packet -> Prop;
  dec_send_log d p d' : dec_send d p = Some d' -> sent d' = sent d ++ [p] /\ got d' = got d;
  dec_recv_log d f d' : dec_recv d = Some (f, d') -> sent d' = sent d /\ got d' = got d ++ [f];
  dec_send_drained d p : dec_recv d = None -> intact p -> is_Some (dec_send d p);
  rescale_exact a n d m e q : 0 < d -> 0 < m -> a * n * e = q * (d * m) -> av_rescale_q a (n, d) (m, e) = q;
}.

(** ** State *)

(** [dash_session], without the stream numbers that only the setup uses. *)
Record session (B D R : Type) := mk_session {
  bsfc : option B; as_ : Z; actx : option D; swr : option R; aframe : bool; apcm_cap : Z;
  audio_pts : Z; video_first_pts : option Z; video_au_k : Z; last_frame_idx : Z;
}.
Arguments mk_session {B D R} _ _ _ _ _ _ _ _ _ _.
Arguments bsfc {B D R} _.
Arguments as_ {B D R} _.
Arguments actx {B D R} _.
Arguments swr {B D R} _.
Arguments aframe {B D R} _.
Arguments apcm_cap {B D R} _.
Arguments audio_pts {B D R} _.
Arguments video_first_pts {B D R} _.
Arguments video_au_k {B D R} _.
Arguments last_frame_idx {B D R} _.

#[export] Instance eta_session {B D R} : Eta (session B D R) := fun s =>
  mk_session (bsfc s) (as_ s) (actx s) (swr s) (aframe s) (apcm_cap s) (audio_pts s)
    (video_first_pts s) (video_au_k s) (last_frame_idx s).

(** What is handed on, in order: an access unit for [dash_publish_au] - its
    deadline, frame, time stamp and segment - or sound for the FIFO. *)
Inductive call :=
| Publish (au : list Z) (deadline_us fidx pts_us seg : Z)
| Fifo (op : Aw.fifo_op).

(** A call of the demultiplexer at work: the session, [*au_k] ([None]: NULL), the
    globals [g_video_frame_count] and [g_dash_pkts], the calls so far. *)
Record demux (B D R : Type) := mk_demux {
  ses : session B D R; au_k : option Z; g_video_frame_count : Z; g_dash_pkts : Z; calls : list call;
}.
Arguments mk_demux {B D R} _ _ _ _ _.
Arguments ses {B D R} _.
Arguments au_k {B D R} _.
Arguments g_video_frame_count {B D R} _.
Arguments g_dash_pkts {B D R} _.
Arguments calls {B D R} _.

#[export] Instance eta_demux {B D R} : Eta (demux B D R) := fun x =>
  mk_demux (ses x) (au_k x) (g_video_frame_count x) (g_dash_pkts x) (calls x).

Section Demux.
Context {B D R F : Type} `{L : AvLib B D R F}.

(** [t]: the globals of the timeline that only the reader writes; [tls]: the
    timeline when the n-th call is made; [ok]: whether [realloc] succeeds. *)
Context (t : timeline) (tls : nat -> timeline) (ok : Z -> bool).

(** ** Video *)

(** A packet through the filter: what it hands out. *)
Fixpoint bsf_drain (fuel : nat) (b : B) : option (list (list Z) * B) :=
  match fuel with
  | O => None
  | S fuel =>
    match bsf_recv b with
    | None => Some ([], b)
    | Some (o, b) => '(os, b) ← bsf_drain fuel b; Some (o :: os, b)
    end
  end.

Definition bsf_feed (b : B) (p : packet) : option (list (list Z) * B) :=
  match bsf_send b p with
  | None => Some ([], b)
  | Some b => bsf_drain (S (bsf_held b)) b
  end.

(** The first time stamp of the segment, and the packet's frame in it. *)
Definition frame_index (s : session B D R) (k : option Z) (p : packet) : option Z * Z :=
  let '(first, idx) :=
    match p_pts p with
    | Some pts =>
      if decide (g_stream_fps t > 0) then
        let first := default pts (video_first_pts s) in
        let rel := pts - first in
        (Some first, if decide (rel >= 0) then i32 (av_rescale_q rel (p_tb p) (1, g_stream_fps t)) else -1)
      else (video_first_pts s, -1)
    | None => (video_first_pts s, -1)
    end in
  (first, if decide (idx < 0) then default (video_au_k s) k else idx).

#[local] Instance nonempty_dec (au : list Z) : Decision (au <> []).
Proof. apply _. Defined.

(** The units of a packet are published, from the [n]-th call on. *)
Definition publish (seg idx fidx pts : Z) (n : nat) (outs : list (list Z)) : list call :=
  imap (fun j au => Publish au (dash_au_deadline (tls (n + j)%nat) seg idx) fidx pts seg)
    (filter (fun au => au <> []) outs).

Definition video_packet (seg : Z) (b : B) (p : packet) (x : demux B D R) : option (demux B D R) :=
  let s := ses x in
  let '(first, idx) := frame_index s (au_k x) p in
  let new := bool_decide (idx <> last_frame_idx s \/ last_frame_idx s < 0) in
  let fidx := if new then g_video_frame_count x else 0 in
  let pts := if new then frame_pts t seg idx else 0 in
  '(outs, b) ← bsf_feed b p;
  Some (mk_demux
    (s <| video_first_pts := first |> <| last_frame_idx := if new then idx else last_frame_idx s |>
       <| bsfc := Some b |> <| video_au_k := video_au_k s + 1 |>)
    (Z.succ <$> au_k x)
    (if new then u32 (g_video_frame_count x + 1) else g_video_frame_count x)
    (u64 (g_dash_pkts x + 1))
    (calls x ++ publish seg idx fidx pts (length (calls x)) outs)).

(** ** Audio *)

(** [dash_audio_write_frame] *)
Definition write_frame (s : session B D R) (r : R) (f : F) : session B D R * list call :=
  let out_samples := swr_out r f + 2048 in
  let out_bytes := out_samples * 2 * 2 in
  if bool_decide (out_bytes > apcm_cap s) && negb (ok out_bytes) then (s, []) else
  let s := if decide (out_bytes > apcm_cap s) then s <| apcm_cap := out_bytes |> else s in
  let '(n, pcm, r) := swr_conv r out_samples f in
  (s <| swr := Some r |>, if decide (n > 0) then [Fifo (Aw.audio_fifo_write_raw pcm n)] else []).

(** Reading the decoder empty. *)
Fixpoint dec_drain (fuel : nat) (s : session B D R) (d : D) : option (session B D R * D * list call) :=
  match fuel with
  | O => None
  | S fuel =>
    match dec_recv d with
    | None => Some (s, d, [])
    | Some (f, d) =>
      r ← swr s;
      let '(s, cs) := write_frame s r f in
      '(s, d, more) ← dec_drain fuel s d; Some (s, d, cs ++ more)
    end
  end.

(** The packet as it is sent: retimed, without side data. *)
Definition retimed (p : packet) (pts : Z) : packet := mk_packet (p_media p) (p_tb p) (Some pts) (p_bytes p) false.

Definition audio_packet (d : D) (p : packet) (s : session B D R) : option (session B D R * list call) :=
  let p := retimed p (audio_pts s) in
  let s := s <| audio_pts := audio_pts s + 1024 |> in
  '(s, d, c1) ← match dec_send d p with
                | Some d => Some (s, d, [])
                | None =>
                  '(s, d, cs) ← dec_drain (S (dec_held d)) s d;
                  Some (s, default d (dec_send d p), cs)
                end;
  '(s, d, c2) ← dec_drain (S (dec_held d)) s d;
  Some (s <| actx := Some d |>, c1 ++ c2).

(** ** A segment *)

Definition demux_packet (seg : Z) (p : packet) (x : demux B D R) : option (demux B D R) :=
  match p_media p with
  | Video => match bsfc (ses x) with Some b => video_packet seg b p x | None => Some x end
  | Audio =>
    match actx (ses x), swr (ses x) with
    | Some d, Some _ =>
      if bool_decide (as_ (ses x) >= 0) && aframe (ses x) then
        '(s, cs) ← audio_packet d p (ses x); Some (x <| ses := s |> <| calls := calls x ++ cs |>)
      else Some x
    | _, _ => Some x
    end
  | Other => Some x
  end.

Fixpoint demux_packets (seg : Z) (ps : list packet) (x : demux B D R) : option (demux B D R) :=
  match ps with
  | [] => Some x
  | p :: ps => x ← demux_packet seg p x; demux_packets seg ps x
  end.

(** [avio_ok], [fmt_ok]: the allocations succeed. When opening fails the library
    has freed the context and cleared the pointer, and the code writes through
    it. *)
Definition dash_demux_segment (seg : Z) (bytes : list Z) (avio_ok fmt_ok : bool) (x : demux B D R)
    : option (demux B D R) :=
  if negb avio_ok then Some x else
  let x := x <| ses := (ses x) <| video_first_pts := None |> <| video_au_k := 0 |> <| last_frame_idx := -1 |> |> in
  if negb fmt_ok then Some x else
  if negb (av_open bytes) then None else
  if negb (av_probe bytes) then Some x else
  demux_packets seg (av_packets bytes) x.

(** Segments one after the other; [au_k] starts at 0 for each video segment, and
    is NULL for audio. *)
Fixpoint demux_segments (k : option Z) (segs : list (Z * list Z)) (x : demux B D R) : option (demux B D R) :=
  match segs with
  | [] => Some x
  | (seg, bytes) :: segs =>
    x ← dash_demux_segment seg bytes true true (x <| au_k := k |>); demux_segments k segs x
  end.

End Demux.

(** ** Memory is read to its end *)

Lemma read_mem_step c n : 0 <= pos c < size c -> zlen (data c) = size c -> size c < 2147483648 -> 0 < n < 2147483648 ->
  let m := Z.min n (size c - pos c) in
  exists d, slice (data c) (pos c) m = Some d /\
    read_mem_packet c n = Some (Some d, mk_mem (data c) (size c) (pos c + m)) /\ 0 < m.
Proof.
  intros Hp Hz Hs Hn m. unfold m. rewrite slice_ok by lia. eexists. split; [done|]. unfold read_mem_packet.
  rewrite decide_False by lia. rewrite (u64_small (size c - pos c)), (u64_small n) by lia.
  replace (if decide (n < size c - pos c) then n else size c - pos c) with (Z.min n (size c - pos c))
    by (case_decide; lia).
  rewrite i32_small, slice_ok by lia. cbn [mbind option_bind]. rewrite (u64_small (Z.min _ _)), u64_small by lia.
  split; [done|lia].
Qed.

(** Whatever sizes the library asks for, it gets the bytes of the segment in
    order, each once, then the end. *)
Lemma mem_io_delivers bytes sizes : zlen bytes < 2147483648 ->
  Forall (fun n => 0 < n < 2147483648) sizes -> zlen bytes <= fold_right Z.add 0 (removelast sizes) -> sizes <> [] ->
  read_all (mk_mem bytes (zlen bytes) 0) sizes = Some (bytes, true).
Proof.
  intros Hb Hs Hsum Hne.
  assert (Hgen : forall sizes p, 0 <= p <= zlen bytes -> Forall (fun n => 0 < n < 2147483648) sizes -> sizes <> [] ->
    zlen bytes - p <= fold_right Z.add 0 (removelast sizes) ->
    read_all (mk_mem bytes (zlen bytes) p) sizes = Some (drop (Z.to_nat p) bytes, true)).
  { clear sizes Hs Hsum Hne. induction sizes as [|n sizes IH]; intros p Hp Hs Hne Hsum; [done|].
    apply Forall_cons in Hs as [Hn Hs]. cbn [read_all].
    destruct (decide (p = zlen bytes)) as [->|Hlt].
    { unfold read_mem_packet. cbn [pos size]. rewrite decide_True by lia. cbn [mbind option_bind].
      rewrite drop_ge; [done|unfold zlen; lia]. }
    destruct sizes as [|n' sizes]; [cbn in Hsum; lia|].
    destruct (read_mem_step (mk_mem bytes (zlen bytes) p) n) as (d & Hd & -> & Hm); cbn [pos size data] in *; [lia..|].
    cbn [mbind option_bind]. set (m := Z.min n (zlen bytes - p)) in *.
    change (removelast (n :: n' :: sizes)) with (n :: removelast (n' :: sizes)) in Hsum. cbn [fold_right] in Hsum.
    assert (Hpos : 0 <= fold_right Z.add 0 (removelast (n' :: sizes))).
    { apply (Forall_impl _ (fun k => 0 <= k)) in Hs; [|cbn; lia]. revert Hs. generalize (n' :: sizes). clear.
      induction l as [|a [|b l] IH]; intros Hs; [done..|]. apply Forall_cons in Hs as [Ha Hs].
      change (removelast (a :: b :: l)) with (a :: removelast (b :: l)). specialize (IH Hs). cbn [fold_right]. lia. }
    rewrite (IH (p + m)); [|unfold m; lia|done|done|unfold m; lia].
    cbn [mbind option_bind]. rewrite slice_ok in Hd by (unfold m; lia). injection Hd as <-.
    rewrite Z2Nat.inj_add, <- drop_drop, take_drop by lia. done. }
  pose proof (zlen_nonneg bytes). by rewrite (Hgen sizes 0) by (done || lia).
Qed.

(** ** Frames and their identity *)

Section Frames.
Context {B D R F : Type} `{L : AvLib B D R F} `{W : !AvLaws B D R F}.
Context (t : timeline) (tls : nat -> timeline) (ok : Z -> bool).

(** Video packets with the time stamps of consecutive frames, of exactly one
    frame period each. *)
Definition video_from (fps first n d step i : Z) (ps : list packet) : Prop :=
  forall j p, ps !! j = Some p ->
    p_media p = Video /\ p_tb p = (n, d) /\ p_pts p = Some (first + (i + Z.of_nat j) * step).

Definition video_track (fps : Z) (ps : list packet) : Prop :=
  exists first n d step, 0 < d /\ 0 <= step /\ step * n * fps = d /\ video_from fps first n d step 0 ps.

(** What the filter makes of the packets, one after the other. *)
Fixpoint feed_all (b : B) (ps : list packet) : option (list (list (list Z)) * B) :=
  match ps with
  | [] => Some ([], b)
  | p :: ps => '(os, b) ← bsf_feed b p; '(outs, b) ← feed_all b ps; Some (os :: outs, b)
  end.

(** The units with the number of their frame, counted from [i]. *)
Fixpoint frames_of (i : Z) (outs : list (list (list Z))) : list (Z * list Z) :=
  match outs with
  | [] => []
  | os :: outs => (pair i <$> filter (fun au => au <> []) os) ++ frames_of (i + 1) outs
  end.

(** The calls for units of a segment: [g] is the number of its frame 0. *)
Definition frame_calls (seg g : Z) (n : nat) (fs : list (Z * list Z)) : list call :=
  imap (fun j f => Publish (snd f) (dash_au_deadline (tls (n + j)%nat) seg (fst f)) (u32 (g + fst f))
                     (frame_pts t seg (fst f)) seg) fs.

Lemma frame_calls_app seg g n a b :
  frame_calls seg g n (a ++ b) = frame_calls seg g n a ++ frame_calls seg g (n + length a) b.
Proof.
  unfold frame_calls. rewrite imap_app. f_equal. apply imap_ext. intros j f _. cbn. do 3 f_equal. lia.
Qed.

Lemma bsf_drain_total fuel : forall b, (bsf_held b < fuel)%nat -> exists r, bsf_drain fuel b = Some r.
Proof.
  induction fuel as [|fuel IH]; intros b Hb; [lia|]. cbn [bsf_drain].
  destruct (bsf_recv b) as [[o b']|] eqn:E; [|by eexists].
  pose proof (bsf_recv_held _ _ _ E). destruct (IH b' ltac:(lia)) as [[os b2] ->]. by eexists.
Qed.

Lemma bsf_feed_total b p : exists r, bsf_feed b p = Some r.
Proof. unfold bsf_feed. destruct (bsf_send b p); [apply bsf_drain_total; lia|by eexists]. Qed.

(** One packet of a track. *)
Lemma video_packet_step seg b p x first n d step i :
  g_stream_fps t > 0 -> 0 < d -> 0 <= step -> step * n * g_stream_fps t = d -> 0 <= i < 2147483648 ->
  p_tb p = (n, d) -> p_pts p = Some (first + i * step) -> last_frame_idx (ses x) = i - 1 ->
  video_first_pts (ses x) = (if decide (i = 0) then None else Some first) ->
  exists outs b', bsf_feed b p = Some (outs, b') /\
    video_packet t tls seg b p x = Some (mk_demux
      ((ses x) <| video_first_pts := Some first |> <| last_frame_idx := i |>
               <| bsfc := Some b' |> <| video_au_k := video_au_k (ses x) + 1 |>)
      (Z.succ <$> au_k x) (u32 (g_video_frame_count x + 1)) (u64 (g_dash_pkts x + 1))
      (calls x ++ publish tls seg i (g_video_frame_count x) (frame_pts t seg i) (length (calls x)) outs)).
Proof.
  intros Hf Hd Hs Hsn Hi Htb Hp Hl Hfi. destruct (bsf_feed_total b p) as [[outs b'] E].
  exists outs, b'. split; [done|]. unfold video_packet, frame_index.
  assert (Hdef : default (first + i * step) (video_first_pts (ses x)) = first).
  { rewrite Hfi. case_decide as Hz; [|done]. rewrite Hz. cbn. lia. }
  rewrite Hp, (decide_True (P := g_stream_fps t > 0)) by done. rewrite Hdef.
  replace (first + i * step - first) with (i * step) by lia. rewrite (decide_True (P := i * step >= 0)) by nia.
  rewrite Htb, (rescale_exact _ _ _ _ _ i), i32_small by nia. rewrite (decide_False (P := i < 0)) by lia.
  rewrite (bool_decide_eq_true_2 (i <> _ \/ _)) by lia. rewrite E. reflexivity.
Qed.

Lemma publish_frame_calls seg i g n outs : 0 <= g < 4294967296 ->
  publish tls seg i g (frame_pts t seg i) n outs
  = frame_calls seg (g - i) n (pair i <$> filter (fun au => au <> []) outs).
Proof.
  intros Hg. unfold publish, frame_calls. rewrite imap_fmap. apply imap_ext. intros j au _. cbn.
  rewrite u32_small by lia. f_equal. lia.
Qed.

Lemma video_run seg first n d step : g_stream_fps t > 0 -> 0 < d -> 0 <= step -> step * n * g_stream_fps t = d ->
  forall ps i x b, video_from (g_stream_fps t) first n d step i ps -> 0 <= i -> i + zlen ps < 2147483648 ->
  0 <= g_video_frame_count x < 4294967296 ->
  last_frame_idx (ses x) = i - 1 -> video_first_pts (ses x) = (if decide (i = 0) then None else Some first) ->
  bsfc (ses x) = Some b ->
  exists x' outs b', demux_packets t tls ok seg ps x = Some x' /\ feed_all b ps = Some (outs, b') /\
    bsfc (ses x') = Some b' /\ g_video_frame_count x' = u32 (g_video_frame_count x + zlen ps) /\
    calls x' = calls x ++ frame_calls seg (g_video_frame_count x - i) (length (calls x)) (frames_of i outs).
Proof.
  intros Hf Hd Hs Hsn. induction ps as [|p ps IH]; intros i x b Hv Hi Hlen Hg Hl Hfi Hb.
  { exists x, [], b. cbn. rewrite app_nil_r, zlen_nil, Z.add_0_r, u32_small by lia. done. }
  pose proof (zlen_nonneg ps). rewrite zlen_cons in Hlen |- *.
  destruct (Hv O p eq_refl) as (Hm & Htb & Hp). rewrite Z.add_0_r in Hp.
  destruct (video_packet_step seg b p x first n d step i) as (outs & b1 & Eb & Ev); try (done || lia).
  cbn [demux_packets demux_packet feed_all]. unfold demux_packet. rewrite Hm, Hb, Ev, Eb. cbn [mbind option_bind].
  match goal with |- context [demux_packets _ _ _ _ _ ?y] => set (x1 := y) end.
  destruct (IH (i + 1) x1 b1) as (x' & outs' & b' & -> & -> & Hb' & Hg' & Hc'); try lia.
  - intros j q Hq. destruct (Hv (S j) q Hq) as (? & ? & Hq'). split_and!; [done|done|]. rewrite Hq'. f_equal. lia.
  - subst x1. cbn [g_video_frame_count]. apply u32_range.
  - subst x1. cbn. lia.
  - subst x1. cbn. by rewrite decide_False by lia.
  - done.
  - exists x', (outs :: outs'), b'. cbn [mbind option_bind]. split_and!; [done..| |].
    + rewrite Hg'. subst x1. cbn [g_video_frame_count]. wrap_lia.
    + rewrite Hc'. subst x1. cbn [calls g_video_frame_count frames_of].
      rewrite publish_frame_calls by lia. rewrite frame_calls_app, app_assoc. f_equal.
      rewrite length_app, length_fmap. unfold frame_calls at 1 2.
      rewrite length_imap, length_fmap. apply imap_ext. intros j f _. cbn. f_equal.
      wrap_lia.
Qed.

(** The frames of a stream of segments: segment, frame in it, number in the
    stream, unit. *)
Fixpoint stream_calls (b : B) (g : Z) (n : nat) (segs : list (Z * list Z)) : option (list call * B) :=
  match segs with
  | [] => Some ([], b)
  | (seg, bytes) :: segs =>
    '(outs, b) ← feed_all b (av_packets bytes);
    let cs := frame_calls seg g n (frames_of 0 outs) in
    '(rest, b) ← stream_calls b (u32 (g + zlen (av_packets bytes))) (n + length cs) segs;
    Some (cs ++ rest, b)
  end.

(** C16. Frames keep their identity. On segments that can be opened and whose packets
    are consecutive frames, every unit that the filter hands out - as many as it
    makes of a packet - is published once, in order, with its frame's number in
    the whole stream, its time stamp, its segment and the deadline of its place in
    the segment; the numbers go on from one segment to the next. *)
Theorem frames_identified segs : forall x b,
  g_stream_fps t > 0 -> bsfc (ses x) = Some b -> 0 <= g_video_frame_count x < 4294967296 ->
  Forall (fun sg => av_open (snd sg) = true /\ av_probe (snd sg) = true /\
                    video_track (g_stream_fps t) (av_packets (snd sg)) /\
                    zlen (av_packets (snd sg)) < 2147483648) segs ->
  exists x' b' cs, demux_segments t tls ok (Some 0) segs x = Some x' /\
    stream_calls b (g_video_frame_count x) (length (calls x)) segs = Some (cs, b') /\
    calls x' = calls x ++ cs /\ bsfc (ses x') = Some b'.
Proof.
  induction segs as [|[seg bytes] segs IH]; intros x b Hf Hb Hg Hs.
  { exists x, b, []. by rewrite app_nil_r. }
  apply Forall_cons in Hs as [(Ho & Hp & (first & n & d & step & Hd & Hst & Hsn & Hv) & Hlen) Hs].
  cbn [snd] in *. cbn [demux_segments stream_calls]. unfold dash_demux_segment. rewrite Ho, Hp. cbn [negb].
  match goal with |- context [demux_packets _ _ _ _ _ ?y] => set (x0 := y) end.
  destruct (video_run seg first n d step Hf Hd Hst Hsn (av_packets bytes) 0 x0 b) as (x1 & outs & b1 & -> & -> & Hb1 & Hg1 & Hc1);
    [done|lia|lia|done|done|done|done|].
  cbn [mbind option_bind]. change (g_video_frame_count x0) with (g_video_frame_count x) in *.
  change (calls x0) with (calls x) in *. rewrite Z.sub_0_r in Hc1.
  destruct (IH x1 b1 Hf Hb1) as (x' & b' & cs & -> & Hsc & Hc & Hb'); [rewrite Hg1; apply u32_range|done|].
  rewrite Hg1, Hc1, length_app in Hsc. cbn [mbind option_bind]. rewrite Hsc. cbn [mbind option_bind].
  eexists x', b', _. split_and!; [done|done| |done]. by rewrite Hc, Hc1, app_assoc.
Qed.

End Frames.

(** ** Sound without a gap *)

Section Sound.
Context {B D R F : Type} `{L : AvLib B D R F} `{W : !AvLaws B D R F}.
Context (t : timeline) (tls : nat -> timeline) (ok : Z -> bool) (Hok : forall n, ok n = true).

(** The frames resampled, one after the other. *)
Fixpoint sound_calls (r : R) (fs : list F) : list call * R :=
  match fs with
  | [] => ([], r)
  | f :: fs =>
    let '(n, pcm, r) := swr_conv r (swr_out r f + 2048) f in
    let '(cs, r) := sound_calls r fs in
    ((if decide (n > 0) then [Fifo (Aw.audio_fifo_write_raw pcm n)] else []) ++ cs, r)
  end.

Lemma sound_calls_app fs gs : forall r,
  sound_calls r (fs ++ gs) =
  let '(a, r) := sound_calls r fs in let '(b, r) := sound_calls r gs in (a ++ b, r).
Proof.
  induction fs as [|f fs IH]; intros r; cbn [app sound_calls]; [by destruct (sound_calls r gs)|].
  destruct (swr_conv _ _ _) as [[n pcm] r1]. rewrite IH. destruct (sound_calls r1 fs) as [a r2].
  destruct (sound_calls r2 gs) as [b r3]. by rewrite app_assoc.
Qed.

(** What decoding leaves of a session. *)
Definition resampled (s : session B D R) (r : R) (c : Z) : session B D R := s <| swr := Some r |> <| apcm_cap := c |>.

Lemma write_frame_spec s r f : let '(cs, r') := sound_calls r [f] in
  exists c, write_frame ok s r f = (resampled s r' c, cs).
Proof.
  unfold write_frame. cbn [sound_calls]. rewrite Hok, andb_false_r.
  destruct (swr_conv _ _ _) as [[n pcm] r']. rewrite app_nil_r.
  case_decide; [by eexists|]. exists (apcm_cap s). by destruct s.
Qed.

Lemma dec_drain_spec fuel : forall s d r, (dec_held d < fuel)%nat -> swr s = Some r ->
  exists c d' fs, let '(cs, r') := sound_calls r fs in
    dec_drain ok fuel s d = Some (resampled s r' c, d', cs) /\
    dec_recv d' = None /\ sent d' = sent d /\ got d' = got d ++ fs.
Proof.
  induction fuel as [|fuel IH]; intros s d r Hf Hs; [lia|]. cbn [dec_drain].
  destruct (dec_recv d) as [[f d1]|] eqn:E.
  2: { exists (apcm_cap s), d, []. cbn. rewrite app_nil_r. split_and!; [|done..]. unfold resampled.
       do 3 f_equal. destruct s. cbn in *. by subst. }
  pose proof (dec_recv_held _ _ _ E). destruct (dec_recv_log _ _ _ E) as [Hs1 Hg1].
  rewrite Hs. cbn [mbind option_bind]. pose proof (write_frame_spec s r f) as Hw.
  destruct (sound_calls r [f]) as [cs1 r1] eqn:E1. destruct Hw as [c1 ->].
  destruct (IH (resampled s r1 c1) d1 r1 ltac:(lia) eq_refl) as (c & d' & fs & H1).
  destruct (sound_calls r1 fs) as [cs r'] eqn:E2. destruct H1 as (-> & Hn & Hs2 & Hg2).
  exists c, d', (f :: fs). change (f :: fs) with ([f] ++ fs). rewrite sound_calls_app, E1, E2. cbn [mbind option_bind].
  split_and!; [done|done|congruence|]. by rewrite Hg2, Hg1, <- app_assoc.
Qed.

(** Every packet is accepted, if not at once then after the decoder was read
    empty. *)
Lemma audio_packet_spec d p s r : swr s = Some r -> intact (retimed p (audio_pts s)) ->
  exists c d' fs, let '(cs, r') := sound_calls r fs in
    audio_packet ok d p s
    = Some ((resampled (s <| audio_pts := audio_pts s + 1024 |>) r' c) <| actx := Some d' |>, cs) /\
    dec_recv d' = None /\ sent d' = sent d ++ [retimed p (audio_pts s)] /\ got d' = got d ++ fs.
Proof.
  intros Hs Hp. unfold audio_packet. set (s0 := s <| audio_pts := _ |>).
  assert (Hs0 : swr s0 = Some r) by done.
  destruct (dec_send d (retimed p (audio_pts s))) as [d1|] eqn:E.
  - destruct (dec_send_log _ _ _ E) as [Hl1 Hg1]. cbn [mbind option_bind].
    destruct (dec_drain_spec (S (dec_held d1)) s0 d1 r ltac:(lia) Hs0) as (c & d' & fs & H1).
    exists c, d', fs. destruct (sound_calls r fs) as [cs r']. destruct H1 as (-> & Hn & Hl & Hg).
    cbn [mbind option_bind app]. by rewrite Hl, Hl1, Hg, Hg1.
  - destruct (dec_drain_spec (S (dec_held d)) s0 d r ltac:(lia) Hs0) as (c1 & d1 & fs1 & H1).
    destruct (sound_calls r fs1) as [cs1 r1] eqn:E1. destruct H1 as (-> & Hn1 & Hl1 & Hg1).
    cbn [mbind option_bind]. destruct (dec_send_drained d1 _ Hn1 Hp) as [d2 E2]. rewrite E2. cbn [default].
    destruct (dec_send_log _ _ _ E2) as [Hl2 Hg2].
    destruct (dec_drain_spec (S (dec_held d2)) (resampled s0 r1 c1) d2 r1 ltac:(lia) eq_refl) as (c & d' & fs2 & H2).
    destruct (sound_calls r1 fs2) as [cs2 r2] eqn:E3. destruct H2 as (H2 & Hn & Hl & Hg).
    unfold from_option, id. rewrite H2. exists c, d', (fs1 ++ fs2).
    rewrite sound_calls_app, E1, E3. cbn [mbind option_bind].
    split_and!; [done|done|congruence|]. by rewrite Hg, Hg2, Hg1, app_assoc.
Qed.

(** The packets as the decoder gets them. *)
Definition retimed_from (pts : Z) (ps : list packet) : list packet :=
  imap (fun i p => retimed p (pts + 1024 * Z.of_nat i)) ps.

Lemma retimed_from_app pts a b :
  retimed_from pts (a ++ b) = retimed_from pts a ++ retimed_from (pts + 1024 * zlen a) b.
Proof.
  unfold retimed_from. rewrite imap_app. f_equal. apply imap_ext. intros i p _. cbn. f_equal. unfold zlen. lia.
Qed.

(** A session that plays sound. *)
Definition sounding (x : demux B D R) (d : D) (r : R) : Prop :=
  actx (ses x) = Some d /\ swr (ses x) = Some r /\ as_ (ses x) >= 0 /\ aframe (ses x) = true.

(** What a run of the demultiplexer adds: the packets accepted, the frames they
    gave, the sound written. *)
Definition played (x x' : demux B D R) (d : D) (r : R) (ps : list packet) : Prop :=
  exists d' r' fs cs, sounding x' d' r' /\ sound_calls r fs = (cs, r') /\
    audio_pts (ses x') = audio_pts (ses x) + 1024 * zlen ps /\
    sent d' = sent d ++ retimed_from (audio_pts (ses x)) ps /\ got d' = got d ++ fs /\
    calls x' = calls x ++ cs /\ ((ps = [] /\ d' = d) \/ dec_recv d' = None).

Lemma played_trans x y z d r ps qs : played x y d r ps ->
  (forall d' r', sounding y d' r' -> played y z d' r' qs) -> played x z d r (ps ++ qs).
Proof.
  intros (d1 & r1 & fs1 & cs1 & S1 & C1 & P1 & L1 & G1 & K1 & N1) H2.
  destruct (H2 d1 r1 S1) as (d2 & r2 & fs2 & cs2 & S2 & C2 & P2 & L2 & G2 & K2 & N2).
  exists d2, r2, (fs1 ++ fs2), (cs1 ++ cs2). rewrite sound_calls_app, C1, C2. split; [done|]. split; [done|].
  rewrite P2, P1, zlen_app, L2, L1, G2, G1, K2, K1, retimed_from_app, P1, !app_assoc.
  split_and!; [lia|done|done|done|]. destruct N2 as [[-> ->]|N2]; [|by right]. by rewrite app_nil_r.
Qed.

Lemma packets_played seg ps : forall x d r, sounding x d r ->
  Forall (fun p => p_media p = Audio /\ forall pts, intact (retimed p pts)) ps ->
  exists x', demux_packets t tls ok seg ps x = Some x' /\ played x x' d r ps.
Proof.
  induction ps as [|p ps IH]; intros x d r Hx Hps.
  { exists x. split; [done|]. exists d, r, [], []. cbn. rewrite !app_nil_r.
    split_and!; try done; [unfold zlen; cbn; lia|by left]. }
  apply Forall_cons in Hps as [[Hm Hp] Hps]. destruct Hx as (Ha & Hr & Has & Hfr).
  cbn [demux_packets]. unfold demux_packet. rewrite Hm, Ha, Hr, (bool_decide_eq_true_2 _ Has), Hfr. cbn [andb].
  destruct (audio_packet_spec d p (ses x) r Hr (Hp _)) as (c & d' & fs & H1).
  destruct (sound_calls r fs) as [cs r'] eqn:E. destruct H1 as (-> & Hn & Hl & Hg). cbn [mbind option_bind].
  match goal with |- context [demux_packets _ _ _ _ _ ?y] => set (x1 := y) end.
  assert (H1 : played x x1 d r [p]).
  { exists d', r', fs, cs. split; [done|]. split; [done|]. cbn. rewrite Hl, Hg. unfold retimed_from. cbn.
    rewrite Z.add_0_r. split_and!; try done. by right. }
  destruct (IH x1 d' r') as (x' & -> & H2); [done|done|]. exists x'. split; [done|].
  change (p :: ps) with ([p] ++ ps). eapply played_trans; [exact H1|]. intros d2 r2 Hs2.
  assert (d2 = d' /\ r2 = r') as [-> ->]; [|exact H2].
  destruct Hs2 as (H3 & H4 & _). cbn in H3, H4. by simplify_eq.
Qed.

(** The two kinds of packets leave each other's part of the session alone. *)
Lemma video_keeps seg ps : forall x x', Forall (fun p => p_media p = Video) ps ->
  demux_packets t tls ok seg ps x = Some x' ->
  actx (ses x') = actx (ses x) /\ swr (ses x') = swr (ses x) /\ as_ (ses x') = as_ (ses x) /\
  aframe (ses x') = aframe (ses x) /\ audio_pts (ses x') = audio_pts (ses x).
Proof.
  induction ps as [|p ps IH]; intros x x' Hps H; cbn in H; [by injection H as <-|].
  apply Forall_cons in Hps as [Hm Hps]. unfold demux_packet in H. rewrite Hm in H.
  destruct (bsfc (ses x)) as [b|]; [|exact (IH x x' Hps H)]. unfold video_packet in H.
  destruct (frame_index t (ses x) (au_k x) p) as [first idx]. destruct (bsf_feed b p) as [[outs b']|]; [|done].
  cbn [mbind option_bind] in H. destruct (IH _ x' Hps H) as (-> & -> & -> & -> & ->). done.
Qed.

Lemma write_frame_keeps s r f : bsfc (write_frame ok s r f).1 = bsfc s.
Proof.
  unfold write_frame. cbv zeta. destruct (_ && _); [done|].
  destruct (swr_conv r _ f) as [[n pcm] r']. by case_decide.
Qed.

Lemma dec_drain_keeps fuel : forall s d s' d' cs, dec_drain ok fuel s d = Some (s', d', cs) -> bsfc s' = bsfc s.
Proof.
  induction fuel as [|fuel IH]; intros s d s' d' cs H; [done|]. cbn [dec_drain] in H.
  destruct (dec_recv d) as [[f d1]|]; [|by injection H as <- _ _].
  destruct (swr s) as [r|]; [|done]. cbn [mbind option_bind] in H.
  pose proof (write_frame_keeps s r f) as Hw. destruct (write_frame ok s r f) as [s1 cs1].
  destruct (dec_drain ok fuel s1 d1) as [[[s2 d2] cs2]|] eqn:E; [|done]. injection H as <- _ _.
  rewrite (IH _ _ _ _ _ E). exact Hw.
Qed.

Lemma audio_keeps seg ps : forall x x', Forall (fun p => p_media p = Audio) ps ->
  demux_packets t tls ok seg ps x = Some x' ->
  bsfc (ses x') = bsfc (ses x) /\ g_video_frame_count x' = g_video_frame_count x.
Proof.
  induction ps as [|p ps IH]; intros x x' Hps H; cbn [demux_packets] in H; [by injection H as <-|].
  apply Forall_cons in Hps as [Hm Hps]. unfold demux_packet in H. rewrite Hm in H.
  destruct (actx (ses x)) as [d|], (swr (ses x)); try exact (IH x x' Hps H).
  destruct (_ && _); [|exact (IH x x' Hps H)].
  destruct (audio_packet ok d p (ses x)) as [[s cs]|] eqn:E; [|done]. cbn [mbind option_bind] in H.
  destruct (IH _ x' Hps H) as [-> ->]. split; [|done]. unfold audio_packet in E. cbv zeta in E.
  match type of E with (?o ≫= _ = _) => destruct o as [[[s1 d1] c1]|] eqn:E1; [|done] end. cbn [mbind option_bind] in E.
  destruct (dec_drain ok _ s1 d1) as [[[s2 d2] c2]|] eqn:E2; [|done]. injection E as <- _.
  cbn. rewrite (dec_drain_keeps _ _ _ _ _ _ E2).
  destruct (dec_send d _) as [d3|]; [by injection E1 as <- _ _|].
  destruct (dec_drain ok _ _ d) as [[[s3 d3] c3]|] eqn:E3; [|done]. injection E1 as <- _ _.
  exact (dec_drain_keeps _ _ _ _ _ _ E3).
Qed.

(** C17. No sound is lost between segments. On audio segments of any number that can be
    opened, while the output buffer can be enlarged, with a decoder that only refuses a packet while it has frames to hand
    out: every packet is accepted, once, in order, with time stamps that go on
    across the segments; every frame the decoder hands out is resampled by the one
    resampler and written to the FIFO, in order; and the decoder is read empty at
    the end. *)
Theorem audio_lossless segs : forall x d r, sounding x d r ->
  Forall (fun sg => av_open (snd sg) = true /\ av_probe (snd sg) = true /\
                    Forall (fun p => p_media p = Audio /\ forall pts, intact (retimed p pts)) (av_packets (snd sg))) segs ->
  exists x', demux_segments t tls ok None segs x = Some x' /\ played x x' d r (concat ((av_packets ∘ snd) <$> segs)).
Proof.
  induction segs as [|[seg bytes] segs IH]; intros x d r Hx Hs.
  { exists x. split; [done|]. exists d, r, [], []. cbn. rewrite !app_nil_r.
    split_and!; try done; [unfold zlen; cbn; lia|by left]. }
  apply Forall_cons in Hs as [(Ho & Hp & Hps) Hs]. cbn [snd] in *.
  cbn [demux_segments]. unfold dash_demux_segment. rewrite Ho, Hp. cbn [negb].
  match goal with |- context [demux_packets _ _ _ _ _ ?y] => set (x0 := y) end.
  destruct (packets_played seg (av_packets bytes) x0 d r Hx Hps) as (x1 & -> & H1). cbn [mbind option_bind].
  pose proof H1 as (d1 & r1 & _ & _ & Hx1 & _). destruct (IH x1 d1 r1 Hx1 Hs) as (x' & -> & H2).
  exists x'. split; [done|]. cbn [fmap list_fmap concat compose snd].
  eapply played_trans; [exact H1|]. intros d2 r2 Hs2.
  assert (d2 = d1 /\ r2 = r1) as [-> ->]; [|exact H2].
  destruct Hs2 as (H3 & H4 & _), Hx1 as (H5 & H6 & _). rewrite H3 in H5. rewrite H4 in H6. by simplify_eq.
Qed.

End Sound.

(** ** A small library *)

(** A filter that hands out each packet in two units; a decoder that holds one
    packet and makes a frame of it, with its history; a resampler that makes one
    sample of a frame; segments whose first byte tells what follows: 0 frames, 1
    sound, 2 packets that all belong to one frame. *)
Record toy_decoder := mk_toy { held : list packet; accepted : list packet; handed : list Z }.

Definition toy_recv (d : toy_decoder) : option (Z * toy_decoder) :=
  match held d with
  | [] => None
  | p :: q => let f := default 0 (p_pts p) in Some (f, mk_toy q (accepted d) (handed d ++ [f]))
  end.

Definition toy_packets (bytes : list Z) : list packet :=
  match bytes with
  | [] => []
  | k :: bs =>
    imap (fun i b => mk_packet (if decide (k = 1) then Audio else Video) (1, 3000)
                       (Some (500 + (if decide (k = 2) then 0 else 100 * Z.of_nat i))) [b; b] true) bs
  end.

#[export] Instance toy : AvLib (list (list Z)) toy_decoder Z Z := {
  bsf_send b p := Some (b ++ [take 1 (p_bytes p); drop 1 (p_bytes p)]);
  bsf_recv b := match b with [] => None | u :: b => Some (u, b) end;
  bsf_held := length;
  dec_send d p := match held d with
                  | [] => Some (mk_toy [p] (accepted d ++ [p]) (handed d))
                  | _ => None
                  end;
  dec_recv := toy_recv;
  dec_held d := length (held d);
  swr_out r f := 1;
  swr_conv r n f := (1, [f mod 256; 0; f mod 256; 0], r + 1);
  av_rescale_q a bq cq := a * bq.1 * cq.2 / (bq.2 * cq.1);
  av_open bytes := bool_decide (bytes <> []);
  av_probe bytes := true;
  av_packets := toy_packets;
}.

#[export] Instance toy_laws : AvLaws (list (list Z)) toy_decoder Z Z.
Proof.
  refine {| sent := accepted; got := handed; intact := fun _ => True |}.
  - intros [|u b] o b' H; [done|]. cbn in *. injection H as _ <-. lia.
  - intros d f d' H. cbn in *. unfold toy_recv in H. destruct (held d); [done|]. injection H as _ <-. cbn. lia.
  - intros d p d' H. cbn in H. destruct (held d); [|done]. by injection H as <-.
  - intros d f d' H. cbn in H. unfold toy_recv in H. destruct (held d); [done|]. by injection H as <- <-.
  - intros d p H _. cbn in *. unfold toy_recv in H. destruct (held d); [by eexists|done].
  - intros a n d m e q Hd Hm H. cbn. rewrite H. apply Z.div_mul. lia.
Defined.

Definition demo_timeline : timeline := mk_timeline 30 1000000 5000000 4 0 85000 0 0 0 0 false 0 0 0.

Definition demo_session (d : toy_decoder) : session (list (list Z)) toy_decoder Z :=
  mk_session (Some []) 1 (Some d) (Some 0) true 0 0 None 0 (-1).

Definition demo_demux : demux (list (list Z)) toy_decoder Z :=
  mk_demux (demo_session (mk_toy [] [] [])) None 10 0 [].

Lemma frames_identified_witness :
  exists x', demux_segments demo_timeline (fun _ => demo_timeline) (fun _ => true) (Some 0)
               [(4, [0; 7; 8]); (5, [0; 9])] demo_demux = Some x' /\
    calls x' = [Publish [7] 5085000 10 3000000 4; Publish [7] 5085000 10 3000000 4;
                Publish [8] 5118333 11 3033333 4; Publish [8] 5118333 11 3033333 4;
                Publish [9] 6085000 12 4000000 5; Publish [9] 6085000 12 4000000 5].
Proof.
  destruct (frames_identified demo_timeline (fun _ => demo_timeline) (fun _ => true)
              [(4, [0; 7; 8]); (5, [0; 9])] demo_demux []) as (x' & b' & cs & E & Hs & Hc & _);
    [reflexivity|reflexivity|cbn; lia| |].
  - repeat constructor; try (vm_compute; done);
      exists 500, 1, 3000, 100; (split_and!; [lia|lia|reflexivity|]);
      intros [|[|j]] p [= <-]; split_and!; reflexivity.
  - exists x'. split; [exact E|]. rewrite Hc. vm_compute in Hs. by injection Hs as <- _.
Defined.

Lemma audio_lossless_witness :
  let d := mk_toy [mk_packet Audio (1, 3000) (Some 9) [] false] [] [] in
  let x := mk_demux (demo_session d) None 0 0 [] in
  exists x', demux_segments demo_timeline (fun _ => demo_timeline) (fun _ => true) None
               [(4, [1; 7; 8]); (5, [1; 9])] x = Some x' /\
    played x x' d 0 (concat ((av_packets ∘ snd) <$> [(4, [1; 7; 8]); (5, [1; 9])])) /\
    ((fun y => accepted y) <$> actx (ses x'))
      = Some [mk_packet Audio (1, 3000) (Some 0) [7; 7] false; mk_packet Audio (1, 3000) (Some 1024) [8; 8] false;
              mk_packet Audio (1, 3000) (Some 2048) [9; 9] false].
Proof.
  intros d x. destruct (audio_lossless demo_timeline (fun _ => demo_timeline) (fun _ => true) (fun _ => eq_refl)
              [(4, [1; 7; 8]); (5, [1; 9])] x d 0) as (x' & E & Hp).
  - by split_and!.
  - repeat constructor; vm_compute; done.
  - exists x'. split; [exact E|]. split; [exact Hp|]. vm_compute in E. by injection E as <-.
Defined.

(** A second packet of the same frame gets number 0 and time stamp 0. *)
Example second_packet_loses_identity :
  calls <$> demux_segments demo_timeline (fun _ => demo_timeline) (fun _ => true) (Some 0) [(4, [2; 7; 8])] demo_demux
  = Some [Publish [7] 5085000 10 3000000 4; Publish [7] 5085000 10 3000000 4;
          Publish [8] 5085000 0 0 4; Publish [8] 5085000 0 0 4].
Proof. vm_compute. reflexivity. Qed.

(** A segment that cannot be opened - an error page, say - is a write through the
    null pointer. *)
Example unreadable_segment_faults :
  dash_demux_segment demo_timeline (fun _ => demo_timeline) (fun _ => true) 4 [] true true demo_demux = None.
Proof. reflexivity. Qed.

End Demux.
