(* ===== verification/DashPath.v ===== *)
(** * From the server to the decoders ([apps/thinclient/main.c])

    The reader's rounds with the demultiplexer behind them, as
    [dash_reader_direct] runs them: every segment a round hands on is
    demultiplexed at once, on the timeline of its place. What is published and
    what is written to the FIFO over a whole live session. *)

From S2P Require Import Prelude AvSync AudioWorker Reader Demux.

#[local] Open Scope Z_scope.

Module Path.
Import AvSync Reader Demux.
#[local] Existing Instances AvSync.eta_timeline Reader.eta_reader Demux.eta_session Demux.eta_demux.

Section Dash.
Context {B D R F : Type} `{L : AvLib B D R F}.
Context (tls : nat -> timeline) (ok : Z -> bool).

(** ** The rounds *)

(** [ta] is the timeline before the round's frame rate is known, where the sound is
    demultiplexed; of [t] only what a round keeps is read. *)
Definition demux_event (ta t : timeline) (e : Reader.event) (x : demux B D R) : option (demux B D R) :=
  match e with
  | EVideo n data => dash_demux_segment t tls ok n data true true (x <| au_k := Some 0 |>)
  | EAudio n data => dash_demux_segment ta tls ok n data true true (x <| au_k := None |>)
  | Reader.EFlush | ERestart => Some (x <| calls := calls x ++ [Fifo Aw.FReset] |>)
  | EResync _ _ => Some x
  end.

Fixpoint demux_events (ta t : timeline) (es : list Reader.event) (x : demux B D R) : option (demux B D R) :=
  match es with
  | [] => Some x
  | e :: es => x ← demux_event ta t e x; demux_events ta t es x
  end.

Definition dash_round (r : reader) (x : demux B D R) (i : round_in) : option (reader * demux B D R) :=
  let '(r', es) := reader_round r i in
  x ← demux_events (others i (tl r)) (tl r') es x; Some (r', x).

Fixpoint dash_rounds (r : reader) (x : demux B D R) (ins : list round_in) : option (reader * demux B D R) :=
  match ins with
  | [] => Some (r, x)
  | i :: ins =>
    '(r, x) ← dash_round r x i;
    if g_eos_reached r then Some (r, x) else dash_rounds r x ins
  end.

(** ** What comes out *)

(** The units published, with the number of their frame, its time stamp and its
    segment; what is done to the FIFO. *)
Definition units (cs : list call) : list (list Z * Z * Z * Z) :=
  omap (fun c => match c with Publish au _ f pts seg => Some (au, f, pts, seg) | Fifo _ => None end) cs.
Definition sound (cs : list call) : list Aw.fifo_op :=
  omap (fun c => match c with Fifo o => Some o | Publish _ _ _ _ _ => None end) cs.

(** The units of a stream of segments through the filter [b], frame 0 of the first
    being number [g] of the stream. *)
Fixpoint stream_units (t : timeline) (b : B) (g : Z) (segs : list (Z * list Z))
    : option (list (list Z * Z * Z * Z) * B * Z) :=
  match segs with
  | [] => Some ([], b, g)
  | (seg, bytes) :: segs =>
    '(outs, b) ← feed_all b (av_packets bytes);
    '(us, b, g') ← stream_units t b (u32 (g + zlen (av_packets bytes))) segs;
    Some (((fun f => (snd f, u32 (g + fst f), frame_pts t seg (fst f), seg)) <$> frames_of 0 outs) ++ us, b, g')
  end.

Lemma stream_units_app t segs segs' : forall b g,
  stream_units t b g (segs ++ segs') =
  ('(us, b, g) ← stream_units t b g segs; '(us', b, g) ← stream_units t b g segs'; Some (us ++ us', b, g)).
Proof.
  induction segs as [|[seg bytes] segs IH]; intros b g; cbn [app stream_units mbind option_bind].
  { by destruct (stream_units t b g segs') as [[[? ?] ?]|]. }
  destruct (feed_all b (av_packets bytes)) as [[outs b1]|]; cbn [mbind option_bind]; [|done]. rewrite IH.
  destruct (stream_units t b1 _ segs) as [[[us b2] g2]|]; cbn [mbind option_bind]; [|done].
  destruct (stream_units t b2 g2 segs') as [[[us' b3] g3]|]; cbn [mbind option_bind]; [|done].
  by rewrite app_assoc.
Qed.

Lemma stream_units_ext t t' segs : g_stream_fps t = g_stream_fps t' -> g_seg_duration_us t = g_seg_duration_us t' ->
  forall b g, stream_units t b g segs = stream_units t' b g segs.
Proof.
  intros Hf Hd. induction segs as [|[seg bytes] segs IH]; intros b g; cbn [stream_units]; [done|].
  destruct (feed_all b (av_packets bytes)) as [[outs b1]|]; cbn [mbind option_bind]; [|done]. rewrite IH.
  unfold frame_pts. by rewrite Hf, Hd.
Qed.

Lemma units_app a b : units (a ++ b) = units a ++ units b.
Proof. apply omap_app. Qed.
Lemma sound_app a b : sound (a ++ b) = sound a ++ sound b.
Proof. apply omap_app. Qed.

Lemma published_out (h : nat -> Z * list Z -> Z) (u pt : Z * list Z -> Z) seg fs : let cs := imap (fun j f => Publish (snd f) (h j f) (u f) (pt f) seg) fs in
  units cs = (fun f => (snd f, u f, pt f, seg)) <$> fs /\ sound cs = [].
Proof.
  revert h. induction fs as [|f fs IH]; intros h; [done|]. destruct (IH (fun j => h (S j))) as [H1 H2].
  cbn [imap fmap list_fmap]. split; [exact (f_equal (cons _) H1)|exact H2].
Qed.

(** ** A segment *)

Lemma sound_only q fs : units (sound_calls q fs).1 = [].
Proof.
  revert q. induction fs as [|f fs IH]; intros q; [done|]. cbn [sound_calls].
  destruct (swr_conv q _ f) as [[n pcm] q']. specialize (IH q'). destruct (sound_calls q' fs) as [cs q2].
  cbn [fst] in *. rewrite units_app, IH. by case_decide.
Qed.

Context `{W : !AvLaws B D R F} (Hok : forall n, ok n = true).

Definition video_ok (fps : Z) (bytes : list Z) : Prop :=
  av_open bytes = true /\ av_probe bytes = true /\ video_track fps (av_packets bytes) /\
  zlen (av_packets bytes) < 2147483648.

Definition audio_ok (bytes : list Z) : Prop :=
  av_open bytes = true /\ av_probe bytes = true /\
  Forall (fun p => p_media p = Audio /\ forall pts, intact (retimed p pts)) (av_packets bytes).

(** The session has its filter [b], its decoder [d] and its resampler [q]. *)
Definition playing (x : demux B D R) (b : B) (d : D) (q : R) : Prop :=
  bsfc (ses x) = Some b /\ 0 <= g_video_frame_count x < 4294967296 /\ sounding x d q.

(** The packets of audio segments. *)
Definition packets (segs : list (Z * list Z)) : list packet := concat ((av_packets ∘ snd) <$> segs).

(** What came out between two states: of the video segments [vs] every unit, in
    order; of the audio segments [au] every frame of the decoder, resampled. *)
Definition delivered (t : timeline) (x x' : demux B D R) (b : B) (d : D) (q : R) (vs au : list (Z * list Z)) : Prop :=
  exists us b' d' q' fs cs, playing x' b' d' q' /\
    stream_units t b (g_video_frame_count x) vs = Some (us, b', g_video_frame_count x') /\
    units (calls x') = units (calls x) ++ us /\
    sound_calls q fs = (cs, q') /\ sound (calls x') = sound (calls x) ++ sound cs /\
    audio_pts (ses x') = audio_pts (ses x) + 1024 * zlen (packets au) /\
    sent d' = sent d ++ retimed_from (audio_pts (ses x)) (packets au) /\ got d' = got d ++ fs.

Lemma delivered_nil t x b d q : playing x b d q -> delivered t x x b d q [] [].
Proof.
  intros Hx. exists [], b, d, q, [], []. cbn. rewrite !app_nil_r. split_and!; try done. unfold zlen; cbn; lia.
Qed.

Lemma playing_eq x b d q b' d' q' : playing x b d q -> playing x b' d' q' -> b' = b /\ d' = d /\ q' = q.
Proof. intros (H1 & _ & H2 & H3 & _) (H4 & _ & H5 & H6 & _). split_and!; congruence. Qed.

Lemma delivered_trans t x y z b d q vs vs' au au' : delivered t x y b d q vs au ->
  (forall b d q, playing y b d q -> delivered t y z b d q vs' au') -> delivered t x z b d q (vs ++ vs') (au ++ au').
Proof.
  intros (us & b1 & d1 & q1 & fs & cs & P1 & U1 & C1 & S1 & O1 & T1 & L1 & G1) H2.
  destruct (H2 b1 d1 q1 P1) as (us2 & b2 & d2 & q2 & fs2 & cs2 & P2 & U2 & C2 & S2 & O2 & T2 & L2 & G2).
  exists (us ++ us2), b2, d2, q2, (fs ++ fs2), (cs ++ cs2).
  rewrite stream_units_app, U1, sound_calls_app, S1, S2, sound_app. cbn [mbind option_bind]. rewrite U2.
  unfold packets in *. rewrite fmap_app, concat_app, zlen_app, retimed_from_app, C2, C1, O2, O1, T2, T1, L2, L1, G2, G1, T1, !app_assoc.
  split_and!; try done. lia.
Qed.

(** The same for a continuation that is known to succeed. *)
Lemma delivered_then t x y b d q vs vs' au au' (P : demux B D R -> Prop) : delivered t x y b d q vs au ->
  (forall b d q, playing y b d q -> exists z, P z /\ delivered t y z b d q vs' au') ->
  exists z, P z /\ delivered t x z b d q (vs ++ vs') (au ++ au').
Proof.
  intros H1 H2. pose proof H1 as (us & b1 & d1 & q1 & fs & cs & P1 & _). destruct (H2 b1 d1 q1 P1) as (z & Hz & H3).
  exists z. split; [done|]. eapply delivered_trans; [exact H1|]. intros b2 d2 q2 P2.
  by destruct (playing_eq _ _ _ _ _ _ _ P1 P2) as (-> & -> & ->).
Qed.

Lemma delivered_ext t t' x x' b d q vs au : g_stream_fps t = g_stream_fps t' -> g_seg_duration_us t = g_seg_duration_us t' ->
  delivered t x x' b d q vs au -> delivered t' x x' b d q vs au.
Proof.
  intros Hf Hd (us & b1 & d1 & q1 & fs & cs & P & U & H). exists us, b1, d1, q1, fs, cs.
  by rewrite <- (stream_units_ext t t').
Qed.

(** A session at the start of a segment. *)
Lemma playing_segment x b d q k : playing x b d q ->
  playing (x <| au_k := k |> <| ses := (ses x) <| video_first_pts := None |> <| video_au_k := 0 |> <| last_frame_idx := -1 |> |>) b d q.
Proof. done. Qed.

Lemma video_delivered ta t n bytes x b d q : playing x b d q -> g_stream_fps t > 0 -> video_ok (g_stream_fps t) bytes ->
  exists x', demux_event ta t (EVideo n bytes) x = Some x' /\ delivered t x x' b d q [(n, bytes)] [].
Proof.
  intros Hx Hf (Ho & Hp & (first & m & e & step & Hd & Hst & Hsn & Hv) & Hlen).
  cbn [demux_event]. unfold dash_demux_segment. rewrite Ho, Hp. cbn [negb].
  match goal with |- context [demux_packets _ _ _ _ _ ?y] => set (x0 := y) end.
  destruct Hx as (Hb & Hg & Hs).
  destruct (video_run t tls ok n first m e step Hf Hd Hst Hsn (av_packets bytes) 0 x0 b) as (x1 & outs & b1 & E & Eo & Hb1 & Hg1 & Hc1);
    [done|lia|lia|done|done|done|done|].
  assert (Hm : Forall (fun p => p_media p = Video) (av_packets bytes))
    by (apply Forall_lookup; intros j p Hj; apply (Hv j p Hj)).
  destruct (video_keeps t tls ok n _ _ _ Hm E) as (K1 & K2 & K3 & K4 & K5). exists x1. split; [done|].
  destruct (published_out (fun j f => dash_au_deadline (tls (length (calls x0) + j)%nat) n (fst f))
    (fun f => u32 (g_video_frame_count x0 - 0 + fst f)) (fun f => frame_pts t n (fst f)) n (frames_of 0 outs)) as [U1 U2].
  eexists _, b1, d, q, [], []. cbn [stream_units sound_calls]. rewrite Eo. cbn [mbind option_bind].
  change (g_video_frame_count x0) with (g_video_frame_count x) in *.
  split; [split; [done|split; [rewrite Hg1; apply u32_range|]]|].
  { destruct Hs as (? & ? & ? & ?). unfold sounding. by rewrite K1, K2, K3, K4. }
  split; [rewrite Hg1; reflexivity|]. rewrite Hc1, units_app, sound_app, K5. unfold frame_calls. rewrite U1, U2.
  cbn. rewrite Z.sub_0_r, !app_nil_r. split_and!; try done. unfold zlen; cbn; lia.
Qed.

Lemma audio_delivered ta t n bytes x b d q : playing x b d q -> audio_ok bytes ->
  exists x', demux_event ta t (EAudio n bytes) x = Some x' /\ delivered t x x' b d q [] [(n, bytes)].
Proof.
  intros Hx (Ho & Hp & Hps). cbn [demux_event]. unfold dash_demux_segment. rewrite Ho, Hp. cbn [negb].
  match goal with |- context [demux_packets _ _ _ _ _ ?y] => set (x0 := y) end.
  destruct Hx as (Hb & Hg & Hs).
  destruct (packets_played ta tls ok Hok n (av_packets bytes) x0 d q Hs Hps) as (x1 & E & H1).
  destruct (audio_keeps ta tls ok n _ _ _ (Forall_impl _ _ _ Hps (fun p H => proj1 H)) E) as [K1 K2].
  exists x1. split; [done|]. destruct H1 as (d' & q' & fs & cs & S1 & C1 & P1 & L1 & G1 & O1 & _).
  exists [], b, d', q', fs, cs. unfold packets. cbn [stream_units fmap list_fmap concat compose snd].
  rewrite !app_nil_r, K2, O1, units_app, sound_app. pose proof (sound_only q fs) as Hu. rewrite C1 in Hu. cbn [fst] in Hu.
  rewrite Hu, app_nil_r. split; [split; [by rewrite K1|split; [by rewrite K2|done]]|by split_and!].
Qed.

Lemma events_delivered ta t es : forall x b d q, playing x b d q -> g_stream_fps t > 0 -> quiet es ->
  Forall (fun sg => video_ok (g_stream_fps t) (snd sg)) (video_of es) -> Forall (fun sg => audio_ok (snd sg)) (audio_of es) ->
  exists x', demux_events ta t es x = Some x' /\ delivered t x x' b d q (video_of es) (audio_of es).
Proof.
  induction es as [|e es IH]; intros x b d q Hx Hf Hq Hv Ha.
  { exists x. split; [done|by apply delivered_nil]. }
  apply Forall_cons in Hq as [He Hq]. cbn [demux_events]. destruct e as [|n by_|n by_| |n old]; try done.
  - change (audio_of (EAudio n by_ :: es)) with ([(n, by_)] ++ audio_of es) in *. apply Forall_app in Ha as [Ha1%Forall_inv Ha].
    destruct (audio_delivered ta t n by_ x b d q Hx Ha1) as (x1 & -> & H1). cbn [mbind option_bind].
    change (video_of (EAudio n by_ :: es)) with ([] ++ video_of es). apply (delivered_then _ _ x1); [exact H1|].
    intros b1 d1 q1 P1. by apply IH.
  - change (video_of (EVideo n by_ :: es)) with ([(n, by_)] ++ video_of es) in *. apply Forall_app in Hv as [Hv1%Forall_inv Hv].
    destruct (video_delivered ta t n by_ x b d q Hx Hf Hv1) as (x1 & -> & H1). cbn [mbind option_bind].
    change (audio_of (EVideo n by_ :: es)) with ([] ++ audio_of es). apply (delivered_then _ _ x1); [exact H1|].
    intros b1 d1 q1 P1. by apply IH.
  - by apply (IH x b d q).
Qed.

(** ** A live session *)

(** A live stream: its manifest when the session starts, its frame rate, the
    nominal duration of its segments, its initialisation segments and the content
    of its segments. *)
Context (m : dash_manifest) (fps dur : Z) (iv ia : list Z) (v a : Z -> list Z).

Definition live : Prop := static_mpd m = false /\ 0 < seg_duration m < 2 ^ 31 /\ 0 <= start_number m.

(** The manifest once the server's window starts at segment [s]. *)
Definition man_at (s : Z) : dash_manifest :=
  mk_manifest s (seg_duration m) (avail_start_us m) (duration_us m) (static_mpd m).

(** The live edge by the clock. *)
Definition live_at (s now : Z) : Z :=
  Z.max (i32 (if decide (now - avail_start_us m > 0) then Z.quot (now - avail_start_us m) (seg_duration m) else 0)) s.

(** The first segment of the window by the manifest of a round, which is the last
    one when none could be loaded. *)
Definition start_in (s : Z) (i : round_in) : Z :=
  match fresh i with Some (m', _) => start_number m' | None => s end.

(** A round at which the server serves its window up to the segment that is being
    written, and the other threads leave the frame rate and the duration alone. *)
Definition served (s : Z) (i : round_in) : Prop :=
  (fresh i = None \/ fresh i = Some (man_at s, fps)) /\
  (forall t, g_stream_fps (others i t) = g_stream_fps t /\ g_seg_duration_us (others i t) = g_seg_duration_us t) /\
  (forall n, s <= n <= live_at s (now i) + 1 -> get_v i n = Some (v n) /\ v n <> [] /\ malloc_v i n = true) /\
  (forall n, s <= n <= live_at s (now i) -> get_a i n = Some (a n) /\ a n <> [] /\ malloc_a i n = true) /\
  now i - avail_start_us m < 2 ^ 30 * seg_duration m.

(** The rounds after a round at [t] whose window started at [s]: the clock does not
    go back, nor does the window, which never starts behind the segment that
    follows the live edge of the round before. *)
Fixpoint session (s t : Z) (ins : list round_in) : Prop :=
  match ins with
  | [] => True
  | i :: ins =>
    let s' := start_in s i in
    t <= now i /\ s <= s' <= live_at s t + 1 /\ served s' i /\ session s' (now i) ins
  end.

(** The live edge at the last round. *)
Fixpoint edge_after (s t : Z) (ins : list round_in) : Z :=
  match ins with [] => live_at s t | i :: ins => edge_after (start_in s i) (now i) ins end.

Definition in_session (s : Z) (r : reader) : Prop :=
  man r = man_at s /\ frame_rate r = fps /\ init_v r = iv /\ init_a r = ia /\ buffers_ok (lb r) /\
  g_seg_duration_us (tl r) = dur /\ g_eos_reached r = false.

(** What the time stamps depend on. *)
Definition stream_tl : timeline := mk_timeline fps dur 0 0 0 0 0 0 0 0 false 0 0 0.

Lemma window_at_live s b t : live -> buffers_ok b -> let w := reader_window (man_at s) b t in
  vfetch_hi w = live_at s t + 1 /\ audio_target w = live_at s t.
Proof.
  intros (Hst & Hsd & _) [Hv _] w. unfold VMC_PREFETCH_US in Hv. unfold w. rewrite window_live_form by done.
  destruct (segments_cover (g_video_live_buffer_us b) (seg_duration (man_at s)) ltac:(lia) Hsd) as [_ Hnv].
  fold (buffer_segments (man_at s) (g_video_live_buffer_us b)) in Hnv. unfold window_at, live_at.
  set (n := buffer_segments _ (g_video_live_buffer_us b)) in *. clearbody n.
  cbn [vfetch_hi audio_target man_at start_number avail_start_us seg_duration]. lia.
Qed.

Lemma live_at_mono s s' t t' : live -> s <= s' -> t <= t' -> t' - avail_start_us m < 2 ^ 30 * seg_duration m ->
  live_at s t <= live_at s' t'.
Proof.
  intros (_ & Hsd & _) Hs Ht Ht'. unfold live_at. apply Z.max_le_compat; [|done].
  assert (H : forall u, u - avail_start_us m < 2 ^ 30 * seg_duration m ->
    i32 (if decide (u - avail_start_us m > 0) then Z.quot (u - avail_start_us m) (seg_duration m) else 0)
    = Z.max 0 ((u - avail_start_us m) / seg_duration m)).
  { intros u Hu. pose proof (Z.div_lt_upper_bound (u - avail_start_us m) (seg_duration m) (2 ^ 30) ltac:(lia) ltac:(lia)).
    case_decide.
    - pose proof (Z.div_pos (u - avail_start_us m) (seg_duration m) ltac:(lia) ltac:(lia)).
      rewrite Z.quot_div_nonneg, i32_small by lia. lia.
    - pose proof (Z.div_le_upper_bound (u - avail_start_us m) (seg_duration m) 0 ltac:(lia) ltac:(lia)).
      rewrite i32_small by lia. lia. }
  rewrite !H by lia. apply Z.max_le_compat_l, Z.div_le_mono; lia.
Qed.

Hypothesis Hlive : live.
Hypothesis Hfps : 0 < fps.
Hypothesis Hia : ia <> [].
Hypothesis Hv : forall n, start_number m <= n -> video_ok fps (iv ++ v n).
Hypothesis Ha : forall n, start_number m <= n -> audio_ok (ia ++ a n).

Abbreviation video_segments := (segments iv (fun n => Some (v n))) (only parsing).
Abbreviation audio_segments := (segments ia (fun n => Some (a n))) (only parsing).

(** The manifest of a round is in place, and so is its frame rate. *)
Lemma opened_session s r i : in_session s r -> served (start_in s i) i ->
  in_session (start_in s i) (opened r i) /\ g_stream_fps (tl (opened r i)) = fps.
Proof.
  intros (H1 & H2 & H3 & H4 & H5 & H6 & H7) (Hf & Ho & _). destruct (Ho (tl r)) as [Ho1 Ho2].
  destruct (opened_spec r i) as (O1 & O2 & O3 & O4 & _). unfold in_session. rewrite O1, O2, O3, O4.
  unfold opened, start_in in *. cbv zeta. destruct (fresh i) as [[m' k]|]; [destruct Hf as [|[= Em ->]]; [done|]|];
    cbn [frame_rate tl]; rewrite ?H2, ?Ho1; case_decide as Hd; cbn; rewrite ?Ho2; (split; [split_and!; done|]); try done;
    rewrite ?Ho1; cbn in Hd; rewrite ?Ho1 in Hd; lia.
Qed.

Lemma session_kept s r r' k : in_session s r -> kept (r <| last_anum := k |>) r' -> in_session s r'.
Proof.
  intros (H1 & H2 & H3 & H4 & H5 & H6 & H7) (K1 & K2 & K3 & K4 & K5 & _ & _ & K8 & K9).
  unfold in_session. rewrite K1, K2, K3, K4, K5, K8. split_and!; try done; by apply K9.
Qed.

Lemma round_delivered s0 r i x b d q vlo alo : let s := start_in s0 i in
  in_session s0 r -> served s i -> start_number m <= s -> playing x b d q ->
  let w := reader_window (man_at s) (lb r) (now i) in
  last_vnum r <= live_at s (now i) + 1 -> last_anum r <= live_at s (now i) ->
  (last_anum r < 0 \/ s <= last_anum r + 1) ->
  vlo = (if decide (last_vnum r < 0) then video_target w else Z.max (last_vnum r + 1) s) ->
  alo = (if decide (last_anum r < 0) then audio_oldest w else Z.max (last_anum r + 1) s) ->
  exists r' x', dash_round r x i = Some (r', x') /\ in_session s r' /\
    last_vnum r' = live_at s (now i) + 1 /\ last_anum r' = live_at s (now i) /\
    delivered stream_tl x x' b d q (video_segments vlo (live_at s (now i) + 1)) (audio_segments alo (live_at s (now i))).
Proof.
  intros s Hr Hi Hs Hx w Hlv Hla Hq Hvlo Halo. destruct (opened_session s0 r i Hr Hi) as [Ho Hofps]. fold s in Ho.
  pose proof Hlive as (L1 & L2 & L3). pose proof Hr as (_ & _ & E3 & E4 & E5 & _). pose proof Ho as (O1 & _).
  destruct (window_at_live s (lb r) (now i) Hlive E5) as [W1 W2]. destruct Hi as (_ & _ & Sv & Sa & _).
  assert (Hall : all_fetched i s w).
  { unfold all_fetched, fetches. fold w in W1, W2. rewrite W1, W2. split; intros n Hn;
      [destruct (Sv n Hn) as (-> & H & ->); destruct (v n)|destruct (Sa n Hn) as (-> & H & ->); destruct (a n)]; done. }
  pose proof (reader_round_complete r i) as H. cbv zeta in H. rewrite O1 in H. fold w in H, W1, W2. rewrite W1, W2, E3, E4 in H.
  specialize (H L1 L2 ltac:(cbn; lia) E5 Hall Hia Hlv Hla). cbn [start_number man_at] in H. rewrite <- Hvlo, <- Halo in H.
  unfold dash_round. destruct (reader_round r i) as [r' es]. destruct H as (V & A & Q & NV & K).
  pose proof K as (_ & _ & _ & _ & _ & K6 & K7 & _). pose proof (session_kept _ _ _ _ Ho K) as Hr'.
  assert (Hvlo' : s <= vlo /\ s <= alo).
  { destruct (window_floor (man_at s) (lb r) (now i)) as (F1 & _ & F3). fold w in F1, F3. cbn [start_number man_at] in F1, F3.
    rewrite Hvlo, Halo. clear - F1 F3. split; case_decide; lia. }
  rewrite (segments_ext _ _ (fun n => Some (v n))) in V by (intros n Hn; apply (Sv n); lia).
  rewrite (segments_ext _ _ (fun n => Some (a n))) in A by (intros n Hn; apply (Sa n); lia).
  assert (Hf' : g_stream_fps (tl r') = fps) by (by rewrite K7).
  destruct (events_delivered (others i (tl r)) (tl r') es x b d q Hx) as (x' & -> & H2).
  - lia.
  - by apply Q.
  - rewrite V, Hf'. apply segments_forall. intros n Hn. apply Hv. lia.
  - rewrite A. apply segments_forall. intros n Hn. apply Ha. lia.
  - exists r', x'. split; [done|]. split_and!; [done..|].
    rewrite V, A in H2. revert H2. apply delivered_ext; [done|]. by destruct Hr' as (_ & _ & _ & _ & _ & -> & _).
Qed.

Lemma edge_after_mono ins : forall s t, session s t ins -> live_at s t <= edge_after s t ins.
Proof.
  induction ins as [|i ins IH]; intros s t Hc; [done|]. destruct Hc as (Ht & Hs & (_ & _ & _ & _ & Hmax) & Hc).
  cbn [edge_after]. pose proof (live_at_mono s (start_in s i) t (now i) Hlive ltac:(lia) Ht Hmax).
  specialize (IH _ _ Hc). lia.
Qed.

(** A round and the rounds after it. *)
Lemma rounds_after s r x r1 x1 i ins b d q vs au vs' au' : dash_round r x i = Some (r1, x1) -> in_session s r1 ->
  delivered stream_tl x x1 b d q vs au ->
  (forall b d q, playing x1 b d q -> exists x', (exists r', dash_rounds r1 x1 ins = Some (r', x')) /\
     delivered stream_tl x1 x' b d q vs' au') ->
  exists x', (exists r', dash_rounds r x (i :: ins) = Some (r', x')) /\
    delivered stream_tl x x' b d q (vs ++ vs') (au ++ au').
Proof.
  intros E Hr1 D1 H. cbn [dash_rounds]. rewrite E. cbn [mbind option_bind].
  destruct Hr1 as (_ & _ & _ & _ & _ & _ & ->). exact (delivered_then _ _ _ _ _ _ _ _ _ _ _ D1 H).
Qed.

(** Rounds once the session has caught up with the clock. *)
Lemma rounds_delivered ins : forall s r x t b d q, in_session s r -> start_number m <= s -> playing x b d q -> session s t ins ->
  last_vnum r = live_at s t + 1 -> last_anum r = live_at s t ->
  exists x', (exists r', dash_rounds r x ins = Some (r', x')) /\
    delivered stream_tl x x' b d q (video_segments (live_at s t + 1 + 1) (edge_after s t ins + 1))
      (audio_segments (live_at s t + 1) (edge_after s t ins)).
Proof.
  induction ins as [|i ins IH]; intros s r x t b d q Hr Hs0 Hx Hc Hlv Hla.
  { exists x. cbn. rewrite !segments_nil by lia. split; [by exists r|by apply delivered_nil]. }
  destruct Hc as (Ht & Hs & Hi & Hc). cbn [edge_after]. pose proof Hi as (_ & _ & _ & _ & Hmax).
  pose proof (live_at_mono s (start_in s i) t (now i) Hlive ltac:(lia) Ht Hmax) as Hmono.
  pose proof (edge_after_mono ins _ _ Hc) as Hend.
  assert (Hpos : 0 <= start_number m <= live_at s t) by (destruct Hlive; unfold live_at; lia).
  destruct (round_delivered s r i x b d q (live_at s t + 1 + 1) (live_at s t + 1) Hr Hi ltac:(lia) Hx) as (r1 & x1 & E & Hr1 & V1 & A1 & D1);
    [lia..|rewrite decide_False by lia; lia|rewrite decide_False by lia; lia|].
  rewrite <- (segments_app _ _ _ (live_at (start_in s i) (now i) + 1)) by lia.
  rewrite <- (segments_app _ _ (live_at s t + 1) (live_at (start_in s i) (now i))) by lia.
  apply (rounds_after (start_in s i) r x r1 x1); [done..|]. intros b1 d1 q1 P1. apply IH; (done || lia).
Qed.

(** C2. The live path loses nothing. Over any rounds of a live session - each with the
    manifest as it is loaded then, whose window moves forward with its
    [startNumber], or with the last one when none can be loaded - in which the
    segments of the window are served up to the one being written, the window
    never starts behind the segment after the live edge of the round before, the
    clock does not go back, allocations succeed, and the other threads leave the
    frame rate and the duration of a segment alone: the units published are those of the
    video segments from the start of the first window to the segment being written
    at the last round - every segment once, in order, through the one filter -
    with the number of their frame in the whole stream, its time stamp and its
    segment; and the decoder accepts every packet of the audio segments from the
    start of their window to the live edge, in order and without a gap in the time
    stamps, every frame it hands out being resampled and written to the FIFO. *)
Theorem dash_end_to_end r i ins x b d q : let s := start_in (start_number m) i in
  in_session (start_number m) r -> playing x b d q ->
  start_number m <= s -> served s i -> session s (now i) ins ->
  let w := reader_window (man_at s) (mk_live 0 VMC_TARGET_US VMC_TARGET_US) (now i) in
  let edge := edge_after s (now i) ins in
  exists x', (exists r', dash_rounds (session_start r) x (i :: ins) = Some (r', x')) /\
    delivered stream_tl x x' b d q (video_segments (video_target w) (edge + 1)) (audio_segments (audio_oldest w) edge).
Proof.
  intros s Hr Hx Hs Hi Hc w edge.
  assert (Hr0 : in_session (start_number m) (session_start r)).
  { destruct Hr as (H1 & H2 & H3 & H4 & _ & H6 & H7). split_and!; done. }
  pose proof Hlive as (L1 & L2 & L3). pose proof Hr0 as (_ & _ & _ & _ & Hb & _).
  destruct (window_at_live s _ (now i) Hlive Hb) as [W1 W2]. destruct (window_live (man_at s) _ (now i) L1 L2 Hb) as [F1 F2].
  change (lb (session_start r)) with (mk_live 0 VMC_TARGET_US VMC_TARGET_US) in *. fold w in W1, W2, F1, F2.
  cbn [start_number man_at] in F1, F2. pose proof (edge_after_mono ins _ _ Hc) as Hend. fold edge in Hend.
  destruct (round_delivered (start_number m) (session_start r) i x b d q (video_target w) (audio_oldest w) Hr0 Hi Hs Hx) as (r1 & x1 & E & Hr1 & V1 & A1 & D1);
    [cbn; fold s; lia|cbn; fold s; lia|by left|done|done|]. fold s in Hr1, V1, A1, D1.
  rewrite <- (segments_app iv _ (video_target w) (live_at s (now i) + 1)) by lia.
  rewrite <- (segments_app ia _ (audio_oldest w) (live_at s (now i))) by lia.
  apply (rounds_after s (session_start r) x r1 x1); [done..|]. intros b1 d1 q1 P1. by apply rounds_delivered.
Qed.

End Dash.

(** ** A session of three rounds *)

Definition path_reader : reader :=
  mk_reader demo_man 30 [0] [1] demo_timeline (mk_live 0 VMC_TARGET_US VMC_TARGET_US) 5 5 0 false 0.

(** The server's window starts at segment [s], and nothing before it is served. *)
Definition path_round (s t : Z) : round_in :=
  let get n := if decide (s <= n) then Some [n] else None in
  mk_round (Some (mk_manifest s 1000000 1000000000 0 false, 30)) t get get (fun _ => true) (fun _ => true)
    (fun _ => 1000) (fun _ => 1002000000) (fun _ => 1002000000) (fun t => t).

(** The server's segment [n] holds one frame, or one packet of sound. The window
    moves from segment 3 to segment 6, and the third manifest cannot be loaded. *)
Lemma dash_end_to_end_witness :
  exists x', (exists r', dash_rounds (fun _ => demo_timeline) (fun _ => true) (session_start path_reader) demo_demux
                           [path_round 3 1006500000; path_round 6 1007500000; demo_round 1008500000] = Some (r', x')) /\
    (fun u => (u.1.1.2, snd u)) <$> units (calls x') =
      [(10, 3); (10, 3); (11, 4); (11, 4); (12, 5); (12, 5); (13, 6); (13, 6); (14, 7); (14, 7); (15, 8); (15, 8); (16, 9); (16, 9)] /\
    accepted <$> actx (ses x') = Some ((fun n => mk_packet Audio (1, 3000) (Some (1024 * (n - 3))) [n; n] false) <$> [3; 4; 5; 6; 7; 8]).
Proof.
  destruct (dash_end_to_end (fun _ => demo_timeline) (fun _ => true) (fun _ => eq_refl) demo_man 30 1000000 [0] [1]
              (fun n => [n]) (fun n => [n])) with (r := path_reader) (x := demo_demux) (b := @nil (list Z)) (d := mk_toy [] [] []) (q := 0)
    (i := path_round 3 1006500000) (ins := [path_round 6 1007500000; demo_round 1008500000]) as (x' & [r' E] & D).
  - split_and!; vm_compute; done.
  - done.
  - done.
  - intros n _. split; [reflexivity|]. split; [reflexivity|]. split; [|vm_compute; done].
    exists 500, 1, 3000, 100. split_and!; [lia|lia|reflexivity|]. intros [|[|j]] p [= <-]; split_and!; reflexivity.
  - intros n _. split; [reflexivity|]. split; [reflexivity|]. repeat constructor.
  - split_and!; try done; vm_compute; done.
  - split_and!; vm_compute; done.
  - vm_compute. discriminate.
  - split_and!; [by right|done| | |reflexivity]; intros n Hn; cbn in Hn |- *; by rewrite decide_True by lia.
  - cbn [session start_in path_round demo_round fresh start_number]. split_and!; try (vm_compute; discriminate).
    all: try (split_and!; [by right|done| | |reflexivity]; intros n Hn; cbn in Hn |- *; by rewrite decide_True by lia).
    2: done.
    split_and!; [by left|done|done|done|reflexivity].
  - exists x'. split; [by exists r'|]. vm_compute in E. injection E as _ <-. split; reflexivity.
Defined.

End Path.
