(* ===== verification/Ledger.v ===== *)
(** * Ledgers: which objects are alive

    A set-up adds what it acquires, a release takes one object out; releasing
    what is not there has no result. Shared by the components that acquire
    resources ([AvSession], [Lifecycle]). *)

From S2P Require Import Prelude.

Module Ledger.

Section ledger.
Context {A : Type} `{EqDecision A}.

(** Releasing one; [None]: there is none. *)
Fixpoint free (o : A) (l : list A) : option (list A) :=
  match l with
  | [] => None
  | x :: l => if decide (x = o) then Some l else cons x <$> free o l
  end.

Definition free_if (b : bool) (o : A) (l : list A) : option (list A) := if b then free o l else Some l.

Definition when (b : bool) (o : A) : list A := if b then [o] else [].

Lemma free_here o l l' : l ≡ₚ o :: l' -> exists k, free o l = Some k /\ k ≡ₚ l'.
Proof.
  revert l'. induction l as [|x l IH]; intros l' Hp; [by apply Permutation_nil_l in Hp|]. cbn [free].
  case_decide as Hx.
  - subst x. apply Permutation_cons_inv in Hp. by exists l.
  - assert (Hin : o ∈ l).
    { assert (o ∈ x :: l) as [?|?]%elem_of_cons by (rewrite Hp; left); [by subst|done]. }
    apply list_elem_of_split in Hin as (a & b & ->).
    destruct (IH (a ++ b)) as (k & -> & Hk); [by rewrite Permutation_middle|]. exists (x :: k). split; [done|].
    rewrite Hk. apply (Permutation_cons_inv (a := o)). rewrite <- Hp, <- Permutation_middle. apply Permutation_swap.
Qed.

Lemma free_if_here b o l l' : l ≡ₚ when b o ++ l' -> exists k, free_if b o l = Some k /\ k ≡ₚ l'.
Proof. destruct b; cbn; [apply free_here|intros; by exists l]. Qed.

(** What is not there cannot be released. *)
Lemma free_absent o l : o ∉ l -> free o l = None.
Proof.
  induction l as [|x l IH]; intros Hn; [done|]. cbn [free]. apply not_elem_of_cons in Hn as [Hx Hl].
  rewrite decide_False by congruence. by rewrite IH.
Qed.

End ledger.
End Ledger.
