(* ===== verification/ReaderThread.v ===== *)
(** * The reader thread and its cancellation ([apps/thinclient/main.c])

    [dash_reader_direct] with [http_get] and [dash_demux_segment] as what the
    thread acquires and releases between its cancellation points: the client
    ends it with [pthread_cancel], which takes effect at one of them, and no
    cleanup handler is installed. A wait for a frame slot holds [g_fmu], and a
    thread cancelled there leaves it locked. *)

From S2P Require Import Prelude Ledger.

#[local] Open Scope Z_scope.

Module Rt.
Import Ledger.

(** What the thread holds: the packet [out], the initialisation segments, the
    objects of the session as far as they are made; of a request the address, the
    socket, the response; the manifest, a segment, the segment behind its
    initialisation segment; the reader and the contexts of a demultiplexing. *)
Inductive rres :=
| RPacket | RInitV | RInitA | RSession | RAddr | RSocket | RRaw | RManifest | RSeg | RWhole | RDemux.

#[export] Instance rres_eq_dec : EqDecision rres.
Proof. solve_decision. Defined.

(** [Pt true]: the wait for a frame slot, under [g_fmu]. *)
Inductive op := Acq (r : rres) | Rel (r : rres) | Pt (slot : bool).

Definition pts (n : nat) : list op := replicate n (Pt false).

(** ** [http_get] *)

(** How the response ends: the program stops, [realloc] fails, it is complete (or
    late, or broken off), and whether a body of at least one byte comes of it. *)
Inductive ending := EStop | EGrow | EDone (body : bool).

(** The answers to one request, and how often it waits: name, socket, connection,
    request; whether anything is received. *)
Record fetch := mk_fetch {
  resolves : bool; opens : bool; connects : bool; conn_waits : nat; sends : bool; send_waits : nat;
  first_wait : nat; receives : bool; recv_waits : nat; ends : ending;
}.

(** Whether [http_get] returns a body. *)
Definition got (f : fetch) : bool :=
  resolves f && opens f && connects f && sends f && receives f &&
  match ends f with EDone b => b | _ => false end.

(** [close] is itself a cancellation point. *)
Definition close_socket : list op := [Pt false; Rel RSocket].

Definition http_end (dest : rres) (f : fetch) : list op :=
  if receives f then
    Acq RRaw :: pts (recv_waits f) ++
    match ends f with
    | EStop => close_socket ++ [Rel RRaw]
    | EGrow => Rel RRaw :: close_socket
    | EDone b => close_socket ++ (if b then [Acq dest] else []) ++ [Rel RRaw]
    end
  else close_socket.

Definition http_get (dest : rres) (f : fetch) : list op :=
  Pt false ::
  if negb (resolves f) then [] else
  Acq RAddr ::
  if negb (opens f) then [Rel RAddr] else
  [Acq RSocket; Pt false; Rel RAddr] ++ pts (conn_waits f) ++
  if negb (connects f) then close_socket else
  pts (send_waits f) ++
  if negb (sends f) then close_socket else
  pts (first_wait f) ++ http_end dest f.

(** ** A segment *)

(** The demultiplexing of a segment: whether its reader opens; at each of its
    cancellation points, whether it is a wait for a frame slot. *)
Definition dash_demux_segment (opens : bool) (points : list bool) : list op :=
  if opens then Acq RDemux :: (Pt <$> points) ++ [Rel RDemux] else [].

(** A segment that is fetched: whether the memory for [whole] is there. *)
Record segment := mk_segment { sg_fetch : fetch; sg_malloc : bool; sg_open : bool; sg_points : list bool }.

(** An audio segment waits for no frame slot. *)
Definition audio_segment (s : segment) : list op :=
  http_get RSeg (sg_fetch s) ++
  if got (sg_fetch s) then
    (if sg_malloc s then Acq RWhole :: dash_demux_segment (sg_open s) ((fun _ => false) <$> sg_points s) ++ [Rel RWhole] else [])
    ++ [Rel RSeg]
  else [Pt false].

(** A video segment: [iv] if there is an initialisation segment; the timeline may
    be anchored and reported before it is demultiplexed. *)
Definition video_segment (iv : bool) (s : segment) : list op :=
  http_get RSeg (sg_fetch s) ++
  if got (sg_fetch s) then
    (if iv then
       if sg_malloc s then [Acq RWhole; Pt false] ++ dash_demux_segment (sg_open s) (sg_points s) ++ [Rel RWhole] else []
     else Pt false :: dash_demux_segment (sg_open s) (sg_points s))
    ++ [Rel RSeg]
  else [Pt false].

(** ** The thread *)

Definition load_manifest (f : fetch) : list op := http_get RManifest f ++ when (got f) (Rel RManifest).

(** A round: the manifest again, the segments - of sound if there is an
    initialisation segment for it -, the reports and the pause. *)
Record round := mk_round { rd_man : fetch; rd_audio : list segment; rd_video : list segment; rd_pause : nat }.

Definition reader_round (iv ia : bool) (r : round) : list op :=
  load_manifest (rd_man r) ++ [Pt false] ++ (if ia then rd_audio r ≫= audio_segment else []) ++ (rd_video r ≫= video_segment iv) ++ pts (rd_pause r).

(** A pass of the outer loop: the manifest and whether it is accepted, the two
    initialisation segments, how often the set-up reports, whether it succeeds,
    and then the rounds. *)
Record attempt := mk_attempt {
  at_man : fetch; at_loaded : bool; at_init_v : fetch; at_init_a : fetch; at_setup_v : nat; at_setup_a : nat; at_ok : bool;
  at_rounds : list round;
}.

(** An initialisation segment demultiplexed, with [n] cancellation points. *)
Definition dash_init_setup_one (n : nat) : list op := Acq RDemux :: pts n ++ [Rel RDemux].

(** The set-up: sound only when the pictures are set up. *)
Definition setup (a : attempt) : list op :=
  Acq RSession :: dash_init_setup_one (at_setup_v a) ++
  (if at_ok a && got (at_init_a a) then dash_init_setup_one (at_setup_a a) else []).

(** The end of the thread. *)
Definition reader_stop (iv ia : bool) : list op :=
  Rel RPacket :: when iv (Rel RInitV) ++ when ia (Rel RInitA) ++ [Pt false].

(** [iv], [ia]: the initialisation segments there are, which the next pass frees.
    A session ends because the program stops or the content is over, and so does
    the outer loop. *)
Fixpoint reader_loop (iv ia : bool) (l : list attempt) : list op :=
  match l with
  | [] => reader_stop iv ia
  | a :: l =>
    load_manifest (at_man a) ++
    if negb (at_loaded a) then [Pt false; Pt false] ++ reader_loop iv ia l else
    Pt false :: when iv (Rel RInitV) ++ when ia (Rel RInitA) ++
    http_get RInitV (at_init_v a) ++ http_get RInitA (at_init_a a) ++ setup a ++
    let iv := got (at_init_v a) in let ia := got (at_init_a a) in
    if negb (at_ok a) then [Pt false; Rel RSession; Pt false] ++ reader_loop iv ia l else
    (at_rounds a ≫= reader_round iv ia) ++ [Rel RSession] ++ reader_stop iv ia
  end.

Definition dash_reader_direct (l : list attempt) : list op := Acq RPacket :: reader_loop false false l.

(** ** Cancellation *)

(** How the thread ends. *)
Inductive fate := Returned | Cancelled (in_slot_wait : bool).

(** The thread is cancelled at its cancellation point [n], if it gets there: what it
    holds then. [None]: it released what it did not hold. *)
Fixpoint cancelled (n : nat) (ops : list op) (l : list rres) : option (list rres * fate) :=
  match ops with
  | [] => Some (l, Returned)
  | Acq r :: ops => cancelled n ops (r :: l)
  | Rel r :: ops => l ← free r l; cancelled n ops l
  | Pt b :: ops => match n with O => Some (l, Cancelled b) | S n => cancelled n ops l end
  end.

(** A thread: its passes, and where it is when it is cancelled. *)
Record life := mk_life { passes : list attempt; cancel_at : nat }.

Definition thread_end (t : life) : option (list rres * fate) := cancelled (cancel_at t) (dash_reader_direct (passes t)) [].

(** What is left behind, and whether [g_fmu] is. *)
Definition leaves (t : life) : list rres := match thread_end t with Some (l, _) => l | None => [] end.
Definition leaves_lock (t : life) : bool := match thread_end t with Some (_, Cancelled b) => b | _ => false end.

(** ** What can be left *)

(** The initialisation segments and the packet. *)
Definition base (iv ia : bool) : list rres := when ia RInitA ++ when iv RInitV ++ [RPacket].

(** A request under way; a segment under way. *)
Definition fetching : list (list rres) := [[]; [RAddr]; [RSocket; RAddr]; [RSocket]; [RRaw; RSocket]].
Definition at_segment : list (list rres) :=
  [[RWhole; RSeg]; [RSeg]; [RDemux; RWhole; RSeg]; [RDemux; RSeg]].

(** Where the thread can be cancelled: before a session or in its set-up; in a
    session; while it waits for a frame slot for a video segment. *)
Definition held (l : list rres) (slot : bool) : Prop :=
  exists iv ia top, l = top ++ base iv ia /\
    if slot then top ∈ [[RDemux; RWhole; RSeg; RSession]; [RDemux; RSeg; RSession]]
    else top ∈ fetching ++ [[RSession]; [RDemux; RSession]] ++ ((fun t => t ++ [RSession]) <$> (fetching ++ at_segment)).

(** A piece of the thread that starts with [l] and ends with [l']: cancelled in it,
    the thread holds what [Q] says. *)
Definition piece (Q : list rres -> bool -> Prop) (ops : list op) (l l' : list rres) : Prop :=
  forall rest n, (exists h b, cancelled n (ops ++ rest) l = Some (h, Cancelled b) /\ Q h b) \/
                 (exists n', cancelled n (ops ++ rest) l = cancelled n' rest l').

Section pieces.
Context (Q : list rres -> bool -> Prop).

Lemma piece_nil l : piece Q [] l l.
Proof. intros rest n. right. by exists n. Qed.

Lemma piece_acq r ops l l' : piece Q ops (r :: l) l' -> piece Q (Acq r :: ops) l l'.
Proof. intros H rest n. apply H. Qed.

Lemma piece_rel r ops l k l' : free r l = Some k -> piece Q ops k l' -> piece Q (Rel r :: ops) l l'.
Proof. intros E H rest n. cbn [app cancelled]. rewrite E. apply H. Qed.

Lemma piece_pt b ops l l' : Q l b -> piece Q ops l l' -> piece Q (Pt b :: ops) l l'.
Proof. intros Hl H rest [|n]; cbn [app cancelled]; [left; by exists l, b|apply H]. Qed.

Lemma piece_seq ops ops' l k l' : piece Q ops l k -> piece Q ops' k l' -> piece Q (ops ++ ops') l l'.
Proof.
  intros H1 H2 rest n. rewrite <- app_assoc. destruct (H1 (ops' ++ rest) n) as [H|[n' ->]]; [by left|apply H2].
Qed.

Lemma piece_pts n l : Q l false -> piece Q (pts n) l l.
Proof. intros Hl. induction n; [apply piece_nil|by apply piece_pt]. Qed.

Lemma piece_points bs l : Forall (Q l) bs -> piece Q (Pt <$> bs) l l.
Proof. induction 1; [apply piece_nil|by apply piece_pt]. Qed.

Lemma piece_bind {A} (f : A -> list op) xs l : (forall x, piece Q (f x) l l) -> piece Q (xs ≫= f) l l.
Proof. intros H. induction xs as [|x xs IH]; [apply piece_nil|]. eapply piece_seq; [apply H|exact IH]. Qed.

(** A request: [Q] holds of everything it has open, on top of [l]. *)
Lemma http_get_piece dest f l : (forall t, t ∈ fetching -> Q (t ++ l) false) -> dest <> RRaw ->
  piece Q (http_get dest f) l (when (got f) dest ++ l).
Proof.
  intros HQ Hd. assert (H : Forall (fun t => Q (t ++ l) false) fetching) by by apply Forall_forall.
  unfold fetching in H. rewrite !Forall_cons in H. destruct H as (Q1 & Q2 & Q3 & Q4 & Q5 & _).
  assert (Hclose : forall ops l', piece Q ops l l' -> piece Q (close_socket ++ ops) (RSocket :: l) l').
  { intros ops l' Ho. apply piece_pt; [exact Q4|]. by apply (piece_rel _ _ _ l). }
  assert (Hend : piece Q close_socket (RSocket :: l) l) by (rewrite <- (app_nil_r close_socket); apply Hclose, piece_nil).
  unfold http_get, got. apply piece_pt; [exact Q1|]. destruct (resolves f); cbn [negb andb]; [|apply piece_nil].
  apply piece_acq. destruct (opens f); cbn [negb andb]; [|by apply (piece_rel _ _ _ l); [|apply piece_nil]].
  apply piece_acq, piece_pt; [exact Q3|]. apply (piece_rel _ _ _ (RSocket :: l)); [done|].
  eapply piece_seq; [by apply piece_pts|]. destruct (connects f); cbn [negb andb]; [|exact Hend].
  eapply piece_seq; [by apply piece_pts|]. destruct (sends f); cbn [negb andb]; [|exact Hend].
  eapply piece_seq; [by apply piece_pts|]. unfold http_end. destruct (receives f); cbn [andb]; [|exact Hend].
  apply piece_acq. eapply piece_seq; [by apply piece_pts|]. destruct (ends f) as [| |b].
  - apply piece_pt; [exact Q5|]. apply (piece_rel _ _ _ (RRaw :: l)); [done|]. by apply (piece_rel _ _ _ l); [|apply piece_nil].
  - by apply (piece_rel _ _ _ (RSocket :: l)).
  - apply piece_pt; [exact Q5|]. apply (piece_rel _ _ _ (RRaw :: l)); [done|]. destruct b; cbn [app when].
    + apply piece_acq. apply (piece_rel _ _ _ (dest :: l)); [|apply piece_nil]. cbn. rewrite decide_False by done. done.
    + by apply (piece_rel _ _ _ l); [|apply piece_nil].
Qed.

Lemma demux_piece o bs l : Forall (Q (RDemux :: l)) bs -> piece Q (dash_demux_segment o bs) l l.
Proof.
  intros H. unfold dash_demux_segment. destruct o; [|apply piece_nil]. apply piece_acq.
  eapply piece_seq; [by apply piece_points|]. by apply (piece_rel _ _ _ l); [|apply piece_nil].
Qed.

End pieces.

(** Cancelled somewhere, the thread holds what it may. *)
Lemma held_early iv ia t : t ∈ fetching ++ [[RSession]; [RDemux; RSession]] -> held (t ++ base iv ia) false.
Proof. intros H. exists iv, ia, t. split; [done|]. rewrite app_assoc. apply elem_of_app. by left. Qed.

Lemma held_session iv ia t : t ∈ fetching ++ at_segment -> held (t ++ RSession :: base iv ia) false.
Proof.
  intros H. exists iv, ia, (t ++ [RSession]). split; [by rewrite <- app_assoc|]. rewrite app_assoc. apply elem_of_app. right.
  apply list_elem_of_fmap. by exists t.
Qed.

Ltac member := repeat (first [apply list_elem_of_here | apply list_elem_of_further]).

Lemma segment_piece iv ia s : let l := RSession :: base iv ia in
  piece held (audio_segment s) l l /\ forall b, piece held (video_segment b s) l l.
Proof.
  intros l.
  assert (Hf : piece held (http_get RSeg (sg_fetch s)) l (when (got (sg_fetch s)) RSeg ++ l)).
  { apply http_get_piece; [|done]. intros t Ht. apply held_session. apply elem_of_app. by left. }
  assert (Hfail : piece held [Pt false] l l) by (apply piece_pt; [apply (held_session iv ia []); member|apply piece_nil]).
  assert (Hseg : piece held [Rel RSeg] (RSeg :: l) l) by (by apply (piece_rel _ _ _ _ l); [|apply piece_nil]).
  assert (Hwhole : piece held [Rel RWhole] (RWhole :: RSeg :: l) (RSeg :: l))
    by (by apply (piece_rel _ _ _ _ (RSeg :: l)); [|apply piece_nil]).
  split; [|intros b]; (eapply piece_seq; [exact Hf|]); destruct (got (sg_fetch s)); try exact Hfail; cbn [when app].
  - apply (piece_seq _ _ _ _ (RSeg :: l)); [|exact Hseg]. destruct (sg_malloc s); [|apply piece_nil].
    apply piece_acq. eapply piece_seq; [|exact Hwhole]. apply demux_piece. apply Forall_fmap, Forall_true. intros x.
    apply (held_session iv ia [RDemux; RWhole; RSeg]). member.
  - apply (piece_seq _ _ _ _ (RSeg :: l)); [|exact Hseg]. destruct b.
    + destruct (sg_malloc s); [|apply piece_nil]. apply piece_acq, piece_pt; [apply (held_session iv ia [RWhole; RSeg]); member|].
      eapply piece_seq; [|exact Hwhole]. apply demux_piece, Forall_true. intros [].
      * exists iv, ia, [RDemux; RWhole; RSeg; RSession]. split; [done|member].
      * apply (held_session iv ia [RDemux; RWhole; RSeg]). member.
    + apply piece_pt; [apply (held_session iv ia [RSeg]); member|]. apply demux_piece, Forall_true. intros [].
      * exists iv, ia, [RDemux; RSeg; RSession]. split; [done|member].
      * apply (held_session iv ia [RDemux; RSeg]). member.
Qed.

Lemma manifest_piece f l : (forall t, t ∈ fetching -> held (t ++ l) false) -> piece held (load_manifest f) l l.
Proof.
  intros HQ. eapply piece_seq; [by apply http_get_piece|]. destruct (got f); cbn [when app]; [|apply piece_nil].
  by apply (piece_rel _ _ _ _ l); [|apply piece_nil].
Qed.

Lemma round_piece iv ia b c r : let l := RSession :: base iv ia in piece held (reader_round b c r) l l.
Proof.
  intros l. assert (H0 : held l false) by (apply (held_session iv ia []); member).
  eapply piece_seq; [apply manifest_piece; intros t Ht; apply held_session; apply elem_of_app; by left|].
  eapply piece_seq; [by apply piece_pt; [|apply piece_nil]|].
  eapply piece_seq; [destruct c; [apply piece_bind; intros s; apply segment_piece|apply piece_nil]|].
  eapply piece_seq; [apply piece_bind; intros s; apply segment_piece|]. by apply piece_pts.
Qed.

Lemma drop_inits iv ia : piece held (when iv (Rel RInitV) ++ when ia (Rel RInitA)) (base iv ia) (base false false).
Proof.
  destruct iv, ia; cbn [when app].
  - apply (piece_rel _ _ _ _ [RInitA; RPacket]); [done|]. apply (piece_rel _ _ _ _ [RPacket]); [done|apply piece_nil].
  - apply (piece_rel _ _ _ _ [RPacket]); [done|apply piece_nil].
  - apply (piece_rel _ _ _ _ [RPacket]); [done|apply piece_nil].
  - apply piece_nil.
Qed.

Lemma setup_piece a iv ia : piece held (setup a) (base iv ia) (RSession :: base iv ia).
Proof.
  assert (H : forall n, piece held (dash_init_setup_one n) (RSession :: base iv ia) (RSession :: base iv ia)).
  { intros n. apply piece_acq. eapply piece_seq; [apply piece_pts, (held_early iv ia [RDemux; RSession]); member|].
    by apply (piece_rel _ _ _ _ (RSession :: base iv ia)); [|apply piece_nil]. }
  apply piece_acq. eapply piece_seq; [apply H|]. destruct (at_ok a && got (at_init_a a)); [apply H|apply piece_nil].
Qed.

(** A thread at a pass of its outer loop ends with nothing, or is cancelled. *)
Lemma loop_end l : forall iv ia n, exists h f, cancelled n (reader_loop iv ia l) (base iv ia) = Some (h, f) /\
  match f with Returned => h = [] | Cancelled b => held h b \/ (h = [] /\ b = false) end.
Proof.
  assert (Hnil : forall iv ia n, exists h f, cancelled n (reader_stop iv ia) (base iv ia) = Some (h, f) /\
    match f with Returned => h = [] | Cancelled b => held h b \/ (h = [] /\ b = false) end).
  { intros [] [] [|n]; cbn; (eexists _, _; split; [reflexivity|]); (reflexivity || (right; split; reflexivity)). }
  (** A piece, and then the rest of the thread. *)
  assert (Hthen : forall ops k l0 l1, piece held ops l0 l1 ->
    (forall n, exists h f, cancelled n k l1 = Some (h, f) /\ match f with Returned => h = [] | Cancelled b => held h b \/ (h = [] /\ b = false) end) ->
    forall n, exists h f, cancelled n (ops ++ k) l0 = Some (h, f) /\ match f with Returned => h = [] | Cancelled b => held h b \/ (h = [] /\ b = false) end).
  { intros ops k l0 l1 Hp Hk n. destruct (Hp k n) as [(h & b & -> & Hh)|[n' ->]]; [|apply Hk]. eexists _, _. split; [done|]. by left. }
  induction l as [|a l IH]; intros iv ia; [apply Hnil|]. cbn [reader_loop].
  assert (Hearly : forall iv ia, held (base iv ia) false) by (intros iv' ia'; apply (held_early iv' ia' []); member).
  assert (Hget : forall iv ia dest f, dest <> RRaw -> piece held (http_get dest f) (base iv ia) (when (got f) dest ++ base iv ia)).
  { intros iv' ia' dest f Hd. apply http_get_piece; [|done]. intros t Ht. apply held_early, elem_of_app. by left. }
  apply (Hthen _ _ _ (base iv ia)). { apply manifest_piece. intros t Ht. apply held_early, elem_of_app. by left. }
  destruct (at_loaded a); cbn [negb].
  2: { apply (Hthen [Pt false; Pt false] _ _ (base iv ia)); [|apply IH]. do 2 (apply piece_pt; [apply Hearly|]). apply piece_nil. }
  change (Pt false :: ?x) with ([Pt false] ++ x). apply (Hthen _ _ _ (base iv ia)); [apply piece_pt; [apply Hearly|apply piece_nil]|].
  rewrite (app_assoc (when iv (Rel RInitV))). apply (Hthen _ _ _ _ (drop_inits iv ia)).
  apply (Hthen _ _ _ _ (Hget false false RInitV (at_init_v a) ltac:(done))).
  change (when (got (at_init_v a)) RInitV ++ base false false) with (base (got (at_init_v a)) false).
  apply (Hthen _ _ _ _ (Hget (got (at_init_v a)) false RInitA (at_init_a a) ltac:(done))).
  change (when (got (at_init_a a)) RInitA ++ base (got (at_init_v a)) false) with (base (got (at_init_v a)) (got (at_init_a a))).
  apply (Hthen _ _ _ _ (setup_piece a _ _)). cbv zeta.
  set (iv' := got (at_init_v a)). set (ia' := got (at_init_a a)).
  assert (Hs : piece held [Rel RSession] (RSession :: base iv' ia') (base iv' ia')) by (by apply (piece_rel _ _ _ _ (base iv' ia')); [|apply piece_nil]).
  destruct (at_ok a); cbn [negb].
  - apply (Hthen _ _ _ (RSession :: base iv' ia')); [apply piece_bind; intros r; apply round_piece|].
    apply (Hthen _ _ _ _ Hs). apply Hnil.
  - apply (Hthen [Pt false; Rel RSession; Pt false] _ _ (base iv' ia')); [|apply IH].
    apply piece_pt; [apply (held_early iv' ia' [RSession]); member|]. apply (piece_seq _ [Rel RSession] [Pt false] _ _ _ Hs).
    apply piece_pt; [apply Hearly|apply piece_nil].
Qed.

(** However the requests, the library and the segments turn out: a reader that
    returns has released everything; one that is cancelled leaves its packet, the
    initialisation segments it has and, according to where it is, a request, the
    objects of its session or a segment - or nothing, in its last report. In a
    wait for a frame slot these are its session and a segment. *)
Definition ends_well (t : life) : Prop := exists f, thread_end t = Some (leaves t, f) /\
  match f with Returned => leaves t = [] | Cancelled b => leaves_lock t = b /\ (held (leaves t) b \/ (leaves t = [] /\ b = false)) end.

Lemma reader_leaves t : ends_well t.
Proof.
  destruct (loop_end (passes t) false false (cancel_at t)) as (h & f & E & H).
  unfold ends_well, leaves_lock, leaves, thread_end, dash_reader_direct. cbn [cancelled]. change [RPacket] with (base false false). rewrite E. exists f. split; [done|]. by destruct f.
Qed.

End Rt.
