(* ===== verification/AvSession.v ===== *)
(** * Sessions with libavformat ([apps/thinclient/main.c])

    Opening and closing a DASH session: the memory reader, the setup of the
    filter, the decoder and the resampler from the initialisation segments or from
    a live context, and the reader that leaves fetching to libavformat. What the
    library answers is an argument; the objects that are alive are a ledger, so
    that a second release and a release that is missing show. *)

From S2P Require Import Prelude AvSync AudioWorker Demux Ledger.

#[local] Open Scope Z_scope.

Module Av.
Import AvSync Demux Ledger.
#[local] Existing Instances AvSync.eta_timeline Demux.eta_session Demux.eta_demux.

(** ** Objects *)

(** A buffer and a context of a memory reader, the reader, a demuxer, a filter, a
    decoder, a resampler, a frame, the buffer of resampled sound. *)
Inductive obj := OBuf | OMem | OAvio | OFmt | OBsf | OCtx | OSwr | OFrame | OPcm.

#[export] Instance obj_eq_dec : EqDecision obj.
Proof. solve_decision. Defined.

Abbreviation ledger := (list obj) (only parsing).

(** ** The memory reader *)

(** [b1], [b2], [b3]: the three allocations. *)
Definition dash_open_mem_io (a : bool * bool * bool) (l : ledger) : option (bool * ledger) :=
  let '(b1, b2, b3) := a in
  if negb b1 then Some (false, l) else
  let l := OBuf :: l in
  if negb b2 then l ← free OBuf l; Some (false, l) else
  let l := OMem :: l in
  if negb b3 then l ← free OMem l; l ← free OBuf l; Some (false, l) else
  Some (true, OAvio :: l).

(** [avio_context_free] releases the reader, not its buffer. *)
Definition dash_close_mem_io (l : ledger) : option ledger := l ← free OMem l; free OAvio l.

(** ** The session *)

(** [dash_session]: its streams and which of its pointers are set. *)
Record handles := mk_handles {
  vs : Z; as_ : Z; h_bsf : bool; h_ctx : bool; h_swr : bool; h_frame : bool; h_pcm : bool; h_fmt : bool;
}.

#[export] Instance eta_handles : Eta handles := fun s =>
  mk_handles (vs s) (as_ s) (h_bsf s) (h_ctx s) (h_swr s) (h_frame s) (h_pcm s) (h_fmt s).

(** A stream: its type and its average frame rate. *)
Definition stream : Type := media * (Z * Z).

(** Answers: for the filter (found, allocated, parameters copied, initialised);
    for the sound (decoder found, context, parameters, opened, resampler
    allocated, initialised, frame). *)
Record answers := mk_answers {
  a_bsf : bool * bool * bool * bool;
  a_dec : bool * bool * bool * bool; a_swr : bool * bool; a_frame : bool;
}.

(** The first stream of a type; -1: none. *)
Fixpoint find_stream (m : media) (i : Z) (ss : list stream) : Z :=
  match ss with
  | [] => -1
  | (k, _) :: ss => match m, k with
                    | Video, Video | Audio, Audio => i
                    | _, _ => find_stream m (i + 1) ss
                    end
  end.

Definition setup_bsf (a : answers) (s : handles) (l : ledger) : option (handles * ledger) :=
  let '(b1, b2, b3, b4) := a_bsf a in
  let '(s, l) := if b1 && b2 then (s <| h_bsf := true |>, OBsf :: l) else (s, l) in
  if b1 && b2 && b3 && b4 then Some (s, l) else
  l ← free_if (h_bsf s) OBsf l; Some (s <| h_bsf := false |>, l).

(** The status, and whether a decoder was opened. *)
Definition setup_audio (a : answers) (s : handles) (l : ledger) : option (bool * handles * ledger) :=
  let '(b1, b2, b3, b4) := a_dec a in
  if negb b1 then Some (false, s, l) else
  let '(s, l) := if b2 then (s <| h_ctx := true |>, OCtx :: l) else (s <| h_ctx := false |>, l) in
  if b2 && b3 && b4 then
    let '(w1, w2) := a_swr a in
    let '(s, l) := if w1 then (s <| h_swr := true |>, OSwr :: l) else (s, l) in
    if w1 && w2 then
      Some (true, s <| h_frame := a_frame a |>, if a_frame a then OFrame :: l else l)
    else
      l ← free_if (h_swr s) OSwr l; l ← free OCtx l;
      Some (true, s <| h_swr := false |> <| h_ctx := false |>, l)
  else
    l ← free_if (h_ctx s) OCtx l; Some (false, s <| h_ctx := false |>, l).

(** [dash_session_setup]: the session of a live context. *)
Definition dash_session_setup (ss : list stream) (a : answers) (l : ledger) : option (Z * handles * ledger) :=
  let s := mk_handles (find_stream Video 0 ss) (find_stream Audio 0 ss) false false false false false false in
  if decide (vs s < 0) then Some (-1, s, l) else
  '(s, l) ← setup_bsf a s l;
  if decide (as_ s >= 0) then '(_, s, l) ← setup_audio a s l; Some (0, s, l) else Some (0, s, l).

(** The answers to the setup from one initialisation segment. *)
Record init_env := mk_init {
  i_io : bool * bool * bool; i_fmt : bool; i_open : bool; i_probe : bool; i_streams : list stream; i_ans : answers;
}.

(** The frame rate of the stream, rounded, where none is known. *)
Definition stream_rate (fps : Z) (fr : Z * Z) : Z :=
  if decide (fr.1 > 0 /\ fr.2 > 0 /\ fps <= 0) then i32 (Z.quot (fr.1 + Z.quot fr.2 2) fr.2) else fps.

(** The setup, once the segment is open; whether it can be probed is its first
    answer. *)
Definition init_body (e : init_env) (want_audio : bool) (fps : Z) (s : handles) (l : ledger)
    : option (Z * Z * handles * ledger) :=
  if negb (i_probe e) then Some (-1, fps, s, l) else
  if negb want_audio then
    let i := find_stream Video 0 (i_streams e) in
    let s := if decide (i >= 0) then s <| vs := i |> else s in
    if decide (vs s >= 0) then
      st ← zget (i_streams e) (vs s);
      '(s, l) ← setup_bsf (i_ans e) s l;
      Some (0, stream_rate fps (snd st), s, l)
    else Some (-1, fps, s, l)
  else
    let i := find_stream Audio 0 (i_streams e) in
    let s := if decide (i >= 0) then s <| as_ := i |> else s in
    if decide (as_ s >= 0) then
      '(ok, s, l) ← setup_audio (i_ans e) s l; Some (if ok : bool then 0 else -1, fps, s, l)
    else Some (-1, fps, s, l).

(** [dash_init_setup_one]. When opening fails, the library has released the
    demuxer and cleared the pointer, through which the code writes. *)
Definition dash_init_setup_one (e : init_env) (want_audio : bool) (fps : Z) (s : handles) (l : ledger)
    : option (Z * Z * handles * ledger) :=
  '(io, l) ← dash_open_mem_io (i_io e) l;
  if negb io then Some (-1, fps, s, l) else
  if negb (i_fmt e) then l ← dash_close_mem_io l; Some (-1, fps, s, l) else
  if negb (i_open e) then None else
  let l := OFmt :: l in
  '(rc, fps, s, l) ← init_body e want_audio fps s l;
  l ← free OFmt l; l ← dash_close_mem_io l;
  Some (rc, fps, s, l).

(** [audio]: the initialisation segment of the sound, if there is one. *)
Definition dash_session_setup_from_init (video : init_env) (audio : option init_env) (fps : Z) (l : ledger)
    : option (Z * Z * handles * ledger) :=
  let s := mk_handles (-1) (-1) false false false false false false in
  '(rc, fps, s, l) ← dash_init_setup_one video false fps s l;
  if decide (rc <> 0) then Some (-1, fps, s, l) else
  match audio with
  | None => Some (0, fps, s, l)
  | Some e => '(_, fps, s, l) ← dash_init_setup_one e true fps s l; Some (0, fps, s, l)
  end.

(** [dash_session_open]: [tries]: whether each attempt to open succeeds (the loop
    makes at most 30, and ends when [g_run] is cleared). *)
Definition dash_session_open (tries : list bool) (probe : bool) (ss : list stream) (a : answers) (l : ledger)
    : option (Z * handles * ledger) :=
  let none := mk_handles (-1) (-1) false false false false false false in
  if negb (existsb id (take 30 tries)) then Some (-1, none, l) else
  let l := OFmt :: l in
  if negb probe then l ← free OFmt l; Some (-1, none, l) else
  '(rc, s, l) ← dash_session_setup ss a l;
  if decide (rc <> 0) then l ← free OFmt l; Some (-1, s, l) else Some (0, s <| h_fmt := true |>, l).

Definition dash_session_close (s : handles) (l : ledger) : option ledger :=
  l ← free_if (h_bsf s) OBsf l; l ← free_if (h_ctx s) OCtx l; l ← free_if (h_swr s) OSwr l;
  l ← free_if (h_frame s) OFrame l; l ← free_if (h_pcm s) OPcm l; free_if (h_fmt s) OFmt l.

(** ** The reader of libavformat ([dash_reader]) *)

(** A read: the packet, or an error ([None]); the clock after it; the wall clock
    at each unit published. *)
Record libav_read := mk_read { r_pkt : option packet; r_now : Z; r_wall : nat -> Z }.

Section Reader.
Context {B D R F : Type} `{L : AvLib B D R F}.
Context (fps latency : Z) (ok : Z -> bool).

Definition publish_now (r : libav_read) (fidx pts : Z) (outs : list (list Z)) : list call :=
  imap (fun j au => Publish au (u64 (u64 (r_wall r j) + latency)) fidx pts 0) (filter (fun au => au <> []) outs).

(** A packet of the session's video stream. *)
Definition libav_video (r : libav_read) (p : packet) (x : demux B D R) : option (demux B D R) :=
  let fidx := g_video_frame_count x in
  let pts := fidx * (if decide (fps > 0) then 1000000 / fps else 16667) in
  let x := x <| g_dash_pkts := u64 (g_dash_pkts x + 1) |> <| g_video_frame_count := u32 (fidx + 1) |> in
  match bsfc (ses x) with
  | Some b =>
    '(outs, b) ← bsf_feed b p;
    Some (x <| ses := (ses x) <| bsfc := Some b |> |> <| calls := calls x ++ publish_now r fidx pts outs |>)
  | None => Some (x <| calls := calls x ++ publish_now r fidx pts [p_bytes p] |>)
  end.

(** A packet of its audio stream: when the decoder refuses it, it is gone. *)
Definition libav_audio (d : D) (p : packet) (x : demux B D R) : option (demux B D R) :=
  let p := mk_packet (p_media p) (p_tb p) (p_pts p) (p_bytes p) false in
  match dec_send d p with
  | None => Some x
  | Some d =>
    '(s, d, cs) ← dec_drain ok (S (dec_held d)) (ses x) d;
    Some (x <| ses := s <| actx := Some d |> |> <| calls := calls x ++ cs |>)
  end.

Definition libav_packet (r : libav_read) (p : packet) (x : demux B D R) : option (demux B D R) :=
  match p_media p with
  | Video => libav_video r p x
  | Audio => match actx (ses x), swr (ses x) with
             | Some d, Some _ => if aframe (ses x) then libav_audio d p x else Some x
             | _, _ => Some x
             end
  | Other => Some x
  end.

(** The reads of a session; [true]: it stalled for 20 s and is opened anew. *)
Fixpoint libav_loop (last_pkt : Z) (rs : list libav_read) (x : demux B D R) : option (demux B D R * bool) :=
  match rs with
  | [] => Some (x, false)
  | r :: rs =>
    match r_pkt r with
    | None => if decide (u64 (r_now r - last_pkt) > 20000000) then Some (x, true) else libav_loop last_pkt rs x
    | Some p => x ← libav_packet r p x; libav_loop (r_now r) rs x
    end
  end.

End Reader.

(** ** Every object is released, once *)

(** What a session owns. *)
Definition owned (s : handles) : ledger :=
  when (h_bsf s) OBsf ++ when (h_ctx s) OCtx ++ when (h_swr s) OSwr ++ when (h_frame s) OFrame
  ++ when (h_pcm s) OPcm ++ when (h_fmt s) OFmt.

(** Sound that can be played: a decoder goes with a resampler, a frame needs
    both. *)
Definition consistent (s : handles) : Prop := h_ctx s = h_swr s /\ (h_frame s = true -> h_swr s = true).

(** Releasing what is released in order. *)
Lemma close_owned s l l0 : l ≡ₚ owned s ++ l0 -> exists l', dash_session_close s l = Some l' /\ l' ≡ₚ l0.
Proof.
  unfold owned, dash_session_close. rewrite <- !app_assoc. intros H.
  repeat (destruct (free_if_here _ _ _ _ H) as (? & E & H'); rewrite E; clear E H; cbn [mbind option_bind]; rename H' into H).
  by eexists.
Qed.

Lemma setup_bsf_owned a s l l0 : h_bsf s = false -> l ≡ₚ owned s ++ l0 ->
  exists b l', setup_bsf a s l = Some (s <| h_bsf := b |>, l') /\ l' ≡ₚ owned (s <| h_bsf := b |>) ++ l0.
Proof.
  intros Hb Hl. destruct s as [v au hb hc hs hf hp hm]. cbn in Hb. subst hb. unfold setup_bsf.
  destruct (a_bsf a) as [[[b1 b2] b3] b4].
  destruct b1, b2, b3, b4; cbn; eexists _, _; (split; [reflexivity|]); cbn; by rewrite Hl.
Qed.

Lemma setup_audio_owned a s l l0 : h_ctx s = false -> h_swr s = false -> h_frame s = false -> l ≡ₚ owned s ++ l0 ->
  exists ok c w f l', let s' := s <| h_ctx := c |> <| h_swr := w |> <| h_frame := f |> in
    setup_audio a s l = Some (ok, s', l') /\ l' ≡ₚ owned s' ++ l0 /\ consistent s'.
Proof.
  intros Hc Hw Hf Hl. destruct s as [v au hb hc hs hf hp hm]. cbn in Hc, Hw, Hf. subst hc hs hf.
  unfold setup_audio. destruct a as [? [[[b1 b2] b3] b4] [w1 w2] fr]. cbn.
  destruct b1, b2, b3, b4; cbn; try (eexists _, false, false, false, _; (split; [reflexivity|]); cbn; by rewrite Hl).
  destruct w1, w2; cbn; try (eexists _, false, false, false, _; (split; [reflexivity|]); cbn; by rewrite Hl).
  eexists _, true, true, fr, _. split; [reflexivity|]. split; [|by destruct fr]. unfold owned in *. cbn in *.
  destruct hb, fr, hp, hm; cbn in *; rewrite Hl; solve_Permutation.
Qed.

Lemma find_stream_range m ss : forall i, 0 <= i -> find_stream m i ss = -1 \/ i <= find_stream m i ss < i + zlen ss.
Proof.
  induction ss as [|[k fr] ss IH]; intros i Hi; cbn [find_stream]; [by left|]. rewrite zlen_cons. pose proof (zlen_nonneg ss).
  specialize (IH (i + 1) ltac:(lia)). destruct m, k; lia.
Qed.

(** The buffer that a memory reader leaves behind. *)
Definition left_buffer (e : init_env) : ledger :=
  let '(b1, b2, b3) := i_io e in when (b1 && b2 && b3) OBuf.

Lemma mem_io_owned a l : exists ok l1, dash_open_mem_io a l = Some (ok, l1) /\
  ok = (let '(b1, b2, b3) := a in b1 && b2 && b3) /\ l1 = (if ok then [OAvio; OMem; OBuf] else []) ++ l.
Proof. destruct a as [[[] []] []]; cbn; eexists _, _; (split; [reflexivity|]); done. Qed.

Lemma close_mem_io_owned k l l0 : l ≡ₚ k ++ [OAvio; OMem; OBuf] ++ l0 ->
  exists l', dash_close_mem_io l = Some l' /\ l' ≡ₚ k ++ OBuf :: l0.
Proof.
  intros Hl. unfold dash_close_mem_io.
  destruct (free_here OMem l (k ++ [OAvio; OBuf] ++ l0)) as (l1 & -> & H1); [rewrite Hl; solve_Permutation|].
  destruct (free_here OAvio l1 (k ++ [OBuf] ++ l0)) as (l2 & E & H2); [rewrite H1; solve_Permutation|].
  cbn [mbind option_bind]. rewrite E. by exists l2.
Qed.

(** A session to which video, or sound, has yet to be added. *)
Definition before (want_audio : bool) (s : handles) : Prop :=
  if want_audio then h_ctx s = false /\ h_swr s = false /\ h_frame s = false
  else vs s = -1 /\ h_bsf s = false.

Lemma init_body_owned e w fps s l l0 : before w s -> consistent s -> l ≡ₚ owned s ++ l0 ->
  exists rc fps' s' l', init_body e w fps s l = Some (rc, fps', s', l') /\ l' ≡ₚ owned s' ++ l0 /\ consistent s' /\
    (w = false -> (rc = 0 <-> 0 <= vs s') /\ (before true s -> before true s')) /\
    (w = true -> vs s' = vs s) /\ h_pcm s' = h_pcm s.
Proof.
  intros Hb Hc Hl. unfold init_body. destruct (i_probe e); cbn [negb].
  2: { exists (-1), fps, s, l. split_and!; try done. intros ->. destruct Hb as [Hv _]. split; [|done]. rewrite Hv. split; lia. }
  destruct w; cbn [negb].
  - set (i := find_stream Audio 0 (i_streams e)). set (s1 := if decide (i >= 0) then _ else s).
    assert (Hs1 : owned s1 = owned s /\ vs s1 = vs s /\ h_pcm s1 = h_pcm s /\ before true s1 /\ consistent s1).
    { unfold s1. by case_decide. }
    destruct Hs1 as (Ho & Hv & Hpc & (B1 & B2 & B3) & Hc1). rewrite <- Ho in Hl. case_decide.
    + destruct (setup_audio_owned (i_ans e) s1 l l0 B1 B2 B3 Hl) as (ok & c & u & f & l' & E & Hl' & Hc').
      rewrite E. cbn [mbind option_bind]. eexists _, _, _, _. split; [done|]. by split_and!.
    + eexists _, _, _, _. split; [done|]. by split_and!.
  - destruct Hb as [Hv Hh]. set (i := find_stream Video 0 (i_streams e)).
    destruct (find_stream_range Video (i_streams e) 0 ltac:(lia)) as [Hi|Hi]; fold i in Hi.
    + rewrite (decide_False (P := i >= 0)), decide_False by lia. eexists _, _, _, _. split; [done|]. split_and!; try done.
      intros _. split; [|done]. rewrite Hv. lia.
    + rewrite (decide_True (P := i >= 0)) by lia. set (s1 := s <| vs := i |>).
      rewrite decide_True by (change (vs s1) with i; lia).
      destruct (zget_is_Some (i_streams e) (vs s1)) as [st ->]; [change (vs s1) with i; lia|]. cbn [mbind option_bind].
      destruct (setup_bsf_owned (i_ans e) s1 l l0 Hh Hl) as (h & l' & -> & Hl'). cbn [mbind option_bind].
      eexists _, _, _, _. split; [done|]. split_and!; try done. intros _. split; [|done].
      change (vs (s1 <| h_bsf := h |>)) with i. lia.
Qed.

Lemma init_setup_owned e w fps s l l0 : i_open e = true -> before w s -> consistent s -> l ≡ₚ owned s ++ l0 ->
  exists rc fps' s' l', dash_init_setup_one e w fps s l = Some (rc, fps', s', l') /\
    l' ≡ₚ owned s' ++ left_buffer e ++ l0 /\ consistent s' /\
    (w = false -> (rc = 0 <-> 0 <= vs s') /\ (before true s -> before true s')) /\ (w = true -> vs s' = vs s) /\
    h_pcm s' = h_pcm s.
Proof.
  intros Ho Hb Hc Hl. unfold dash_init_setup_one, left_buffer. destruct (mem_io_owned (i_io e) l) as (ok & l1 & -> & Hok & ->).
  destruct (i_io e) as [[b1 b2] b3]. rewrite <- Hok. clear Hok. cbn [mbind option_bind].
  assert (Hv : w = false -> vs s = -1) by (intros ->; apply Hb).
  destruct ok; cbn [negb].
  2: { exists (-1), fps, s, l. split_and!; try done. intros Hw. split; [|done]. rewrite Hv by done. lia. }
  destruct (i_fmt e); cbn [negb].
  2: { destruct (close_mem_io_owned (owned s) ([OAvio; OMem; OBuf] ++ l) l0) as (l' & -> & Hl'); [rewrite Hl; solve_Permutation|].
       cbn [mbind option_bind]. exists (-1), fps, s, l'. split_and!; try done. intros Hw. split; [|done]. rewrite Hv by done. lia. }
  rewrite Ho. cbn [negb].
  destruct (init_body_owned e w fps s (OFmt :: [OAvio; OMem; OBuf] ++ l) (OFmt :: [OAvio; OMem; OBuf] ++ l0) Hb Hc)
    as (rc & fps' & s' & l2 & -> & Hl2 & Hc' & Hvid & Haud & Hpcm); [rewrite Hl; solve_Permutation|].
  cbn [mbind option_bind]. destruct (free_here OFmt l2 (owned s' ++ [OAvio; OMem; OBuf] ++ l0)) as (l3 & -> & Hl3);
    [rewrite Hl2; solve_Permutation|].
  cbn [mbind option_bind]. destruct (close_mem_io_owned (owned s') l3 l0 Hl3) as (l4 & -> & Hl4). cbn [mbind option_bind].
  exists rc, fps', s', l4. by split_and!.
Qed.

(** A session that goes through decoding may own a buffer of sound. *)
Definition decoded (pcm : bool) (s : handles) (l : ledger) : handles * ledger :=
  (s <| h_pcm := pcm |>, when pcm OPcm ++ l).

Lemma decoded_owned pcm s l l0 : h_pcm s = false -> l ≡ₚ owned s ++ l0 ->
  let '(s', l') := decoded pcm s l in l' ≡ₚ owned s' ++ l0.
Proof. intros Hp Hl. unfold decoded, owned in *. cbn in *. rewrite Hp in Hl. destruct pcm; cbn; [|done]. rewrite Hl. solve_Permutation. Qed.

(** C24. What the setup allocates is released. For whatever the library answers, as
    long as the initialisation segments can be opened: the setup succeeds exactly
    when the index of a video stream has been recorded, its decoder goes with a resampler, and closing
    the session - after any decoding - releases every object it owns once and no
    object twice. What remains is the buffer of each memory reader. *)
Theorem session_resources video audio fps l0 pcm :
  i_open video = true -> (forall e, audio = Some e -> i_open e = true) ->
  exists rc fps' s l, dash_session_setup_from_init video audio fps l0 = Some (rc, fps', s, l) /\
    (rc = 0 <-> 0 <= vs s) /\ consistent s /\
    let '(s', l') := decoded pcm s l in
    exists l'', dash_session_close s' l' = Some l'' /\
      l'' ≡ₚ left_buffer video ++ (if decide (rc = 0) then from_option left_buffer [] audio else []) ++ l0.
Proof.
  intros Hv Ha. unfold dash_session_setup_from_init. set (s0 := mk_handles _ _ _ _ _ _ _ _).
  destruct (init_setup_owned video false fps s0 l0 l0 Hv) as (rc & f1 & s1 & l1 & -> & Hl1 & Hc1 & Hvid & _ & Hp1);
    [done|done|done|]. destruct (Hvid eq_refl) as [Hrc Hb]. specialize (Hb ltac:(done)). cbn [mbind option_bind].
  assert (Hend : forall s l k, h_pcm s = false -> l ≡ₚ owned s ++ k ->
    let '(s', l') := decoded pcm s l in exists l'', dash_session_close s' l' = Some l'' /\ l'' ≡ₚ k).
  { intros s l k Hps Hl. pose proof (decoded_owned pcm s l k Hps Hl) as Hd. destruct (decoded pcm s l). by apply close_owned. }
  case_decide as Hz.
  { exists (-1), f1, s1, l1. split; [done|]. split; [split; [lia|]; intros Hvs; by destruct Hz; apply Hrc|]. split; [done|].
    rewrite decide_False by lia. cbn [app]. by apply Hend. }
  destruct audio as [e|].
  - destruct (init_setup_owned e true f1 s1 l1 (left_buffer video ++ l0) (Ha e eq_refl) Hb Hc1) as (rc2 & f2 & s2 & l2 & -> & Hl2 & Hc2 & _ & Hvs & Hp2);
      [by rewrite Hl1|].
    cbn [mbind option_bind]. exists 0, f2, s2, l2. split; [done|]. split; [rewrite Hvs by done; naive_solver|]. split; [done|].
    rewrite decide_True by done. cbn [from_option]. specialize (Hend s2 l2 (left_buffer e ++ left_buffer video ++ l0)).
    destruct (decoded pcm s2 l2). destruct Hend as (l'' & E & H'); [by rewrite Hp2, Hp1|done|]. exists l''. split; [done|].
    rewrite H'. apply Permutation_app_swap_app.
  - exists 0, f1, s1, l1. split; [done|]. split; [naive_solver|]. split; [done|]. rewrite decide_True by done. cbn [from_option app].
    by apply Hend.
Qed.

Lemma live_closed pcm s l l0 : h_pcm s = false -> h_fmt s = false -> l ≡ₚ owned s ++ OFmt :: l0 ->
  let '(s', l') := decoded pcm (s <| h_fmt := true |>) l in
  (0 = 0 -> exists l'', dash_session_close s' l' = Some l'' /\ l'' ≡ₚ l0).
Proof.
  intros Hp Hf Hl. pose proof (decoded_owned pcm (s <| h_fmt := true |>) l l0) as Hd. specialize (Hd Hp).
  unfold decoded in *. intros _. apply close_owned, Hd. unfold owned in *. cbn. rewrite Hf in Hl. cbn in Hl.
  by rewrite Hl, <- !app_assoc.
Qed.

(** A live session leaves nothing behind. *)
Lemma libav_session_resources tries probe ss a l0 pcm :
  exists rc s l, dash_session_open tries probe ss a l0 = Some (rc, s, l) /\
    let '(s', l') := decoded pcm s l in
    rc = 0 -> exists l'', dash_session_close s' l' = Some l'' /\ l'' ≡ₚ l0.
Proof.
  unfold dash_session_open. destruct (existsb id _); cbn [negb]; [|by eexists _, _, _].
  destruct probe; cbn [negb]; [|by eexists _, _, _]. unfold dash_session_setup.
  set (s := mk_handles _ _ _ _ _ _ _ _). destruct (decide (vs s < 0)); [by eexists _, _, _|].
  destruct (setup_bsf_owned a s (OFmt :: l0) (OFmt :: l0)) as (b & l1 & -> & Hl1); [done|done|]. cbn [mbind option_bind].
  case_decide.
  - match goal with |- context [setup_audio a ?y l1] => set (s1 := y) in * end.
    destruct (setup_audio_owned a s1 l1 (OFmt :: l0) eq_refl eq_refl eq_refl Hl1) as (ok & c & w & f & l2 & E & Hl2 & _).
    rewrite E. cbn [mbind option_bind]. rewrite decide_False by lia. eexists _, _, _. split; [done|].
    by apply live_closed.
  - cbn [mbind option_bind]. rewrite decide_False by lia. eexists _, _, _. split; [done|]. by apply live_closed.
Qed.

Definition all_answers : answers := mk_answers (true, true, true, true) (true, true, true, true) (true, true) true.

Definition init_of (m : media) (a : answers) : init_env :=
  mk_init (true, true, true) true true true [(Other, (0, 0)); (m, (30000, 1001))] a.

(** A session whose resampler cannot be initialised. *)
Lemma session_resources_witness :
  let ea := init_of Audio (mk_answers (true, true, true, true) (true, true, true, true) (true, false) true) in
  exists s l, dash_session_setup_from_init (init_of Video all_answers) (Some ea) 0 [] = Some (0, 30, s, l) /\
    vs s = 1 /\ as_ s = 1 /\ h_ctx s = false /\
    exists l', dash_session_close (s <| h_pcm := true |>) (OPcm :: l) = Some l' /\ l' ≡ₚ [OBuf; OBuf].
Proof.
  intros ea. destruct (session_resources (init_of Video all_answers) (Some ea) 0 [] true) as (rc & f & s & l & E & _ & _ & H);
    [reflexivity|by intros e [= <-]|].
  unfold decoded in H. cbn [when app] in H. vm_compute in E. injection E as <- <- <- <-. eexists _, _. split; [reflexivity|].
  split_and!; try reflexivity. exact H.
Defined.

(** An initialisation segment that is missing or no media file: the setup writes
    through the null pointer instead of trying again. *)
Example missing_init_faults : forall s l,
  dash_init_setup_one (mk_init (true, true, true) true false false [] all_answers) false 0 s l = None.
Proof. reflexivity. Qed.

(** The reader of libavformat loses the packet its decoder refuses; the other one
    reads the decoder and sends it again ([Demux.audio_lossless]). *)
Example refused_packet_is_lost p d :
  held d <> [] -> forall x : demux (list (list Z)) toy_decoder Z, libav_audio (fun _ => true) d p x = Some x.
Proof. intros Hd x. unfold libav_audio. cbn. by destruct (held d). Qed.

(** Stalled for 20 s without a packet: the session is opened anew. *)
Example stall_reopens :
  let bad n := mk_read None n (fun _ => 0) in
  snd <$> libav_loop (B := list (list Z)) (D := toy_decoder) (R := Z) (F := Z) 30 85000 (fun _ => true) 1000000
            [bad 20000000; bad 21000000; bad 21000001] demo_demux = Some true.
Proof. vm_compute. reflexivity. Qed.

End Av.
