(* ===== verification/MainLoop.v ===== *)
(** * The loop of the UDP client ([apps/thinclient/main.c], [main])

    One pass: the session's timers, the datagrams that have arrived, the playable
    video, the input events and their uplink; the arguments of the program and
    the test pattern. Datagrams are arbitrary bytes. *)

From S2P Require Import Prelude Wire RingBuf Protocol Fragment JitterBuffer InputBatch SessionState Transport Session.
From S2P Require Import Text Latency SimSender UdpPath.
From stdpp Require Import strings.

#[local] Open Scope Z_scope.

Module Loop.
Import Proto Frag SM.
#[local] Existing Instances Proto.eta_header Input.eta_batch Sess.eta_ctx Udp.eta_client Frag.eta_asm.

(** ** Arguments *)

Record arguments := mk_args { mapper_host : list Z; mapper_port : Z; log_level : Z; dash_url : option (list Z) }.

#[export] Instance eta_arguments : Eta arguments := fun a =>
  mk_args (mapper_host a) (mapper_port a) (log_level a) (dash_url a).

Definition default_args : arguments := mk_args (Text.chars "127.0.0.1") 9999 2 None.

(** The words after the program's name; [n]: the positional ones so far. *)
Fixpoint parse_args (a : arguments) (n : nat) (ws : list (list Z)) : arguments :=
  match ws with
  | [] => a
  | w :: ws =>
    let a' := match n with
              | O => a <| mapper_host := w |>
              | 1%nat => a <| mapper_port := u16 (Text.atoi w) |>
              | 2%nat => a <| log_level := Text.atoi w |>
              | _ => a
              end in
    match ws with
    | url :: rest => if decide (w = Text.chars "--dash") then parse_args (a <| dash_url := Some url |>) n rest
                     else parse_args a' (S n) ws
    | [] => a'
    end
  end.

(** ** The test pattern *)

(** The pixel [x] of row [y]; [w] is the width. *)
Definition pattern_pixel (w sq x y : Z) : list Z :=
  let offset := u32 (sq * 8) in
  let band := (y / 64) mod 2 in
  let p := u32 (x + offset) mod 96 in
  if decide (x = offset mod w) then [255; 255; 255; 0]
  else [Z.lxor (u8 (p * 255 / 96)) band; u8 (255 - p * 255 / 96); u8 (p * 255 / 96); 0].

(** The stores of a row, from pixel [x] on. *)
Fixpoint pattern_row (w sq y : Z) (n : nat) (x : Z) (rgb : list Z) : option (list Z) :=
  match n with
  | O => Some rgb
  | S n => rgb ← blit rgb ((y * w + x) * 4) (pattern_pixel w sq x y); pattern_row w sq y n (x + 1) rgb
  end.

Fixpoint pattern_rows (w sq : Z) (n : nat) (y : Z) (rgb : list Z) : option (list Z) :=
  match n with
  | O => Some rgb
  | S n => rgb ← pattern_row w sq y (Z.to_nat w) 0 rgb; pattern_rows w sq n (y + 1) rgb
  end.

Definition render_pattern (rgb : list Z) (w h sq : Z) : option (list Z) := pattern_rows w sq (Z.to_nat h) 0 rgb.

(** ** The uplink *)

Definition input_flush_ms : Z := 4.

(** [sizeof(batch_pkt)] *)
Definition BATCH_PKT : Z := VMC_PROTO_HEADER_SIZE + 2 + Input.VMC_INPUT_BATCH_MAX_EVENTS * Input.sizeof_event.

(** Polling: [q] are the events there are. The event that finds the batch full
    has been polled. *)
Fixpoint collect (b : Input.vmc_input_batch) (q : list Input.vmc_input_event)
    : option (Input.vmc_input_batch * list Input.vmc_input_event) :=
  match q with
  | [] => Some (b, [])
  | e :: q =>
    '(st, b) ← Input.vmc_input_batch_push (Some b) (Some e);
    b ← b;
    if decide (st = VMC_ERR_OVERRUN) then Some (b, q) else collect b q
  end.

Definition input_header (n sq now_ms : Z) : vmc_proto_header :=
  {| magic := VMC_PROTO_MAGIC; version := VMC_PROTO_VERSION; flags := 0; stream := u8 VMC_PROTO_STREAM_INPUT;
     reserved := 0; payload_len := u16 (2 + n * Input.sizeof_event); seq := u32 sq; ts_us := u32 now_ms; crc := 0 |}.

Section Loop.
Context {T Q : Type} `{HT : TransportLaws T} `{HQ : ByteFifoLaws Q}.

(** The part of a pass that sends input: the session, the time of the last flush
    and what is handed to the transport. [b0]: the batch on the stack; [pkt],
    [batch_pkt]: the static buffers, [pkt] without the place of its header. *)
Definition input_pass (sc : Sess.vmc_session_ctx T) (last now_ms : Z) (b0 : Input.vmc_input_batch)
    (pkt batch_pkt : list Z) (q : list Input.vmc_input_event)
    : option (Sess.vmc_session_ctx T * Z * list Input.vmc_input_event * option (list Z)) :=
  '(b, q) ← collect (Input.vmc_input_batch_reset b0) q;
  if decide (u64 (now_ms - last) >= input_flush_ms /\ Input.count b > 0) then
    let h := input_header (Input.count b) (Sess.tx_seq sc) now_ms in
    let sc := sc <| Sess.tx_seq := u64 (Sess.tx_seq sc + 1) |> in
    '(n, pkt) ← Input.vmc_input_batch_serialize (Some b) (Some pkt) (zlen pkt);
    if decide (n > 0) then
      '(es, out) ← vmc_proto_encode (Some batch_pkt) BATCH_PKT (Some h) pkt;
      if decide (es > 0) then
        out ← out;
        let '(_, t) := vmc_transport_send (Sess.transport sc) out es in
        Some (sc <| Sess.transport := t |>, now_ms, q, Some (take (Z.to_nat es) out))
      else Some (sc, now_ms, q, None)
    else Some (sc, now_ms, q, None)
  else Some (sc, last, q, None).

(** Passes: the clock, the events that have come in since the one before, the
    state of the stack and the buffers. *)
Record in_pass := mk_in { i_now : Z; i_new : list Input.vmc_input_event; i_b0 : Input.vmc_input_batch;
                          i_pkt : list Z; i_out : list Z }.

Fixpoint input_run (sc : Sess.vmc_session_ctx T) (last : Z) (q : list Input.vmc_input_event) (ps : list in_pass)
    : option (Sess.vmc_session_ctx T * list (Z * list Z)) :=
  match ps with
  | [] => Some (sc, [])
  | p :: ps =>
    '(sc, last, q, d) ← input_pass sc last (i_now p) (i_b0 p) (i_pkt p) (i_out p) (q ++ i_new p);
    '(sc, ds) ← input_run sc last q ps;
    Some (sc, match d with Some d => [(i_now p, d)] | None => [] end ++ ds)
  end.

(** ** One pass *)

(** A datagram, and the clocks read while it is handled. *)
Record dgram := mk_dgram { d_bytes : list Z; d_push : Z; d_repush : Z; d_us : Z; d_ms : Z }.

Record main := mk_main {
  session : Sess.vmc_session_ctx T; jb : JB.vmc_jitter_buffer; video : Udp.client;
  offset : Latency.clock_offset; fifo : Q; last_input_flush_ms : Z; pending : list Input.vmc_input_event;
}.

#[export] Instance eta_main : Eta main := fun m =>
  mk_main (session m) (jb m) (video m) (offset m) (fifo m) (last_input_flush_ms m) (pending m).

Definition rx_datagram (m : main) (d : dgram) : option main :=
  '(st, r) ← vmc_proto_decode (Some (d_bytes d)) (zlen (d_bytes d));
  if decide (st <> VMC_OK) then Some m else
  '(h, off) ← r;
  m ← (if decide (stream h = VMC_PROTO_STREAM_VIDEO)
       then j ← Udp.rx_video (jb m) (d_bytes d) (zlen (d_bytes d)) (d_push d) (d_repush d); Some (m <| jb := j |>)
       else Some m);
  let m := if decide (stream h = VMC_PROTO_STREAM_CONTROL)
           then m <| offset := Latency.latency_update_rtt (offset m) (Sess.last_ka_send_us (session m)) (d_us d) (ts_us h) |>
           else m in
  m ← (if decide (stream h = VMC_PROTO_STREAM_AUDIO)
       then '(_, q) ← fifo_write (fifo m) (drop (Z.to_nat off) (d_bytes d)) (payload_len h); Some (m <| fifo := q |>)
       else Some m);
  '(_, sc) ← Sess.vmc_session_on_rx (session m) (Some (d_bytes d)) (zlen (d_bytes d)) (d_ms d);
  Some (m <| session := sc |>).

Fixpoint rx_datagrams (m : main) (ds : list dgram) : option main :=
  match ds with
  | [] => Some m
  | d :: ds => m ← rx_datagram m d; rx_datagrams m ds
  end.

(** The arguments of a pass: the clock, the keepalive's clock and its buffer, the
    datagrams, the clocks of the video loop, the input. *)
Record pass := mk_pass { p_us : Z; p_ka : list Z; p_dgrams : list dgram; p_clk : nat -> Z; p_in : in_pass }.

(** [nb]: the buffer of the next free frame slot; 257: a pass takes at most 256
    packets from the jitter buffer. *)
Definition main_pass (nb : Z -> list Z) (m : main) (p : pass) : option main :=
  '(_, sc) ← Sess.vmc_session_step (session m) (p_ka p) (i_now (p_in p)) (p_us p);
  m ← rx_datagrams (m <| session := sc |>) (p_dgrams p);
  '(j, v) ← Udp.drain_video nb 257 (p_clk p) (jb m) (video m);
  let i := p_in p in
  '(sc, last, q, _) ← input_pass (session m) (last_input_flush_ms m) (i_now i) (i_b0 i) (i_pkt i) (i_out i)
                        (pending m ++ i_new i);
  Some (m <| session := sc |> <| jb := j |> <| video := v |> <| last_input_flush_ms := last |> <| pending := q |>).

Fixpoint main_run (nb : Z -> list Z) (m : main) (ps : list pass) : option main :=
  match ps with
  | [] => Some m
  | p :: ps => m ← main_pass nb m p; main_run nb m ps
  end.

End Loop.
Arguments main : clear implicits.

(** ** The uplink carries what it says *)

(** The events of each pass that sends, with its time: the first 32; the next
    one is polled and dropped, the rest wait. *)
Fixpoint uplink_spec (last : Z) (q : list Input.vmc_input_event) (ps : list in_pass)
    : list (Z * list Input.vmc_input_event) :=
  match ps with
  | [] => []
  | p :: ps =>
    let q := q ++ i_new p in
    if decide (u64 (i_now p - last) >= input_flush_ms /\ q <> [])
    then (i_now p, take 32 q) :: uplink_spec (i_now p) (drop 33 q) ps
    else uplink_spec last (drop 33 q) ps
  end.

(** A datagram of the input stream with number [sq] from which a receiver reads
    the events. *)
Definition carries_events (sq : Z) (d : list Z) (es : list Input.vmc_input_event) : Prop :=
  exists h, vmc_proto_decode (Some d) (zlen d) = Some (VMC_OK, Some (h, 17)) /\
    stream h = VMC_PROTO_STREAM_INPUT /\ seq h = u32 sq /\
    forall o, zlen (Input.events o) = Input.VMC_INPUT_BATCH_MAX_EVENTS ->
      exists o', Input.vmc_input_batch_deserialize (Some (drop 17 d)) (payload_len h) (Some o)
                 = Some (VMC_OK, Some o') /\ Input.batch_list o' = es.

Lemma u32_u64 a : u32 (u64 a) = u32 a.
Proof. unfold u32, u64. apply Z.mod_mod_divide. exists 4294967296. lia. Qed.

Lemma u32_add_l a b c : u32 a = u32 b -> u32 (a + c) = u32 (b + c).
Proof. unfold u32. intros E. rewrite <- (Z.add_mod_idemp_l a), E by lia. by rewrite Z.add_mod_idemp_l by lia. Qed.

Lemma u64_u64_add a b : u64 (u64 a + b) = u64 (a + b).
Proof. apply Z.add_mod_idemp_l. lia. Qed.

(** Datagrams with the times and events of [sp], numbered from [sq]. *)
Fixpoint uplinked (sq : Z) (ds : list (Z * list Z)) (sp : list (Z * list Input.vmc_input_event)) : Prop :=
  match ds, sp with
  | [], [] => True
  | (t, d) :: ds, (t', es) :: sp => t = t' /\ carries_events sq d es /\ uplinked (sq + 1) ds sp
  | _, _ => False
  end.

Lemma carries_events_seq a b d es : u32 a = u32 b -> carries_events a d es -> carries_events b d es.
Proof. unfold carries_events. by intros ->. Qed.

Lemma uplinked_seq ds : forall sp a b, u32 a = u32 b -> uplinked a ds sp -> uplinked b ds sp.
Proof.
  induction ds as [|[t d] ds IH]; intros [|[t' es] sp] a b E; cbn; try done. intros (Ht & Hc & H). split; [done|].
  split; [by eapply carries_events_seq|]. eapply IH; [|exact H]. by apply u32_add_l.
Qed.

Definition in_pass_ok (p : in_pass) : Prop :=
  Input.batch_wf (Input.vmc_input_batch_reset (i_b0 p)) /\ 514 <= zlen (i_pkt p) /\ zlen (i_out p) = BATCH_PKT /\
  Forall Input.event_wf (i_new p).

Lemma collect_spec q : forall b, Input.batch_wf b -> Forall Input.event_wf q ->
  exists b', collect b q = Some (b', drop (Z.to_nat (33 - Input.count b)) q) /\ Input.batch_wf b' /\
    Input.batch_list b' = take 32 (Input.batch_list b ++ q).
Proof.
  induction q as [|e q IH]; intros b Hb Hq; cbn [collect].
  { exists b. rewrite drop_nil, app_nil_r, take_ge; [done|]. pose proof (Input.batch_list_zlen b Hb).
    destruct Hb as (_ & Hc & _). unfold Input.VMC_INPUT_BATCH_MAX_EVENTS, zlen in *. lia. }
  apply Forall_cons in Hq as [He Hq].
  destruct (Input.batch_push_spec b e Hb He) as (b1 & -> & Hb1 & Hl1). cbn [mbind option_bind].
  pose proof (Input.batch_list_zlen b Hb) as Hz. pose proof (Input.batch_list_zlen b1 Hb1) as Hz1.
  pose proof Hb as (_ & Hc & _). unfold Input.VMC_INPUT_BATCH_MAX_EVENTS in Hc.
  destruct (decide (Input.count b < 32)) as [Hlt|Hge].
  - rewrite decide_False by done. destruct (IH b1 Hb1 Hq) as (b2 & -> & Hb2 & Hl2). exists b2.
    rewrite Hl1, zlen_app, Hz in Hz1. change (zlen [e]) with 1 in Hz1. split_and!; [|done|].
    + do 2 f_equal. replace (Z.to_nat (33 - Input.count b)) with (S (Z.to_nat (33 - Input.count b1))) by lia. done.
    + by rewrite Hl2, Hl1, <- app_assoc.
  - rewrite decide_True by done. exists b1. split_and!; [|done|].
    + do 2 f_equal. by replace (Z.to_nat (33 - Input.count b)) with 1%nat by lia.
    + rewrite Hl1, take_app_length'; [done|]. unfold zlen in Hz. lia.
Qed.

Lemma event_bytes es : Forall Input.event_wf es -> bytes (Input.batch_bytes es).
Proof.
  intros _. unfold Input.batch_bytes. apply bytes_app. split; [apply LE.bytes16_bytes|].
  induction es as [|e es IH]; [constructor|]. cbn [fmap list_fmap concat]. apply bytes_app. split; [|exact IH].
  unfold Input.ev_bytes. rewrite !bytes_app. split_and!; apply LE.bytes16_bytes || apply LE.bytes32_bytes.
Qed.

Lemma input_header_wf n sq now : 0 <= n <= 32 ->
  header_wf (input_header n sq now) /\ payload_len (input_header n sq now) = 2 + 16 * n.
Proof.
  intros Hn. pose proof (u32_range sq). pose proof (u32_range now).
  assert (E : payload_len (input_header n sq now) = 2 + 16 * n)
    by (cbn; unfold Input.sizeof_event; rewrite u16_small by lia; lia).
  split; [|done]. unfold header_wf. rewrite E. cbn [magic version flags stream reserved seq ts_us crc input_header].
  unfold is_byte, VMC_PROTO_MAGIC, VMC_PROTO_VERSION. change (u8 VMC_PROTO_STREAM_INPUT) with 3. lia.
Qed.

(** The datagram of a batch. *)
Definition input_dgram (sq now : Z) (es : list Input.vmc_input_event) : list Z :=
  packet (input_header (zlen es) sq now) (Input.batch_bytes es).

Lemma input_dgram_carries sq now es : Forall Input.event_wf es -> zlen es <= 32 ->
  carries_events sq (input_dgram sq now es) es.
Proof.
  intros Hes Hn. pose proof (zlen_nonneg es). destruct (input_header_wf (zlen es) sq now ltac:(lia)) as [Hwf Hlen].
  pose proof (event_bytes es Hes) as Hb.
  assert (Hz : zlen (Input.batch_bytes es) = 2 + 16 * zlen es).
  { unfold Input.batch_bytes. rewrite zlen_app, Input.evs_bytes_zlen. done. }
  eexists. unfold input_dgram. rewrite packet_zlen, Hz. rewrite <- (app_nil_r (packet _ _)).
  rewrite decode_packet; [|done|done|done|lia|rewrite Hlen, Hz; change (zlen (@nil Z)) with 0; lia].
  split; [reflexivity|]. split; [done|]. split; [done|]. intros o Ho.
  change (payload_len (_ <| crc := _ |>)) with (payload_len (input_header (zlen es) sq now)). rewrite Hlen, app_nil_r.
  destruct (Input.deserialize_spec es [] (2 + 16 * zlen es) o Hes) as (o' & E & Hl & _);
    [unfold Input.VMC_INPUT_BATCH_MAX_EVENTS; lia|done|lia|].
  exists o'. split; [|done]. rewrite <- E, app_nil_r. reflexivity.
Qed.

Section Uplink.
Context {T : Type} `{HT : TransportLaws T}.

(** A pass that polled the events [q] in all. *)
Lemma input_pass_spec (sc : Sess.vmc_session_ctx T) last p q : in_pass_ok p -> Forall Input.event_wf q ->
  exists sc' d, input_pass sc last (i_now p) (i_b0 p) (i_pkt p) (i_out p) q
    = Some (sc', if d is Some _ then i_now p else last, drop 33 q, d) /\
    d = (if decide (u64 (i_now p - last) >= input_flush_ms /\ q <> [])
         then Some (input_dgram (Sess.tx_seq sc) (i_now p) (take 32 q)) else None) /\
    sc' = sc <| Sess.transport := Sess.transport sc' |>
             <| Sess.tx_seq := if d is Some _ then u64 (Sess.tx_seq sc + 1) else Sess.tx_seq sc |> /\
    exists sub, sub `sublist_of` option_list d /\ wire (Sess.transport sc') = wire (Sess.transport sc) ++ sub.
Proof.
  intros (Hb & Hpkt & Hout & _) Hq. unfold input_pass.
  destruct (collect_spec q _ Hb Hq) as (b & -> & Hwf & Hl). cbn [mbind option_bind].
  change (Input.batch_list (Input.vmc_input_batch_reset (i_b0 p))) with (@nil Input.vmc_input_event) in Hl.
  change (Z.to_nat (33 - Input.count (Input.vmc_input_batch_reset (i_b0 p)))) with 33%nat. cbn [app] in Hl.
  pose proof (Input.batch_list_zlen b Hwf) as Hz. rewrite Hl in Hz.
  assert (Hne : Input.count b > 0 <-> q <> []).
  { rewrite <- Hz. destruct q as [|e q]; [split; [intros Hq0; exfalso; unfold zlen in Hq0; cbn in Hq0; lia|done]|]. cbn [take]. rewrite zlen_cons. pose proof (zlen_nonneg (take 31 q)). split; [done|intros _; lia]. }
  destruct (decide (u64 (i_now p - last) >= input_flush_ms /\ Input.count b > 0)) as [Hd|Hd].
  2: { rewrite (decide_False (P := _ /\ q <> [])) by tauto. eexists sc, None. split; [done|]. split; [done|].
       split; [by destruct sc|]. exists []. by rewrite app_nil_r. }
  rewrite (decide_True (P := _ /\ q <> [])) by tauto.
  pose proof Hwf as (_ & Hc & _). unfold Input.VMC_INPUT_BATCH_MAX_EVENTS in Hc.
  rewrite (Input.serialize_spec b _ _ Hwf) by lia. cbn [mbind option_bind]. rewrite decide_True by lia.
  destruct (input_header_wf (Input.count b) (Sess.tx_seq sc) (i_now p) ltac:(lia)) as [Hhw Hhl].
  assert (Hbz : zlen (Input.batch_bytes (Input.batch_list b)) = 2 + 16 * Input.count b).
  { unfold Input.batch_bytes. rewrite zlen_app, Input.evs_bytes_zlen, Hl, Hz. done. }
  rewrite encode_spec; [|done|lia| |rewrite Hhl, Hout; unfold BATCH_PKT, Input.VMC_INPUT_BATCH_MAX_EVENTS, Input.sizeof_event, VMC_PROTO_HEADER_SIZE; lia].
  2: { unfold payload_ok. rewrite zlen_app. pose proof (zlen_nonneg (drop (Z.to_nat (2 + 16 * Input.count b)) (i_pkt p))). lia. }
  cbn [mbind option_bind]. rewrite decide_True by lia.
  assert (Hsent : payload_sent (input_header (Input.count b) (Sess.tx_seq sc) (i_now p))
                    (Some (Input.batch_bytes (Input.batch_list b) ++ drop (Z.to_nat (2 + 16 * Input.count b)) (i_pkt p)))
                  = Input.batch_bytes (take 32 q)).
  { unfold payload_sent. cbn [default]. rewrite Hhl, <- Hl. apply take_app_length'. unfold zlen in Hbz. lia. }
  rewrite Hsent. rewrite Hhl. rewrite Hl in Hbz.
  assert (Htake : forall k, take (Z.to_nat (17 + (2 + 16 * Input.count b)))
            (packet (input_header (Input.count b) (Sess.tx_seq sc) (i_now p)) (Input.batch_bytes (take 32 q)) ++ k)
            = input_dgram (Sess.tx_seq sc) (i_now p) (take 32 q)).
  { intros k. unfold input_dgram. rewrite Hz. apply take_app_length'.
    pose proof (packet_zlen (input_header (Input.count b) (Sess.tx_seq sc) (i_now p)) (Input.batch_bytes (take 32 q))).
    unfold zlen in *. lia. }
  rewrite Htake. match goal with |- context [vmc_transport_send ?t ?o ?n] => destruct (vmc_transport_send t o n) as [st t'] eqn:Es end.
  eexists _, (Some _). split; [done|]. split; [done|]. split; [by destruct sc|]. cbn [Sess.transport upd_field].
  change (Sess.transport (sc <| Sess.tx_seq := u64 (Sess.tx_seq sc + 1) |>)) with (Sess.transport sc) in Es.
  destruct (decide (st = VMC_OK)) as [->|Hst].
  - eexists. split; [reflexivity|]. rewrite (send_ok_law _ _ _ _ Es), Htake. done.
  - exists []. split; [apply sublist_nil_l|]. rewrite app_nil_r. exact (send_err_law _ _ _ _ _ Es Hst).
Qed.

(** A run of the uplink: it never faults, and sends one datagram per flush. *)
Lemma input_run_spec ps : forall (sc : Sess.vmc_session_ctx T) last q, Forall in_pass_ok ps -> Forall Input.event_wf q ->
  exists sc' ds, input_run sc last q ps = Some (sc', ds) /\
    uplinked (Sess.tx_seq sc) ds (uplink_spec last q ps) /\
    u64 (Sess.tx_seq sc') = u64 (Sess.tx_seq sc + zlen ds) /\
    exists sub, sub `sublist_of` ds.*2 /\ wire (Sess.transport sc') = wire (Sess.transport sc) ++ sub.
Proof.
  induction ps as [|p ps IH]; intros sc last q Hps Hq; cbn [input_run uplink_spec].
  { exists sc, []. split_and!; [done|done|cbn; by rewrite Z.add_0_r|]. exists []. by rewrite app_nil_r. }
  apply Forall_cons in Hps as [Hp Hps]. pose proof Hp as (_ & _ & _ & Hn).
  assert (Hqn : Forall Input.event_wf (q ++ i_new p)) by (by apply Forall_app).
  destruct (input_pass_spec sc last p (q ++ i_new p) Hp Hqn) as (sc1 & d & -> & Hd & Hsc & sub & Hsub & Hw).
  cbn [mbind option_bind].
  destruct (IH sc1 (if d is Some _ then i_now p else last) (drop 33 (q ++ i_new p)) Hps) as (sc2 & ds & -> & Hi & Hs & sub2 & Hsub2 & Hw2);
    [by apply Forall_drop|].
  cbn [mbind option_bind]. eexists sc2, _. split; [reflexivity|].
  assert (Hsq : Sess.tx_seq sc1 = if d is Some _ then u64 (Sess.tx_seq sc + 1) else Sess.tx_seq sc) by (rewrite Hsc; by destruct sc, d).
  rewrite Hw in Hw2. case_decide as Hc; subst d; cbv beta iota in Hsq, Hi, Hs, Hsub, Hsub2 |- *.
  - split_and!.
    + cbn [app uplinked]. split; [done|]. split.
      * apply input_dgram_carries; [by apply Forall_take|]. unfold zlen. rewrite length_take. lia.
      * rewrite Hsq in Hi. revert Hi. apply uplinked_seq. by rewrite u32_u64.
    + rewrite Hs, Hsq, u64_u64_add, zlen_app. change (zlen [_]) with 1. f_equal. lia.
    + exists (sub ++ sub2). rewrite app_assoc. split; [|done]. cbn. change (?a :: ?b) with ([a] ++ b). by apply sublist_app.
  - cbn [app]. split_and!.
    + rewrite <- Hsq. exact Hi.
    + by rewrite Hs, Hsq.
    + exists sub2. split; [done|]. apply sublist_nil_r in Hsub as ->. by rewrite app_nil_r in Hw2.
Qed.

End Uplink.

(** ** What is lost on the way up *)

(** Passes at least 4 ms after the one before, each with at most 32 new events. *)
Fixpoint unhurried (t : Z) (ps : list in_pass) : Prop :=
  match ps with
  | [] => True
  | p :: ps => t + input_flush_ms <= i_now p < 18446744073709551616 /\ zlen (i_new p) <= 32 /\ unhurried (i_now p) ps
  end.

Lemma unhurried_all ps : forall t last, 0 <= last <= t -> unhurried t ps ->
  concat (uplink_spec last [] ps).*2 = concat (i_new <$> ps).
Proof.
  induction ps as [|p ps IH]; intros t last Ht; cbn [unhurried uplink_spec fmap list_fmap concat app]; [done|].
  intros ((H1 & H2) & Hn & Hps). unfold input_flush_ms in *. unfold zlen in Hn.
  rewrite (drop_ge (i_new p)) by lia. rewrite u64_small by lia. case_decide as Hd.
  - cbn [fmap list_fmap concat snd]. rewrite take_ge by lia. f_equal. apply (IH (i_now p)); [lia|done].
  - assert (i_new p = []) as -> by (destruct (i_new p); [done|exfalso; apply Hd; split; [lia|done]]).
    apply (IH (i_now p)); [lia|done].
Qed.

Lemma uplink_sublist ps : forall last q, concat (uplink_spec last q ps).*2 `sublist_of` q ++ concat (i_new <$> ps).
Proof.
  induction ps as [|p ps IH]; intros last q; cbn [uplink_spec fmap list_fmap concat]; [apply sublist_nil_l|].
  rewrite app_assoc. generalize (q ++ i_new p). intros l. case_decide.
  - cbn [fmap list_fmap concat snd]. transitivity ((take 32 l ++ drop 32 l) ++ concat (i_new <$> ps)); [|by rewrite take_drop].
    rewrite <- app_assoc. apply sublist_app; [done|].
    etrans; [apply IH|]. apply sublist_app; [|done]. replace (drop 33 l) with (drop 1 (drop 32 l)) by (by rewrite drop_drop). apply sublist_drop.
  - etrans; [apply IH|]. apply sublist_app; [|done]. apply sublist_drop.
Qed.

(** The times of the sends, from [t] on. *)
Fixpoint spaced (t : Z) (ts : list Z) : Prop :=
  match ts with [] => True | u :: ts => u64 (u - t) >= input_flush_ms /\ spaced u ts end.

Lemma uplink_spaced ps : forall last q, spaced last (uplink_spec last q ps).*1.
Proof. induction ps as [|p ps IH]; intros last q; cbn [uplink_spec]; [done|]. case_decide; [|apply IH]. cbn. split; [tauto|apply IH]. Qed.

Lemma uplinked_times sq ds sp : uplinked sq ds sp -> ds.*1 = sp.*1.
Proof.
  revert sq sp. induction ds as [|[t d] ds IH]; intros sq [|[t' es] sp]; cbn; try done. intros (-> & _ & H). f_equal. by eapply IH.
Qed.

Section UplinkTheorem.
Context {T : Type} `{HT : TransportLaws T}.

(** C19. The input of the UDP client, over any sequence of passes: no access leaves a
    buffer; each datagram handed to the transport is one that a receiver decodes
    as an input packet with the next sequence number and whose batch reads back
    as exactly the events of that flush, so at most 32; sends are at least 4 ms
    apart; the transport's wire gets a subsequence of them; no event is
    invented, repeated or moved. Every event is delivered when the passes are
    at least 4 ms apart and bring at most 32 events each; a pass sooner than that
    loses what it polled. *)
Theorem input_uplink (sc : Sess.vmc_session_ctx T) last q ps : Forall in_pass_ok ps -> Forall Input.event_wf q ->
  exists sc' ds, input_run sc last q ps = Some (sc', ds) /\
    uplinked (Sess.tx_seq sc) ds (uplink_spec last q ps) /\ spaced last ds.*1 /\
    u64 (Sess.tx_seq sc') = u64 (Sess.tx_seq sc + zlen ds) /\
    (exists sub, sub `sublist_of` ds.*2 /\ wire (Sess.transport sc') = wire (Sess.transport sc) ++ sub) /\
    concat (uplink_spec last q ps).*2 `sublist_of` q ++ concat (i_new <$> ps) /\
    (q = [] -> 0 <= last -> unhurried last ps -> concat (uplink_spec last q ps).*2 = concat (i_new <$> ps)).
Proof.
  intros Hps Hq. destruct (input_run_spec ps sc last q Hps Hq) as (sc' & ds & E & Hu & Hs & Hw).
  exists sc', ds. split_and!; try done.
  - rewrite (uplinked_times _ _ _ Hu). apply uplink_spaced.
  - apply uplink_sublist.
  - intros -> Hl. apply unhurried_all. lia.
Qed.

End UplinkTheorem.

(** ** A pass keeps the state well formed, whatever arrives *)

Lemma feed_safe a fid idx last c len : asm_wf a -> 0 <= len <= zlen c ->
  exists st n a', vmc_frag_feed (Some a) fid idx last (Some c) len = Some (st, n, Some a') /\
    asm_wf a' /\ cap a' = cap a /\ n <= cap a.
Proof.
  intros Hwf Hl. pose proof (start_frame_wf a fid Hwf) as H1.
  assert (Hc : cap (start_frame a fid) = cap a) by (unfold start_frame; by case_decide).
  unfold vmc_frag_feed. rewrite decide_False by (by intros [_ ?]). cbv zeta. revert H1 Hc.
  generalize (start_frame a fid). intros b (Hf & Hm & Hb & Hn) Hc. unfold VMC_VIDEO_AU_MAX in Hm.
  assert (H0 : 0 <= cap a) by lia.
  case_decide; [exists VMC_ERR_OUT_OF_SYNC, 0, (b <| started := false |>); done|].
  rewrite u64_small by lia. case_decide; [exists VMC_ERR_OVERRUN, 0, (b <| started := false |>); done|].
  change (default [] (Some c)) with c. unfold slice. rewrite decide_True by lia. cbn [mbind option_bind].
  assert (Hz : zlen (take (Z.to_nat len) (drop (Z.to_nat 0) c)) = len).
  { unfold zlen in *. rewrite length_take, length_drop. lia. }
  destruct (blit_ok (buf b) (take (Z.to_nat len) (drop (Z.to_nat 0) c)) (filled b)) as (b' & Eb); [lia|lia|].
  pose proof (blit_inv _ _ _ _ Eb) as (_ & _ & Hb' & _). rewrite Eb. cbn [mbind option_bind]. pose proof (u16_range (next_index b + 1)). rewrite (u64_small (filled b + len)) by lia.
  destruct last; (eexists _, _, _; split; [reflexivity|]);
    unfold asm_wf, VMC_VIDEO_AU_MAX; cbn [filled cap buf next_index upd_field]; cbn; lia.
Qed.

(** What the client hands to the decoder fits its buffers. *)
Definition out_ok (cp : Z) (o : Udp.video_out) : Prop :=
  match o with
  | Udp.Published au _ _ => 0 < zlen au <= cp
  | Udp.Inline p => zlen p <= JB.VMC_JB_PAYLOAD_CAP
  end.

Definition client_inv (cp : Z) (c : Udp.client) : Prop :=
  asm_wf (Udp.frag c) /\ cap (Udp.frag c) = cp /\ Forall (out_ok cp) (Udp.outs c).

Lemma unpack_total p : 4 <= zlen p -> exists fid idx last, vmc_video_frag_hdr_unpack p = Some (fid, idx, last).
Proof.
  intros Hp. destruct p as [|a [|b [|c [|d p]]]]; try (unfold zlen in Hp; cbn in Hp; lia).
  unfold vmc_video_frag_hdr_unpack. eexists _, _, _. reflexivity.
Qed.

Lemma take_slot_safe nb cp c s a : (forall n, cp <= zlen (nb n)) -> client_inv cp c -> JB.slot_wf s ->
  exists c', Udp.take_slot nb c s a = Some c' /\ client_inv cp c'.
Proof.
  intros Hnb (Hwf & Hcap & Ho) (Hst & _ & Hl & _). unfold Udp.take_slot, JB.VMC_JB_PAYLOAD_CAP in *. case_decide.
  - destruct (unpack_total (JB.storage s)) as (fid & idx & last & ->); [lia|]. case_decide; [|by eexists].
    cbv zeta. fold (Udp.arrive c fid a). destruct (Udp.arrive_same c fid a) as (Ef & Eo & Ec).
    set (c1 := Udp.arrive c fid a) in *. rewrite Ef.
    destruct (feed_safe (Udp.frag c) fid idx last (drop 4 (JB.storage s)) (JB.len s - 4) Hwf)
      as (st & n & b & -> & Hb & Hbc & Hn); [unfold zlen in *; rewrite length_drop; lia|].
    pose proof Hb as (Hb1 & Hb2 & Hb3 & Hb4).
    case_decide as Hd.
    + unfold slice. rewrite decide_True by lia. cbn [mbind option_bind]. eexists. split; [reflexivity|].
      specialize (Hnb (Udp.video_frame_count c1)).
      split_and!; [unfold asm_wf; cbn; lia|cbn; lia|]. cbn. rewrite Eo. apply Forall_app. split; [done|].
      apply Forall_singleton. unfold out_ok, zlen in *. rewrite length_take, length_drop. lia.
    + eexists. split; [reflexivity|]. split_and!; [done|cbn; lia|]. cbn. by rewrite Eo.
  - unfold slice. rewrite decide_True by lia. cbn [mbind option_bind]. eexists. split; [reflexivity|].
    split_and!; [done|done|]. cbn. apply Forall_app. split; [done|]. apply Forall_singleton.
    unfold out_ok, JB.VMC_JB_PAYLOAD_CAP, zlen in *. rewrite length_take, length_drop. lia.
Qed.

Lemma scan_min_in (l0 l : list JB.vmc_jb_slot) : forall i mn nw,
  (forall k m, mn = Some (k, m) -> l0 !! k = Some m /\ JB.valid m = true) ->
  (forall k s, l !! k = Some s -> l0 !! (i + k)%nat = Some s) ->
  forall k m, fst (JB.scan_slots l i mn nw) = Some (k, m) -> l0 !! k = Some m /\ JB.valid m = true.
Proof.
  induction l as [|x l IH]; intros i mn nw Hmn Hl k m; cbn [JB.scan_slots fst]; [apply Hmn|].
  assert (Hl' : forall k s, l !! k = Some s -> l0 !! (S i + k)%nat = Some s)
    by (intros k' s' Hk; specialize (Hl (S k') s' Hk); by rewrite Nat.add_succ_r in Hl).
  destruct (JB.valid x) eqn:Ev; cbn [negb]; [|by apply IH]. cbv zeta. apply IH; [|done].
  pose proof (Hl 0%nat x eq_refl) as Hx. rewrite Nat.add_0_r in Hx.
  intros k' m' E. destruct mn as [[i1 m1]|]; [|by simplify_eq]. case_decide; [by simplify_eq|by apply Hmn].
Qed.

(** A slot handed out is a buffered packet, whatever the sequence numbers. *)
Lemma peek_valid j now i j' : JB.jb_wf j -> JB.vmc_jb_peek (Some j) now = (Some i, Some j') ->
  exists s, JB.slots j' = JB.slots j /\ JB.slots j !! i = Some s /\ JB.valid s = true /\
    JB.next_seq j' = JB.seq s /\ JB.jb_wf j'.
Proof.
  intros Hwf E. pose proof (JB.peek_wf j now Hwf) as (jw & Ew & Hwf'). rewrite E in Ew. cbn in Ew. injection Ew as <-.
  unfold JB.vmc_jb_peek in E.
  pose proof (scan_min_in (JB.slots j) (JB.slots j) 0 None None ltac:(done) ltac:(done)) as Hm.
  destruct (JB.scan_slots (JB.slots j) 0 None None) as [[[k mn]|] [[q nw]|]]; try done.
  destruct (Hm k mn eq_refl) as [Hk Hv]. exists mn.
  destruct (decide (JB.seq_cmp (JB.seq mn) (JB.next_seq j) < 0)).
  - destruct (JB.aged j now mn); [|done]. by injection E as <- <-.
  - destruct (decide (JB.seq_cmp (JB.seq mn) (JB.next_seq j) > 0)).
    + destruct (JB.aged j now nw); [|done]. cbv zeta in E. destruct (JB.aged _ now mn); [|done]. by injection E as <- <-.
    + destruct (JB.aged j now mn); [|done]. injection E as <- <-. split_and!; try done. symmetry.
      apply JB.seq_cmp_zero; [|apply Hwf|lia|lia]. apply (Forall_lookup_1 _ _ _ _ (JB.wf_slot j Hwf) Hk).
Qed.

Lemma drain_safe nb cp fuel : (forall n, cp <= zlen (nb n)) ->
  forall clk j c, JB.jb_wf j -> client_inv cp c -> (length (JB.live j) < fuel)%nat ->
  exists j' c', Udp.drain_video nb fuel clk j c = Some (j', c') /\ JB.jb_wf j' /\ client_inv cp c'.
Proof.
  intros Hnb. induction fuel as [|fuel IH]; intros clk j c Hwf Hc Hl; [lia|]. cbn [Udp.drain_video].
  destruct (JB.peek_wf j (clk O) Hwf) as (j1 & E1 & Hwf1).
  destruct (JB.vmc_jb_peek (Some j) (clk O)) as [[i|] jo] eqn:Ep; cbn in E1; subst jo; [|by eexists _, _].
  destruct (peek_valid j (clk O) i j1 Hwf Ep) as (s & Es & Hi & Hv & Hn & _). rewrite Es, Hi. cbn [mbind option_bind].
  destruct (take_slot_safe nb cp c s (clk 1%nat) Hnb Hc (Forall_lookup_1 _ _ _ _ (JB.wf_slot j Hwf) Hi)) as (c' & -> & Hc').
  cbn [mbind option_bind]. rewrite <- Es in Hi.
  destruct (JB.consume_spec j1 i s Hwf1 Hi Hv Hn) as (Hwf2 & Hs2 & _). apply IH; [done|done|].
  pose proof (JB.live_remove (JB.slots j1) i s Hi Hv) as Hp. apply Permutation_length in Hp.
  unfold JB.live in *. rewrite Hs2. rewrite Es in Hp |- *. cbn in Hp. lia.
Qed.

Lemma live_bound j : JB.jb_wf j -> (length (JB.live j) < 257)%nat.
Proof.
  intros Hwf. pose proof (JB.wf_slots j Hwf) as Hz. unfold zlen, JB.VMC_JB_MAX_SLOTS in Hz.
  pose proof (length_filter (fun s => JB.valid s = true) (JB.slots j)). unfold JB.live. lia.
Qed.

(** A datagram of bytes: refused, or a header and its payload within it. *)
Lemma decode_total b : bytes b ->
  exists st r, vmc_proto_decode (Some b) (zlen b) = Some (st, r) /\
    match r with
    | Some (h, off) => st = VMC_OK /\ off = 17 /\ header_wf h /\ 17 + payload_len h <= zlen b /\
        vmc_proto_decode_header (Some b) (zlen b) (Some header_local) = Some (VMC_OK, Some h)
    | None => st <> VMC_OK
    end.
Proof.
  intros Hb. destruct (decide (zlen b < 17)) as [Hs|Hs].
  { unfold vmc_proto_decode, vmc_proto_decode_header. rewrite decide_True by done. by eexists _, None. }
  destruct (header_of_bytes b Hb ltac:(lia)) as (h & rest & Hh & ->).
  assert (Hz : zlen (prefix16 h ++ [crc h] ++ rest) = 17 + zlen rest).
  { rewrite !zlen_app, prefix16_zlen. change (zlen [crc h]) with 1. lia. }
  rewrite Hz in *. pose proof (zlen_nonneg rest). rewrite decode_app by (done || lia). eexists _, _. split; [reflexivity|].
  case_decide as Hd; [|done]. rewrite decode_header_app by done. pose proof Hd as Hs'. unfold decode_status in Hs'.
  rewrite decide_False in Hs' by lia. rewrite decide_False by lia.
  destruct (vmc_proto_header_valid (Some h)); [|done]. cbn [negb] in Hs'.
  destruct (decide (17 + zlen rest < 17 + payload_len h)); [done|]. split_and!; try done. lia.
Qed.

Section Safe.
Context {T Q : Type} `{HT : TransportLaws T} `{HQ : ByteFifoLaws Q}.

(** The buffers of the loop are well formed, the jitter buffer and the assembler
    keep their invariants, the events that wait are events. *)
Definition main_inv (cp fc : Z) (m : main T Q) : Prop :=
  JB.jb_wf (jb m) /\ client_inv cp (video m) /\ fifo_ok (fifo m) /\ fifo_cap (fifo m) = fc /\
  Forall Input.event_wf (pending m).

Lemma rx_datagram_safe cp fc (m : main T Q) d : main_inv cp fc m -> bytes (d_bytes d) ->
  exists m', rx_datagram m d = Some m' /\ main_inv cp fc m'.
Proof.
  intros (Hj & Hv & Hf & Hc & Hp) Hb. unfold rx_datagram.
  destruct (decode_total (d_bytes d) Hb) as (st & r & Ed & Hr). rewrite Ed. cbn [mbind option_bind].
  destruct r as [[h off]|]; [|rewrite decide_True by done; by exists m].
  destruct Hr as (-> & -> & Hh & Hl & Eh). rewrite decide_False by tauto. cbn [mbind option_bind].
  pose proof Hh as (_ & _ & _ & _ & _ & Hpl & Hsq & Hts & _).
  assert (Hdz : payload_len h <= zlen (drop 17 (d_bytes d))) by (unfold zlen in *; rewrite length_drop; lia).
  assert (Hrx : exists j, Udp.rx_video (jb m) (d_bytes d) (zlen (d_bytes d)) (d_push d) (d_repush d) = Some j /\ JB.jb_wf j).
  { unfold Udp.rx_video. rewrite Ed. cbn [mbind option_bind]. case_decide; [by exists (jb m)|]. cbv zeta.
    change (Z.to_nat 17) with 17%nat.
    destruct (JB.push_spec (jb m) (seq h) (ts_us h) (stream h) (flags h) (drop 17 (d_bytes d)) (payload_len h) (d_push d))
      as (r & j' & -> & Hj' & _); [done..|]. case_decide; [|by exists j'].
    destruct (JB.jb_step_wf j' (JB.JReset (seq h)) Hj' Hsq) as (jr & [= <-] & Hjr).
    destruct (JB.push_spec (JB.vmc_jb_reset j' (seq h)) (seq h) (ts_us h) (stream h) (flags h)
                (drop 17 (d_bytes d)) (payload_len h) (d_repush d)) as (r2 & j2 & -> & Hj2 & _); [done..|]. by exists j2. }
  set (m0 := if decide (stream h = VMC_PROTO_STREAM_VIDEO) then _ else Some m).
  assert (Hm0 : exists m1, m0 = Some m1 /\ main_inv cp fc m1).
  { unfold m0. case_decide; [|by exists m]. destruct Hrx as (j & -> & Hj2). eexists. split; [reflexivity|]. done. }
  clearbody m0. destruct Hm0 as (m1 & -> & Hi1). cbn [mbind option_bind].
  set (m2 := if decide (stream h = VMC_PROTO_STREAM_CONTROL) then _ else m1).
  assert (Hi2 : main_inv cp fc m2) by (unfold m2; by case_decide). clearbody m2. clear Hi1 m1.
  set (m3 := if decide (stream h = VMC_PROTO_STREAM_AUDIO) then _ else Some m2).
  assert (Hm3 : exists m1, m3 = Some m1 /\ main_inv cp fc m1).
  { unfold m3. case_decide; [|by exists m2]. destruct Hi2 as (Hj2 & Hv2 & Hf2 & Hc2 & Hp2).
    destruct (fifo_write_law (fifo m2) (drop 17 (d_bytes d)) (payload_len h) Hf2) as (n & q' & E & _ & Hq & Hcq & _); [lia|].
    change (Z.to_nat 17) with 17%nat. rewrite E. eexists. split; [reflexivity|]. unfold main_inv. cbn. by rewrite Hcq. }
  clearbody m3. destruct Hm3 as (m4 & -> & Hi4). cbn [mbind option_bind].
  unfold Sess.vmc_session_on_rx. rewrite Eh. cbn [mbind option_bind]. rewrite decide_False by tauto.
  case_decide; (eexists; split; [reflexivity|done]).
Qed.

Lemma rx_datagrams_safe cp fc ds : forall (m : main T Q), main_inv cp fc m -> Forall (fun d => bytes (d_bytes d)) ds ->
  exists m', rx_datagrams m ds = Some m' /\ main_inv cp fc m'.
Proof.
  induction ds as [|d ds IH]; intros m Hm Hd; cbn [rx_datagrams]; [by exists m|]. apply Forall_cons in Hd as [Hd Hds].
  destruct (rx_datagram_safe cp fc m d Hm Hd) as (m1 & -> & Hm1). by apply IH.
Qed.

Lemma step_safe (sc : Sess.vmc_session_ctx T) pkt ms us : zlen pkt = 17 ->
  exists st sc', Sess.vmc_session_step sc pkt ms us = Some (st, sc').
Proof.
  intros Hp. destruct (decide (state (Sess.sm sc) = VMC_SESSION_ACTIVE \/ state (Sess.sm sc) = VMC_SESSION_DEGRADED)) as [Hs|Hs].
  - destruct (Sess.session_step_streaming sc pkt ms us Hs Hp) as (st & sc' & E & _). by exists st, sc'.
  - unfold Sess.vmc_session_step. destruct (state (Sess.sm sc)) eqn:E; try (by eexists _, _); destruct Hs; tauto.
Qed.

Definition pass_ok (p : pass) : Prop :=
  zlen (p_ka p) = 17 /\ Forall (fun d => bytes (d_bytes d)) (p_dgrams p) /\ in_pass_ok (p_in p).

Lemma main_pass_safe nb cp fc (m : main T Q) p : (forall n, cp <= zlen (nb n)) -> main_inv cp fc m -> pass_ok p ->
  exists m', main_pass nb m p = Some m' /\ main_inv cp fc m'.
Proof.
  intros Hnb Hm (Hk & Hd & Hi). unfold main_pass.
  destruct (step_safe (session m) (p_ka p) (i_now (p_in p)) (p_us p) Hk) as (st & sc & ->). cbn [mbind option_bind].
  match goal with |- context [rx_datagrams ?x _] =>
    destruct (rx_datagrams_safe cp fc (p_dgrams p) x Hm Hd) as (m1 & -> & (Hj & Hv & Hf & Hc & Hp)) end.
  cbn [mbind option_bind].
  destruct (drain_safe nb cp 257 Hnb (p_clk p) (jb m1) (video m1) Hj Hv (live_bound _ Hj)) as (j & v & -> & Hj' & Hv').
  cbn [mbind option_bind]. pose proof Hi as (_ & _ & _ & Hn).
  assert (Hq : Forall Input.event_wf (pending m1 ++ i_new (p_in p))) by (by apply Forall_app).
  destruct (input_pass_spec (session m1) (last_input_flush_ms m1) (p_in p) _ Hi Hq) as (sc' & d & -> & _).
  eexists. split; [reflexivity|]. unfold main_inv. cbn. split_and!; try done. by apply Forall_drop.
Qed.

(** C15. Whatever datagrams arrive, whatever the clocks read and however the session,
    the sequence numbers and the events come, the loop keeps running: no pass
    leaves a buffer (packets, slots, frames, the audio queue, the input packet),
    the 257 rounds allowed to the video loop of a pass are enough, the jitter
    buffer and the assembler keep their invariants, and all that reaches the
    decoder, a complete access unit or a payload, fits its buffer. *)
Theorem main_loop_safe nb cp fc ps : (forall n, cp <= zlen (nb n)) -> forall (m : main T Q), main_inv cp fc m ->
  Forall pass_ok ps ->
  exists m', main_run nb m ps = Some m' /\ JB.jb_wf (jb m') /\ asm_wf (Udp.frag (video m')) /\
    Forall (out_ok cp) (Udp.outs (video m')) /\ fifo_ok (fifo m') /\ zlen (fifo_data (fifo m')) <= fc /\
    Forall Input.event_wf (pending m').
Proof.
  intros Hnb. induction ps as [|p ps IH]; intros m Hm Hps; cbn [main_run].
  - exists m. destruct Hm as (H1 & (H2 & _ & H3) & H4 & <- & H5). split_and!; try done. by apply fifo_bound_law.
  - apply Forall_cons in Hps as [Hp Hps]. destruct (main_pass_safe nb cp fc m p Hnb Hm Hp) as (m1 & -> & Hm1). by apply IH.
Qed.

End Safe.

(** ** The test pattern stays in its frame *)

Lemma pattern_pixel_zlen w sq x y : zlen (pattern_pixel w sq x y) = 4.
Proof. unfold pattern_pixel. by case_decide. Qed.

Lemma pattern_row_ok w sq y n : forall x rgb, 0 <= (y * w + x) * 4 -> (y * w + x + Z.of_nat n) * 4 <= zlen rgb ->
  exists r, pattern_row w sq y n x rgb = Some r /\ zlen r = zlen rgb.
Proof.
  induction n as [|n IH]; intros x rgb H0 Hn; cbn [pattern_row]; [by exists rgb|].
  pose proof (pattern_pixel_zlen w sq x y).
  destruct (blit_ok rgb (pattern_pixel w sq x y) ((y * w + x) * 4)) as [r E]; [lia|lia|]. rewrite E.
  apply blit_inv in E as (_ & _ & Hz & _). destruct (IH (x + 1) r) as (r' & E' & Hz'); [lia|lia|]. exists r'. rewrite Hz'. done.
Qed.

Lemma pattern_rows_ok w sq n : 0 <= w -> forall y rgb, 0 <= y -> (y + Z.of_nat n) * w * 4 <= zlen rgb ->
  exists r, pattern_rows w sq n y rgb = Some r /\ zlen r = zlen rgb.
Proof.
  intros Hw. induction n as [|n IH]; intros y rgb Hy Hn; cbn [pattern_rows]; [by exists rgb|].
  destruct (pattern_row_ok w sq y (Z.to_nat w) 0 rgb) as (r & -> & Hz); [nia|nia|].
  destruct (IH (y + 1) r) as (r' & E' & Hz'); [lia|nia|]. exists r'. rewrite Hz'. done.
Qed.

Lemma render_pattern_ok rgb w h sq : 0 <= w -> 0 <= h -> zlen rgb = w * h * 4 ->
  exists r, render_pattern rgb w h sq = Some r /\ zlen r = zlen rgb.
Proof. intros Hw Hh Hz. apply pattern_rows_ok; [done|lia|nia]. Qed.

(** The bright column moves by eight pixels with each frame. *)
Example pattern_moves :
  (fun sq => (fun r => (slice r 32 4, slice r 64 4)) <$> render_pattern (replicate 80 0) 20 1 sq) <$> [1; 2]
  = [Some (Some [255; 255; 255; 0], Some [63; 192; 63; 0]); Some (Some [63; 192; 63; 0], Some [255; 255; 255; 0])].
Proof. vm_compute. reflexivity. Qed.

(** ** Concrete runs *)

#[local] Existing Instances Udp.endpoint_transport Udp.endpoint_laws RB.ringbuf_fifo RB.ringbuf_fifo_laws.

Definition demo_in (now : Z) (es : list Input.vmc_input_event) : in_pass :=
  mk_in now es Input.demo_batch (replicate 600 9) (replicate 531 9).

Definition demo_event (n : Z) : Input.vmc_input_event := Input.mk_event 1 0 n 0 0 0 0.

(** Events that come 2 ms after a flush, the time the loop sleeps, are polled and
    thrown away; the 33rd of a pass as well. *)
Example soon_events_are_lost :
  uplink_spec 0 [] [demo_in 10 [demo_event 1]; demo_in 12 [demo_event 2]; demo_in 14 [demo_event 3]]
  = [(10, [demo_event 1]); (14, [demo_event 3])].
Proof. vm_compute. reflexivity. Qed.

Example extra_event_is_lost :
  (fun p => zlen p.2) <$> uplink_spec 0 [] [demo_in 10 (demo_event <$> [1;2;3;4;5;6;7;8;9;10;11;12;13;14;15;16;17;18;19;20;
    21;22;23;24;25;26;27;28;29;30;31;32;33;34]); demo_in 20 []] = [32; 1].
Proof. vm_compute. reflexivity. Qed.

(** The option takes the next word; without one it is a positional argument. *)
Example dash_option :
  parse_args default_args 0 (Text.chars <$> ["host"; "--dash"; "http://h/m"; "9000"; "4"])
  = mk_args (Text.chars "host") 9000 4 (Some (Text.chars "http://h/m")) /\
  mapper_host (parse_args default_args 0 [Text.chars "--dash"]) = Text.chars "--dash".
Proof. vm_compute. done. Qed.

Lemma input_uplink_witness :
  exists sc' ds, input_run (Sess.demo_ctx VMC_SESSION_ACTIVE) 1000 [] [demo_in 1010 [demo_event 1]; demo_in 1020 [demo_event 2; demo_event 3]]
      = Some (sc', ds) /\
    uplinked 7 ds [(1010, [demo_event 1]); (1020, [demo_event 2; demo_event 3])].
Proof.
  destruct (input_uplink (Sess.demo_ctx VMC_SESSION_ACTIVE) 1000 [] [demo_in 1010 [demo_event 1]; demo_in 1020 [demo_event 2; demo_event 3]])
    as (sc' & ds & E & Hu & _).
  - repeat constructor; (apply (bool_decide_unpack _); vm_compute; exact I) || (vm_compute; discriminate) || (vm_compute; reflexivity).
  - constructor.
  - exists sc', ds. split; [exact E|exact Hu].
Defined.

Definition demo_main : main Udp.endpoint RB.vmc_ringbuf :=
  mk_main (Sess.demo_ctx VMC_SESSION_ACTIVE) JB.demo_jb Udp.demo_client (Latency.mk_offset false 0 0 0) (RB.mk_ringbuf [0; 0; 0; 0] 3 0 0 0)
    1000 [].

(** An access unit whose fragments arrive swapped, and noise. *)
Definition demo_pass : pass :=
  mk_pass 1010000 (replicate 17 0) ((fun d => mk_dgram d 1000 1000 1000 1) <$> [255; 255] :: reverse Udp.demo_sent)
    (fun _ => 30000) (demo_in 1010 [demo_event 1]).

Lemma main_loop_safe_witness :
  exists m', main_run (fun _ => replicate 2000 0) demo_main [demo_pass] = Some m' /\ JB.jb_wf (jb m') /\
    Forall (out_ok 2000) (Udp.outs (video m')) /\ length (Udp.outs (video m')) = 1%nat.
Proof.
  destruct (main_loop_safe (fun _ => replicate 2000 0) 2000 4 [demo_pass]
              ltac:(intros n; vm_compute; discriminate) demo_main) as (m' & E & H1 & _ & H2 & _).
  - split; [exact JB.demo_jb_wf|]. split; [split; [apply (bool_decide_unpack _); vm_compute; exact I|by split]|].
    split; [exists 2; vm_compute; intuition discriminate|by split].
  - apply Forall_singleton. split; [reflexivity|]. split; [unfold bytes; apply (bool_decide_unpack _); vm_compute; exact I|].
    split; [apply (bool_decide_unpack _); vm_compute; exact I|]. split; [vm_compute; discriminate|]. split; [reflexivity|].
    apply (bool_decide_unpack _). vm_compute. exact I.
  - exists m'. split; [exact E|]. split; [exact H1|]. split; [exact H2|].
    apply (f_equal (fmap (fun m => length (Udp.outs (video m))))) in E. vm_compute in E. by injection E.
Defined.

End Loop.
