(* ===== verification/SimSource.v ===== *)
(** * The sources of the stream simulator ([tools/vmc_sim/main.c])

    Options and set-up, the command lines of the encoder, the looped PCM file,
    the pacing of frames and sound, and the loops of the two sources over the
    operations of [SimSender]. The kernel's answers and the clock are arguments. *)

From S2P Require Import Prelude Text Wire Protocol Mapper DashServe SimSender.
From stdpp Require Import strings.
Import Proto Text Sim.

#[local] Open Scope Z_scope.

Module Src.

(** ** Options ([main]) *)

(** The rate of dropped datagrams stays a text: it decides what leaves. *)
Record options := mk_options {
  bind_host : option (list Z); input : option (list Z); mapper_port : Z; media_port : Z;
  width : Z; height : Z; fps : Z; drop_rate : option (list Z);
}.

#[export] Instance eta_options : Eta options := fun o =>
  mk_options (bind_host o) (input o) (mapper_port o) (media_port o) (width o) (height o) (fps o) (drop_rate o).

Definition SIM_FILE_FPS : Z := 24.
Definition default_options : options := mk_options None None 9999 6000 0 0 SIM_FILE_FPS None.

Definition positional (o : options) (n : nat) (w : list Z) : options :=
  match n with
  | O => o <| bind_host := Some w |>
  | 1%nat => o <| mapper_port := u16 (atoi w) |>
  | 2%nat => o <| media_port := u16 (atoi w) |>
  | 3%nat => o <| width := atoi w |>
  | 4%nat => o <| height := atoi w |>
  | 5%nat => o <| drop_rate := Some w |>
  | _ => o
  end.

(** [n]: the positional arguments so far. *)
Fixpoint parse_options (o : options) (n : nat) (ws : list (list Z)) : options :=
  match ws with
  | [] => o
  | w :: ws =>
    if decide (w = chars "--input") then
      match ws with v :: ws => parse_options (o <| input := Some v |>) n ws | [] => o end
    else if decide (w = chars "--fps") then
      match ws with v :: ws => parse_options (o <| fps := atoi v |>) n ws | [] => o end
    else parse_options (positional o n w) (S n) ws
  end.

Definition settle (o : options) : options :=
  let o := match bind_host o with Some _ => o | None => o <| bind_host := Some (chars "127.0.0.1") |> end in
  let o := if decide (fps o <= 0) then o <| fps := SIM_FILE_FPS |> else o in
  match input o with
  | Some _ => if decide (width o > 0 /\ height o > 0) then o else o <| width := 1920 |> <| height := 1080 |>
  | None => o
  end.

(** ** The input *)

(** The text from the last dot on. *)
Fixpoint strrchr_dot (l : list Z) : option (list Z) :=
  match l with
  | [] => None
  | c :: k => match strrchr_dot k with
              | Some e => Some e
              | None => if decide (c = 46) then Some (c :: k) else None
              end
  end.

(** [head]: what the first four bytes of the file are, if it opens. *)
Definition looks_raw (path : list Z) (head : option (list Z)) : bool :=
  let raw_ext := match strrchr_dot path with
                 | Some e => bool_decide (e ∈ [chars ".h264"; chars ".264"; chars ".h265"; chars ".hevc"])
                 | None => false
                 end in
  if raw_ext then true else
  match head with
  | Some [b0; b1; b2; b3] =>
    bool_decide (b0 = 0 /\ b1 = 0 /\ b2 = 1) || bool_decide (b0 = 0 /\ b1 = 0 /\ b2 = 0 /\ b3 = 1)
  | _ => false
  end.

(** ** Command lines of the encoder *)

Definition words (l : list String.string) : list (list Z) := map chars l.

Definition bitrate (w h : Z) : Z := if decide (w * h * 3 < 5000000) then 5000000 else w * h * 3.

Definition rates (w h : Z) : list (list Z) :=
  [chars "-b:v"; stored 32 (Serve.int_print (bitrate w h));
   chars "-maxrate"; stored 32 (Serve.int_print (Z.quot (bitrate w h * 12) 10));
   chars "-bufsize"; stored 32 (Serve.int_print (Z.quot (bitrate w h) 2))].

Definition codec (w h : Z) : list (list Z) :=
  words ["-c:v"; "h264_nvenc"; "-preset"; "p1"; "-tune"; "ll"; "-rc"; "vbr"] ++ rates w h
  ++ words ["-g"; "30"; "-keyint_min"; "30"; "-b_ref_mode"; "0"; "-pix_fmt"; "yuv420p"].

Definition spawn_args (w h : Z) : list (list Z) :=
  let w := if decide (w <= 0) then 1024 else w in
  let h := if decide (h <= 0) then 768 else h in
  let size := stored 64 (chars "testsrc2=size=" ++ Serve.int_print w ++ chars "x" ++ Serve.int_print h ++ chars ":rate=30") in
  words ["ffmpeg"; "-hide_banner"; "-loglevel"; "error"; "-re"; "-f"; "lavfi"; "-i"] ++ [size] ++ codec w h
  ++ words ["-f"; "h264"; "pipe:1"].

Definition transcode_args (inp out : list Z) (w h : Z) : list (list Z) :=
  let w := if decide (w <= 0) then 1920 else w in
  let h := if decide (h <= 0) then 1080 else h in
  words ["ffmpeg"; "-y"; "-hide_banner"; "-loglevel"; "error"; "-i"] ++ [inp] ++ words ["-map"; "0:v:0"] ++ codec w h
  ++ words ["-vsync"; "cfr"; "-f"; "h264"] ++ [out].

Definition audio_args (inp out : list Z) : list (list Z) :=
  words ["ffmpeg"; "-y"; "-hide_banner"; "-loglevel"; "error"; "-i"] ++ [inp]
  ++ words ["-map"; "0:a:0"; "-c:a"; "pcm_s16le"; "-ar"; "48000"; "-ac"; "2"; "-f"; "s16le"] ++ [out].

(** ** The PCM file *)

(** A read of a regular file of bytes [file] at [pos]; [k]: how many bytes the
    kernel would like to give, negative for an error. At least one byte is read
    where there are any. *)
Definition file_read (file : list Z) (pos want k : Z) : option (list Z) :=
  if decide (k < 0) then None else
  let n := Z.min want (zlen file - pos) in
  if decide (n <= 0) then Some [] else
  Some (take (Z.to_nat (Z.max 1 (Z.min k n))) (drop (Z.to_nat pos) file)).

(** The result: whether a frame was read, the frame, the position. [out]: the
    bytes read so far, the [got] first of the buffer; [rd]: the kernel's
    choices, read by read. *)
Fixpoint pcm_loop (fuel : nat) (file : list Z) (rd : nat -> Z) (pos : Z) (out : list Z) (frame : Z)
    : option (bool * list Z * Z) :=
  match fuel with
  | O => None
  | S fuel =>
    if decide (zlen out < frame) then
      match file_read file pos (frame - zlen out) (rd O) with
      | None => Some (false, out, pos)
      | Some [] => pcm_loop fuel file (fun k => rd (S k)) 0 [] frame
      | Some d => pcm_loop fuel file (fun k => rd (S k)) (pos + zlen d) (out ++ d) frame
      end
    else Some (true, out, pos)
  end.

(** Two frames and an end of file ([pcm_enough]). *)
Definition pcm_next_frame (file : list Z) (rd : nat -> Z) (pos frame : Z) : option (bool * list Z * Z) :=
  pcm_loop (2 * Z.to_nat frame + 2) file rd pos [] frame.

(** ** Pacing *)

(** The next slot after a slot taken at [now]; 0: none yet. *)
Definition advance (next now interval : Z) : Z :=
  let n := if decide (next <> 0) then u64 (next + interval) else u64 (now + interval) in
  if decide (i64 (u64 (n - now)) <= 0) then u64 (now + interval) else n.

Definition poll_timeout (next now0 : Z) : Z :=
  if decide (next > now0) then
    let w := next - now0 in
    if decide (w < 1000) then 1 else i32 (u64 (w + 999) / 1000)
  else 100.

(** The video's interval, in microseconds. *)
Definition frame_interval (fps : Z) : Z := 1000000 / u64 fps.
Definition SIM_AUDIO_MS : Z := 5.
Definition audio_interval : Z := SIM_AUDIO_MS * 1000.

(** ** The sound thread ([audio_sender]) *)

Record sound := mk_sound { s_ctx : sim_ctx; s_pos : Z; s_next : Z }.

(** A round of its loop: the clock, whether there is a client (the other thread
    finds it), the kernel's choices for the reads, the packet on the stack. *)
Record sound_pass := mk_sp { sp_now : Z; sp_client : bool; sp_rd : nat -> Z; sp_pkt : list Z }.

Section Loops.
Context (leaves : Z -> bool).

Definition audio_pass (file : list Z) (s : sound) (p : sound_pass) : option (sound * list (list Z)) :=
  let c := (s_ctx s) <| have_client := sp_client p |> in
  if decide (s_next s = 0 \/ sp_now p >= s_next s) then
    '(ds, c, pos) ←
      (if have_client c then
         '(ok, buf, pos) ← pcm_next_frame file (sp_rd p) (s_pos s) SIM_AUDIO_FRAME_BYTES;
         if ok : bool then '(ds, c) ← send_audio leaves c (sp_pkt p) buf (u32 (sp_now p)); Some (ds, c, pos)
         else Some ([], c, pos)
       else Some ([], c, s_pos s));
    Some (mk_sound c pos (advance (s_next s) (sp_now p) audio_interval), ds)
  else Some (mk_sound c (s_pos s) (s_next s), []).

Fixpoint audio_sender (file : list Z) (s : sound) (ps : list sound_pass) : option (sound * list (Z * list Z)) :=
  match ps with
  | [] => Some (s, [])
  | p :: ps =>
    '(s, ds) ← audio_pass file s p;
    '(s, rest) ← audio_sender file s ps;
    Some (s, ((fun d => (sp_now p, d)) <$> ds) ++ rest)
  end.

(** ** The file source ([run_file_source]) *)

(** [f_reads]: what the kernel will answer to the reads of the file. *)
Record fsrc := mk_fsrc { f_ctx : sim_ctx; f_asm : au_asm; f_buf : list Z; f_reads : list Sim.file_read; f_next : Z }.

(** What [poll] finds: requests to the mapper and datagrams on the media port,
    each with the clock of its echo. *)
Inductive polled := PollIntr | PollFail | PollOk (mapper : nat) (media : list (list Z * Z)).

Record source_pass := mk_pass { p_poll : polled; p_now : Z; p_epkt : list Z; p_pkt : list Z }.

(** Datagrams that leave: answers of the mapper and media. *)
Record sends := mk_sends { to_mapper : list (list Z); to_media : list (list Z) }.

Fixpoint drain_all (c : sim_ctx) (ds : list (list Z * Z)) (epkt : list Z) : option (list (list Z) * sim_ctx) :=
  match ds with
  | [] => Some ([], c)
  | (d, now) :: ds =>
    '(o, c) ← drain_media leaves c d (zlen d) epkt now;
    '(os, c) ← drain_all c ds epkt; Some (o ++ os, c)
  end.

Definition send_unit (c : sim_ctx) (pkt : list Z) (u : list Z * bool) (now : Z) : option (list (list Z) * sim_ctx) :=
  '(ds, c) ← send_au leaves c pkt (fst u) (snd u) (u32 now);
  Some (ds, c <| sent := u64 (sent c + 1) |>).

(** [Some (s, d, None)]: the loop goes on; [Some r]: it ended. *)
Definition file_pass (o : options) (s : fsrc) (p : source_pass) : option (fsrc * sends * bool) :=
  match p_poll p with
  | PollIntr => Some (s, mk_sends [] [], true)
  | PollFail => Some (s, mk_sends [] [], false)
  | PollOk m ds =>
    let answers := replicate m (mapper_response (default [] (bind_host o)) (media_port o)) in
    '(o1, c) ← drain_all (f_ctx s) ds (p_epkt p);
    if decide (p_now p >= f_next s) then
      '(u, st, buf, reads) ← src_next_au (f_asm s) (f_buf s) (f_reads s);
      '(o2, c) ← match u with
                 | Some u => send_unit c (p_pkt p) u (p_now p)
                 | None => Some ([], c)
                 end;
      Some (mk_fsrc c st buf reads (advance (f_next s) (p_now p) (frame_interval (fps o))), mk_sends answers (o1 ++ o2), true)
    else Some (mk_fsrc c (f_asm s) (f_buf s) (f_reads s) (f_next s), mk_sends answers o1, true)
  end.

Fixpoint run_file_source (o : options) (s : fsrc) (ps : list source_pass) : option (fsrc * list sends) :=
  match ps with
  | [] => Some (s, [])
  | p :: ps =>
    '(s, d, go) ← file_pass o s p;
    if go : bool then '(s, ds) ← run_file_source o s ps; Some (s, d :: ds) else Some (s, [d])
  end.

(** ** The pipe source ([run_pipe_source]) *)

Record psrc := mk_psrc { q_ctx : sim_ctx; q_asm : au_asm; q_buf : list Z }.

(** What the pipe answers: nothing to read, what it holds or its end, a failure.
    [restarts]: does the encoder start again, if it is to. *)
Inductive piped := PipeIdle | Piped (e : pipe_event) (restarts : bool) | PipeFail.

(** The units of one read are sent with the same clock here. *)
Fixpoint send_units (c : sim_ctx) (pkt : list Z) (us : list (list Z * bool)) (now : Z) : option (list (list Z) * sim_ctx) :=
  match us with
  | [] => Some ([], c)
  | u :: us => '(o, c) ← send_unit c pkt u now; '(os, c) ← send_units c pkt us now; Some (o ++ os, c)
  end.

Definition pipe_pass (o : options) (s : psrc) (p : source_pass) (a : piped) : option (psrc * sends * bool) :=
  match p_poll p with
  | PollIntr => Some (s, mk_sends [] [], true)
  | PollFail => Some (s, mk_sends [] [], false)
  | PollOk m ds =>
    let answers := replicate m (mapper_response (default [] (bind_host o)) (media_port o)) in
    '(o1, c) ← drain_all (q_ctx s) ds (p_epkt p);
    match a with
    | PipeIdle => Some (mk_psrc c (q_asm s) (q_buf s), mk_sends answers o1, true)
    | PipeFail => Some (mk_psrc c (q_asm s) (q_buf s), mk_sends answers o1, false)
    | Piped e restarts =>
      '(us, st, buf, again) ← pipe_event_step (q_asm s) (q_buf s) e;
      '(o2, c) ← send_units c (p_pkt p) us (p_now p);
      Some (mk_psrc c st buf, mk_sends answers (o1 ++ o2), negb again || restarts)
    end
  end.

Fixpoint run_pipe_source (o : options) (s : psrc) (ps : list (source_pass * piped)) : option (psrc * list sends) :=
  match ps with
  | [] => Some (s, [])
  | (p, a) :: ps =>
    '(s, d, go) ← pipe_pass o s p a;
    if go : bool then '(s, ds) ← run_pipe_source o s ps; Some (s, d :: ds) else Some (s, [d])
  end.

End Loops.

(** ** Set-up and clean-up ([main]) *)

(** What the system answers: the two sockets, the first bytes of the input, the
    two runs of ffmpeg, the size of the sound and whether it opens. *)
Record answers := mk_answers {
  a_mapper : bool; a_media : bool; a_head : option (list Z); a_raw : bool; a_sound : bool; a_size : option Z; a_open : bool;
}.

Inductive source := FileSource (raw : list Z) (sound : bool) | PipeSource.

(** The return code if it ends before a source runs, the source, whether the
    sender drops datagrams on purpose, the temporary files that ffmpeg was told
    to write, and those that are removed before the program ends. *)
Record plan := mk_plan { p_rc : option Z; p_source : option source; p_drops : bool; p_written : list (list Z); p_removed : list (list Z) }.

Definition raw_name (pid : list Z) : list Z := stored 128 (chars "/tmp/vmc_sim_raw_" ++ pid ++ chars ".h264").
Definition pcm_name (pid : list Z) : list Z := stored 128 (chars "/tmp/vmc_sim_audio_" ++ pid ++ chars ".pcm").

Definition main (o : options) (pid : list Z) (a : answers) : plan :=
  if negb (a_mapper a) || negb (a_media a) then mk_plan (Some 1) None false [] [] else
  match input o with
  | None => mk_plan None (Some PipeSource) true [] []
  | Some inp =>
    let raw := looks_raw inp (a_head a) in
    if negb raw && negb (a_raw a) then mk_plan (Some 1) None false [raw_name pid] [] else
    let rawf := if raw then [] else [raw_name pid] in
    let sound := a_sound a && match a_size a with Some n => bool_decide (n > 0) | None => false end in
    mk_plan None (Some (FileSource (if raw then inp else raw_name pid) (sound && a_open a))) false
      (rawf ++ [pcm_name pid]) (rawf ++ [pcm_name pid])
  end.

(** ** The looped file *)

Lemma file_read_some file pos want k : 0 <= k -> 0 <= pos -> 0 < want -> pos < zlen file ->
  exists n, 1 <= n <= want /\ n <= zlen file - pos /\
    file_read file pos want k = Some (take (Z.to_nat n) (drop (Z.to_nat pos) file)).
Proof.
  intros Hk Hp Hw Hl. unfold file_read. rewrite decide_False by lia. cbv zeta. rewrite decide_False by lia.
  eexists. split; [|split; [|reflexivity]]; lia.
Qed.

(** The bytes from [pos] on, [n] of them. *)
Definition piece (file : list Z) (pos n : Z) : list Z := take (Z.to_nat n) (drop (Z.to_nat pos) file).

Lemma piece_zlen file pos n : 0 <= pos -> 0 <= n -> pos + n <= zlen file -> zlen (piece file pos n) = n.
Proof. intros Hp Hn Hl. unfold piece, zlen in *. rewrite length_take, length_drop. lia. Qed.

Lemma piece_app file pos a b : 0 <= pos -> 0 <= a -> 0 <= b -> piece file pos a ++ piece file (pos + a) b = piece file pos (a + b).
Proof.
  intros Hp Ha Hb. unfold piece. rewrite !Z2Nat.inj_add by lia. rewrite <- drop_drop. by rewrite take_take_drop.
Qed.

Lemma pcm_straight file F fuel : forall rd pos out, (forall k, 0 <= rd k) -> 0 <= pos -> zlen out <= F ->
  pos + (F - zlen out) <= zlen file -> F - zlen out < Z.of_nat fuel ->
  pcm_loop fuel file rd pos out F = Some (true, out ++ piece file pos (F - zlen out), pos + (F - zlen out)).
Proof.
  induction fuel as [|fuel IH]; intros rd pos out Hrd Hp Ho Hl Hf; [lia|]. cbn [pcm_loop]. case_decide as Hd.
  - destruct (file_read_some file pos (F - zlen out) (rd O)) as (n & Hn & Hn2 & ->); [done|done|lia|lia|].
    fold (piece file pos n). pose proof (piece_zlen file pos n Hp ltac:(lia) ltac:(lia)) as Hz.
    destruct (piece file pos n) as [|x d] eqn:E; [unfold zlen in Hz; cbn in Hz; lia|].
    rewrite <- E in *. clear E. assert (Ho2 : zlen (out ++ piece file pos n) = zlen out + n) by (rewrite zlen_app; lia).
    rewrite IH; [|intros k; apply Hrd|lia..]. rewrite Hz, Ho2, <- app_assoc, piece_app by lia. do 2 f_equal; [do 2 f_equal; f_equal; lia|lia].
  - replace (F - zlen out) with 0 by lia. unfold piece. by rewrite take_0, app_nil_r, Z.add_0_r.
Qed.

(** A read that cannot complete the frame before the end of the file. *)
Lemma pcm_wraps file F fuel : forall rd pos out, (forall k, 0 <= rd k) -> 0 <= pos <= zlen file -> 0 < F <= zlen file ->
  zlen out < F -> pos + (F - zlen out) > zlen file -> (zlen file - pos) + 1 + F < Z.of_nat fuel ->
  pcm_loop fuel file rd pos out F = Some (true, piece file 0 F, F).
Proof.
  induction fuel as [|fuel IH]; intros rd pos out Hrd Hp HF Ho Hl Hf; [lia|]. cbn [pcm_loop].
  rewrite decide_True by lia. destruct (decide (pos = zlen file)) as [->|Hne].
  - unfold file_read. pose proof (Hrd O). rewrite decide_False by lia. cbv zeta. rewrite decide_True by lia.
    rewrite pcm_straight; unfold zlen in *; cbn [length] in *; [|intros k; apply Hrd|lia..].
    by rewrite Z.sub_0_r, Z.add_0_l.
  - destruct (file_read_some file pos (F - zlen out) (rd O)) as (n & Hn & Hn2 & ->); [done|lia|lia|lia|].
    fold (piece file pos n). pose proof (piece_zlen file pos n ltac:(lia) ltac:(lia) ltac:(lia)) as Hz.
    destruct (piece file pos n) as [|x d] eqn:E; [unfold zlen in Hz; cbn in Hz; lia|].
    rewrite <- E in *. clear E. assert (Ho2 : zlen (out ++ piece file pos n) = zlen out + n) by (rewrite zlen_app; lia).
    apply IH; [intros k; apply Hrd|lia..].
Qed.

(** The frame read at [pos] starts here. *)
Definition frame_start (file : list Z) (pos F : Z) : Z := if decide (pos + F <= zlen file) then pos else 0.

(** However the kernel splits the reads, a frame is read whole, from the start of
    the file again when what is left is shorter than a frame. *)
Lemma pcm_enough file rd pos F : (forall k, 0 <= rd k) -> 0 <= pos <= zlen file -> 0 < F <= zlen file ->
  pcm_next_frame file rd pos F = Some (true, piece file (frame_start file pos F) F, frame_start file pos F + F).
Proof.
  intros Hrd Hp HF. unfold pcm_next_frame, frame_start. case_decide.
  - rewrite pcm_straight; unfold zlen in *; cbn [length] in *; [|done|lia..]. by rewrite Z.sub_0_r.
  - rewrite pcm_wraps; unfold zlen in *; cbn [length] in *; [done|done|lia..].
Qed.

(** A file with sound, but less than a frame of it, is read for ever. *)
Lemma pcm_short_never file rd F fuel : (forall k, 0 <= rd k) -> zlen file < F -> pcm_next_frame file rd 0 F = None /\
  pcm_loop fuel file rd 0 [] F = None.
Proof.
  intros Hrd Hl. assert (H : forall fuel rd pos out, (forall k, 0 <= rd k) -> 0 <= pos -> zlen out = Z.min pos (zlen file) ->
    pcm_loop fuel file rd pos out F = None); [|split; apply H; try done; unfold zlen; cbn; lia].
  clear fuel rd Hrd. induction fuel as [|fuel IH]; intros rd pos out Hrd Hp Ho; [done|]. cbn [pcm_loop].
  pose proof (zlen_nonneg file). rewrite decide_True by lia. destruct (decide (pos < zlen file)).
  - destruct (file_read_some file pos (F - zlen out) (rd O)) as (n & Hn & Hn2 & ->); [done|lia|lia|lia|].
    fold (piece file pos n). pose proof (piece_zlen file pos n ltac:(lia) ltac:(lia) ltac:(lia)) as Hz.
    destruct (piece file pos n) as [|x d] eqn:E; [unfold zlen in Hz; cbn in Hz; lia|].
    rewrite <- E in *. apply IH; [intros k; apply Hrd|lia|]. rewrite zlen_app. lia.
  - unfold file_read. pose proof (Hrd O). rewrite decide_False by lia. cbv zeta. rewrite decide_True by lia.
    apply IH; [intros k; apply Hrd|lia|]. unfold zlen. cbn. lia.
Qed.

(** ** Pacing *)

(** The times at which slots are taken, over the clock readings of the rounds. *)
Fixpoint slots (next interval : Z) (nows : list Z) : list Z :=
  match nows with
  | [] => []
  | t :: nows => if decide (next = 0 \/ t >= next) then t :: slots (advance next t interval) interval nows
                 else slots next interval nows
  end.

(** Clock readings from [t] on. *)
Fixpoint clocked (t : Z) (nows : list Z) : Prop :=
  match nows with [] => True | u :: nows => t <= u < 4611686018427387904 /\ clocked u nows end.

(** At least [k] intervals after [t]. *)
Fixpoint not_before (t interval : Z) (ts : list Z) : Prop :=
  match ts with [] => True | u :: ts => t <= u /\ not_before (t + interval) interval ts end.

Lemma advance_first t i : 0 <= t < 4611686018427387904 -> 0 < i < 4611686018427387904 -> advance 0 t i = t + i.
Proof.
  intros Ht Hi. unfold advance. rewrite (decide_False (P := 0 <> 0)) by lia. cbv zeta. rewrite !(u64_small (t + i)) by lia.
  by case_decide.
Qed.

Lemma advance_next n t i : 0 < n <= t -> t < 4611686018427387904 -> 0 < i < 4611686018427387904 ->
  advance n t i = if decide (n + i <= t) then t + i else n + i.
Proof.
  intros Hn Ht Hi. unfold advance. rewrite (decide_True (P := n <> 0)) by lia. cbv zeta. rewrite (u64_small (n + i)), (u64_small (t + i)) by lia.
  assert (E : i64 (u64 (n + i - t)) = n + i - t) by wrap_lia. rewrite E. repeat case_decide; lia.
Qed.

Lemma not_before_mono i ts : forall t u, t <= u -> not_before u i ts -> not_before t i ts.
Proof. induction ts as [|x ts IH]; intros t u H; cbn; [done|]. intros [H1 H2]. split; [lia|]. eapply IH; [|exact H2]. lia. Qed.

Lemma advance_bound n t i : 0 < n <= t -> t < 4611686018427387904 -> 0 < i < 4611686018427387904 -> n + i <= advance n t i.
Proof. intros Hn Ht Hi. rewrite advance_next by done. case_decide; lia. Qed.

Lemma slots_rate i nows : 0 < i < 4611686018427387904 -> forall p n, 0 <= p -> 0 < n -> clocked p nows -> not_before n i (slots n i nows).
Proof.
  intros Hi. induction nows as [|t nows IH]; intros p n Hp Hn; cbn [clocked slots]; [done|]. intros [Ht Hc]. case_decide.
  - cbn [not_before]. pose proof (advance_bound n t i ltac:(lia) ltac:(lia) Hi). split; [lia|].
    eapply not_before_mono; [done|]. apply (IH t); [lia|lia|done].
  - apply (IH t); [lia|lia|done].
Qed.

(** Rounds less than an interval apart. *)
Fixpoint steady (t interval : Z) (nows : list Z) : Prop :=
  match nows with [] => True | u :: nows => u < t + interval /\ steady u interval nows end.

(** The slots from [t] on, each taken within its interval. *)
Fixpoint on_time (t interval : Z) (ts : list Z) : Prop :=
  match ts with [] => True | u :: ts => t <= u < t + interval /\ on_time (t + interval) interval ts end.

Lemma slots_on_time i nows : 0 < i < 4611686018427387904 -> forall p n, 0 <= p -> 0 < n -> n - i <= p < n ->
  clocked p nows -> steady p i nows -> on_time n i (slots n i nows).
Proof.
  intros Hi. induction nows as [|t nows IH]; intros p n Hp Hn Hpn; cbn [clocked steady slots]; [done|].
  intros [Ht Hc] [Hs Hst]. case_decide.
  - cbn [on_time]. split; [lia|]. rewrite advance_next, decide_False by lia. apply (IH t); done || lia.
  - apply (IH t); done || lia.
Qed.

(** ** The sound that is sent *)

Fixpoint frames_from (file : list Z) (pos F : Z) (n : nat) : list (list Z) :=
  match n with
  | O => []
  | S n => piece file (frame_start file pos F) F :: frames_from file (frame_start file pos F + F) F n
  end.

(** From the start of the file, frame after frame of it, round and round. *)
Lemma frames_loop file F n : 0 < F <= zlen file -> forall j k, 0 <= j <= zlen file / F -> (k < n)%nat ->
  frames_from file (j * F) F n !! k = Some (piece file ((j + Z.of_nat k) mod (zlen file / F) * F) F).
Proof.
  intros HF. set (m := zlen file / F). assert (Hm : 1 <= m) by (apply Z.div_le_lower_bound; lia).
  assert (Hmf : F * m <= zlen file < F * (m + 1)) by (unfold m; pose proof (Z.div_mod (zlen file) F); pose proof (Z.mod_pos_bound (zlen file) F); lia).
  clearbody m. induction n as [|n IH]; intros j k Hj Hk; [lia|]. cbn [frames_from]. unfold frame_start.
  destruct (decide (j < m)) as [Hlt|Hge].
  - rewrite decide_True by nia. destruct k as [|k].
    + cbn. rewrite Z.add_0_r, Z.mod_small by lia. done.
    + change ((_ :: ?l) !! S k) with (frames_from file (j * F + F) F n !! k). replace (j * F + F) with ((j + 1) * F) by lia.
      rewrite IH by lia. by replace (j + Z.of_nat (S k)) with (j + 1 + Z.of_nat k) by lia.
  - assert (j = m) as -> by lia. rewrite decide_False by nia. destruct k as [|k].
    + cbn. rewrite Z.add_0_r, Z.mod_same by lia. done.
    + change ((_ :: ?l) !! S k) with (frames_from file (0 + F) F n !! k). replace (0 + F) with (1 * F) by lia.
      rewrite IH by lia.
      replace (m + Z.of_nat (S k)) with ((1 + Z.of_nat k) + 1 * m) by lia. by rewrite Z_mod_plus_full.
Qed.

(** A datagram of the audio stream with this number, this clock and this sound. *)
Definition carries_sound (sq now : Z) (d frame : list Z) : Prop :=
  exists h, vmc_proto_decode (Some d) (zlen d) = Some (VMC_OK, Some (h, 17)) /\ stream h = VMC_PROTO_STREAM_AUDIO /\
    seq h = sq /\ ts_us h = u32 now /\ payload_len h = SIM_AUDIO_FRAME_BYTES /\ slice d 17 SIM_AUDIO_FRAME_BYTES = Some frame.

Lemma send_audio_spec leaves c pkt pcm now : (forall sq, leaves sq = true) -> have_client c = true ->
  0 <= audio_seq c < 4294967296 -> bytes pcm -> zlen pcm = SIM_AUDIO_FRAME_BYTES -> zlen pkt = 17 + SIM_AUDIO_FRAME_BYTES ->
  exists d, send_audio leaves c pkt pcm (u32 now)
      = Some ([d], c <| audio_seq := u32 (audio_seq c + 1) |> <| audio_frames := u64 (audio_frames c + 1) |>) /\
    carries_sound (audio_seq c) now d pcm.
Proof.
  intros Hl Hc Hsq Hb Hz Hp. unfold send_audio. rewrite Hc. cbn [negb]. cbv zeta.
  set (h := mk_header _ _ _ _ _ _ _ _ _). pose proof (u32_range now) as Hts.
  assert (HB : SIM_AUDIO_FRAME_BYTES = 960) by done. assert (HP : payload_len h = 960) by done. rewrite HB in Hz, Hp.
  assert (Hh : header_wf h) by (subst h; unfold header_wf; cbn -[Z.mul Z.div]; split_and!; unfold is_byte; lia || (vm_compute; intuition discriminate)).
  unfold VMC_PROTO_HEADER_SIZE. rewrite HB.
  rewrite encode_spec; [|done|lia|unfold payload_ok; lia|lia].
  assert (Es : payload_sent h (Some pcm) = pcm).
  { unfold payload_sent. cbn [default]. rewrite HP. apply take_ge. unfold zlen in Hz. lia. }
  rewrite Es. pose proof (packet_zlen h pcm) as Hpz. rewrite decide_True by lia.
  replace (17 + payload_len h) with (zlen (packet h pcm)) by lia. rewrite slice_prefix. cbn [mbind option_bind].
  rewrite Hl. exists (packet h pcm). split; [done|]. eexists.
  pose proof (decode_packet h pcm [] (zlen (packet h pcm)) Hh eq_refl Hb) as Hd. rewrite app_nil_r in Hd.
  split; [apply Hd; [lia|change (zlen (@nil Z)) with 0; lia]|].
  split_and!; try done. rewrite <- (app_nil_r (packet h pcm)), packet_split, app_assoc, HB, <- Hz.
  assert (17 = zlen (prefix16 h ++ [crc8_update 0 (prefix16 h ++ pcm)])) as -> by (rewrite zlen_app, prefix16_zlen; done).
  apply slice_app.
Qed.

(** Datagrams numbered from [sq], sent at the times of their slots, that carry
    these frames. *)
Fixpoint sounds (sq : Z) (ds : list (Z * list Z)) (fs : list (list Z)) : Prop :=
  match ds, fs with
  | [], [] => True
  | (t, d) :: ds, f :: fs => carries_sound sq t d f /\ sounds (u32 (sq + 1)) ds fs
  | _, _ => False
  end.

Definition sound_pass_ok (p : sound_pass) : Prop :=
  sp_client p = true /\ (forall k, 0 <= sp_rd p k) /\ zlen (sp_pkt p) = 17 + SIM_AUDIO_FRAME_BYTES.

Lemma piece_bytes file pos n : bytes file -> bytes (piece file pos n).
Proof. intros Hb. apply Forall_take, Forall_drop, Hb. Qed.

Section Sound.
Context (leaves : Z -> bool) (file : list Z).
Hypothesis all_leave : forall sq, leaves sq = true.
Hypothesis file_bytes : bytes file.
Hypothesis file_frame : SIM_AUDIO_FRAME_BYTES <= zlen file.

Lemma audio_sender_spec ps : forall s, Forall sound_pass_ok ps -> 0 <= s_pos s <= zlen file ->
  0 <= audio_seq (s_ctx s) < 4294967296 ->
  exists s' ds, audio_sender leaves file s ps = Some (s', ds) /\
    ds.*1 = slots (s_next s) audio_interval (sp_now <$> ps) /\
    sounds (audio_seq (s_ctx s)) ds (frames_from file (s_pos s) SIM_AUDIO_FRAME_BYTES (length ds)).
Proof.
  assert (HB : SIM_AUDIO_FRAME_BYTES = 960) by done.
  induction ps as [|p ps IH]; intros s Hps Hpos Hsq; cbn [audio_sender fmap list_fmap slots]; [by exists s, []|].
  apply Forall_cons in Hps as [(Hc & Hrd & Hpk) Hps]. unfold audio_pass. rewrite Hc. cbv zeta.
  set (c := (s_ctx s) <| have_client := true |>).
  assert (Hcs : audio_seq c = audio_seq (s_ctx s)) by done. change (have_client c) with true. cbv iota.
  case_decide.
  - rewrite (pcm_enough file (sp_rd p) (s_pos s) SIM_AUDIO_FRAME_BYTES) by (done || lia). cbn [mbind option_bind].
    set (q := frame_start file (s_pos s) SIM_AUDIO_FRAME_BYTES).
    assert (Hq : 0 <= q /\ q + SIM_AUDIO_FRAME_BYTES <= zlen file) by (unfold q, frame_start; case_decide; lia).
    destruct (send_audio_spec leaves c (sp_pkt p) (piece file q SIM_AUDIO_FRAME_BYTES) (sp_now p)) as (d & -> & Hd);
      [done|done|by rewrite Hcs|by apply piece_bytes|apply piece_zlen; lia|done|]. cbn [mbind option_bind].
    match goal with |- context [audio_sender leaves file ?x ps] => destruct (IH x Hps) as (s' & ds & -> & Ht & Hs) end.
    { cbn. lia. } { cbn. apply u32_range. }
    cbn [mbind option_bind]. eexists s', _. split; [reflexivity|]. cbn [fmap list_fmap app].
    split; [by f_equal|]. cbn [length frames_from sounds fst snd]. rewrite Hcs in Hd. split; [exact Hd|exact Hs].
  - cbn [mbind option_bind].
    match goal with |- context [audio_sender leaves file ?x ps] => destruct (IH x Hps) as (s' & ds & -> & Ht & Hs) end; [done|done|].
    cbn [mbind option_bind]. eexists s', _. split; [reflexivity|]. cbn [fmap list_fmap app]. split; [exact Ht|exact Hs].
Qed.

(** C22. The sound of the simulator. With a client, a file of at least one frame and
    a clock that does not run backwards: however the kernel splits the reads, the
    thread sends one datagram per slot, numbered consecutively, and a receiver
    decodes the [k]-th as frame [k] of the file played round and round (without
    the partial frame at its end); never faster than one frame in 5 ms, and,
    when its rounds are less than 5 ms apart, each within its own 5 ms, without
    drift. *)
Theorem sim_sound_paced s ps t0 : Forall sound_pass_ok ps -> s_pos s = 0 -> s_next s = 0 ->
  0 <= audio_seq (s_ctx s) < 4294967296 -> 0 <= t0 -> clocked t0 (sp_now <$> ps) ->
  exists s' ds, audio_sender leaves file s ps = Some (s', ds) /\
    (exists fs, sounds (audio_seq (s_ctx s)) ds fs /\ forall k, (k < length ds)%nat ->
       fs !! k = Some (piece file (Z.of_nat k mod (zlen file / SIM_AUDIO_FRAME_BYTES) * SIM_AUDIO_FRAME_BYTES)
                             SIM_AUDIO_FRAME_BYTES)) /\
    match sp_now <$> ps with
    | [] => ds = []
    | t :: nows => exists ts, ds.*1 = t :: ts /\ not_before (t + audio_interval) audio_interval ts /\
                     (steady t audio_interval nows -> on_time (t + audio_interval) audio_interval ts)
    end.
Proof.
  intros Hps Hpos Hnx Hsq Ht0 Hcl. assert (HB : SIM_AUDIO_FRAME_BYTES = 960) by done.
  destruct (audio_sender_spec ps s Hps) as (s' & ds & E & Ht & Hs); [lia|done|]. exists s', ds. split; [done|]. split.
  - eexists. split; [exact Hs|]. intros k Hk. rewrite Hpos. change 0 with (0 * SIM_AUDIO_FRAME_BYTES) at 1.
    rewrite frames_loop; [by rewrite Z.add_0_l|lia| |done]. split; [lia|]. apply Z.div_pos; lia.
  - rewrite Hnx in Ht. destruct (sp_now <$> ps) as [|t nows]; [by destruct ds|]. cbn [slots] in Ht. cbn [clocked] in Hcl.
    rewrite decide_True in Ht by lia. unfold audio_interval, SIM_AUDIO_MS in *. rewrite advance_first in Ht by lia.
    eexists. split; [exact Ht|]. split; [apply (slots_rate (5 * 1000) nows ltac:(lia) t); lia || tauto|].
    intros Hst. apply (slots_on_time (5 * 1000) nows ltac:(lia) t); lia || tauto.
Qed.

End Sound.

(** ** Concrete runs *)

Definition demo_file : list Z := replicate 960 1 ++ replicate 960 2 ++ replicate 100 3.
Definition demo_sound_pass (now : Z) : sound_pass := mk_sp now true (fun k => 500) (replicate 977 0).
Definition demo_sound : sound := mk_sound (Sim.mk_ctx false 0 4294967295 0 0 0 0) 0 0.

(** Two frames of the file, then the first again; the round at 12000 is early. *)
Lemma sim_sound_paced_witness :
  exists s' ds, audio_sender (fun _ => true) demo_file demo_sound (demo_sound_pass <$> [10000; 12000; 15000; 20001]) = Some (s', ds) /\
    ds.*1 = [10000; 15000; 20001] /\
    exists fs, sounds 4294967295 ds fs /\ fs !! 2%nat = Some (replicate 960 1).
Proof.
  destruct (sim_sound_paced (fun _ => true) demo_file ltac:(done) ltac:(unfold bytes; apply (bool_decide_unpack _); vm_compute; exact I)
              ltac:(vm_compute; discriminate) demo_sound (demo_sound_pass <$> [10000; 12000; 15000; 20001]) 0)
    as (s' & ds & E & (fs & Hs & Hf) & _).
  - repeat (apply Forall_cons; split; [split; [reflexivity|]; split; [intros k; vm_compute; discriminate|reflexivity]|]). constructor.
  - reflexivity.
  - reflexivity.
  - vm_compute. split; [discriminate|reflexivity].
  - reflexivity.
  - cbn. lia.
  - assert (Ht : ds.*1 = [10000; 15000; 20001]).
    { apply (f_equal (fmap (fun r => r.2.*1))) in E. vm_compute in E. by injection E. }
    exists s', ds. split; [exact E|]. split; [exact Ht|]. exists fs. split; [exact Hs|]. rewrite Hf; [by vm_compute|].
    rewrite <- (length_fmap fst ds), Ht. cbn. lia.
Defined.

(** A file shorter than a frame hangs the thread. *)
Example short_sound_hangs : pcm_next_frame (replicate 100 1) (fun _ => 4096) 0 SIM_AUDIO_FRAME_BYTES = None.
Proof. apply pcm_short_never; [intros k; lia|by vm_compute]. Qed.

(** Late by more than an interval, the source gives up the slots it missed. *)
Example late_slots_are_dropped : slots 0 5000 [10000; 22000; 23000; 27000; 30000] = [10000; 22000; 27000].
Proof. vm_compute. reflexivity. Qed.

(** More than a million frames per second leave no interval. *)
Example no_interval : frame_interval 2000000 = 0 /\ advance 0 7 0 = 7.
Proof. vm_compute. done. Qed.

(** Without a value the option is skipped; the rest are positional. *)
Example options_parsed :
  settle (parse_options default_options 0 (words ["0.0.0.0"; "--fps"; "30"; "70000"; "6001"; "--input"; "a.mp4"; "640"]))
  = mk_options (Some (chars "0.0.0.0")) (Some (chars "a.mp4")) 4464 6001 1920 1080 30 None /\
  settle (parse_options default_options 0 (words ["--input"])) = mk_options (Some (chars "127.0.0.1")) None 9999 6000 0 0 24 None.
Proof. vm_compute. done. Qed.

Example raw_inputs :
  looks_raw (chars "clip.264") None = true /\ looks_raw (chars "dir.x/clip") (Some [0; 0; 1; 9]) = true /\
  looks_raw (chars "clip.mp4") (Some [0; 0; 0; 24]) = false /\ looks_raw (chars "clip.h264.mp4") None = false.
Proof. vm_compute. done. Qed.

(** A transcode that fails leaves its partial output behind; else what ffmpeg
    was told to write is removed. *)
Lemma temporaries_removed o pid a : a_raw a = true -> p_removed (main o pid a) = p_written (main o pid a).
Proof. intros Hr. unfold main. destruct (_ || _); [done|]. destruct (input o); [|done]. rewrite Hr. by destruct (looks_raw _ _). Qed.

Example failed_transcode_stays :
  let p := main (settle (parse_options default_options 0 (words ["--input"; "a.mp4"]))) (chars "77")
             (mk_answers true true None false false None false) in
  p_written p = [chars "/tmp/vmc_sim_raw_77.h264"] /\ p_removed p = [].
Proof. vm_compute. done. Qed.

(** An encoder whose output holds no start code fills the buffer; the read into
    the full buffer is taken for its end, and it is started again. *)
Lemma full_buffer_restarts leaves o s p x d restarts m ds : p_poll p = PollOk m ds -> zlen (q_buf s) = SIM_IBUF_CAP ->
  pipe_pass leaves o s p (Piped (PData (x :: d)) restarts) = pipe_pass leaves o s p (Piped PEof restarts).
Proof.
  intros Hp Hz. unfold pipe_pass, pipe_event_step, pipe_take. rewrite Hp, Hz, zlen_cons. pose proof (zlen_nonneg d).
  by rewrite Z.sub_diag, Z.min_r by lia.
Qed.

End Src.
