(* ===== verification/Lifecycle.v ===== *)
(** * Set-up, supervision and shutdown of the client ([apps/thinclient/main.c])

    [run_dash] and [main] as the resources they acquire and release and the
    threads they start and stop, over every combination of answers; and the
    supervising loop of [run_dash]. A release of what a running thread still
    uses, a wait for a thread that was not told to stop, and a lock that nobody
    will release have no result. The reader is the one of [ReaderThread]. *)

From S2P Require Import Prelude Ledger ReaderThread.

#[local] Open Scope Z_scope.

Module Life.
Import Ledger.
#[local] Existing Instance Rt.rres_eq_dec.

(** ** Resources and threads *)

Inductive res :=
| RMapper | RSock | RDisplay | RRgb | RLib | RRt | RScanout | RPin (i : nat) | RImport (i : nat) | RDecoder | RSink | RInput
| RReader (k : nat) (r : Rt.rres).

Inductive thread := TDecode | TPresent | TAudio | TReader.

#[export] Instance res_eq_dec : EqDecision res.
Proof. solve_decision. Defined.
#[export] Instance thread_eq_dec : EqDecision thread.
Proof. solve_decision. Defined.

(** The globals [g_run], [g_run_decode], [g_run_audio], [g_use_drm] and
    [g_drm_pinned], and the locals [have_display], [have_decoder] and
    [g_audio_started]; [g_fmu_left]: [g_fmu] is locked by a thread that is no more.
    Of the readers that there have been, [RReader k r] is what number [k] holds. *)
Record sys := mk_sys {
  alive : list res; threads : list thread; g_run : bool; g_run_decode : bool; g_run_audio : bool; g_use_drm : bool;
  g_drm_pinned : bool; have_display : bool; have_decoder : bool; g_audio_started : bool; g_fmu_left : bool;
}.

#[export] Instance eta_sys : Eta sys := fun s =>
  mk_sys (alive s) (threads s) (g_run s) (g_run_decode s) (g_run_audio s) (g_use_drm s) (g_drm_pinned s)
    (have_display s) (have_decoder s) (g_audio_started s) (g_fmu_left s).

Definition start : sys := mk_sys [] [] true true true false false false false false false.

Definition acquire (r : res) (s : sys) : sys := s <| alive := r :: alive s |>.
Definition spawn (t : thread) (s : sys) : sys := s <| threads := t :: threads s |>.

(** The threads that use a resource: the decode worker writes to the framebuffer
    unless the scanout is used. *)
Definition users (drm : bool) (r : res) : list thread :=
  match r with
  | RDisplay => if drm then [] else [TDecode]
  | RScanout => [TDecode; TPresent]
  | RPin _ | RLib | RRt | RDecoder => [TDecode]
  | RSink => [TAudio]
  | _ => []
  end.

Definition release (r : res) (s : sys) : option sys :=
  if decide (Exists (fun t => t ∈ threads s) (users (g_use_drm s) r)) then None else
  l ← free r (alive s); Some (s <| alive := l |>).

(** [pthread_join]: the thread leaves its loop when it is told to. *)
Definition join (t : thread) (s : sys) : option sys :=
  let told := match t with
              | TDecode => negb (g_run_decode s)
              | TPresent => negb (g_run s)
              | TAudio => negb (g_run_audio s)
              | TReader => true
              end in
  if told then l ← free t (threads s); Some (s <| threads := l |>) else None.

(** ** The answers *)

(** The display (device, mode and mapping, picture buffer); the scanout
    ([VMC_DRM], converter library, runtime library, its four functions, the
    device, its buffers, the functions that pin and unpin, the pins, the import,
    the imports); the decoder for the scanout and for the framebuffer; the
    threads; the sound device; input; the network. *)
Record env := mk_env {
  e_fb : bool; e_fb_open : bool; e_rgb : bool;
  e_want_drm : bool; e_lib : bool; e_rt : bool; e_syms : bool; e_scanout : bool; e_nbufs : nat;
  e_pin_sym : bool; e_unpin_sym : bool; e_pin : nat -> bool; e_imp_sym : bool; e_imp : nat -> bool;
  e_dec : bool; e_dec_fb : bool; e_decode : bool; e_present : bool; e_audio : bool; e_reader : bool; e_sink : bool;
  e_input : bool; e_mapper : bool; e_route : bool; e_sock : bool; e_connect : bool;
}.

(** ** Set-up *)

Definition setup_display (e : env) (s : sys) : sys :=
  if e_fb e then
    let s := acquire RDisplay s in
    if e_fb_open e then
      if e_rgb e then (acquire RRgb s) <| have_display := true |> else s
    else s
  else s.

(** The pins in order, up to the first that fails. *)
Fixpoint pin_bufs (e : env) (n i : nat) (s : sys) : sys :=
  match n with
  | O => s
  | S n => if e_pin e i then pin_bufs e n (S i) (acquire (RPin i) s) else s <| g_drm_pinned := false |>
  end.

Fixpoint import_bufs (e : env) (n i : nat) (s : sys) : sys :=
  match n with
  | O => s
  | S n => import_bufs e n (S i) (if e_imp e i then acquire (RImport i) s else s)
  end.

Definition setup_drm (e : env) (s : sys) : sys :=
  if negb (e_want_drm e) || negb (e_lib e) then s else
  let s := acquire RLib s in
  let s := if e_rt e then acquire RRt s else s in
  if negb (e_syms e) || negb (e_scanout e) then s else
  let s := (acquire RScanout s) <| g_use_drm := true |> in
  let s := if e_pin_sym e then pin_bufs e (e_nbufs e) 0 (s <| g_drm_pinned := true |>) else s in
  if e_imp_sym e then import_bufs e (e_nbufs e) 0 s else s.

Fixpoint unpin_bufs (n i : nat) (s : sys) : option sys :=
  match n with
  | O => Some s
  | S n => s ← release (RPin i) s; unpin_bufs n (S i) s
  end.

Definition unpin (e : env) (s : sys) : option sys :=
  if g_drm_pinned s && e_unpin_sym e then
    s ← unpin_bufs (e_nbufs e) 0 s; Some (s <| g_drm_pinned := false |>)
  else Some s.

Definition close_drm (e : env) (s : sys) : option sys :=
  if g_use_drm s then
    s ← unpin e s; s ← release RScanout s; s ← release RLib s;
    if e_rt e then release RRt s else Some s
  else Some s.

Definition start_workers (e : env) (s : sys) : sys :=
  if have_decoder s then
    let s := if e_decode e then spawn TDecode s else s in
    if g_use_drm s && e_present e then spawn TPresent s else s
  else s.

Definition open_decoder (b : bool) (s : sys) : sys :=
  if b then (acquire RDecoder s) <| have_decoder := true |> else s.

Definition setup_audio (e : env) (s : sys) : sys :=
  if e_sink e then
    let s := acquire RSink s in
    if e_audio e then (spawn TAudio s) <| g_audio_started := true |> else s
  else s.

(** ** Shutdown *)

(** It takes [g_fmu] to wake the decode worker. *)
Definition stop_workers (s : sys) : option sys :=
  if have_decoder s then
    let s := s <| g_run_decode := false |> in
    if g_fmu_left s then None else
    s ← (if g_use_drm s then join TPresent s else Some s);
    s ← join TDecode s; release RDecoder s
  else Some s.

Definition stop_audio (s : sys) : option sys :=
  if g_audio_started s then
    s ← join TAudio (s <| g_run_audio := false |>); release RSink s
  else Some s.

Definition close_display (s : sys) : option sys :=
  if have_display s then s ← release RDisplay s; release RRgb s else Some s.

(** [pthread_cancel] and [pthread_join] of reader number [k]. *)
Definition cancel_reader (k : nat) (t : Rt.life) (s : sys) : option sys :=
  s ← join TReader s;
  '(l, f) ← Rt.thread_end t;
  let lock := match f with Rt.Cancelled b => b | Rt.Returned => false end in
  Some (s <| alive := (RReader k <$> l) ++ alive s |> <| g_fmu_left := g_fmu_left s || lock |>).

(** The reader [t] runs, number [k]. [restarts]: the watchdog's restarts, whether
    the thread starts, and the life of the new reader. In the end the program
    stops and the reader that runs is cancelled. *)
Fixpoint run_readers (k : nat) (t : Rt.life) (restarts : list (bool * Rt.life)) (s : sys) : option sys :=
  match restarts with
  | [] => cancel_reader k t (s <| g_run := false |>)
  | (b, t') :: bs => s ← cancel_reader k t s; run_readers (S k) t' bs (if b : bool then spawn TReader s else s)
  end.

(** [run_dash]: the return code and what is still alive. *)
Definition run_dash (e : env) (t : Rt.life) (restarts : list (bool * Rt.life)) : option (Z * sys) :=
  let s := setup_drm e (setup_display e start) in
  let s := open_decoder (if g_use_drm s then e_dec e else e_dec_fb e) s in
  let s := start_workers e s in
  if negb (have_decoder s) then Some (3, s) else
  let s := setup_audio e s in
  if negb (e_reader e) then Some (1, s) else
  s ← run_readers 0 t restarts (spawn TReader s);
  s ← stop_workers s; s ← close_drm e s; s ← stop_audio s; s ← close_display s;
  Some (0, s).

(** The UDP mode. A decoder that does not open for the scanout is tried again
    for the framebuffer. *)
Definition setup_decoder (e : env) (s : sys) : option sys :=
  let s := open_decoder (if g_use_drm s then e_dec e else e_dec_fb e) s in
  if negb (have_decoder s) && g_use_drm s then
    s ← unpin e s; s ← release RScanout s;
    Some (open_decoder (e_dec_fb e) (s <| g_use_drm := false |>))
  else Some s.

(** After the network and the input. *)
Definition udp_stop (e : env) (s : sys) : option sys :=
  s ← close_display s; s ← stop_workers s; s ← close_drm e s; s ← stop_audio s; release RMapper s.

Definition run_udp (e : env) : option (Z * sys) :=
  if negb (e_mapper e) then Some (1, start) else
  let s := acquire RMapper start in
  if negb (e_route e) then s ← release RMapper s; Some (1, s) else
  let s := if e_sock e then acquire RSock s else s in
  if negb (e_sock e) || negb (e_connect e) then s ← release RMapper s; Some (1, s) else
  s ← setup_decoder e (setup_drm e (setup_display e s));
  let s := setup_audio e (start_workers e s) in
  let s := if e_input e then acquire RInput s else s in
  let s := s <| g_run := false |> in
  s ← release RSock s; s ← (if e_input e then release RInput s else Some s);
  s ← udp_stop e s;
  Some (0, s).

(** ** The supervising loop of [run_dash] *)

Record watch := mk_watch { last_stats_ms : Z; last_pkts_seen : Z; last_pkts_time : Z }.

(** A pass: the clock, the counter of packets, [g_eos_reached], the wall clock. *)
Record wpass := mk_wpass { w_now : Z; w_pkts : Z; w_eos : bool; w_wall : Z }.

Definition watch_pass (end_wall : Z) (w : watch) (p : wpass) : watch * bool * bool :=
  if decide (u64 (w_now p - last_stats_ms w) >= 5000) then
    let '(w, restart) :=
      if decide (w_pkts p <> last_pkts_seen w) then (mk_watch (last_stats_ms w) (w_pkts p) (w_now p), false)
      else if decide (w_eos p = false /\ u64 (w_now p - last_pkts_time w) > 20000)
           then (mk_watch (last_stats_ms w) (last_pkts_seen w) (w_now p), true)
           else (w, false) in
    let stop := w_eos p && bool_decide (u64 (w_wall p) >= end_wall) in
    (if stop then w else mk_watch (w_now p) (last_pkts_seen w) (last_pkts_time w), restart, stop)
  else (w, false, false).

(** The passes until the loop ends: the times of the restarts, the time of the end. *)
Fixpoint supervise (end_wall : Z) (w : watch) (ps : list wpass) : list Z * option Z :=
  match ps with
  | [] => ([], None)
  | p :: ps =>
    let '(w, restart, stop) := watch_pass end_wall w p in
    let r := if restart : bool then [w_now p] else [] in
    if stop : bool then (r, Some (w_now p)) else let '(rs, e) := supervise end_wall w ps in (r ++ rs, e)
  end.

(** The pause of the reader after a round that did work: it wakes [lead] before
    the next segment is complete; the argument of [av_usleep] has 32 bits. *)
Definition reader_pause (avail dur live_edge now prev_work work : Z) : Z :=
  let next := avail + (live_edge + 1) * dur in
  let lead := if decide (prev_work > 0) then prev_work else work in
  let wait := next - now - lead in
  if decide (wait > 0) then u32 wait else 0.

(** ** Releases and joins *)

Lemma release_ok r s l : Forall (fun t => t ∉ threads s) (users (g_use_drm s) r) -> alive s ≡ₚ r :: l ->
  exists k, release r s = Some (s <| alive := k |>) /\ k ≡ₚ l.
Proof.
  intros Hu Hl. unfold release. rewrite decide_False.
  - destruct (free_here r (alive s) l Hl) as (k & -> & Hk). by exists k.
  - rewrite Exists_exists. intros (t & Ht & Hin). rewrite Forall_forall in Hu. by apply (Hu t).
Qed.

Lemma release_when b r s l : Forall (fun t => t ∉ threads s) (users (g_use_drm s) r) -> alive s ≡ₚ when b r ++ l ->
  exists k, (if b then release r s else Some s) = Some (s <| alive := k |>) /\ k ≡ₚ l.
Proof. destruct b; cbn; [apply release_ok|]. intros _ Hl. exists (alive s). split; [by destruct s|done]. Qed.

Fixpoint all_pins (e : env) (n i : nat) : bool :=
  match n with O => true | S n => e_pin e i && all_pins e n (S i) end.

(** The pins that are made. *)
Fixpoint pins (e : env) (n i : nat) : list res :=
  match n with O => [] | S n => if e_pin e i then RPin i :: pins e n (S i) else [] end.

Fixpoint imports (e : env) (n i : nat) : list res :=
  match n with O => [] | S n => when (e_imp e i) (RImport i) ++ imports e n (S i) end.

Lemma pin_bufs_spec e n : forall i s, exists k, pin_bufs e n i s = s <| alive := k |> <| g_drm_pinned := all_pins e n i && g_drm_pinned s |> /\
  k ≡ₚ pins e n i ++ alive s.
Proof.
  induction n as [|n IH]; intros i s; cbn [pin_bufs all_pins pins]; [exists (alive s); by destruct s|].
  destruct (e_pin e i); cbn [andb]; [|exists (alive s); by destruct s].
  destruct (IH (S i) (acquire (RPin i) s)) as (k & -> & Hk). exists k. split; [by destruct s|]. rewrite Hk. cbn.
  solve_Permutation.
Qed.

Lemma import_bufs_spec e n : forall i s, exists k, import_bufs e n i s = s <| alive := k |> /\ k ≡ₚ imports e n i ++ alive s.
Proof.
  induction n as [|n IH]; intros i s; cbn [import_bufs imports]; [exists (alive s); by destruct s|].
  destruct (e_imp e i); cbn [when app].
  - destruct (IH (S i) (acquire (RImport i) s)) as (k & -> & Hk). exists k. split; [by destruct s|]. rewrite Hk. cbn. solve_Permutation.
  - apply IH.
Qed.

Lemma unpin_bufs_spec e n : forall i s l, all_pins e n i = true -> TDecode ∉ threads s -> alive s ≡ₚ pins e n i ++ l ->
  exists k, unpin_bufs n i s = Some (s <| alive := k |>) /\ k ≡ₚ l.
Proof.
  induction n as [|n IH]; intros i s l; cbn [all_pins pins unpin_bufs].
  { intros _ _ Hl. exists (alive s). by destruct s. }
  intros [Hi Ha]%andb_true_iff Ht. rewrite Hi. cbn [app]. intros Hl.
  destruct (release_ok (RPin i) s (pins e n (S i) ++ l)) as (k & -> & Hk); [by repeat constructor|done|]. cbn [mbind option_bind].
  destruct (IH (S i) (s <| alive := k |>) l) as (k' & -> & Hk'); [done..|]. exists k'. by destruct s.
Qed.

(** ** What the set-up makes *)

Definition has_display (e : env) : bool := e_fb e && e_fb_open e && e_rgb e.
Definition has_lib (e : env) : bool := e_want_drm e && e_lib e.
Definition has_drm (e : env) : bool := has_lib e && e_syms e && e_scanout e.
Definition pins_made (e : env) : list res := if has_drm e && e_pin_sym e then pins e (e_nbufs e) 0 else [].
Definition pinned (e : env) : bool := has_drm e && e_pin_sym e && all_pins e (e_nbufs e) 0.
Definition imports_made (e : env) : list res := if has_drm e && e_imp_sym e then imports e (e_nbufs e) 0 else [].

Definition display_res (e : env) : list res := when (e_fb e) RDisplay ++ when (has_display e) RRgb.
Definition drm_res (e : env) : list res :=
  when (has_lib e) RLib ++ when (has_lib e && e_rt e) RRt ++ when (has_drm e) RScanout ++ pins_made e ++ imports_made e.

Lemma setup_display_spec e s : have_display s = false -> exists k,
  setup_display e s = s <| alive := k |> <| have_display := has_display e |> /\ k ≡ₚ display_res e ++ alive s.
Proof.
  intros Hd. exists (alive (setup_display e s)). unfold setup_display, display_res, has_display.
  destruct s, (e_fb e), (e_fb_open e), (e_rgb e); cbn in *; subst; (split; [reflexivity|solve_Permutation]).
Qed.

Lemma setup_drm_spec e s : g_use_drm s = false -> g_drm_pinned s = false -> exists k,
  setup_drm e s = s <| alive := k |> <| g_use_drm := has_drm e |> <| g_drm_pinned := pinned e |> /\ k ≡ₚ drm_res e ++ alive s.
Proof.
  intros Hu Hp. unfold setup_drm, drm_res, pins_made, imports_made, pinned, has_drm, has_lib.
  destruct (e_want_drm e), (e_lib e); cbn [negb orb andb]; try (exists (alive s); by destruct s; cbn in *; subst).
  set (s1 := if e_rt e then _ else _).
  assert (H1 : exists k, s1 = s <| alive := k |> /\ k ≡ₚ when (e_rt e) RRt ++ RLib :: alive s)
    by (exists (alive s1); unfold s1; destruct s, (e_rt e); cbn; (split; [reflexivity|solve_Permutation])).
  clearbody s1. destruct H1 as (k1 & -> & Hk1).
  destruct (e_syms e), (e_scanout e); cbn [negb orb andb];
    try (exists k1; split; [by destruct s; cbn in *; subst|]; rewrite Hk1; cbn; rewrite !app_nil_r; destruct (e_rt e); cbn; solve_Permutation).
  set (s2 := (acquire RScanout _) <| g_use_drm := true |>).
  set (s3 := if e_pin_sym e then _ else s2).
  assert (H3 : exists k, s3 = s2 <| alive := k |> <| g_drm_pinned := e_pin_sym e && all_pins e (e_nbufs e) 0 |> /\
            k ≡ₚ (if e_pin_sym e then pins e (e_nbufs e) 0 else []) ++ alive s2).
  { unfold s3. destruct (e_pin_sym e); cbn [andb].
    - destruct (pin_bufs_spec e (e_nbufs e) 0 (s2 <| g_drm_pinned := true |>)) as (k & -> & Hk). exists k.
      cbn [g_drm_pinned upd_field]. change (g_drm_pinned (s2 <| g_drm_pinned := true |>)) with true. rewrite andb_true_r. by destruct s2.
    - exists (alive s2). destruct s; cbn in *; by subst. }
  clearbody s3. destruct H3 as (k3 & -> & Hk3).
  destruct (e_imp_sym e); cbn [andb].
  - destruct (import_bufs_spec e (e_nbufs e) 0 (s2 <| alive := k3 |> <| g_drm_pinned := e_pin_sym e && all_pins e (e_nbufs e) 0 |>))
      as (k & -> & Hk). exists k. split; [by destruct s|]. rewrite Hk. cbn [alive upd_field]. cbn. rewrite Hk3. cbn. rewrite Hk1.
    destruct (e_rt e); cbn; solve_Permutation.
  - exists k3. split; [by destruct s|]. rewrite Hk3. cbn. rewrite Hk1. destruct (e_rt e); cbn; solve_Permutation.
Qed.

(** ** What the shutdown leaves *)

(** Converter library and imports stay when the scanout does not come up; pins
    stay when one of them failed, or cannot be undone. *)
Definition drm_left (e : env) : list res :=
  if has_drm e then (if pinned e && e_unpin_sym e then [] else pins_made e) ++ imports_made e
  else when (has_lib e) RLib ++ when (has_lib e && e_rt e) RRt.
Definition display_left (e : env) : list res := if has_display e then [] else when (e_fb e) RDisplay.
Definition sink_left (e : env) : list res := when (e_sink e && negb (e_audio e)) RSink.

Lemma unpin_spec e s l : TDecode ∉ threads s -> g_drm_pinned s = pinned e -> alive s ≡ₚ pins_made e ++ l -> has_drm e = true ->
  exists k p, unpin e s = Some (s <| alive := k |> <| g_drm_pinned := p |>) /\
    k ≡ₚ (if pinned e && e_unpin_sym e then [] else pins_made e) ++ l.
Proof.
  intros Ht Hp Hl Hd. unfold unpin. rewrite Hp. destruct (pinned e && e_unpin_sym e) eqn:E.
  - apply andb_true_iff in E as [E _]. unfold pinned in E. apply andb_true_iff in E as [E1 E2].
    unfold pins_made in Hl. rewrite E1 in Hl. destruct (unpin_bufs_spec e (e_nbufs e) 0 s l E2 Ht Hl) as (k & -> & Hk).
    exists k, false. by destruct s.
  - exists (alive s), (g_drm_pinned s). by destruct s.
Qed.

Lemma close_drm_spec e s l : TDecode ∉ threads s -> TPresent ∉ threads s -> g_use_drm s = has_drm e ->
  g_drm_pinned s = pinned e -> alive s ≡ₚ drm_res e ++ l ->
  exists k p, close_drm e s = Some (s <| alive := k |> <| g_drm_pinned := p |>) /\ k ≡ₚ drm_left e ++ l.
Proof.
  intros Ht Ht2 Hu Hp Hl. unfold close_drm, drm_left. rewrite Hu. unfold drm_res in Hl. destruct (has_drm e) eqn:Hd.
  2: { exists (alive s), (g_drm_pinned s). split; [by destruct s|]. rewrite Hl.
       unfold pins_made, imports_made. rewrite Hd. cbn. by rewrite <- !app_assoc. }
  assert (Hlib : has_lib e = true) by (unfold has_drm in Hd; by destruct (has_lib e)). rewrite Hlib in Hl. cbn [andb when] in Hl.
  destruct (unpin_spec e s (RLib :: RScanout :: when (e_rt e) RRt ++ imports_made e ++ l) Ht Hp) as (k & q & -> & Hk); [|done|].
  { rewrite Hl. solve_Permutation. }
  cbn [mbind option_bind]. set (rest := if pinned e && e_unpin_sym e then [] else pins_made e) in *.
  set (s1 := s <| alive := k |> <| g_drm_pinned := q |>).
  destruct (release_ok RScanout s1 (rest ++ RLib :: when (e_rt e) RRt ++ imports_made e ++ l)) as (k2 & -> & Hk2);
    [by repeat constructor|change (alive s1) with k; rewrite Hk; solve_Permutation|].
  cbn [mbind option_bind]. set (s2 := s1 <| alive := k2 |>).
  destruct (release_ok RLib s2 (rest ++ when (e_rt e) RRt ++ imports_made e ++ l)) as (k3 & -> & Hk3);
    [by repeat constructor|change (alive s2) with k2; rewrite Hk2; solve_Permutation|].
  cbn [mbind option_bind]. set (s3 := s2 <| alive := k3 |>).
  destruct (release_when (e_rt e) RRt s3 (rest ++ imports_made e ++ l)) as (k4 & -> & Hk4);
    [by repeat constructor|change (alive s3) with k3; rewrite Hk3; solve_Permutation|].
  exists k4, q. split; [by destruct s|]. by rewrite Hk4, app_assoc.
Qed.

Lemma stop_workers_spec s l a drm : have_decoder s = true -> g_run s = false -> g_use_drm s = drm -> g_fmu_left s = false ->
  threads s = when a TAudio ++ when drm TPresent ++ [TDecode] -> alive s ≡ₚ RDecoder :: l ->
  exists k, stop_workers s = Some (s <| alive := k |> <| threads := when a TAudio |> <| g_run_decode := false |>) /\ k ≡ₚ l.
Proof.
  intros Hd Hr Hu Hf Ht Hl. unfold stop_workers. rewrite Hd. cbv zeta.
  set (s1 := s <| g_run_decode := false |> <| threads := when a TAudio |>).
  destruct (release_ok RDecoder s1 l) as (k & E & Hk); [destruct a; repeat constructor; set_solver|done|].
  exists k. split; [|done]. destruct s, a, drm; cbn in Hd, Hr, Hu, Hf, Ht; subst; exact E.
Qed.

Lemma stop_audio_spec e s l : g_audio_started s = e_sink e && e_audio e -> threads s = when (e_sink e && e_audio e) TAudio ->
  alive s ≡ₚ when (e_sink e) RSink ++ l ->
  exists k, stop_audio s = Some (s <| alive := k |> <| threads := [] |> <| g_run_audio := g_run_audio s && negb (e_sink e && e_audio e) |>) /\
    k ≡ₚ sink_left e ++ l.
Proof.
  intros Ha Ht Hl. unfold stop_audio, sink_left. rewrite Ha. destruct (e_sink e), (e_audio e); cbn [andb negb when] in *;
    try (exists (alive s); split; [destruct s; cbn in *; subst; by rewrite ?andb_true_r|done]).
  set (s1 := s <| g_run_audio := false |> <| threads := [] |>).
  destruct (release_ok RSink s1 l) as (k & E & Hk); [repeat constructor; set_solver|done|].
  exists k. split; [|done]. destruct s; cbn in Ha, Ht; subst. rewrite andb_false_r. exact E.
Qed.

Lemma close_display_spec e s l : have_display s = has_display e ->
  (has_display e = true -> g_use_drm s = true \/ TDecode ∉ threads s) ->
  alive s ≡ₚ display_res e ++ l ->
  exists k, close_display s = Some (s <| alive := k |>) /\ k ≡ₚ display_left e ++ l.
Proof.
  intros Hd Ht Hl. unfold close_display, display_left, display_res in *. rewrite Hd.
  destruct (has_display e) eqn:E; [|exists (alive s); split; [by destruct s|by rewrite Hl, app_nil_r]].
  assert (Hfb : e_fb e = true) by (unfold has_display in E; by destruct (e_fb e)). rewrite Hfb in Hl. cbn in Hl.
  destruct (release_ok RDisplay s (RRgb :: l)) as (k & -> & Hk); [|done|].
  { cbn. destruct (Ht eq_refl) as [-> | Ht2]; [constructor|]. destruct (g_use_drm s); by repeat constructor. }
  cbn [mbind option_bind]. destruct (release_ok RRgb (s <| alive := k |>) l) as (k2 & -> & Hk2); [constructor|done|].
  exists k2. split; [by destruct s|done].
Qed.







Lemma setup_audio_spec e s : g_audio_started s = false -> exists k,
  setup_audio e s = s <| alive := k |> <| threads := when (e_sink e && e_audio e) TAudio ++ threads s |>
                      <| g_audio_started := e_sink e && e_audio e |> /\
  k ≡ₚ when (e_sink e) RSink ++ alive s.
Proof.
  intros Ha. exists (alive (setup_audio e s)). unfold setup_audio. destruct s; cbn in Ha; subst.
  destruct (e_sink e), (e_audio e); cbn; done.
Qed.



(** ** The UDP mode *)

Definition udp_drm (e : env) : bool := has_drm e && e_dec e.
Definition udp_decoder (e : env) : bool := udp_drm e || e_dec_fb e.

(** A scanout given up for the framebuffer leaves its libraries too. *)
Definition given_up (e : env) : list res :=
  RLib :: when (e_rt e) RRt ++ (if pinned e && e_unpin_sym e then [] else pins_made e) ++ imports_made e.
Definition udp_drm_res (e : env) : list res := if has_drm e && negb (e_dec e) then given_up e else drm_res e.
Definition udp_drm_left (e : env) : list res := if has_drm e && negb (e_dec e) then given_up e else drm_left e.

Lemma setup_decoder_spec e s l : threads s = [] -> g_use_drm s = has_drm e -> g_drm_pinned s = pinned e ->
  have_decoder s = false -> alive s ≡ₚ drm_res e ++ l ->
  exists k p, setup_decoder e s = Some (s <| alive := k |> <| g_drm_pinned := p |> <| g_use_drm := udp_drm e |> <| have_decoder := udp_decoder e |>) /\
    k ≡ₚ when (udp_decoder e) RDecoder ++ udp_drm_res e ++ l /\ (udp_drm e = true -> p = pinned e).
Proof.
  intros Ht Hu Hp Hd Hl. unfold setup_decoder, udp_decoder, udp_drm, udp_drm_res. rewrite Hu. cbv zeta.
  destruct (has_drm e) eqn:Eh; cbn [andb orb negb].
  2: { exists (alive (open_decoder (e_dec_fb e) s)), (g_drm_pinned s). unfold open_decoder.
       destruct s, (e_dec_fb e); cbn in *; subst; (split; [reflexivity|cbn; by rewrite Hl]). }
  destruct (e_dec e) eqn:Ed; cbn [open_decoder negb andb orb].
  { exists (RDecoder :: alive s), (g_drm_pinned s). destruct s; cbn in *; subst. split; [reflexivity|]. by rewrite Hl. }
  rewrite Hd, Hu. cbn [negb andb].
  destruct (unpin_spec e s (RLib :: RScanout :: when (e_rt e) RRt ++ imports_made e ++ l)) as (k & q & -> & Hk); [rewrite Ht; set_solver|done| |done|].
  { rewrite Hl. unfold drm_res. assert (has_lib e = true) as -> by (unfold has_drm in Eh; by destruct (has_lib e)). rewrite Eh. cbn. solve_Permutation. }
  cbn [mbind option_bind]. set (s1 := s <| alive := k |> <| g_drm_pinned := q |>).
  destruct (release_ok RScanout s1 (given_up e ++ l)) as (k2 & -> & Hk2).
  { change (threads s1) with (threads s). rewrite Ht. repeat constructor; set_solver. }
  { change (alive s1) with k. rewrite Hk. unfold given_up. solve_Permutation. }
  cbn [mbind option_bind].
  exists (alive (open_decoder (e_dec_fb e) (s1 <| alive := k2 |> <| g_use_drm := false |>))), q. unfold open_decoder.
  destruct s, (e_dec_fb e); cbn in *; subst; (split; [reflexivity|]); (split; [cbn; by rewrite Hk2|done]).
Qed.

Lemma stop_workers_any s l a (d r : bool) : have_decoder s = d -> g_run s = false -> g_use_drm s = r -> g_fmu_left s = false ->
  threads s = when a TAudio ++ (if d then when r TPresent ++ [TDecode] else []) -> alive s ≡ₚ when d RDecoder ++ l ->
  exists k rd, stop_workers s = Some (s <| alive := k |> <| threads := when a TAudio |> <| g_run_decode := rd |>) /\ k ≡ₚ l.
Proof.
  intros Hd Hr Hu Hf Ht Hl. destruct d.
  - destruct (stop_workers_spec s l a r Hd Hr Hu Hf Ht Hl) as (k & E & Hk). by exists k, false.
  - exists (alive s), (g_run_decode s). unfold stop_workers. rewrite Hd. split; [|done]. destruct s; cbn in *; subst. by rewrite app_nil_r.
Qed.

Lemma close_udp_drm e s l : TDecode ∉ threads s -> TPresent ∉ threads s -> g_use_drm s = udp_drm e ->
  (udp_drm e = true -> g_drm_pinned s = pinned e) -> alive s ≡ₚ udp_drm_res e ++ l ->
  exists k p, close_drm e s = Some (s <| alive := k |> <| g_drm_pinned := p |>) /\ k ≡ₚ udp_drm_left e ++ l.
Proof.
  intros Ht Ht2 Hu Hp. unfold udp_drm_res, udp_drm_left, udp_drm in *. destruct (has_drm e) eqn:Eh, (e_dec e); cbn [andb negb] in *.
  - intros Hl. apply close_drm_spec; rewrite ?Eh; auto.
  - intros Hl. exists (alive s), (g_drm_pinned s). unfold close_drm. rewrite Hu. split; [by destruct s|done].
  - intros Hl. exists (alive s), (g_drm_pinned s). unfold close_drm. rewrite Hu. split; [by destruct s|]. rewrite Hl.
    unfold drm_res, drm_left, pins_made, imports_made. rewrite Eh. cbn. by rewrite !app_nil_r.
  - intros Hl. exists (alive s), (g_drm_pinned s). unfold close_drm. rewrite Hu. split; [by destruct s|]. rewrite Hl.
    unfold drm_res, drm_left, pins_made, imports_made. rewrite Eh. cbn. by rewrite !app_nil_r.
Qed.

(** The state of the UDP client at the end of its loop. *)
Lemma udp_booted e s : e_decode e = true -> e_present e = true ->
  g_audio_started s = false -> threads s = [] -> g_use_drm s = udp_drm e -> have_decoder s = udp_decoder e -> exists k,
  (let s := setup_audio e (start_workers e s) in
   (if e_input e then acquire RInput s else s) <| g_run := false |>)
  = s <| alive := k |> <| threads := when (e_sink e && e_audio e) TAudio ++ (if udp_decoder e then when (udp_drm e) TPresent ++ [TDecode] else []) |>
      <| g_audio_started := e_sink e && e_audio e |> <| g_run := false |> /\
  k ≡ₚ when (e_input e) RInput ++ when (e_sink e) RSink ++ alive s.
Proof.
  intros Hd Hp Ha Ht Hu Hde. set (s1 := start_workers e s).
  assert (E1 : s1 = s <| threads := if udp_decoder e then when (udp_drm e) TPresent ++ [TDecode] else [] |>).
  { unfold s1, start_workers. rewrite Hd, Hp. destruct s; cbn in *; subst. by destruct (udp_decoder e), (udp_drm e). }
  destruct (setup_audio_spec e s1) as (k & E & Hk); [by rewrite E1|]. cbv zeta. rewrite E, E1 in *. cbn in Hk.
  exists (when (e_input e) RInput ++ k). split; [|by rewrite Hk]. destruct (e_input e), s; reflexivity.
Qed.

(** The end of the UDP client, after its loop: refused when the framebuffer is
    in use, else complete. *)
Lemma udp_stop_spec e s : let ar := e_sink e && e_audio e in
  g_run s = false -> g_use_drm s = udp_drm e -> (udp_drm e = true -> g_drm_pinned s = pinned e) ->
  have_display s = has_display e -> have_decoder s = udp_decoder e -> g_audio_started s = ar -> g_fmu_left s = false ->
  threads s = when ar TAudio ++ (if udp_decoder e then when (udp_drm e) TPresent ++ [TDecode] else []) ->
  alive s ≡ₚ RMapper :: when (e_sink e) RSink ++ when (udp_decoder e) RDecoder ++ udp_drm_res e ++ display_res e ->
  if has_display e && udp_decoder e && negb (udp_drm e) then udp_stop e s = None
  else exists s', udp_stop e s = Some s' /\ threads s' = [] /\ alive s' ≡ₚ sink_left e ++ udp_drm_left e ++ display_left e.
Proof.
  intros ar Hrun Hu Hp Hdi Hde Hau Hf Hth Hl. unfold udp_stop.
  destruct (has_display e && udp_decoder e && negb (udp_drm e)) eqn:Ebad.
  { apply andb_true_iff in Ebad as [[Eh Ede]%andb_true_iff Edr]. apply negb_true_iff in Edr. unfold close_display. rewrite Hdi, Eh.
    assert (E0 : release RDisplay s = None); [|by rewrite E0].
    unfold release. rewrite decide_True; [done|]. rewrite Hu, Edr, Hth, Ede, Edr.
    apply Exists_cons_hd. apply elem_of_app. right. cbn. left. }
  destruct (close_display_spec e s (RMapper :: when (e_sink e) RSink ++ when (udp_decoder e) RDecoder ++ udp_drm_res e))
    as (k6 & -> & Hk6); [done| |rewrite Hl; solve_Permutation|].
  { intros Eh. rewrite Eh in Ebad. rewrite Hu, Hth.
    destruct (udp_drm e); [by left|right]. rewrite andb_true_r in Ebad. cbn in Ebad. rewrite Ebad. destruct ar; cbn; set_solver. }
  cbn [mbind option_bind]. set (s4 := s <| alive := k6 |>).
  destruct (stop_workers_any s4 (RMapper :: when (e_sink e) RSink ++ udp_drm_res e ++ display_left e) ar (udp_decoder e) (udp_drm e))
    as (k7 & rd & -> & Hk7); [done..|change (alive s4) with k6; rewrite Hk6; solve_Permutation|]. cbn [mbind option_bind].
  set (s5 := s4 <| alive := k7 |> <| threads := when ar TAudio |> <| g_run_decode := rd |>).
  destruct (close_udp_drm e s5 (RMapper :: when (e_sink e) RSink ++ display_left e)) as (k8 & q8 & -> & Hk8);
    [by destruct ar; cbn; set_solver..|done|done|change (alive s5) with k7; rewrite Hk7; solve_Permutation|]. cbn [mbind option_bind].
  set (s6 := s5 <| alive := k8 |> <| g_drm_pinned := q8 |>).
  destruct (stop_audio_spec e s6 (RMapper :: udp_drm_left e ++ display_left e)) as (k9 & -> & Hk9);
    [done|done|change (alive s6) with k8; rewrite Hk8; solve_Permutation|]. cbn [mbind option_bind].
  match goal with |- context [release RMapper ?x] => destruct (release_ok RMapper x (sink_left e ++ udp_drm_left e ++ display_left e)) as (k10 & -> & Hk10) end;
    [constructor|cbn; rewrite Hk9; solve_Permutation|].
  eexists. split; [reflexivity|]. split; [done|]. exact Hk10.
Qed.

(** C21. The shutdown of the UDP mode, once the session was made and as long as the
    worker threads can be started. With a framebuffer and a decoder that shows
    its pictures there it unmaps the framebuffer while the decode worker still
    runs and may be copying into it. In every other case all threads are joined and
    all resources released, but for those the DASH client leaves, and the
    libraries, pins and imports of a scanout that was given up because its decoder
    did not open. *)
Theorem udp_shutdown e : e_decode e = true -> e_present e = true ->
  e_mapper e = true -> e_route e = true -> e_sock e = true -> e_connect e = true ->
  if has_display e && udp_decoder e && negb (udp_drm e) then run_udp e = None
  else exists s, run_udp e = Some (0, s) /\ threads s = [] /\ alive s ≡ₚ sink_left e ++ udp_drm_left e ++ display_left e.
Proof.
  intros Hd Hp Hm Hr Hs Hc. unfold run_udp. rewrite Hm, Hr, Hs, Hc. cbn [negb orb]. cbv zeta.
  set (s0 := acquire RSock (acquire RMapper start)).
  destruct (setup_display_spec e s0 eq_refl) as (k & E & Hk).
  destruct (setup_drm_spec e (setup_display e s0)) as (k1 & E1 & Hk1); [by rewrite E..|].
  rewrite E1, E in *. clear E E1. cbn in Hk, Hk1. rewrite Hk in Hk1.
  match goal with |- context [setup_decoder e ?x] => destruct (setup_decoder_spec e x (display_res e ++ [RSock; RMapper])) as (k2 & q & -> & Hk2 & Hq) end;
    [done..|]. cbn [mbind option_bind].
  match goal with |- context [start_workers e ?x] => destruct (udp_booted e x Hd Hp) as (k3 & E & Hk3) end; [done..|]. cbv zeta in E.
  rewrite E. clear E. cbn in Hk3.
  set (ar := e_sink e && e_audio e) in *. set (th := when ar TAudio ++ _).
  set (s1 := mk_sys k3 th false true true (udp_drm e) q (has_display e) (udp_decoder e) ar false).
  match goal with |- context [release RSock ?x] => change x with s1 end.
  destruct (release_ok RSock s1 (RMapper :: when (e_input e) RInput ++ when (e_sink e) RSink ++ when (udp_decoder e) RDecoder ++ udp_drm_res e ++ display_res e))
    as (k4 & -> & Hk4); [constructor|change (alive s1) with k3; rewrite Hk3, Hk2; solve_Permutation|]. cbn [mbind option_bind].
  set (s2 := s1 <| alive := k4 |>).
  destruct (release_when (e_input e) RInput s2 (RMapper :: when (e_sink e) RSink ++ when (udp_decoder e) RDecoder ++ udp_drm_res e ++ display_res e))
    as (k5 & -> & Hk5); [constructor|change (alive s2) with k4; rewrite Hk4; solve_Permutation|]. cbn [mbind option_bind].
  set (s3 := s2 <| alive := k5 |>).
  pose proof (udp_stop_spec e s3 eq_refl eq_refl Hq eq_refl eq_refl eq_refl eq_refl eq_refl Hk5) as H.
  destruct (has_display e && udp_decoder e && negb (udp_drm e)); [by rewrite H|].
  destruct H as (s' & -> & H). by exists s'.
Qed.

(** ** The watchdog *)

(** Clock readings from [t] on. *)
Fixpoint clocked (t : Z) (ps : list wpass) : Prop :=
  match ps with [] => True | p :: ps => t <= w_now p < 9223372036854775808 /\ clocked (w_now p) ps end.

(** More than 20 s apart, from [t] on. *)
Fixpoint apart (t : Z) (rs : list Z) : Prop :=
  match rs with [] => True | r :: rs => t + 20000 < r /\ apart r rs end.

Definition watch_ok (t : Z) (w : watch) : Prop := 0 <= last_stats_ms w <= t /\ 0 <= last_pkts_time w <= t.

Lemma apart_mono t u rs : t <= u -> apart u rs -> apart t rs.
Proof. destruct rs; cbn; [done|]. intros H [H1 H2]. split; [lia|done]. Qed.

Lemma since a b : 0 <= b <= a -> a < 9223372036854775808 -> u64 (a - b) = a - b.
Proof. intros H1 H2. apply u64_small. lia. Qed.

Lemma watch_pass_spec ew w p t : watch_ok t w -> t <= w_now p < 9223372036854775808 ->
  let '(w', restart, stop) := watch_pass ew w p in
  watch_ok (w_now p) w' /\ last_pkts_time w <= last_pkts_time w' /\
  (restart = true -> w_eos p = false /\ w_pkts p = last_pkts_seen w /\ last_pkts_time w + 20000 < w_now p /\ last_pkts_time w' = w_now p) /\
  (stop = true -> w_eos p = true /\ ew <= u64 (w_wall p)).
Proof.
  intros (Hs & Hp) Ht. unfold watch_pass. rewrite (since (w_now p) (last_stats_ms w)) by lia.
  rewrite (since (w_now p) (last_pkts_time w)) by lia. case_decide; [|unfold watch_ok; split_and!; done || lia].
  destruct (decide (w_pkts p <> last_pkts_seen w)) as [Hc|Hc];
    [|destruct (decide (w_eos p = false /\ w_now p - last_pkts_time w > 20000)) as [Hr|Hr]];
    destruct (w_eos p && bool_decide (u64 (w_wall p) >= ew)) eqn:Ee; unfold watch_ok; cbn [last_stats_ms last_pkts_time last_pkts_seen];
    (split_and!; try (done || lia); try (intros; apply andb_true_iff in Ee as [? ?%bool_decide_eq_true]; split; done || lia)).
  all: intros _; split_and!; try tauto; try lia. all: by apply dec_stable in Hc.
Qed.

Lemma supervise_apart ew ps : forall t w, watch_ok t w -> clocked t ps -> apart (last_pkts_time w) (fst (supervise ew w ps)).
Proof.
  induction ps as [|p ps IH]; intros t w Hw; cbn [clocked supervise]; [done|]. intros [Ht Hc].
  pose proof (watch_pass_spec ew w p t Hw Ht) as H. destruct (watch_pass ew w p) as [[w' r] st]. destruct H as (Hw' & Hm & Hr & Hst).
  specialize (IH (w_now p) w' Hw' Hc). destruct (supervise ew w' ps) as [rs e]. cbn [fst] in IH.
  destruct r, st; cbn [fst app apart].
  - split; [apply Hr; done|done].
  - destruct (Hr eq_refl) as (_ & _ & ? & E). rewrite E in IH. done.
  - done.
  - by eapply apart_mono.
Qed.

Lemma supervise_end ew ps : forall w t, snd (supervise ew w ps) = Some t ->
  exists p, p ∈ ps /\ w_now p = t /\ w_eos p = true /\ ew <= u64 (w_wall p).
Proof.
  induction ps as [|p ps IH]; intros w t; cbn [supervise]; [done|].
  destruct (watch_pass ew w p) as [[w' r] st] eqn:E. destruct st.
  - cbn. intros [= <-]. exists p. split; [left|]. split; [done|]. unfold watch_pass in E. case_decide; [|done].
    destruct (if decide (w_pkts p <> last_pkts_seen w) then _ else _) as [w1 r1]. injection E as _ _ E.
    apply andb_true_iff in E as [? ?%bool_decide_eq_true]. split; [done|lia].
  - specialize (IH w' t). destruct (supervise ew w' ps) as [rs e]. cbn in *. intros He. destruct (IH He) as (p' & ? & H).
    exists p'. split; [by right|done].
Qed.

Lemma supervise_quiet ew ps : forall t w, watch_ok t w -> clocked t ps -> last_stats_ms w <= last_pkts_time w + 20000 ->
  Forall (fun p => w_pkts p = last_pkts_seen w /\ w_eos p = false) ps -> fst (supervise ew w ps) = [] ->
  Forall (fun p => w_now p <= last_pkts_time w + 25000) ps.
Proof.
  induction ps as [|p ps IH]; intros t w Hw; cbn [clocked supervise]; [by constructor|]. intros [Ht Hc] Hl Hq.
  apply Forall_cons in Hq as [[Hp He] Hq]. destruct Hw as (Hs & Hpt). unfold watch_pass.
  rewrite (since (w_now p) (last_stats_ms w)), (since (w_now p) (last_pkts_time w)), He by lia. cbn [andb].
  destruct (decide (w_now p - last_stats_ms w >= 5000)) as [Hd|Hd].
  - rewrite (decide_False (P := _ <> _)) by tauto.
    destruct (decide (false = false /\ w_now p - last_pkts_time w > 20000)) as [Hr|Hr].
    + destruct (supervise _ _ ps). done.
    + set (w1 := mk_watch _ _ _). pose proof (IH (w_now p) w1) as H1. destruct (supervise ew w1 ps) as [rs e]. cbn [fst app] in *.
      assert (Hn : w_now p <= last_pkts_time w + 20000) by (destruct (decide (w_now p - last_pkts_time w > 20000)); [tauto|lia]).
      intros Hrs. constructor; [lia|]. apply H1; unfold watch_ok; cbn; done || lia.
  - pose proof (IH (w_now p) w) as H1. destruct (supervise ew w ps) as [rs e]. cbn [fst app] in *.
    intros Hrs. constructor; [lia|]. apply H1; unfold watch_ok; done || lia.
Qed.

(** The counter of packets does not go back, from [n] on. *)
Fixpoint counting (n : Z) (ps : list wpass) : Prop :=
  match ps with [] => True | p :: ps => n <= w_pkts p /\ counting (w_pkts p) ps end.

(** A restart at [u], after the passes [pre]: in the 20 s before it every pass found
    the counter where it stands now. *)
Definition starved (u : Z) (pre : list wpass) (p : wpass) : Prop :=
  w_now p = u /\ w_eos p = false /\ Forall (fun q => u - 20000 <= w_now q -> w_pkts q = w_pkts p) pre.

(** What a pass does to the counter last seen. *)
Lemma watch_pass_counter ew w p : last_pkts_seen w <= w_pkts p ->
  let '(w', restart, _) := watch_pass ew w p in
  last_pkts_seen w' <= w_pkts p /\
  (last_pkts_time w' = last_pkts_time w /\ last_pkts_seen w' = last_pkts_seen w \/
   last_pkts_time w' = w_now p /\ last_pkts_seen w' = w_pkts p).
Proof.
  intros Hn. unfold watch_pass. case_decide; [|split; [lia|by left]].
  destruct (decide (w_pkts p <> last_pkts_seen w)) as [Hc|Hc]; [|apply dec_stable in Hc; case_decide];
    destruct (w_eos p && _); cbn [last_pkts_seen last_pkts_time]; split_and!; try lia; auto.
Qed.

(** After the passes [pre], up to the time [t] and the count [n]: since the time of
    the last packet seen, or of the last restart, the counter has not been below
    the counter last seen. *)
Definition watched (t n : Z) (w : watch) (pre : list wpass) : Prop :=
  last_pkts_seen w <= n /\
  Forall (fun q => w_now q <= t /\ w_pkts q <= n /\ (last_pkts_time w < w_now q -> last_pkts_seen w <= w_pkts q)) pre.

Lemma watched_step ew w p t n pre : watched t n w pre -> t <= w_now p -> n <= w_pkts p ->
  watched (w_now p) (w_pkts p) (watch_pass ew w p).1.1 (pre ++ [p]).
Proof.
  intros [Hs Hpre] Ht Hn. pose proof (watch_pass_counter ew w p ltac:(lia)) as H.
  destruct (watch_pass ew w p) as [[w' r] st]. cbn [fst]. split; [lia|]. apply Forall_app. split; [|repeat constructor; lia].
  eapply Forall_impl; [exact Hpre|]. intros q (H1 & H2 & H3). cbn. split_and!; [lia|lia|].
  destruct H as (_ & [(-> & ->)|(-> & ->)]); [exact H3|lia].
Qed.

Lemma supervise_starved ew ps : forall t n w pre, watch_ok t w -> clocked t ps -> counting n ps -> watched t n w pre ->
  Forall (fun u => exists pre' p post, pre ++ ps = pre' ++ p :: post /\ starved u pre' p) (fst (supervise ew w ps)).
Proof.
  induction ps as [|p ps IH]; intros t n w pre Hw; cbn [clocked counting supervise]; [constructor|]. intros [Ht Hc] [Hn Hcn] Hpre.
  pose proof (watched_step ew w p t n pre Hpre ltac:(lia) Hn) as Hpre'.
  pose proof (watch_pass_spec ew w p t Hw Ht) as H. destruct (watch_pass ew w p) as [[w' r] st].
  destruct H as (Hw' & _ & Hr & _). specialize (IH (w_now p) (w_pkts p) w' (pre ++ [p]) Hw' Hc Hcn Hpre').
  rewrite <- app_assoc in IH. cbn [app] in IH.
  assert (H1 : Forall (fun u => exists pre' p' post, pre ++ p :: ps = pre' ++ p' :: post /\ starved u pre' p')
                 (if r : bool then [w_now p] else [])).
  { destruct r; repeat constructor. destruct (Hr eq_refl) as (He & Hp & Hl & _). exists pre, p, ps. split; [done|].
    split_and!; [done..|]. eapply Forall_impl; [exact (proj2 Hpre)|]. cbn. intros q (_ & H2 & H3) Hq. lia. }
  destruct st; [exact H1|]. destruct (supervise ew w' ps) as [rs e]. by apply Forall_app_2.
Qed.

(** C23. The supervision of the DASH client, whose counter of packets does not go
    back: every restart of the reader comes before the end of the content, and in
    the 20 s before it no pass of the loop found a packet that the pass of the
    restart had not seen already - a reader that delivers is never restarted -
    nor was there another restart; a reader that delivers nothing for more than
    25 s before the end of the content has been restarted; and the loop ends by
    itself only after the end of the content, once its end time has passed. *)
Theorem reader_watchdog ew w t ps : watch_ok t w -> clocked t ps -> counting (last_pkts_seen w) ps ->
  Forall (fun u => exists pre p post, ps = pre ++ p :: post /\ starved u pre p) (fst (supervise ew w ps)) /\
  apart (last_pkts_time w) (fst (supervise ew w ps)) /\
  (forall u, snd (supervise ew w ps) = Some u ->
     exists p, p ∈ ps /\ w_now p = u /\ w_eos p = true /\ ew <= u64 (w_wall p)) /\
  (last_stats_ms w <= last_pkts_time w + 20000 ->
   Forall (fun p => w_pkts p = last_pkts_seen w /\ w_eos p = false) ps ->
   Exists (fun p => last_pkts_time w + 25000 < w_now p) ps -> fst (supervise ew w ps) <> []).
Proof.
  intros Hw Hc Hn. split_and!; [|by eapply supervise_apart|apply supervise_end|].
  { apply (supervise_starved ew ps t (last_pkts_seen w) w []); [done..|]. split; [lia|constructor]. }
  intros Hl Hq Hx Hz. pose proof (supervise_quiet ew ps t w Hw Hc Hl Hq Hz) as Hf. apply Exists_exists in Hx as (p & Hp & Hlt).
  rewrite Forall_forall in Hf. specialize (Hf p Hp). cbn in Hf. lia.
Qed.

(** ** Concrete runs *)

(** Everything is there and works; three scanout buffers. *)
Definition demo_env : env :=
  mk_env true true true true true true true true 3 true true (fun _ => true) true (fun _ => true)
    true true true true true true true true true true true true.
(** No scanout. *)
Definition demo_fb : env :=
  mk_env true true true false true true true true 3 true true (fun _ => true) true (fun _ => true)
    true true true true true true true true true true true true.




(** The framebuffer is unmapped under the decode worker. *)
Lemma udp_shutdown_witness : run_udp demo_fb = None.
Proof. exact (udp_shutdown demo_fb eq_refl eq_refl eq_refl eq_refl eq_refl eq_refl). Defined.

Example udp_scanout_clean : exists s, run_udp demo_env = Some (0, s) /\ threads s = [] /\ length (alive s) = 3%nat.
Proof. vm_compute. eexists. done. Qed.

(** A pin that fails keeps those before it; the scanout is unmapped regardless. *)
Example failed_pin_stays : exists s,
  run_dash (mk_env true true true true true true true true 3 true true (fun i => bool_decide (i < 2)%nat) false (fun _ => true)
    true true true true true true true true true true true true) (Rt.mk_life [] 5) [] = Some (0, s) /\ alive s = [RPin 1; RPin 0].
Proof. vm_compute. eexists. done. Qed.

(** A reader that cannot be started again is waited for all the same. *)
Example failed_restart_faults : run_dash demo_env (Rt.mk_life [] 5) [(false, Rt.mk_life [] 5)] = None.
Proof. vm_compute. reflexivity. Qed.

Definition demo_passes : list wpass :=
  (fun k => mk_wpass (1000 + 200 * Z.of_nat k) 7 false 0) <$> seq 1 150.

(** A packet every 2 s for 30 s, then none for 30 s. *)
Definition demo_busy : list wpass :=
  ((fun k => mk_wpass (1000 + 200 * Z.of_nat k) (7 + Z.of_nat k / 10) false 0) <$> seq 1 150) ++
  ((fun k => mk_wpass (31000 + 200 * Z.of_nat k) 22 false 0) <$> seq 1 150).

Lemma reader_watchdog_witness :
  fst (supervise 0 (mk_watch 1000 7 1000) demo_passes) = [26000] /\
  fst (supervise 0 (mk_watch 1000 7 1000) demo_passes) <> [] /\
  fst (supervise 0 (mk_watch 1000 7 1000) demo_busy) = [56000] /\
  Forall (fun u => exists pre p post, demo_busy = pre ++ p :: post /\ starved u pre p)
    (fst (supervise 0 (mk_watch 1000 7 1000) demo_busy)).
Proof.
  destruct (reader_watchdog 0 (mk_watch 1000 7 1000) 1000 demo_passes) as (_ & _ & _ & H2);
    [vm_compute; intuition discriminate..|].
  destruct (reader_watchdog 0 (mk_watch 1000 7 1000) 1000 demo_busy) as (H3 & _); [vm_compute; intuition discriminate..|].
  split; [by vm_compute|]. split; [|split; [by vm_compute|exact H3]]. apply H2; [by vm_compute| |];
    apply (bool_decide_unpack _); vm_compute; exact I.
Defined.

(** The pause is cut to 32 bits: a wait of 72 minutes lasts 25 seconds. *)
Example pause_wraps : reader_pause 0 4320000000 0 0 0 0 = 25032704.
Proof. vm_compute. reflexivity. Qed.

End Life.
