(* ===== verification/Encoder.v ===== *)
(** * The encoder behind the segment server ([tools/vmc-dash-sim/main.c])

    Probing the input, the command line of the encoder, its supervision (exit,
    end of the content, stall) and the reports of new segments; the options of
    the server. The answers of [popen], [fork], [waitpid], the clock and the file
    system are arguments. *)

From S2P Require Import Prelude Text DashServe Manifest.
From stdpp Require Import strings.
From Stdlib Require Import Floats.SpecFloat.
Import Text.

#[local] Open Scope Z_scope.

Module Enc.
Import Serve.

(** ** Options ([main]) *)

Record options := mk_options {
  o_input : option (list Z); o_port : Z; o_width : Z; o_height : Z; o_fps : Z; o_play_once : bool;
  o_log_level : Z;
}.

#[export] Instance eta_options : Eta options := fun o =>
  mk_options (o_input o) (o_port o) (o_width o) (o_height o) (o_fps o) (o_play_once o) (o_log_level o).

Definition default_options : options := mk_options None 8080 0 0 0 false 2.

(** One word of the command line and what follows it; whether the next word was
    its value. *)
Definition parse_arg (o : options) (a : list Z) (next : option (list Z)) : options * bool :=
  let plain := if decide (o_width o = 0) then o <| o_width := atoi a |>
               else if decide (o_height o = 0) then o <| o_height := atoi a |> else o in
  match next with
  | Some v =>
    if decide (a = chars "--input") then (o <| o_input := Some v |>, true) else
    if decide (a = chars "--fps") then (o <| o_fps := atoi v |>, true) else
    if decide (a = chars "--port") then (o <| o_port := u16 (atoi v) |>, true) else
    if decide (a = chars "--play-once") then (o <| o_play_once := true |>, false) else
    if decide (a = chars "--log-level") then
      let l := atoi v in
      (o <| o_log_level := if decide (l < 0) then 0 else if decide (l > 4) then 4 else l |>, true)
    else (plain, false)
  | None =>
    if decide (a = chars "--play-once") then (o <| o_play_once := true |>, false) else (plain, false)
  end.

(** The words after the program's name. *)
Fixpoint parse_args (o : options) (args : list (list Z)) : options :=
  match args with
  | [] => o
  | [a] => fst (parse_arg o a None)
  | a :: (v :: rest) as tl =>
    let '(o, used) := parse_arg o a (Some v) in
    if used : bool then parse_args o rest else parse_args o tl
  end.

(** ** The input ([probe_media]) *)

Record media_info := mk_media { fps : Z; duration_s : Z; sample_rate : Z }.

(** ["%d/%d"] *)
Definition scan_ratio (l : list Z) : option (Z * Z) :=
  match scan_int l with
  | Some (n, c :: r) => if decide (c = 47) then match scan_int r with Some (d, _) => Some (n, d) | None => None end
                        else None
  | _ => None
  end.

(** [(int)(atof(line) + 0.5)] *)
Definition round_seconds (line : list Z) : Z :=
  let d := match Mpd.scan_double line with Some (d, _) => d | None => S754_zero false end in
  Mpd.d_trunc (SFadd 53 1024 d (Mpd.d_ratio 1 2)).

(** [video]: the first two lines of the first command, [None] when [popen] fails;
    [audio]: the first line of the second. *)
Definition probe_media (video : option (option (list Z) * option (list Z))) (audio : option (option (list Z)))
    : Z * media_info :=
  let '(f, d) := match video with
                 | None => (0, 0)
                 | Some (l1, l2) =>
                   (match l1 with
                    | Some l => match scan_ratio l with
                                | Some (n, d) => if decide (d > 0) then Z.quot n d else 0
                                | None => 0
                                end
                    | None => 0
                    end,
                    match l2 with Some l => round_seconds l | None => 0 end)
                 end in
  let sr := match audio with Some (Some l) => atoi l | _ => 0 end in
  (if decide (f > 0 /\ d > 0) then 0 else -1, mk_media f d sr).

(** ** The command line ([spawn_ffmpeg]) *)

Definition words (l : list String.string) : list (list Z) := map chars l.

(** The input part: the arguments, the frame rate in use, whether there is
    audio. [probe]: what [probe_media] returns for the input. *)
Definition input_args (input : option (list Z)) (probe : Z * media_info) (width height rate : Z)
    (play_once : bool) : list (list Z) * Z * bool :=
  match input with
  | None =>
    let size := stored 64 (chars "testsrc2=size=" ++ int_print width ++ chars "x" ++ int_print height
                           ++ chars ":rate=" ++ int_print rate) in
    (words ["-re"; "-f"; "lavfi"; "-i"] ++ [size], rate, false)
  | Some path =>
    let '(st, mi) := probe in
    let loop := chars (if play_once then "1" else "0") in
    if decide (st = 0 /\ fps mi > 0) then
      let vf := stored 512 (chars "movie=" ++ path ++ chars ":loop=" ++ loop ++ chars ",setpts=N/("
                            ++ int_print (fps mi) ++ chars "*TB)") in
      let v := words ["-re"; "-f"; "lavfi"; "-i"] ++ [vf] in
      if decide (sample_rate mi > 0 /\ duration_s mi > 0) then
        let af := stored 512 (chars "amovie=" ++ path ++ chars ":loop=" ++ loop ++ chars ",asetpts=N/"
                              ++ int_print (sample_rate mi) ++ chars "/TB") in
        (v ++ words ["-re"; "-f"; "lavfi"; "-i"] ++ [af], fps mi, true)
      else (v, fps mi, false)
    else (words ["-re"; "-stream_loop"; "-1"; "-i"] ++ [path], rate, false)
  end.

(** The whole command line. *)
Definition encoder_args (input : option (list Z)) (probe : Z * media_info) (width height rate : Z)
    (play_once : bool) (outdir : list Z) : list (list Z) :=
  let width := if decide (width <= 0) then 1280 else width in
  let height := if decide (height <= 0) then 720 else height in
  let rate := if decide (rate <= 0) then (match input with Some _ => 24 | None => 30 end) else rate in
  let bitrate := width * height * 3 in
  let bitrate := if decide (bitrate < 5000000) then 5000000 else bitrate in
  let manifest := stored 320 (outdir ++ chars "/live.mpd") in
  let '(ins, rate, has_audio) := input_args input probe width height rate play_once in
  let gv := stored 16 (int_print rate) in
  words ["ffmpeg"; "-y"; "-hide_banner"; "-loglevel"; "error"] ++ ins ++ words ["-map"; "0:v:0"]
  ++ (if has_audio then words ["-map"; "1:a:0"; "-c:a"; "aac"; "-b:a"; "128000"] else [])
  ++ words ["-c:v"; "h264_nvenc"; "-preset"; "p1"; "-tune"; "ll"; "-rc"; "vbr"; "-b:v"]
  ++ [stored 32 (int_print bitrate); chars "-maxrate"; stored 32 (int_print (Z.quot (bitrate * 12) 10));
      chars "-bufsize"; stored 32 (int_print (Z.quot bitrate 2)); chars "-g"; gv; chars "-keyint_min"; gv]
  ++ words ["-sc_threshold"; "0"; "-f"; "dash"; "-streaming"; "1"; "-use_timeline"; "1"; "-use_template"; "1";
            "-seg_duration"; "1"; "-window_size"; "100"; "-extra_window_size"; "50"; "-index_correction"; "1";
            "-ldash"; "1"] ++ [manifest].

(** ** Supervision *)

(** The globals [g_ffmpeg_pid] and [g_eos_signalled]. *)
Record supervisor := mk_sup { g_ffmpeg_pid : Z; g_eos_signalled : bool }.

(** What the server does to processes and files: [SIGTERM], waiting for a process
    to end, starting one ([None]: [fork] fails), removing the segments, rewriting
    the manifest, reporting the end of the content with the last segment. *)
Inductive act :=
| A_kill (pid : Z) | A_wait (pid : Z) | A_spawn (pid : option Z) | A_clear | A_static | A_eos (last_seg : Z).

Definition spawn_ffmpeg (s : supervisor) (fork : option Z) : supervisor * list act :=
  match fork with
  | Some pid => (mk_sup pid (g_eos_signalled s), [A_spawn (Some pid)])
  | None => (s, [A_spawn None])
  end.

(** [opened]: the output directory can be read. *)
Definition ffmpeg_respawn (s : supervisor) (opened : bool) (fork : option Z) : supervisor * list act :=
  let '(s, stop) := if decide (g_ffmpeg_pid s > 0)
                    then (mk_sup (-1) (g_eos_signalled s), [A_kill (g_ffmpeg_pid s); A_wait (g_ffmpeg_pid s)])
                    else (s, []) in
  let '(s, start) := spawn_ffmpeg s fork in
  (s, stop ++ (if opened then [A_clear] else []) ++ start).

(** The newest modification time of the segments, in ms; [None]: the directory
    cannot be opened; an entry is a name and its time, [None] if [stat] fails. *)
Definition newest_chunk_ms (entries : option (list (list Z * option (Z * Z)))) : Z :=
  match entries with
  | None => 0
  | Some es =>
    fold_left (fun best e => match starts_with (chars "chunk-stream") (fst e), snd e with
                             | true, Some (sec, nsec) =>
                               let m := u64 (u64 (u64 sec * 1000) + u64 (Z.quot nsec 1000000)) in
                               if decide (m > best) then m else best
                             | _, _ => best
                             end) es 0
  end.

(** What a round of the watchdog finds: [exited]: [waitpid] returns the process,
    and whether it ended by itself with status 0. *)
Record round := mk_round {
  exited : option bool; now_ms : Z; last_ms : Z; newest0 : Z; opened : bool; fork : option Z;
}.

Definition watchdog (play_once : bool) (s : supervisor) (r : round) : supervisor * list act :=
  if decide (g_ffmpeg_pid s > 0) then
    match exited r with
    | Some clean =>
      if play_once && clean && negb (g_eos_signalled s)
      then (mk_sup (-1) true, [A_static; A_eos (newest0 r)])
      else ffmpeg_respawn s (opened r) (fork r)
    | None =>
      if negb (g_eos_signalled s) &&
         bool_decide (last_ms r > 0 /\ now_ms r > last_ms r /\ u64 (now_ms r - last_ms r) > 10000)
      then ffmpeg_respawn s (opened r) (fork r)
      else (s, [])
    end
  else (s, []).

(** The end of [main]. *)
Definition shutdown (s : supervisor) : list act :=
  if decide (g_ffmpeg_pid s > 0) then [A_kill (g_ffmpeg_pid s); A_wait (g_ffmpeg_pid s)] else [].

(** ** The reports *)

(** The statics of the loop. *)
Record reports := mk_reports { last_avail : Z; last_sn : Z; last_seg0 : Z; last_seg1 : Z }.

Definition reports_init : reports := mk_reports 0 (-1) (-1) (-1).

Inductive event :=
| E_mpd_update (start_number avail_start_us : Z)
| E_segment (seg : Z) (audio : bool) (bytes : Z).

Definition INT_MAX : Z := 2147483647.

(** The loop over the [int] [seg]; [None]: its increment overflows. The fuel is the
    number of segments. *)
Fixpoint publish_loop (fuel : nat) (seg newest : Z) (audio : bool) (size : Z -> option Z) : option (list event) :=
  if decide (seg <= newest) then
    match fuel with
    | O => None
    | S fuel =>
      let e := E_segment seg audio (default 0 (size seg)) in
      if decide (seg + 1 > INT_MAX) then None else
      es ← publish_loop fuel (seg + 1) newest audio size; Some (e :: es)
    end
  else Some [].

(** The segments of a stream from the last one reported on; [size]: the size of a
    segment's file, [None] if [stat] fails. *)
Definition publish (last newest : Z) (audio : bool) (size : Z -> option Z) : option (Z * list event) :=
  if decide (newest > last) then
    es ← publish_loop (Z.to_nat (newest - last)) (last + 1) newest audio size; Some (newest, es)
  else Some (last, []).

(** What the loop finds: the manifest ([None]: it does not exist; inside, what can
    be read of it), the newest segments and the sizes. *)
Record view := mk_view {
  mpd : option (option (list Z)); ns0 : Z; ns1 : Z; size0 : Z -> option Z; size1 : Z -> option Z;
}.

Definition report (st : reports) (v : view) : option (reports * list event) :=
  let '(av, sn, em) :=
    match mpd v with
    | None => (last_avail st, last_sn st, [])
    | Some file =>
      let a := Mpd.parse_avail_start_us file in
      let av := if decide (a > 0) then a else last_avail st in
      let sn := Mpd.read_start_number file in
      if decide (sn <> last_sn st \/ last_sn st = -1) then (av, sn, [E_mpd_update sn av])
      else (av, last_sn st, [])
    end in
  '(l0, e0) ← publish (last_seg0 st) (ns0 v) false (size0 v);
  '(l1, e1) ← publish (last_seg1 st) (ns1 v) true (size1 v);
  Some (mk_reports av sn l0 l1, em ++ e0 ++ e1).

(** ** The command line fits its array *)

(** [argv] has 128 places, the last one used is NULL. *)
Lemma args_fit input probe width height rate play_once outdir :
  (length (encoder_args input probe width height rate play_once outdir) <= 70)%nat.
Proof.
  unfold encoder_args. cbv zeta.
  set (r := if decide (rate <= 0) then _ else rate). set (w := if decide (width <= 0) then _ else width).
  set (h := if decide (height <= 0) then _ else height).
  assert (Hin : (length (fst (fst (input_args input probe w h r play_once))) <= 10)%nat).
  { unfold input_args. destruct input as [path|]; [|cbn; lia]. destruct probe as [st mi].
    repeat case_decide; cbn; lia. }
  destruct (input_args input probe w h r play_once) as [[ins rt] au]. cbn [fst] in Hin.
  rewrite !length_app. destruct au; cbn [length words map]; lia.
Qed.

(** ** One encoder, restarted when it must be *)

(** What supervision is meant to do. [stalled]: a segment was written, and the
    newest is more than ten seconds old. *)
Inductive phase := Running | Ended | Gone.
Inductive verdict := Keep | Finish | Replace.

Definition stalled (r : round) : Prop := 0 < last_ms r /\ last_ms r + 10000 < now_ms r.

#[export] Instance stalled_dec r : Decision (stalled r).
Proof. unfold stalled. apply _. Defined.

Definition judge (play_once : bool) (p : phase) (r : round) : verdict :=
  match p with
  | Running => match exited r with
               | Some clean => if play_once && clean then Finish else Replace
               | None => if decide (stalled r) then Replace else Keep
               end
  | Ended | Gone => Keep
  end.

Definition next_phase (p : phase) (r : round) (v : verdict) : phase :=
  match v with
  | Keep => p
  | Finish => Ended
  | Replace => match fork r with Some _ => Running | None => Gone end
  end.

Definition phase_of (s : supervisor) : phase :=
  if decide (g_ffmpeg_pid s > 0) then Running else if g_eos_signalled s then Ended else Gone.

(** The children of the server, and the signals it sent to processes that were
    not (or no longer) its children. *)
Record table := mk_table { children : list Z; strays : list Z }.

Definition exec (t : table) (a : act) : table :=
  match a with
  | A_kill p => if decide (p ∈ children t) then t else mk_table (children t) (strays t ++ [p])
  | A_wait p => mk_table (filter (fun q => q <> p) (children t)) (strays t)
  | A_spawn (Some p) => mk_table (children t ++ [p]) (strays t)
  | _ => t
  end.

(** A round: an encoder that ended has been collected by [waitpid]. *)
Definition sup_round (play_once : bool) (x : supervisor * table) (r : round) : supervisor * table * list act :=
  let '(s, t) := x in
  let t := match exited r with
           | Some _ => if decide (g_ffmpeg_pid s > 0) then exec t (A_wait (g_ffmpeg_pid s)) else t
           | None => t
           end in
  let '(s, acts) := watchdog play_once s r in (s, fold_left exec acts t, acts).

Fixpoint sup_run (play_once : bool) (x : supervisor * table) (rs : list round)
    : supervisor * table * list (list act) :=
  match rs with
  | [] => (x, [])
  | r :: rs => let '(x, acts) := sup_round play_once x r in
               let '(x, more) := sup_run play_once x rs in (x, acts :: more)
  end.

Definition round_ok (r : round) : Prop :=
  0 <= now_ms r < 2 ^ 64 /\ 0 <= last_ms r /\ (forall p, fork r = Some p -> 0 < p).

(** The acts a verdict stands for. *)
Definition acts_of (pid : Z) (r : round) (v : verdict) : list act :=
  match v with
  | Keep => []
  | Finish => [A_static; A_eos (newest0 r)]
  | Replace => [A_kill pid; A_wait pid] ++ (if opened r then [A_clear] else []) ++ [A_spawn (fork r)]
  end.

(** The server has one child, the process it remembers, or none; at the end of
    the content it remembers none. *)
Definition sup_ok (x : supervisor * table) : Prop :=
  children (snd x) = (if decide (g_ffmpeg_pid (fst x) > 0) then [g_ffmpeg_pid (fst x)] else []) /\
  (g_eos_signalled (fst x) = true -> g_ffmpeg_pid (fst x) <= 0).

Definition next_sup (s : supervisor) (r : round) (v : verdict) : supervisor :=
  match v with
  | Keep => s
  | Finish => mk_sup (-1) true
  | Replace => mk_sup (default (-1) (fork r)) (g_eos_signalled s)
  end.

Lemma watchdog_judges po s r : round_ok r -> (g_eos_signalled s = true -> g_ffmpeg_pid s <= 0) ->
  let v := judge po (phase_of s) r in
  watchdog po s r = (next_sup s r v, acts_of (g_ffmpeg_pid s) r v).
Proof.
  intros (Hn & Hl & _) Heos. unfold watchdog, judge, phase_of. destruct s as [pid eos]. cbn in Heos |- *.
  destruct (decide (pid > 0)) as [Hp|Hp]; [|by destruct eos].
  assert (eos = false) as -> by (destruct eos; [specialize (Heos eq_refl); lia|done]).
  assert (Hres : ffmpeg_respawn (mk_sup pid false) (opened r) (fork r)
                 = (next_sup (mk_sup pid false) r Replace, acts_of pid r Replace)).
  { unfold ffmpeg_respawn, spawn_ffmpeg. cbn [g_ffmpeg_pid g_eos_signalled]. rewrite decide_True by done.
    unfold next_sup, acts_of. by destruct (fork r), (opened r). }
  destruct (exited r) as [clean|].
  - rewrite andb_true_r. by destruct (po && clean).
  - cbn [negb andb]. destruct (decide (stalled r)) as [Hs|Hs]; unfold stalled in Hs.
    + rewrite bool_decide_eq_true_2 by (rewrite u64_small; lia). done.
    + rewrite bool_decide_eq_false_2; [done|]. intros (H1 & H2 & H3). rewrite u64_small in H3 by lia. lia.
Qed.

Lemma next_sup_phase s r po : round_ok r -> (g_eos_signalled s = true -> g_ffmpeg_pid s <= 0) ->
  let v := judge po (phase_of s) r in
  phase_of (next_sup s r v) = next_phase (phase_of s) r v /\
  (g_eos_signalled (next_sup s r v) = true -> g_ffmpeg_pid (next_sup s r v) <= 0) /\
  (v <> Keep -> g_ffmpeg_pid s > 0) /\ (v = Keep -> g_ffmpeg_pid s > 0 -> exited r = None) /\
  (v = Finish -> exited r <> None).
Proof.
  intros (_ & _ & Hf) Heos v. unfold v, judge, phase_of. destruct s as [pid eos]. cbn in Heos |- *.
  destruct (decide (pid > 0)) as [Hp|Hp].
  2: { destruct eos; cbn; (split_and!; [by rewrite decide_False by lia|done|done|lia|done]). }
  assert (eos = false) as -> by (destruct eos; [specialize (Heos eq_refl); lia|done]).
  assert (Hrep : phase_of (next_sup (mk_sup pid false) r Replace) = next_phase Running r Replace).
  { unfold phase_of, next_sup, next_phase. cbn. destruct (fork r) as [q|]; cbn; [|done].
    rewrite decide_True; [done|]. specialize (Hf q eq_refl). lia. }
  unfold phase_of in Hrep. destruct (exited r) as [clean|].
  - destruct (po && clean); split_and!; done || (cbn; lia).
  - destruct (decide (stalled r)); split_and!; try done; try (cbn; lia). cbn. by rewrite decide_True.
Qed.

#[export] Instance verdict_eq_dec : EqDecision verdict.
Proof. solve_decision. Defined.

(** A process that is signalled after it was collected: its number may belong to
    another process by then. *)
Definition too_late (x : round * verdict) : Prop := snd x = Replace /\ exited (fst x) <> None.

#[export] Instance too_late_dec x : Decision (too_late x).
Proof. unfold too_late. apply _. Defined.

Lemma exec_replace pid r t : children t = [pid] \/ children t = [] ->
  fold_left exec (acts_of pid r Replace) t
  = mk_table (option_list (fork r)) (strays t ++ (if decide (children t = [pid]) then [] else [pid])).
Proof.
  destruct t as [ch st]. cbn [children strays]. intros Hch.
  assert (Hkill : fold_left exec [A_kill pid; A_wait pid] (mk_table ch st)
                  = mk_table [] (st ++ (if decide (ch = [pid]) then [] else [pid]))).
  { cbn [fold_left exec children]. destruct Hch as [->| ->].
    - rewrite decide_True by (by apply list_elem_of_singleton). cbn [children strays].
      rewrite decide_True, app_nil_r by done. f_equal. rewrite filter_cons. by rewrite decide_False by tauto.
    - rewrite decide_False by (apply not_elem_of_nil). cbn [children strays]. by rewrite decide_False by done. }
  unfold acts_of. rewrite fold_left_app, Hkill.
  destruct (opened r), (fork r) as [q|]; reflexivity.
Qed.

Lemma sup_round_ok po x r : sup_ok x -> round_ok r ->
  let v := judge po (phase_of (fst x)) r in
  let '(x', acts) := sup_round po x r in
  sup_ok x' /\ acts = acts_of (g_ffmpeg_pid (fst x)) r v /\ phase_of (fst x') = next_phase (phase_of (fst x)) r v /\
  zlen (strays (snd x')) = zlen (strays (snd x)) + (if decide (too_late (r, v)) then 1 else 0).
Proof.
  intros [Hc He] Hr. destruct x as [s t]. cbn [fst snd] in *. unfold sup_round.
  rewrite (watchdog_judges po s r Hr He). destruct (next_sup_phase s r po Hr He) as (Hph & He' & Hv & Hk & Hfin).
  set (v := judge po (phase_of s) r) in *. cbv zeta in *.
  set (t1 := match exited r with Some _ => _ | None => t end).
  assert (Ht1 : children t1 = (if decide (exited r = None) then children t else []) /\ strays t1 = strays t).
  { unfold t1. rewrite Hc. destruct (exited r) as [cl|]; [rewrite (decide_False (P := Some cl = None)) by done|done].
    case_decide; [|by rewrite Hc]. cbn. rewrite Hc, filter_cons. by rewrite decide_False by tauto. }
  clearbody t1. destruct Ht1 as [Hc1 Hs1]. rewrite Hc in Hc1. cbn [fst snd].
  pose proof Hr as (_ & _ & Hf). unfold sup_ok, too_late. cbn [fst snd].
  assert (Hchild : children (fold_left exec (acts_of (g_ffmpeg_pid s) r v) t1)
                   = (if decide (g_ffmpeg_pid (next_sup s r v) > 0) then [g_ffmpeg_pid (next_sup s r v)] else []) /\
                   zlen (strays (fold_left exec (acts_of (g_ffmpeg_pid s) r v) t1))
                   = zlen (strays t) + (if decide (v = Replace /\ exited r <> None) then 1 else 0)).
  2: { destruct Hchild as [H1 H2]. split; [split; [exact H1|exact He']|]. split; [reflexivity|]. split; [exact Hph|exact H2]. }
  destruct v; cbn [next_sup].
  - rewrite (decide_False (P := _ /\ _)) by naive_solver. cbn [acts_of fold_left]. split; [|rewrite Hs1; lia]. rewrite Hc1.
    destruct (decide (g_ffmpeg_pid s > 0)) as [Hp|Hp]; [by rewrite (Hk eq_refl Hp), decide_True|by case_decide].
  - rewrite (decide_False (P := _ /\ _)) by naive_solver. cbn [acts_of fold_left exec g_ffmpeg_pid].
    rewrite decide_False by lia. split; [|rewrite Hs1; lia]. rewrite Hc1. by rewrite decide_False by auto.
  - rewrite exec_replace by (rewrite Hc1; specialize (Hv ltac:(done)); repeat case_decide; (by left) || (by right)).
    cbn [children strays]. specialize (Hv ltac:(done)). rewrite zlen_app, Hs1. split.
    + cbn [g_ffmpeg_pid]. destruct (fork r) as [q|]; [|done]. specialize (Hf q eq_refl). cbn. by rewrite decide_True by lia.
    + rewrite Hc1, (decide_True (P := g_ffmpeg_pid s > 0)) by lia.
      destruct (decide (exited r = None)) as [Hx|Hx].
      * rewrite (decide_True (P := _ = _)), decide_False by naive_solver. done.
      * rewrite (decide_False (P := _ = _)), decide_True by naive_solver. done.
Qed.

(** The verdicts of a whole run, by the specification alone. *)
Fixpoint verdicts (po : bool) (p : phase) (rs : list round) : list verdict :=
  match rs with
  | [] => []
  | r :: rs => let v := judge po p r in v :: verdicts po (next_phase p r v) rs
  end.

Lemma nothing_after po rs p : p <> Running -> Forall (fun v => v = Keep) (verdicts po p rs).
Proof. intros Hp. induction rs as [|r rs IH]; [constructor|]. destruct p; [done|by constructor..]. Qed.

(** C18. The encoder is supervised as specified. Over any rounds of the server's loop:
    each round does what the specification asks - nothing, the rewrite of the
    manifest with its report, or the replacement of the encoder (end it, collect
    it, clear the directory, start another) - an encoder is replaced exactly when
    it ended before the content did or its newest segment is more than ten
    seconds old; never do two encoders run, and the one that runs is the one the
    server knows; the end of the content is announced once, and nothing is done
    after it. But an encoder that ended is signalled all the same, after its
    number was given back. *)
Theorem encoder_supervised po rs pid0 : 0 < pid0 -> Forall round_ok rs ->
  let vs := verdicts po Running rs in
  let '(s, t, log) := sup_run po (mk_sup pid0 false, mk_table [pid0] []) rs in
  Forall2 (fun x acts => exists pid, acts = acts_of pid (fst x) (snd x)) (zip rs vs) log /\
  children t = (if decide (g_ffmpeg_pid s > 0) then [g_ffmpeg_pid s] else []) /\
  (forall vs1 vs2, vs = vs1 ++ Finish :: vs2 -> Forall (fun v => v = Keep) vs2) /\
  zlen (strays t) = zlen (filter too_late (zip rs vs)).
Proof.
  intros Hp Hrs vs.
  assert (Hgen : forall rs x, Forall round_ok rs -> sup_ok x ->
    let vs := verdicts po (phase_of (fst x)) rs in
    let '(x', log) := sup_run po x rs in
    Forall2 (fun x acts => exists pid, acts = acts_of pid (fst x) (snd x)) (zip rs vs) log /\ sup_ok x' /\
    zlen (strays (snd x')) = zlen (strays (snd x)) + zlen (filter too_late (zip rs vs))).
  { clear. induction rs as [|r rs IH]; intros x Hrs Hx; cbn [sup_run verdicts].
    { split; [by apply Forall2_nil|]. split; [exact Hx|]. symmetry. apply Z.add_0_r. }
    apply Forall_cons in Hrs as [Hr Hrs]. pose proof (sup_round_ok po x r Hx Hr) as H. cbv zeta in H.
    destruct (sup_round po x r) as [x1 acts]. destruct H as (Hx1 & Ha & Hph & Hst).
    specialize (IH x1 Hrs Hx1). rewrite Hph in IH. destruct (sup_run po x1 rs) as [x2 log].
    destruct IH as (IH1 & IH2 & IH3). cbn [zip zip_with]. split; [|split; [exact IH2|]].
    - constructor; [by eexists|exact IH1].
    - rewrite IH3, Hst. rewrite filter_cons. case_decide; rewrite ?zlen_cons; lia. }
  assert (Hinit : sup_ok (mk_sup pid0 false, mk_table [pid0] [])).
  { split; cbn; [by rewrite decide_True by lia|done]. }
  specialize (Hgen rs _ Hrs Hinit). unfold phase_of in Hgen. cbn [fst snd g_ffmpeg_pid] in Hgen.
  rewrite decide_True in Hgen by lia. fold vs in Hgen. cbv zeta in Hgen.
  destruct (sup_run po _ rs) as [[s t] log]. destruct Hgen as (H1 & [H2 _] & H3). cbn [fst snd strays] in *.
  split; [exact H1|]. split; [exact H2|]. split; [|exact H3].
  intros vs1 vs2 E. clear -E. unfold vs in E. revert E. generalize Running.
  clear vs. revert vs1. induction rs as [|r rs IH]; intros vs1 p E; [by destruct vs1|].
  cbn [verdicts] in E. destruct vs1 as [|v vs1]; cbn [app] in E; injection E as E1 E2.
  - rewrite E1 in E2. rewrite <- E2. by apply nothing_after.
  - exact (IH _ _ E2).
Qed.

Lemma encoder_supervised_witness :
  let play := mk_round None 20000 19500 7 true None in
  let crash := mk_round (Some false) 30000 29000 8 true (Some 41) in
  let hang := mk_round None 50000 39999 9 true (Some 42) in
  let done_ := mk_round (Some true) 60000 59000 9 true None in
  let rs := [play; crash; hang; done_; play] in
  verdicts true Running rs = [Keep; Replace; Replace; Finish; Keep] /\
  let '(s, t, log) := sup_run true (mk_sup 40 false, mk_table [40] []) rs in
  children t = [] /\ strays t = [40] /\
  Forall2 (fun x acts => exists pid, acts = acts_of pid (fst x) (snd x)) (zip rs (verdicts true Running rs)) log.
Proof.
  intros play crash hang done_ rs. split; [vm_compute; reflexivity|].
  pose proof (encoder_supervised true rs 40 ltac:(lia)) as H.
  assert (Hok : Forall round_ok rs).
  { repeat constructor; try (vm_compute; discriminate); intros p Hp; cbn in Hp; by simplify_eq. }
  specialize (H Hok). cbv zeta in H.
  destruct (sup_run true (mk_sup 40 false, mk_table [40] []) rs) as [[s t] log] eqn:E.
  destruct H as (H1 & _). vm_compute in E. injection E as <- <- <-. split_and!; [reflexivity|reflexivity|exact H1].
Defined.

(** An encoder that hangs before its first segment is never replaced, nor is one
    whose successor could not be started. *)
Example hang_before_first_segment now s :
  s = mk_sup 40 false -> watchdog false s (mk_round None now 0 (-1) true (Some 41)) = (s, []).
Proof. intros ->. unfold watchdog. cbn. by rewrite bool_decide_eq_false_2 by lia. Qed.

Example failed_fork_is_final r :
  fst (watchdog false (mk_sup 40 false) (mk_round (Some false) 0 0 0 true None)) = mk_sup (-1) false /\
  watchdog false (mk_sup (-1) false) r = (mk_sup (-1) false, []).
Proof. done. Qed.

(** ** Every segment is reported once *)

Fixpoint report_run (st : reports) (vs : list view) : option (reports * list event) :=
  match vs with
  | [] => Some (st, [])
  | v :: vs => '(st, es) ← report st v; '(st, more) ← report_run st vs; Some (st, es ++ more)
  end.

Definition seg_of (audio : bool) (e : event) : option Z :=
  match e with E_segment n a _ => if Bool.eqb a audio then Some n else None | _ => None end.

Definition segs (audio : bool) (es : list event) : list Z := omap (seg_of audio) es.

Lemma publish_loop_spec newest audio size : newest < INT_MAX -> forall fuel seg, fuel = Z.to_nat (newest - seg + 1) ->
  publish_loop fuel seg newest audio size
  = Some ((fun n => E_segment n audio (default 0 (size n))) <$> seqZ seg (newest - seg + 1)).
Proof.
  intros Hn. induction fuel as [|fuel IH]; intros seg Hf; cbn [publish_loop].
  { rewrite decide_False, seqZ_nil by lia. done. }
  rewrite decide_True, decide_False by lia. rewrite IH by lia. rewrite (seqZ_cons seg) by lia. cbn. do 3 f_equal.
  f_equal; lia.
Qed.

Lemma publish_loop_overflow newest audio size : INT_MAX <= newest -> forall fuel seg, seg <= INT_MAX ->
  publish_loop fuel seg newest audio size = None.
Proof.
  intros Hn. induction fuel as [|fuel IH]; intros seg Hs; cbn [publish_loop]; rewrite decide_True by lia; [done|].
  case_decide; [done|]. by rewrite IH by lia.
Qed.

Lemma publish_spec last newest audio size : last < INT_MAX ->
  publish last newest audio size =
  if decide (newest < INT_MAX) then
    Some (Z.max last newest, (fun n => E_segment n audio (default 0 (size n))) <$> seqZ (last + 1) (Z.max last newest - last))
  else None.
Proof.
  intros Hl. unfold publish. destruct (decide (newest < INT_MAX)) as [Hn|Hn].
  - case_decide; [|rewrite Z.max_l by lia; by rewrite Z.sub_diag].
    rewrite publish_loop_spec by lia. cbn [mbind option_bind]. rewrite Z.max_r by lia. do 4 f_equal. lia.
  - rewrite decide_True by lia. by rewrite publish_loop_overflow by lia.
Qed.

Lemma segs_app a es fs : segs a (es ++ fs) = segs a es ++ segs a fs.
Proof. apply omap_app. Qed.

Lemma segs_published a b f l : segs a ((fun n => E_segment n b (f n)) <$> l) = if Bool.eqb b a then l else [].
Proof.
  unfold segs. induction l as [|x l IH]; [by destruct (Bool.eqb b a)|]. cbn. rewrite IH. by destruct (Bool.eqb b a).
Qed.

(** The numbers a view may have. *)
Definition numbered (v : view) : Prop := ns0 v < INT_MAX /\ ns1 v < INT_MAX.

Lemma report_spec st v : last_seg0 st < INT_MAX -> last_seg1 st < INT_MAX ->
  match report st v with
  | None => ~ numbered v
  | Some (st', es) =>
  numbered v /\ last_seg0 st' = Z.max (last_seg0 st) (ns0 v) /\ last_seg1 st' = Z.max (last_seg1 st) (ns1 v) /\
  segs false es = seqZ (last_seg0 st + 1) (Z.max (last_seg0 st) (ns0 v) - last_seg0 st) /\
  segs true es = seqZ (last_seg1 st + 1) (Z.max (last_seg1 st) (ns1 v) - last_seg1 st)
  end.
Proof.
  intros H0 H1. unfold report, numbered. destruct (match mpd v with None => _ | Some file => _ end) as [[av sn] em] eqn:Em.
  assert (Hem : forall a, segs a em = []).
  { intros a. revert Em. destruct (mpd v) as [file|]; [|by intros [= _ _ <-]]. case_decide; by intros [= _ _ <-]. }
  rewrite !publish_spec by done. clear Em. destruct (decide (ns0 v < INT_MAX)); [|cbn; lia]. cbn [mbind option_bind].
  destruct (decide (ns1 v < INT_MAX)); [|cbn; lia].
  cbn [mbind option_bind last_seg0 last_seg1]. rewrite !segs_app, !Hem, !segs_published. cbn [Bool.eqb app].
  by rewrite app_nil_r.
Qed.

Lemma report_run_spec vs : forall st, -1 <= last_seg0 st < INT_MAX -> -1 <= last_seg1 st < INT_MAX ->
  match report_run st vs with
  | None => ~ Forall numbered vs
  | Some (_, es) => Forall numbered vs /\
    seqZ 0 (1 + last_seg0 st) ++ segs false es = seqZ 0 (1 + fold_left Z.max (ns0 <$> vs) (last_seg0 st)) /\
    seqZ 0 (1 + last_seg1 st) ++ segs true es = seqZ 0 (1 + fold_left Z.max (ns1 <$> vs) (last_seg1 st))
  end.
Proof.
  induction vs as [|v vs IH]; intros st H0 H1; cbn [report_run]; [by rewrite !app_nil_r|].
  pose proof (report_spec st v ltac:(lia) ltac:(lia)) as Hs. destruct (report st v) as [[st1 e1]|]; cbn [mbind option_bind];
    [|by intros Hn%Forall_inv].
  destruct Hs as (Hv & E0 & E1 & S0 & S1). pose proof Hv as [Hv0 Hv1].
  specialize (IH st1 ltac:(lia) ltac:(lia)). destruct (report_run st1 vs) as [[st2 e2]|]; cbn [mbind option_bind];
    [|by intros [_ Hn]%Forall_cons]. destruct IH as (IHn & IH). split; [by constructor|].
  rewrite !segs_app, S0, S1, !app_assoc. cbn [fmap list_fmap fold_left]. rewrite <- E0, <- E1.
  rewrite (Z.add_comm (last_seg0 st) 1), (Z.add_comm (last_seg1 st) 1).
  rewrite <- (Z.add_0_l (1 + last_seg0 st)) at 2. rewrite <- (Z.add_0_l (1 + last_seg1 st)) at 2.
  rewrite <- !seqZ_app by lia.
  replace (1 + last_seg0 st + (last_seg0 st1 - last_seg0 st)) with (1 + last_seg0 st1) by lia.
  replace (1 + last_seg1 st + (last_seg1 st1 - last_seg1 st)) with (1 + last_seg1 st1) by lia. exact IH.
Qed.

(** C40. Every segment is reported, once and in order. Whatever numbers the server
    finds as the newest ones while it runs - also when they fall back because the
    encoder was replaced - the segments reported of each stream are 0, 1, 2, ...
    up to the largest number ever found, each once. So the segments of a new
    encoder are not reported until their numbers exceed those of the one before;
    and number 0 is, though the first segment is number 1. The loop's counter
    overflows exactly when a number found is the largest [int]. *)
Theorem segments_reported_once vs :
  match report_run reports_init vs with
  | None => ~ Forall numbered vs
  | Some (_, es) => Forall numbered vs /\
    segs false es = seqZ 0 (1 + fold_left Z.max (ns0 <$> vs) (-1)) /\
    segs true es = seqZ 0 (1 + fold_left Z.max (ns1 <$> vs) (-1))
  end.
Proof. exact (report_run_spec vs reports_init ltac:(by vm_compute) ltac:(by vm_compute)). Qed.

(** With [--play-once] and a file whose rate the probe cannot tell, the encoder is
    told to play it for ever. *)
Example unprobed_plays_for_ever :
  chars "-stream_loop" ∈ encoder_args (Some (chars "a.ts")) (fst (probe_media None None), mk_media 0 0 0)
                           0 0 0 true (chars "/tmp/o").
Proof. apply (bool_decide_unpack _). vm_compute. exact I. Qed.

(** A long path cuts the filter short. *)
Example long_path_loses_rate :
  let path := replicate 600 97 in
  stored 512 (chars "movie=" ++ path ++ chars ":loop=0") = chars "movie=" ++ replicate 505 97.
Proof. vm_compute. reflexivity. Qed.

End Enc.
